(** * DrpLib allocators: a shallow embedding and its verified properties

    The development follows [src/DrpLib/Allocators]: the arena allocator
    ([arena_allocator.h]), the recording allocator ([recording_allocator.h]),
    the testing allocator ([testing_allocator.h]) and the dispatch over the
    tagged [Allocator] handle ([allocator.c]).

    Conventions of the embedding.
    - A [size_t] is a [Z] in [0, 2^64); every arithmetic operation of the
      source on a [size_t] is followed by [wrap].
    - A pointer is a flat 64-bit address, a [Z]; [NULL] is [0].
    - The process heap is a finite map from the base address of each live
      [malloc] object to its header ([objs]), and a finite map from byte
      addresses to the payload bytes that were written ([mem]).  An address
      that was never written has no entry (its content is indeterminate).
    - What the C library's [malloc], [calloc] and [realloc] return is not
      decided by the program: every operation that can call one of them takes
      the returned address [m] as an argument ([m = NULL] means the call
      failed).  An operation of the arena calls them at most once.  An
      operation of the recording allocator that records a new entry can also
      make its ledger grow, which asks the heap for each of the ledger's two
      arrays: it takes the two addresses returned for them as a pair [g].
    - [assert] is modelled as compiled in (no [NDEBUG]); a failed [assert]
      and [abort()] give [Abort].  Dereferencing [NULL] or an address that
      holds no live object of the expected type gives [Undef]. *)

From Stdlib Require Import ZArith Lia Bool List.
From Stdlib Require String Ascii.
From stdpp Require Import base option list gmap.

Local Open Scope Z_scope.

(** ** Machine integers and pointers *)

Definition SIZE_MOD : Z := 2 ^ 64.

(** Reduction of a [size_t] result modulo [2^64]. *)
Definition wrap (z : Z) : Z := z mod SIZE_MOD.

Definition INT64_MAX : Z := 2 ^ 63 - 1.
Definition INT64_MIN : Z := - 2 ^ 63.

(** A pointer is an address. *)
Abbreviation ptr := Z (only parsing).
Definition NULL : ptr := 0.

(** ** Outcomes of a call *)

Inductive outcome (A : Type) : Type :=
| Ret (a : A)      (* the call returns [a] *)
| Abort            (* [abort()] or a failed [assert]: the process is terminated *)
| Undef            (* undefined behaviour: invalid dereference, signed overflow *)
| Diverge.         (* a loop over a corrupted (cyclic) chain exhausted its bound *)

Arguments Ret {A} a.
Arguments Abort {A}.
Arguments Undef {A}.
Arguments Diverge {A}.

#[global] Instance outcome_ret : MRet outcome := fun A a => Ret a.
#[global] Instance outcome_bind : MBind outcome := fun A B f x =>
  match x with
  | Ret a => f a
  | Abort => Abort
  | Undef => Undef
  | Diverge => Diverge
  end.

(** [assert(c)] *)
Definition assert (c : bool) : outcome unit :=
  if c then Ret tt else Abort.

(** ** The process heap *)

(** [struct Arena]: the header of a block; [buff] starts right after it. *)
Record Arena : Type := mkArena {
  arena_prev : ptr;   (* prev: the previous, exhausted arena *)
  arena_used : Z      (* used *)
}.

(** [struct BigAllocation]: the header of a big allocation. *)
Record BigAllocation : Type := mkBig {
  ba_next : ptr;
  ba_prev : ptr;
  ba_size : Z
}.

(** [struct BigListNode], the sentinel inside [ArenaAllocator]. *)
Record BigListNode : Type := mkNode {
  node_next : ptr;
  node_prev : ptr
}.

Inductive object : Type :=
| ORaw (n : Z)                (* [n] bytes from malloc, no header written yet *)
| OArena (a : Arena)          (* a block: sizeof(Arena) bytes *)
| OBig (b : BigAllocation).   (* a big allocation: header and payload *)

Record Heap : Type := mkHeap {
  objs : gmap Z object;
  mem : gmap Z Byte.byte
}.

Definition sizeof_BigAllocation : Z := 64.   (* 2 pointers, size_t, uintptr_t pad[5] *)
Definition offsetof_buff : Z := 16.          (* sizeof(void* ) + sizeof(size_t) *)

(** [malloc(n)] returning [m]. *)
Definition heap_malloc (h : Heap) (n : Z) (m : ptr) : Heap :=
  if m =? NULL then h else mkHeap (<[m := ORaw n]> (objs h)) (mem h).

(** [memset(p, 0, n)] on the payload bytes. *)
Definition memset0 (bytes : gmap Z Byte.byte) (p : ptr) (n : Z) : gmap Z Byte.byte :=
  foldr (fun i acc => <[p + i := Byte.x00]> acc) bytes (seqZ 0 n).

(** [memcpy(dst, src, n)] on the payload bytes; an indeterminate source byte
    makes the destination byte indeterminate. *)
Definition memcpy (bytes : gmap Z Byte.byte) (dst src : ptr) (n : Z) : gmap Z Byte.byte :=
  foldr (fun i acc => partial_alter (fun _ => bytes !! (src + i)) (dst + i) acc)
        bytes (seqZ 0 n).

(** [calloc(1, n)] returning [m]. *)
Definition heap_calloc (h : Heap) (n : Z) (m : ptr) : Heap :=
  if m =? NULL then h
  else mkHeap (<[m := ORaw n]> (objs h)) (memset0 (mem h) m n).

(** [free(p)]: [free(NULL)] does nothing; freeing what is not live is
    undefined. *)
Definition heap_free (h : Heap) (p : ptr) : outcome Heap :=
  if p =? NULL then Ret h
  else match objs h !! p with
       | Some _ => Ret (mkHeap (delete p (objs h)) (mem h))
       | None => Undef
       end.

(** [realloc(p, n)] returning [m], where the first [keep] bytes of the old
    object are preserved ([keep] is the smaller of the old and new sizes, as
    the caller knows them).  On failure the old object stays as it is.  The
    header travels with the bytes; a raw object takes its new size.  A NULL
    answer is taken as a refusal, the old object staying live.  For [n = 0]
    the C standard leaves to the implementation whether a NULL result has
    released the old object (glibc releases it); the model takes the reading
    where it has not, and what is proved of the object of a refused request
    is stated for nonzero sizes. *)
Definition heap_realloc (h : Heap) (p : ptr) (keep n : Z) (m : ptr) : outcome Heap :=
  if m =? NULL then Ret h
  else if p =? NULL then Ret (heap_malloc h n m)
  else match objs h !! p with
       | None => Undef
       | Some o =>
           let o' := match o with ORaw _ => ORaw n | _ => o end in
           Ret (mkHeap (<[m := o']> (delete p (objs h)))
                       (if m =? p then mem h else memcpy (mem h) m p keep))
       end.

Definition load_arena (h : Heap) (p : ptr) : outcome Arena :=
  match objs h !! p with
  | Some (OArena a) => Ret a
  | _ => Undef
  end.

Definition load_big (h : Heap) (p : ptr) : outcome BigAllocation :=
  match objs h !! p with
  | Some (OBig b) => Ret b
  | _ => Undef
  end.

(** Writing a header into a live object (this is what gives malloc'd memory
    its type). *)
Definition store_obj (h : Heap) (p : ptr) (o : object) : outcome Heap :=
  if p =? NULL then Undef
  else match objs h !! p with
       | Some _ => Ret (mkHeap (<[p := o]> (objs h)) (mem h))
       | None => Undef
       end.

(** ** The arena allocator ([arena_allocator.h]) *)

(** [struct ArenaAllocator] *)
Record ArenaAllocator : Type := mkAA {
  arena : ptr;                    (* the current block, or NULL *)
  big_allocations : BigListNode   (* sentinel of the big-allocation list *)
}.

(** The memory an arena operation works on: the [ArenaAllocator] object
    (which lives at address [aa_addr]) and the process heap. *)
Record ArenaSt : Type := mkArenaSt {
  aa_addr : ptr;
  aa : ArenaAllocator;
  heap : Heap
}.

(** [&aa->big_allocations] *)
Definition sentinel (s : ArenaSt) : ptr := wrap (aa_addr s + 8).

Definition set_heap (s : ArenaSt) (h : Heap) : ArenaSt :=
  mkArenaSt (aa_addr s) (aa s) h.

Definition set_arena (s : ArenaSt) (p : ptr) : ArenaSt :=
  mkArenaSt (aa_addr s) (mkAA p (big_allocations (aa s))) (heap s).

Definition set_big_allocations (s : ArenaSt) (n : BigListNode) : ArenaSt :=
  mkArenaSt (aa_addr s) (mkAA (arena (aa s)) n) (heap s).

(** [n->next = v], for a list node [n] that is the sentinel or the header of
    a big allocation. *)
Definition store_node_next (s : ArenaSt) (n v : ptr) : outcome ArenaSt :=
  if n =? NULL then Undef
  else if n =? sentinel s then
    Ret (set_big_allocations s (mkNode v (node_prev (big_allocations (aa s)))))
  else
    b ← load_big (heap s) n;
    h ← store_obj (heap s) n (OBig (mkBig v (ba_prev b) (ba_size b)));
    Ret (set_heap s h).

(** [n->prev = v] *)
Definition store_node_prev (s : ArenaSt) (n v : ptr) : outcome ArenaSt :=
  if n =? NULL then Undef
  else if n =? sentinel s then
    Ret (set_big_allocations s (mkNode (node_next (big_allocations (aa s))) v))
  else
    b ← load_big (heap s) n;
    h ← store_obj (heap s) n (OBig (mkBig (ba_next b) v (ba_size b)));
    Ret (set_heap s h).

(** [Big_init(prev, ba)]: the header of [ba] is written (its [size] field
    is still indeterminate, modelled as 0), then [prev->next = &ba->node]. *)
Definition Big_init (s : ArenaSt) (prev ba : ptr) : outcome ArenaSt :=
  h ← store_obj (heap s) ba (OBig (mkBig NULL prev 0));
  store_node_next (set_heap s h) prev ba.

(** [Big_alloc(prev, size)], with [m] what the heap returns.  The source
    calls [Big_init] without testing [ba]. *)
Definition Big_alloc (s : ArenaSt) (prev : ptr) (size : Z) (m : ptr)
  : outcome (ptr * ArenaSt) :=
  let ba := m in
  let s := set_heap s (heap_malloc (heap s) (wrap (size + sizeof_BigAllocation)) m) in
  s ← Big_init s prev ba;
  b ← load_big (heap s) ba;
  h ← store_obj (heap s) ba (OBig (mkBig (ba_next b) (ba_prev b) size));
  Ret (wrap (ba + sizeof_BigAllocation), set_heap s h).

(** [Big_zalloc(prev, size)] *)
Definition Big_zalloc (s : ArenaSt) (prev : ptr) (size : Z) (m : ptr)
  : outcome (ptr * ArenaSt) :=
  let ba := m in
  let s := set_heap s (heap_calloc (heap s) (wrap (size + sizeof_BigAllocation)) m) in
  s ← Big_init s prev ba;
  b ← load_big (heap s) ba;
  h ← store_obj (heap s) ba (OBig (mkBig (ba_next b) (ba_prev b) size));
  Ret (wrap (ba + sizeof_BigAllocation), set_heap s h).

(** [Big_realloc(a, old, size)]; the [size] field of the header is not
    updated by the source. *)
Definition Big_realloc (s : ArenaSt) (a : ptr) (old size : Z) (m : ptr)
  : outcome (ptr * ArenaSt) :=
  let ba := wrap (a - sizeof_BigAllocation) in
  b ← load_big (heap s) ba;
  let prev := ba_prev b in
  let next := ba_next b in
  h ← heap_realloc (heap s) ba
        (Z.min (wrap (old + sizeof_BigAllocation)) (wrap (size + sizeof_BigAllocation)))
        (wrap (size + sizeof_BigAllocation)) m;
  let ba := m in
  if ba =? NULL then Ret (NULL, s)
  else
    let s := set_heap s h in
    s ← (if prev =? NULL then Ret s else store_node_next s prev ba);
    s ← (if next =? NULL then Ret s else store_node_prev s next ba);
    Ret (wrap (ba + sizeof_BigAllocation), s).

(** [Big_free(a, size)] *)
Definition Big_free (s : ArenaSt) (a : ptr) (size : Z) : outcome ArenaSt :=
  if a =? NULL then Ret s
  else
    let ba := wrap (a - sizeof_BigAllocation) in
    b ← load_big (heap s) ba;
    let prev := ba_prev b in
    let next := ba_next b in
    h ← heap_free (heap s) ba;
    let s := set_heap s h in
    s ← (if prev =? NULL then Ret s else store_node_next s prev next);
    s ← (if next =? NULL then Ret s else store_node_prev s next prev);
    Ret s.

Definition ARENA_PAGE_SIZE : Z := 4096.

(** [ArenaAllocator_round_size_up] *)
Definition ArenaAllocator_round_size_up (size : Z) : Z :=
  let remainder := Z.land size 7 in
  if remainder =? 0 then size else wrap (size + (8 - remainder)).

Section Arena.

(** The source fixes the block size by [enum {ARENA_SIZE=ARENA_PAGE_SIZE*128}];
    the operations are written over an arbitrary block size [arena_size] and
    instantiated at the source's constant ([ARENA_SIZE] below). *)
Variable arena_size : Z.

Definition BIG_ALLOC_THRESH : Z := arena_size / 2.

Definition ARENA_BUFFER_SIZE : Z := arena_size - 8 - 8.

(** [arena->buff] for the block at [p]. *)
Definition buff (p : ptr) : ptr := wrap (p + offsetof_buff).

(** [ArenaAllocator_alloc_arena]: 0 on success, 1 on failure. *)
Definition ArenaAllocator_alloc_arena (s : ArenaSt) (m : ptr) : outcome (Z * ArenaSt) :=
  let a := m in
  let s := set_heap s (heap_malloc (heap s) arena_size m) in
  if a =? NULL then Ret (1, s)
  else
    h ← store_obj (heap s) a (OArena (mkArena (arena (aa s)) 0));
    Ret (0, set_arena (set_heap s h) a).

(** The common tail of [ArenaAllocator_alloc] and [ArenaAllocator_zalloc]:
    [result = aa->arena->buff + aa->arena->used; aa->arena->used += size]. *)
Definition bump (s : ArenaSt) (size : Z) : outcome (ptr * ArenaSt) :=
  a ← load_arena (heap s) (arena (aa s));
  let result := wrap (buff (arena (aa s)) + arena_used a) in
  h ← store_obj (heap s) (arena (aa s))
        (OArena (mkArena (arena_prev a) (wrap (arena_used a + size))));
  Ret (result, set_heap s h).

(** The block selection shared by alloc and zalloc: [None] when a needed
    block could not be obtained (the function returns NULL). *)
Definition ensure_block (s : ArenaSt) (size : Z) (m : ptr)
  : outcome (option ArenaSt) :=
  if arena (aa s) =? NULL then
    '(r, s') ← ArenaAllocator_alloc_arena s m;
    if negb (r =? 0) then Ret None else Ret (Some s')
  else
    a ← load_arena (heap s) (arena (aa s));
    let remainder := wrap (ARENA_BUFFER_SIZE - arena_used a) in
    if size >? remainder then
      '(r, s') ← ArenaAllocator_alloc_arena s m;
      if negb (r =? 0) then Ret None else Ret (Some s')
    else Ret (Some s).

(** [ArenaAllocator_alloc] *)
Definition ArenaAllocator_alloc (s : ArenaSt) (size : Z) (m : ptr)
  : outcome (ptr * ArenaSt) :=
  let size := ArenaAllocator_round_size_up size in
  if size >? BIG_ALLOC_THRESH then Big_alloc s (sentinel s) size m
  else
    o ← ensure_block s size m;
    match o with
    | None => Ret (NULL, s)
    | Some s => bump s size
    end.

(** [ArenaAllocator_zalloc] *)
Definition ArenaAllocator_zalloc (s : ArenaSt) (size : Z) (m : ptr)
  : outcome (ptr * ArenaSt) :=
  let size := ArenaAllocator_round_size_up size in
  if size >? BIG_ALLOC_THRESH then Big_zalloc s (sentinel s) size m
  else
    o ← ensure_block s size m;
    match o with
    | None => Ret (NULL, s)
    | Some s =>
        '(result, s) ← bump s size;
        Ret (result, set_heap s (mkHeap (objs (heap s)) (memset0 (mem (heap s)) result size)))
    end.

(** [ArenaAllocator_free] *)
Definition ArenaAllocator_free (s : ArenaSt) (p : ptr) (size : Z) : outcome ArenaSt :=
  if p =? NULL then Ret s
  else if size =? 0 then Ret s
  else
    let size := ArenaAllocator_round_size_up size in
    if size >? BIG_ALLOC_THRESH then Big_free s p size
    else
      let ar := arena (aa s) in
      _ ← assert (negb (ar =? NULL));
      a ← load_arena (heap s) ar;
      if wrap (p + size) =? wrap (buff ar + arena_used a) then
        h ← store_obj (heap s) ar (OArena (mkArena (arena_prev a) (wrap (arena_used a - size))));
        Ret (set_heap s h)
      else Ret s.

(** [ArenaAllocator_realloc] *)
Definition ArenaAllocator_realloc (s : ArenaSt) (p : ptr) (old_size new_size : Z) (m : ptr)
  : outcome (ptr * ArenaSt) :=
  if (old_size =? 0) && (new_size =? 0) then Ret (p, s)
  else if old_size =? 0 then
    _ ← assert (p =? NULL);
    _ ← assert (negb (new_size =? 0));
    ArenaAllocator_alloc s new_size m
  else if new_size =? 0 then
    s ← ArenaAllocator_free s p old_size;
    Ret (NULL, s)
  else
    let old_size := ArenaAllocator_round_size_up old_size in
    let new_size := ArenaAllocator_round_size_up new_size in
    if old_size =? new_size then Ret (p, s)
    else if old_size >? BIG_ALLOC_THRESH then
      if new_size >? BIG_ALLOC_THRESH then Big_realloc s p old_size new_size m
      else
        (* reallocing from a big allocation to an arena allocation *)
        '(result, s) ← ArenaAllocator_alloc s new_size m;
        if result =? NULL then Ret (NULL, s)
        else
          _ ← assert (old_size >? new_size);
          let s := set_heap s (mkHeap (objs (heap s)) (memcpy (mem (heap s)) result p new_size)) in
          s ← Big_free s p old_size;
          Ret (result, s)
    else if new_size >? BIG_ALLOC_THRESH then
      _ ← assert (old_size <=? BIG_ALLOC_THRESH);
      (* reallocing from arena allocation to big allocation *)
      '(result, s) ← Big_alloc s (sentinel s) new_size m;
      if result =? NULL then Ret (NULL, s)
      else if negb (old_size =? 0) then
        let s := set_heap s (mkHeap (objs (heap s)) (memcpy (mem (heap s)) result p old_size)) in
        s ← ArenaAllocator_free s p old_size;
        Ret (result, s)
      else Ret (result, s)
    else
      let ar := arena (aa s) in
      _ ← assert (negb (ar =? NULL));
      a ← load_arena (heap s) ar;
      let new_used := wrap (wrap (arena_used a - old_size) + new_size) in
      if (wrap (p + old_size) =? wrap (buff ar + arena_used a))
         && (new_used <=? ARENA_BUFFER_SIZE) then
        (* fits, in-place realloc *)
        h ← store_obj (heap s) ar (OArena (mkArena (arena_prev a) new_used));
        Ret (p, set_heap s h)
      else
        _ ← assert (negb (arena (aa s) =? NULL));
        o ← (if wrap (ARENA_BUFFER_SIZE - arena_used a) <? new_size then
               '(r, s') ← ArenaAllocator_alloc_arena s m;
               if negb (r =? 0) then Ret None else Ret (Some s')
             else Ret (Some s));
        match o with
        | None => Ret (NULL, s)
        | Some s =>
            '(result, s) ← bump s new_size;
            let n := if old_size <? new_size then old_size else new_size in
            Ret (result, set_heap s (mkHeap (objs (heap s)) (memcpy (mem (heap s)) result p n)))
        end.

(** The first loop of [ArenaAllocator_free_all]: free the chain of blocks.
    Every turn frees a live object, so [fuel] above the number of live
    objects is never exhausted. *)
Fixpoint free_arenas (fuel : nat) (h : Heap) (ar : ptr) : outcome Heap :=
  if ar =? NULL then Ret h
  else match fuel with
       | O => Diverge
       | S fuel =>
           a ← load_arena h ar;
           h ← heap_free h ar;
           free_arenas fuel h (arena_prev a)
       end.

(** The second loop of [ArenaAllocator_free_all]: free the big allocations. *)
Fixpoint free_bigs (fuel : nat) (h : Heap) (ba : ptr) : outcome Heap :=
  if ba =? NULL then Ret h
  else match fuel with
       | O => Diverge
       | S fuel =>
           b ← load_big h ba;
           h ← heap_free h ba;
           free_bigs fuel h (ba_next b)
       end.

(** [ArenaAllocator_free_all] *)
Definition ArenaAllocator_free_all (s : ArenaSt) : outcome ArenaSt :=
  h ← free_arenas (S (size (objs (heap s)))) (heap s) (arena (aa s));
  let ba := node_next (big_allocations (aa s)) in
  _ ← assert (node_prev (big_allocations (aa s)) =? NULL);
  h ← free_bigs (S (size (objs h))) h ba;
  Ret (mkArenaSt (aa_addr s) (mkAA NULL (mkNode NULL NULL)) h).

(** [struct ArenaAllocatorStats] *)
Record ArenaAllocatorStats : Type := mkStats {
  st_used : Z;
  st_capacity : Z;
  st_big_used : Z;
  st_big_count : Z;
  st_arena_count : Z
}.

(** The two loops of [ArenaAllocator_stats]; these only read, so a cyclic
    chain would make the source loop for ever. *)
Fixpoint stats_arenas (fuel : nat) (h : Heap) (ar : ptr) (r : ArenaAllocatorStats)
  : outcome ArenaAllocatorStats :=
  if ar =? NULL then Ret r
  else match fuel with
       | O => Diverge
       | S fuel =>
           a ← load_arena h ar;
           stats_arenas fuel h (arena_prev a)
             (mkStats (wrap (st_used r + arena_used a))
                      (wrap (st_capacity r + ARENA_BUFFER_SIZE))
                      (st_big_used r) (st_big_count r)
                      (wrap (st_arena_count r + 1)))
       end.

Fixpoint stats_bigs (fuel : nat) (h : Heap) (ba : ptr) (r : ArenaAllocatorStats)
  : outcome ArenaAllocatorStats :=
  if ba =? NULL then Ret r
  else match fuel with
       | O => Diverge
       | S fuel =>
           b ← load_big h ba;
           stats_bigs fuel h (ba_next b)
             (mkStats (st_used r) (st_capacity r)
                      (wrap (st_big_used r + ba_size b))
                      (wrap (st_big_count r + 1))
                      (st_arena_count r))
       end.

(** [ArenaAllocator_stats] *)
Definition ArenaAllocator_stats (s : ArenaSt) : outcome ArenaAllocatorStats :=
  let fuel := S (size (objs (heap s))) in
  r ← stats_arenas fuel (heap s) (arena (aa s)) (mkStats 0 0 0 0 0);
  stats_bigs fuel (heap s) (node_next (big_allocations (aa s))) r.

End Arena.

(** [enum {ARENA_SIZE=ARENA_PAGE_SIZE*128}] *)
Definition ARENA_SIZE : Z := ARENA_PAGE_SIZE * 128.

(** A zero-initialised [ArenaAllocator] at address [a], over heap [h]. *)
Definition empty_arena (a : ptr) (h : Heap) : ArenaSt :=
  mkArenaSt a (mkAA NULL (mkNode NULL NULL)) h.

Definition empty_heap : Heap := mkHeap ∅ ∅.

(** ** The recording allocator ([recording_allocator.h]) *)

(** [struct RecordingAllocator] (without [HEAVY_RECORDING]).  Each of the
    two parallel arrays is an object of the heap, obtained by the source
    without a test of what the heap returned.  The record holds the address
    of each array ([allocations_at] and [allocation_sizes_at]: the pointers
    [r->allocations] and [r->allocation_sizes]) and, beside it, the slots
    that the array holds ([allocations] and [allocation_sizes]).  An array
    that is NULL has no slot, so every access through it is undefined.  A
    slot that was never written holds 0 here; the source never reads a slot
    at or above [count]. *)
Record RecordingAllocator : Type := mkRec {
  allocations : list ptr;
  allocation_sizes : list Z;
  count : nat;
  capacity : nat;
  allocations_at : ptr;
  allocation_sizes_at : ptr
}.

(** [a[i]]: reading outside the array is undefined. *)
Definition array_load {A : Type} (a : list A) (i : nat) : outcome A :=
  match a !! i with
  | Some x => Ret x
  | None => Undef
  end.

(** [a[i] = v]: writing outside the array is undefined. *)
Definition array_store {A : Type} (a : list A) (i : nat) (v : A) : outcome (list A) :=
  if decide (i < length a)%nat then Ret (<[i := v]> a) else Undef.

Definition INITIAL_CAPACITY : nat := 32.

(** [n * sizeof( *r->allocations)], and the same for the sizes: a slot takes
    8 bytes. *)
Definition array_bytes (n : nat) : Z := wrap (Z.of_nat n * 8).

(** The slots of the array that the heap returned at [p]: none when [p] is
    NULL. *)
Definition slots_at {A : Type} (p : ptr) (slots : list A) : list A :=
  if p =? NULL then [] else slots.

(** [recording_ensure_capacity], with [g.1] and [g.2] what the heap returns
    for the array of pointers and for the array of sizes when the ledger is
    full.  The source stores both results without a test.  The slots of an
    array that moves stay the slots of the record: no payload byte is copied
    (the bytes to keep are given as 0). *)
Definition recording_ensure_capacity (r : RecordingAllocator) (h : Heap) (g : ptr * ptr)
  : outcome (RecordingAllocator * Heap) :=
  if decide (count r < capacity r)%nat then Ret (r, h)
  else if decide (capacity r = 0)%nat then
    let h := heap_malloc h (array_bytes INITIAL_CAPACITY) g.1 in
    let h := heap_malloc h (array_bytes INITIAL_CAPACITY) g.2 in
    Ret (mkRec (slots_at g.1 (replicate INITIAL_CAPACITY 0))
               (slots_at g.2 (replicate INITIAL_CAPACITY 0))
               (count r) INITIAL_CAPACITY g.1 g.2, h)
  else
    let old_cap := capacity r in
    let new_cap := (old_cap * 2)%nat in
    h ← heap_realloc h (allocations_at r) 0 (array_bytes new_cap) g.1;
    h ← heap_realloc h (allocation_sizes_at r) 0 (array_bytes new_cap) g.2;
    Ret (mkRec (slots_at g.1 (allocations r ++ replicate (new_cap - old_cap) 0))
               (slots_at g.2 (allocation_sizes r ++ replicate (new_cap - old_cap) 0))
               (count r) new_cap g.1 g.2, h).

(** [size_t index = r->count++; r->allocations[index] = result;
     r->allocation_sizes[index] = size;] *)
Definition record_entry (r : RecordingAllocator) (result : ptr) (size : Z)
  : outcome RecordingAllocator :=
  let index := count r in
  al ← array_store (allocations r) index result;
  sz ← array_store (allocation_sizes r) index size;
  Ret (mkRec al sz (S (count r)) (capacity r) (allocations_at r) (allocation_sizes_at r)).

(** [recording_alloc] *)
Definition recording_alloc (r : RecordingAllocator) (h : Heap) (size : Z)
    (m : ptr) (g : ptr * ptr)
  : outcome (ptr * RecordingAllocator * Heap) :=
  let result := m in
  let h := heap_malloc h size m in
  if result =? NULL then Ret (result, r, h)
  else
    '(r, h) ← recording_ensure_capacity r h g;
    r ← record_entry r result size;
    Ret (result, r, h).

(** [recording_zalloc] *)
Definition recording_zalloc (r : RecordingAllocator) (h : Heap) (size : Z)
    (m : ptr) (g : ptr * ptr)
  : outcome (ptr * RecordingAllocator * Heap) :=
  let result := m in
  let h := heap_calloc h size m in
  if result =? NULL then Ret (result, r, h)
  else
    '(r, h) ← recording_ensure_capacity r h g;
    r ← record_entry r result size;
    Ret (result, r, h).

(** [for(size_t i = count; i--;) if(data == r->allocations[i]) ...]: the
    highest index below [i] whose slot holds [data]. *)
Fixpoint find_slot (al : list ptr) (data : ptr) (i : nat) : outcome (option nat) :=
  match i with
  | O => Ret None
  | S j =>
      x ← array_load al j;
      if data =? x then Ret (Some j) else find_slot al data j
  end.

(** [while(r->count && r->allocation_sizes[r->count-1] == 0) r->count--;] *)
Fixpoint trim_count (sz : list Z) (c : nat) : outcome nat :=
  match c with
  | O => Ret O
  | S c' =>
      x ← array_load sz c';
      if x =? 0 then trim_count sz c' else Ret c
  end.

(** The slot [i] is vacated and the count trimmed. *)
Definition vacate_slot (r : RecordingAllocator) (i : nat) : outcome RecordingAllocator :=
  al ← array_store (allocations r) i NULL;
  sz ← array_store (allocation_sizes r) i 0;
  c ← trim_count sz (count r);
  Ret (mkRec al sz c (capacity r) (allocations_at r) (allocation_sizes_at r)).

(** [recording_free] *)
Definition recording_free (r : RecordingAllocator) (h : Heap) (data : ptr) (size : Z)
  : outcome (RecordingAllocator * Heap) :=
  if data =? NULL then Ret (r, h)
  else
    o ← find_slot (allocations r) data (count r);
    match o with
    | Some i =>
        s ← array_load (allocation_sizes r) i;
        (* if(size != r->allocation_sizes[i]){ bt(); assert(!(_Bool)"Freeing with the wrong size"); } *)
        _ ← (if negb (size =? s) then assert false else Ret tt);
        h ← heap_free h data;
        r ← vacate_slot r i;
        Ret (r, h)
    | None =>
        (* assert(!(_Bool)"Freeing pointer not tracked by this allocator."); *)
        _ ← assert false;
        Ret (r, h)
    end.

(** The loop of [recording_free_all] over the slots [i, i + n). *)
Fixpoint free_slots (al : list ptr) (h : Heap) (i n : nat) : outcome Heap :=
  match n with
  | O => Ret h
  | S n' =>
      x ← array_load al i;
      h ← (if x =? NULL then Ret h else heap_free h x);
      free_slots al h (S i) n'
  end.

(** [recording_free_all] *)
Definition recording_free_all (r : RecordingAllocator) (h : Heap)
  : outcome (RecordingAllocator * Heap) :=
  h ← free_slots (allocations r) h O (count r);
  Ret (mkRec (allocations r) (allocation_sizes r) O (capacity r)
             (allocations_at r) (allocation_sizes_at r), h).

(** [recording_realloc]; [sane_realloc(ptr, orig_size, size)] is
    [realloc(ptr, size)], whose result [m] is recorded without a test. *)
Definition recording_realloc (r : RecordingAllocator) (h : Heap)
    (data : ptr) (orig_size new_size : Z) (m : ptr) (g : ptr * ptr)
  : outcome (ptr * RecordingAllocator * Heap) :=
  r ← (if data =? NULL then Ret r
       else
         o ← find_slot (allocations r) data (count r);
         match o with
         | Some i =>
             s ← array_load (allocation_sizes r) i;
             _ ← assert (orig_size =? s);
             vacate_slot r i
         | None =>
             (* assert(!(_Bool)"Reallocing an unknown pointer"); *)
             _ ← assert false;
             Ret r
         end);
  (* Lrealloc: *)
  let result := m in
  h ← heap_realloc h data (Z.min orig_size new_size) new_size m;
  '(r, h) ← recording_ensure_capacity r h g;
  r ← record_entry r result new_size;
  Ret (result, r, h).

(** [recording_cleanup]: the two arrays are released and the struct
    zeroed. *)
Definition recording_cleanup (r : RecordingAllocator) (h : Heap)
  : outcome (RecordingAllocator * Heap) :=
  h ← heap_free h (allocation_sizes_at r);
  h ← heap_free h (allocations_at r);
  Ret (mkRec [] [] O O NULL NULL, h).

(** The loop of [recording_assert_all_freed]. *)
Fixpoint assert_slots_free (sz : list Z) (i n : nat) : outcome unit :=
  match n with
  | O => Ret tt
  | S n' =>
      x ← array_load sz i;
      _ ← assert (x =? 0);
      assert_slots_free sz (S i) n'
  end.

(** [recording_assert_all_freed] *)
Definition recording_assert_all_freed (r : RecordingAllocator) : outcome unit :=
  assert_slots_free (allocation_sizes r) O (count r).

(** ** The testing allocator ([testing_allocator.h]) *)

(** [struct TestingAllocator].  The lock is not part of the record, see
    [LOCK_T_lock]. *)
Record TestingAllocator : Type := mkTest {
  fail_at : Z;      (* int64_t *)
  nallocs : Z;      (* int64_t *)
  recorder : RecordingAllocator
}.

(** Modelled from the spec: [Utils/thread_utils.h] is not under src/.  The
    spec describes a mutual-exclusion primitive (init/lock/unlock) held for
    each operation's full duration; in a sequential execution taking and
    releasing the free lock leaves the allocator as it was. *)
Definition LOCK_T_lock (ta : TestingAllocator) : TestingAllocator := ta.

(** Modelled from the spec: see [LOCK_T_lock]. *)
Definition LOCK_T_unlock (ta : TestingAllocator) : TestingAllocator := ta.

(** [++ta->nallocs] on an [int64_t]: overflow is undefined. *)
Definition incr_nallocs (ta : TestingAllocator) : outcome (Z * TestingAllocator) :=
  if nallocs ta =? INT64_MAX then Undef
  else
    let n := nallocs ta + 1 in
    Ret (n, mkTest (fail_at ta) n (recorder ta)).

(** The fault test that opens [testing_alloc], [testing_zalloc] and the
    growing branch of [testing_realloc]: [true] is [goto done]. *)
Definition should_fail (ta : TestingAllocator) : outcome (bool * TestingAllocator) :=
  if fail_at ta <? 0 then
    '(n, ta) ← incr_nallocs ta;
    if fail_at ta =? INT64_MIN then Undef
    else Ret (n >=? - fail_at ta, ta)
  else
    '(n, ta) ← incr_nallocs ta;
    Ret (n =? fail_at ta, ta).

(** [testing_alloc] *)
Definition testing_alloc (ta : TestingAllocator) (h : Heap) (size : Z)
    (m : ptr) (g : ptr * ptr)
  : outcome (ptr * TestingAllocator * Heap) :=
  let result := NULL in
  let ta := LOCK_T_lock ta in
  '(f, ta) ← should_fail ta;
  if (f : bool) then Ret (result, LOCK_T_unlock ta, h)
  else
    '(result, r, h) ← recording_alloc (recorder ta) h size m g;
    Ret (result, LOCK_T_unlock (mkTest (fail_at ta) (nallocs ta) r), h).

(** [testing_zalloc] *)
Definition testing_zalloc (ta : TestingAllocator) (h : Heap) (size : Z)
    (m : ptr) (g : ptr * ptr)
  : outcome (ptr * TestingAllocator * Heap) :=
  let result := NULL in
  let ta := LOCK_T_lock ta in
  '(f, ta) ← should_fail ta;
  if (f : bool) then Ret (result, LOCK_T_unlock ta, h)
  else
    '(result, r, h) ← recording_zalloc (recorder ta) h size m g;
    Ret (result, LOCK_T_unlock (mkTest (fail_at ta) (nallocs ta) r), h).

(** [testing_free] *)
Definition testing_free (ta : TestingAllocator) (h : Heap) (data : ptr) (size : Z)
  : outcome (TestingAllocator * Heap) :=
  let ta := LOCK_T_lock ta in
  '(r, h) ← recording_free (recorder ta) h data size;
  Ret (LOCK_T_unlock (mkTest (fail_at ta) (nallocs ta) r), h).

(** [testing_free_all] *)
Definition testing_free_all (ta : TestingAllocator) (h : Heap)
  : outcome (TestingAllocator * Heap) :=
  let ta := LOCK_T_lock ta in
  '(r, h) ← recording_free_all (recorder ta) h;
  Ret (LOCK_T_unlock (mkTest (fail_at ta) (nallocs ta) r), h).

(** [testing_realloc] *)
Definition testing_realloc (ta : TestingAllocator) (h : Heap)
    (data : ptr) (orig_size new_size : Z) (m : ptr) (g : ptr * ptr)
  : outcome (ptr * TestingAllocator * Heap) :=
  let result := NULL in
  let ta := LOCK_T_lock ta in
  '(f, ta) ← (if new_size >? orig_size then should_fail ta else Ret (false, ta));
  if (f : bool) then Ret (result, LOCK_T_unlock ta, h)
  else
    '(result, r, h) ← recording_realloc (recorder ta) h data orig_size new_size m g;
    Ret (result, LOCK_T_unlock (mkTest (fail_at ta) (nallocs ta) r), h).

(** [reset_the_testing_allocator] / [testing_reset]: the ledger is cleaned up
    and the counter reset; [fail_at] is left to the test. *)
Definition testing_reset (ta : TestingAllocator) (h : Heap)
  : outcome (TestingAllocator * Heap) :=
  let ta := LOCK_T_lock ta in
  '(r, h) ← recording_cleanup (recorder ta) h;
  Ret (LOCK_T_unlock (mkTest (fail_at ta) 0 r), h).

(** ** The dispatch over the handle ([allocator.h], [allocator.c]) *)

(** [enum AllocatorType], with [USE_RECORDED_ALLOCATOR] and
    [USE_TESTING_ALLOCATOR] defined. *)
Inductive AllocatorType : Type :=
| ALLOCATOR_UNSET
| ALLOCATOR_MALLOC
| ALLOCATOR_ARENA
| ALLOCATOR_NULL
| ALLOCATOR_RECORDED
| ALLOCATOR_TESTING.

(** [struct Allocator] *)
Record Allocator : Type := mkAllocator {
  type : AllocatorType;
  _data : ptr
}.

(** [MALLOCATOR] (not replaced) and [NULLACATOR]. *)
Definition MALLOCATOR : Allocator := mkAllocator ALLOCATOR_MALLOC NULL.
Definition NULLACATOR : Allocator := mkAllocator ALLOCATOR_NULL NULL.

(** What [_data] can point to. *)
Inductive context : Type :=
| CArena (a : ArenaAllocator)
| CRecording (r : RecordingAllocator)
| CTesting (t : TestingAllocator).

(** The memory of the process: the heap and the allocator contexts, by
    address. *)
Record World : Type := mkWorld {
  w_heap : Heap;
  w_ctx : gmap Z context
}.

Definition load_arena_ctx (w : World) (p : ptr) : outcome ArenaSt :=
  match w_ctx w !! p with
  | Some (CArena a) => Ret (mkArenaSt p a (w_heap w))
  | _ => Undef
  end.

Definition store_arena_ctx (w : World) (s : ArenaSt) : World :=
  mkWorld (heap s) (<[aa_addr s := CArena (aa s)]> (w_ctx w)).

Definition load_recording_ctx (w : World) (p : ptr) : outcome RecordingAllocator :=
  match w_ctx w !! p with
  | Some (CRecording r) => Ret r
  | _ => Undef
  end.

Definition load_testing_ctx (w : World) (p : ptr) : outcome TestingAllocator :=
  match w_ctx w !! p with
  | Some (CTesting t) => Ret t
  | _ => Undef
  end.

(** [ALLOC_BAD()] is [abort()] (after a backtrace when debugging). *)
Definition ALLOC_BAD {A : Type} : outcome A := Abort.

(** [Allocator_supports_free_all] *)
Definition Allocator_supports_free_all (a : Allocator) : outcome Z :=
  match type a with
  | ALLOCATOR_UNSET => ALLOC_BAD
  | ALLOCATOR_MALLOC | ALLOCATOR_NULL => Ret 0
  | ALLOCATOR_ARENA => Ret 1
  | ALLOCATOR_RECORDED => Ret 1
  | ALLOCATOR_TESTING => Ret 1
  end.

(** [Allocator_free_all] *)
Definition Allocator_free_all (w : World) (a : Allocator) : outcome World :=
  match type a with
  | ALLOCATOR_UNSET => ALLOC_BAD
  | ALLOCATOR_MALLOC => ALLOC_BAD
  | ALLOCATOR_ARENA =>
      s ← load_arena_ctx w (_data a);
      s ← ArenaAllocator_free_all s;
      Ret (store_arena_ctx w s)
  | ALLOCATOR_NULL => ALLOC_BAD
  | ALLOCATOR_RECORDED =>
      r ← load_recording_ctx w (_data a);
      '(r, h) ← recording_free_all r (w_heap w);
      Ret (mkWorld h (<[_data a := CRecording r]> (w_ctx w)))
  | ALLOCATOR_TESTING =>
      t ← load_testing_ctx w (_data a);
      '(t, h) ← testing_free_all t (w_heap w);
      Ret (mkWorld h (<[_data a := CTesting t]> (w_ctx w)))
  end.

(** [Allocator_alloc] *)
Definition Allocator_alloc (w : World) (a : Allocator) (size : Z)
    (m : ptr) (g : ptr * ptr)
  : outcome (ptr * World) :=
  match type a with
  | ALLOCATOR_UNSET => ALLOC_BAD
  | ALLOCATOR_MALLOC => Ret (m, mkWorld (heap_malloc (w_heap w) size m) (w_ctx w))
  | ALLOCATOR_ARENA =>
      s ← load_arena_ctx w (_data a);
      '(p, s) ← ArenaAllocator_alloc ARENA_SIZE s size m;
      Ret (p, store_arena_ctx w s)
  | ALLOCATOR_NULL => Ret (NULL, w)
  | ALLOCATOR_RECORDED =>
      r ← load_recording_ctx w (_data a);
      '(p, r, h) ← recording_alloc r (w_heap w) size m g;
      Ret (p, mkWorld h (<[_data a := CRecording r]> (w_ctx w)))
  | ALLOCATOR_TESTING =>
      t ← load_testing_ctx w (_data a);
      '(p, t, h) ← testing_alloc t (w_heap w) size m g;
      Ret (p, mkWorld h (<[_data a := CTesting t]> (w_ctx w)))
  end.

(** [Allocator_zalloc] *)
Definition Allocator_zalloc (w : World) (a : Allocator) (size : Z)
    (m : ptr) (g : ptr * ptr)
  : outcome (ptr * World) :=
  match type a with
  | ALLOCATOR_UNSET => ALLOC_BAD
  | ALLOCATOR_MALLOC => Ret (m, mkWorld (heap_calloc (w_heap w) size m) (w_ctx w))
  | ALLOCATOR_ARENA =>
      s ← load_arena_ctx w (_data a);
      '(p, s) ← ArenaAllocator_zalloc ARENA_SIZE s size m;
      Ret (p, store_arena_ctx w s)
  | ALLOCATOR_NULL => Ret (NULL, w)
  | ALLOCATOR_RECORDED =>
      r ← load_recording_ctx w (_data a);
      '(p, r, h) ← recording_zalloc r (w_heap w) size m g;
      Ret (p, mkWorld h (<[_data a := CRecording r]> (w_ctx w)))
  | ALLOCATOR_TESTING =>
      t ← load_testing_ctx w (_data a);
      '(p, t, h) ← testing_zalloc t (w_heap w) size m g;
      Ret (p, mkWorld h (<[_data a := CTesting t]> (w_ctx w)))
  end.

(** [Allocator_realloc] *)
Definition Allocator_realloc (w : World) (a : Allocator)
    (data : ptr) (orig_size size : Z) (m : ptr) (g : ptr * ptr)
  : outcome (ptr * World) :=
  match type a with
  | ALLOCATOR_UNSET => ALLOC_BAD
  | ALLOCATOR_MALLOC =>
      h ← heap_realloc (w_heap w) data (Z.min orig_size size) size m;
      Ret (m, mkWorld h (w_ctx w))
  | ALLOCATOR_ARENA =>
      s ← load_arena_ctx w (_data a);
      '(p, s) ← ArenaAllocator_realloc ARENA_SIZE s data orig_size size m;
      Ret (p, store_arena_ctx w s)
  | ALLOCATOR_NULL => Ret (NULL, w)
  | ALLOCATOR_RECORDED =>
      r ← load_recording_ctx w (_data a);
      '(p, r, h) ← recording_realloc r (w_heap w) data orig_size size m g;
      Ret (p, mkWorld h (<[_data a := CRecording r]> (w_ctx w)))
  | ALLOCATOR_TESTING =>
      t ← load_testing_ctx w (_data a);
      '(p, t, h) ← testing_realloc t (w_heap w) data orig_size size m g;
      Ret (p, mkWorld h (<[_data a := CTesting t]> (w_ctx w)))
  end.

(** [Allocator_free] *)
Definition Allocator_free (w : World) (a : Allocator) (data : ptr) (size : Z)
  : outcome World :=
  match type a with
  | ALLOCATOR_UNSET => ALLOC_BAD
  | ALLOCATOR_MALLOC =>
      h ← heap_free (w_heap w) data;
      Ret (mkWorld h (w_ctx w))
  | ALLOCATOR_ARENA =>
      s ← load_arena_ctx w (_data a);
      s ← ArenaAllocator_free ARENA_SIZE s data size;
      Ret (store_arena_ctx w s)
  | ALLOCATOR_NULL => Ret w
  | ALLOCATOR_RECORDED =>
      r ← load_recording_ctx w (_data a);
      '(r, h) ← recording_free r (w_heap w) data size;
      Ret (mkWorld h (<[_data a := CRecording r]> (w_ctx w)))
  | ALLOCATOR_TESTING =>
      t ← load_testing_ctx w (_data a);
      '(t, h) ← testing_free t (w_heap w) data size;
      Ret (mkWorld h (<[_data a := CTesting t]> (w_ctx w)))
  end.

(** The platform of [Allocator_good_size]: on [__APPLE__] the heap-backed
    strategies ask the system's [malloc_good_size]; elsewhere they return the
    size as it is. *)
Inductive platform : Type :=
| Apple (malloc_good_size : Z -> Z)
| Portable.

Definition heap_good_size (pf : platform) (size : Z) : Z :=
  match pf with
  | Apple malloc_good_size => malloc_good_size size
  | Portable => size
  end.

(** [Allocator_good_size] *)
Definition Allocator_good_size (pf : platform) (a : Allocator) (size : Z) : outcome Z :=
  match type a with
  | ALLOCATOR_UNSET => ALLOC_BAD
  | ALLOCATOR_MALLOC => Ret (heap_good_size pf size)
  | ALLOCATOR_ARENA => Ret (ArenaAllocator_round_size_up size)
  | ALLOCATOR_NULL => Ret size
  | ALLOCATOR_RECORDED => Ret (heap_good_size pf size)
  | ALLOCATOR_TESTING => Ret (heap_good_size pf size)
  end.

(** ** Vocabulary of the properties *)

(** A size in the range of [size_t]. *)
Definition is_size (z : Z) : Prop := 0 <= z < SIZE_MOD.

(** The strategies of the dispatch: every tag but [ALLOCATOR_UNSET]. *)
Definition is_strategy (t : AllocatorType) : Prop := t <> ALLOCATOR_UNSET.

(** What [Allocator_good_size] relies on from the system where it asks
    [malloc_good_size]: a size is never rounded down, and a granted size is
    granted as it is. *)
Definition platform_ok (pf : platform) : Prop :=
  match pf with
  | Apple f => forall s, is_size s -> is_size (f s) /\ s <= f s /\ f (f s) = f s
  | Portable => True
  end.

(** A configured handle: its tag is a strategy and, for the strategies with a
    context, [_data] points to a context of that kind. *)
Definition configured (w : World) (a : Allocator) : Prop :=
  match type a with
  | ALLOCATOR_UNSET => False
  | ALLOCATOR_MALLOC | ALLOCATOR_NULL => True
  | ALLOCATOR_ARENA => exists c, w_ctx w !! _data a = Some (CArena c)
  | ALLOCATOR_RECORDED => exists r, w_ctx w !! _data a = Some (CRecording r)
  | ALLOCATOR_TESTING => exists t, w_ctx w !! _data a = Some (CTesting t)
  end.

(** A world with an (empty) arena context at address 4096, a testing context
    at address 8192, and an empty heap. *)
Definition example_world : World :=
  mkWorld empty_heap
    (<[ 4096 := CArena (mkAA NULL (mkNode NULL NULL)) ]>
       {[ 8192 := CTesting (mkTest 3 0 (mkRec [] [] O O NULL NULL)) ]}).

(** The ledger is well formed: both arrays have [capacity] slots, [count]
    does not exceed it, and an array that has slots is not NULL. *)
Definition ledger_wf (r : RecordingAllocator) : Prop :=
  (count r <= capacity r)%nat /\
  length (allocations r) = capacity r /\
  length (allocation_sizes r) = capacity r /\
  (capacity r <> 0%nat -> allocations_at r <> NULL /\ allocation_sizes_at r <> NULL).

(** No slot below [count] holds [data]. *)
Definition untracked (r : RecordingAllocator) (data : ptr) : Prop :=
  forall j, (j < count r)%nat -> allocations r !! j <> Some data.

(** [i] is the slot the reverse scan finds for [data]: the highest slot below
    [count] that holds it. *)
Definition tracked_at (r : RecordingAllocator) (data : ptr) (i : nat) : Prop :=
  (i < count r)%nat /\ allocations r !! i = Some data /\
  forall j, (i < j < count r)%nat -> allocations r !! j <> Some data.

(** [c'] is [c] with the trailing slots of recorded size 0 (the freed slots
    have size 0) trimmed: every slot in [c', c) has size 0 and the slot below
    [c'], if any, has not. *)
Definition trimmed (sz : list Z) (c c' : nat) : Prop :=
  (c' <= c)%nat /\
  (forall j, (c' <= j < c)%nat -> sz !! j = Some 0) /\
  (c' = O \/ exists x, sz !! Nat.pred c' = Some x /\ x <> 0).

(** What [testing_free] makes of an outcome of [recording_free] on its
    ledger. *)
Definition lift_free (t : TestingAllocator) (o : outcome (RecordingAllocator * Heap))
  : outcome (TestingAllocator * Heap) :=
  match o with
  | Ret (r, h) => Ret (mkTest (fail_at t) (nallocs t) r, h)
  | Abort => Abort
  | Undef => Undef
  | Diverge => Diverge
  end.

(** A ledger with two live entries, its two arrays at 256 and 512, and a
    heap where the entries and the arrays are live. *)
Definition example_ledger : RecordingAllocator :=
  mkRec [4096; 8192] [8; 16] 2 2 256 512.

Definition example_ledger_heap : Heap :=
  mkHeap (<[256 := ORaw 16]> (<[512 := ORaw 16]>
            (<[4096 := ORaw 8]> {[ 8192 := ORaw 16 ]}))) ∅.

(** A call on the testing allocator, with what the heap returns where the
    call can reach it: [m] for the request of the call, [g] for the two
    arrays of the ledger. *)
Inductive test_op : Type :=
| OpAlloc (size : Z) (m : ptr) (g : ptr * ptr)
| OpZalloc (size : Z) (m : ptr) (g : ptr * ptr)
| OpRealloc (data : ptr) (orig_size new_size : Z) (m : ptr) (g : ptr * ptr)
| OpFree (data : ptr) (size : Z)
| OpFreeAll.

(** The allocation-counting calls: alloc, zalloc, and realloc with
    [new_size > orig_size]. *)
Definition counting (op : test_op) : bool :=
  match op with
  | OpAlloc _ _ _ | OpZalloc _ _ _ => true
  | OpRealloc _ orig_size new_size _ _ => new_size >? orig_size
  | OpFree _ _ | OpFreeAll => false
  end.

(** The call on the testing allocator (the void calls give NULL). *)
Definition testing_call (ta : TestingAllocator) (h : Heap) (op : test_op)
  : outcome (ptr * TestingAllocator * Heap) :=
  match op with
  | OpAlloc size m g => testing_alloc ta h size m g
  | OpZalloc size m g => testing_zalloc ta h size m g
  | OpRealloc data orig_size new_size m g =>
      testing_realloc ta h data orig_size new_size m g
  | OpFree data size => '(ta, h) ← testing_free ta h data size; Ret (NULL, ta, h)
  | OpFreeAll => '(ta, h) ← testing_free_all ta h; Ret (NULL, ta, h)
  end.

(** The same call made directly on a recording allocator. *)
Definition recording_call (r : RecordingAllocator) (h : Heap) (op : test_op)
  : outcome (ptr * RecordingAllocator * Heap) :=
  match op with
  | OpAlloc size m g => recording_alloc r h size m g
  | OpZalloc size m g => recording_zalloc r h size m g
  | OpRealloc data orig_size new_size m g =>
      recording_realloc r h data orig_size new_size m g
  | OpFree data size => '(r, h) ← recording_free r h data size; Ret (NULL, r, h)
  | OpFreeAll => '(r, h) ← recording_free_all r h; Ret (NULL, r, h)
  end.

(** A sequence of calls, one after the other. *)
Fixpoint testing_calls (ta : TestingAllocator) (h : Heap) (ops : list test_op)
  : outcome (TestingAllocator * Heap) :=
  match ops with
  | [] => Ret (ta, h)
  | op :: ops => '(_, ta, h) ← testing_call ta h op; testing_calls ta h ops
  end.




(** The ledger's own storage is in the heap: when the arrays have slots,
    each is a live object, the two are apart, and no slot below [count]
    holds the address of one of them. *)
Definition ledger_stored (r : RecordingAllocator) (h : Heap) : Prop :=
  capacity r <> 0%nat ->
  is_Some (objs h !! allocations_at r) /\
  is_Some (objs h !! allocation_sizes_at r) /\
  allocations_at r <> allocation_sizes_at r /\
  untracked r (allocations_at r) /\ untracked r (allocation_sizes_at r).

(** The ledger mirrors the heap: it is well formed, every non-NULL pointer in
    a slot below [count] is live in the heap, no such pointer is held by two
    slots, and the ledger's own storage is in the heap. *)
Definition ledger_sound (r : RecordingAllocator) (h : Heap) : Prop :=
  ledger_wf r /\
  (forall j p, (j < count r)%nat -> allocations r !! j = Some p -> p <> NULL ->
     is_Some (objs h !! p)) /\
  (forall i j p, (i < count r)%nat -> (j < count r)%nat ->
     allocations r !! i = Some p -> allocations r !! j = Some p -> p <> NULL -> i = j) /\
  ledger_stored r h.

(** What the heap may answer when the ledger asks for its arrays, over the
    heap [h] at the time of the request: for each array it refuses (NULL),
    returns the address the array has (for the realloc of a ledger that has
    slots), or returns an address that is not live; and it does not return
    one address for both. *)
Definition growth_answer_ok (r : RecordingAllocator) (h : Heap) (g : ptr * ptr) : Prop :=
  (g.1 = NULL \/ (capacity r <> 0%nat /\ g.1 = allocations_at r) \/ objs h !! g.1 = None) /\
  (g.2 = NULL \/ (capacity r <> 0%nat /\ g.2 = allocation_sizes_at r) \/
   objs h !! g.2 = None) /\
  (g.1 = NULL \/ g.1 <> g.2).

(** What the heap may answer to a call: where the call asks it for memory,
    it refuses (NULL) or returns an address that is not live; a realloc may
    also return the address it was given; and the requests of the ledger,
    made after that of the call, are answered as [growth_answer_ok] says. *)
Definition heap_answer_ok (r : RecordingAllocator) (h : Heap) (op : test_op) : Prop :=
  match op with
  | OpAlloc size m g =>
      (m = NULL \/ objs h !! m = None) /\ growth_answer_ok r (heap_malloc h size m) g
  | OpZalloc size m g =>
      (m = NULL \/ objs h !! m = None) /\ growth_answer_ok r (heap_calloc h size m) g
  | OpRealloc data orig_size new_size m g =>
      (m = NULL \/ m = data \/ objs h !! m = None) /\
      match heap_realloc h data (Z.min orig_size new_size) new_size m with
      | Ret h1 => growth_answer_ok r h1 g
      | _ => True
      end
  | OpFree _ _ | OpFreeAll => True
  end.


(** The heap grants the ledger what it asks for the call: the ledger has a
    free slot and asks nothing, or both arrays are granted. *)
Definition ledger_granted (r : RecordingAllocator) (g : ptr * ptr) : Prop :=
  (count r < capacity r)%nat \/ (g.1 <> NULL /\ g.2 <> NULL).



(** The ledger as [new_recorded_mallocator] and the static initialiser of
    the testing allocator leave it. *)
Definition empty_ledger : RecordingAllocator := mkRec [] [] O O NULL NULL.


(** The results of a sequence of calls, in order. *)
Fixpoint testing_results (ta : TestingAllocator) (h : Heap) (ops : list test_op)
  : outcome (list ptr) :=
  match ops with
  | [] => Ret []
  | op :: ops =>
      '(p, ta, h) ← testing_call ta h op;
      ps ← testing_results ta h ops;
      Ret (p :: ps)
  end.



Definition five_calls : list test_op :=
  [OpAlloc 8 4096 (256, 512); OpZalloc 8 8192 (NULL, NULL); OpAlloc 24 12288 (NULL, NULL);
   OpRealloc 4096 8 16 16384 (NULL, NULL); OpAlloc 8 20480 (NULL, NULL)].

(** The state [s] with the block at [ar] made the current block, its header
    set to [blk]. *)
Definition with_block (s : ArenaSt) (ar : ptr) (blk : Arena) : ArenaSt :=
  mkArenaSt (aa_addr s) (mkAA ar (big_allocations (aa s)))
            (mkHeap (<[ar := OArena blk]> (objs (heap s))) (mem (heap s))).

(** The current block pointer is NULL or points to a live block. *)
Definition current_ok (s : ArenaSt) : Prop :=
  arena (aa s) = NULL \/
  exists blk, objs (heap s) !! arena (aa s) = Some (OArena blk).


(** The request of rounded size [r] was served by bumping within a block:
    the result is the old frontier [buff + used0] of the block that is
    current afterwards, whose [used] advanced by [r]; that block is the old
    current block, or a new block (then [used0 = 0] and its [prev] is the old
    current block); the big-allocation list is untouched. *)
Definition served_bump (s : ArenaSt) (r : Z) (m p : ptr) (s' : ArenaSt) : Prop :=
  big_allocations (aa s') = big_allocations (aa s) /\
  mem (heap s') = mem (heap s) /\
  exists prev used0,
    objs (heap s') !! arena (aa s') = Some (OArena (mkArena prev (wrap (used0 + r)))) /\
    p = wrap (wrap (arena (aa s') + offsetof_buff) + used0) /\
    (forall q, q <> arena (aa s') -> objs (heap s') !! q = objs (heap s) !! q) /\
    ((arena (aa s') = arena (aa s) /\
      objs (heap s) !! arena (aa s) = Some (OArena (mkArena prev used0))) \/
     (arena (aa s') = m /\ m <> NULL /\ used0 = 0 /\ prev = arena (aa s))).


(** The scenario of two allocations on an empty arena (at address [addr],
    over the heap [h0]): alloc [a] (the heap returning [m1] if asked), then
    alloc [b] (the heap returning [m2] if asked), then the statistics.  The
    result is the two addresses, the two states and the statistics. *)
Definition two_allocs (asz : Z) (addr : ptr) (h0 : Heap) (a b : Z) (m1 m2 : ptr)
  : outcome (ptr * ptr * ArenaSt * ArenaSt * ArenaAllocatorStats) :=
  '(A, s1) ← ArenaAllocator_alloc asz (empty_arena addr h0) a m1;
  '(B, s2) ← ArenaAllocator_alloc asz s1 b m2;
  st ← ArenaAllocator_stats asz s2;
  Ret (A, B, s1, s2, st).

(** The block-overflow scenario as the specification has it, for a block of
    [asz] bytes: alloc 4000 bytes (A), then 200 bytes (B); B makes the arena
    take a new block, the block count is 2, and no payload byte changed. *)
Definition overflow_4000_200 (asz : Z) (addr : ptr) (h0 : Heap) (m1 m2 : ptr) : Prop :=
  exists A B s1 s2 st,
    two_allocs asz addr h0 4000 200 m1 m2 = Ret (A, B, s1, s2, st) /\
    arena (aa s2) <> arena (aa s1) /\
    st_arena_count st = 2 /\
    mem (heap s2) = mem (heap s1).

(** The invariant of the current block: the block pointer is NULL, or it
    points to a live block whose [used] is within the buffer. *)
Definition arena_inv (asz : Z) (s : ArenaSt) : Prop :=
  arena (aa s) = NULL \/
  exists blk, objs (heap s) !! arena (aa s) = Some (OArena blk) /\
              0 <= arena_used blk <= ARENA_BUFFER_SIZE asz.

(** The caller's writes into memory it holds: the payload bytes of [s] are
    replaced by [bytes]. *)
Definition user_write (s : ArenaSt) (bytes : gmap Z Byte.byte) : ArenaSt :=
  set_heap s (mkHeap (objs (heap s)) bytes).

(** A block of [asz] bytes at [m] lies within the address space. *)
Definition block_range (asz : Z) (m : ptr) : Prop :=
  0 < m /\ m + asz <= SIZE_MOD.

(** What the heap guarantees about a second block it is asked for while the
    block at [m1] is live: it refuses ([m2 = NULL]) or returns a block within
    the address space that does not overlap the first. *)
Definition placed_apart (asz : Z) (m1 m2 : ptr) : Prop :=
  m2 = NULL \/
  (block_range asz m1 /\ block_range asz m2 /\
   (m1 + asz <= m2 \/ m2 + asz <= m1)).

(** The in-place realloc as the specification has it: A is the most recent
    allocation, of size [a]; [realloc(A, a, a + k)] returns A, the [used] of
    the current block grows by [round k], and no payload byte changes. *)
Definition grows_by_round_k (asz : Z) (s : ArenaSt) (a k : Z) (m0 m : ptr) : Prop :=
  exists A s1 s2 blk1 blk2,
    ArenaAllocator_alloc asz s a m0 = Ret (A, s1) /\
    ArenaAllocator_realloc asz s1 A a (a + k) m = Ret (A, s2) /\
    objs (heap s1) !! arena (aa s1) = Some (OArena blk1) /\
    objs (heap s2) !! arena (aa s2) = Some (OArena blk2) /\
    arena_used blk2 = arena_used blk1 + ArenaAllocator_round_size_up k /\
    mem (heap s2) = mem (heap s1).

(** The end of the LIFO scenario as the specification has it: after alloc
    A of [a] bytes and alloc B of [b] bytes on the arena [s], freeing A
    leaves the [used] of the current block as it was. *)
Definition free_A_keeps_used (asz : Z) (s : ArenaSt) (a b : Z) (m1 m2 : ptr) : Prop :=
  exists A B s1 s2 s3 blk2 blk3,
    ArenaAllocator_alloc asz s a m1 = Ret (A, s1) /\
    ArenaAllocator_alloc asz s1 b m2 = Ret (B, s2) /\
    ArenaAllocator_free asz s2 A a = Ret s3 /\
    objs (heap s2) !! arena (aa s2) = Some (OArena blk2) /\
    objs (heap s3) !! arena (aa s3) = Some (OArena blk3) /\
    arena_used blk3 = arena_used blk2.

(** The result of a call that returned, for the examples. *)
Definition returned {A : Type} (d : A) (o : outcome A) : A :=
  match o with
  | Ret x => x
  | _ => d
  end.

(** An empty arena of the source's block size, and the states after
    [alloc(100)] (A) and then [alloc(50)] (B) on it. *)
Definition arena0 : ArenaSt := empty_arena 4096 empty_heap.

Definition after_A : ptr * ArenaSt :=
  returned (NULL, arena0) (ArenaAllocator_alloc ARENA_SIZE arena0 100 1048576).

Definition after_B : ptr * ArenaSt :=
  returned (NULL, arena0) (ArenaAllocator_alloc ARENA_SIZE after_A.2 50 NULL).

(** ** The allocation helpers of the dispatch ([allocator.c]) *)

(** [Allocator_dupe] *)
Definition Allocator_dupe (w : World) (a : Allocator) (data : ptr) (size : Z)
    (m : ptr) (g : ptr * ptr)
  : outcome (ptr * World) :=
  '(result, w) ← Allocator_alloc w a size m g;
  if result =? NULL then Ret (NULL, w)
  else if negb (size =? 0) then
    Ret (result, mkWorld (mkHeap (objs (w_heap w)) (memcpy (mem (w_heap w)) result data size))
                         (w_ctx w))
  else Ret (result, w).

(** [Allocator_strndup] *)
Definition Allocator_strndup (w : World) (a : Allocator) (str : ptr) (length : Z)
    (m : ptr) (g : ptr * ptr)
  : outcome (ptr * World) :=
  '(result, w) ← Allocator_alloc w a (wrap (length + 1)) m g;
  if result =? NULL then Ret (NULL, w)
  else
    let bytes := if negb (length =? 0) then memcpy (mem (w_heap w)) result str length
                 else mem (w_heap w) in
    (* result[length] = '\0'; *)
    let bytes := <[wrap (result + length) := Byte.x00]> bytes in
    Ret (result, mkWorld (mkHeap (objs (w_heap w)) bytes) (w_ctx w)).


(** A world whose payload holds the bytes 1, 2, 3 at address 100, over an
    empty heap, and the outcome of duplicating them with the malloc strategy
    when the heap returns address 4096. *)
Definition bytes_world : World :=
  mkWorld (mkHeap ∅ (<[100 := Byte.x01]> (<[101 := Byte.x02]> {[ 102 := Byte.x03 ]}))) ∅.

Definition after_dupe : ptr * World :=
  returned (NULL, bytes_world) (Allocator_dupe bytes_world MALLOCATOR 100 3 4096 (NULL, NULL)).

Definition after_strndup : ptr * World :=
  returned (NULL, bytes_world) (Allocator_strndup bytes_world MALLOCATOR 100 3 4096 (NULL, NULL)).

(** The state after [zalloc(100)] on the empty arena [arena0], the heap
    returning the block at 1048576, and after a [zalloc(40)] that is big for
    a block size of 64, the heap returning the object at 2097152. *)
Definition after_Z : ptr * ArenaSt :=
  returned (NULL, arena0) (ArenaAllocator_zalloc ARENA_SIZE arena0 100 1048576).

Definition after_big_Z : ptr * ArenaSt :=
  returned (NULL, arena0) (ArenaAllocator_zalloc 64 arena0 40 2097152).

(** The caller wrote a byte into A; then A, no longer the most recent
    allocation, is grown from 100 to 200 bytes. *)
Definition before_move : ArenaSt :=
  user_write after_B.2 {[ after_A.1 := Byte.x2a ]}.

Definition after_move : ptr * ArenaSt :=
  returned (NULL, arena0)
    (ArenaAllocator_realloc ARENA_SIZE before_move after_A.1 100 200 NULL).

(** The chain of blocks from [ar]: the addresses and headers of the blocks
    met by following [prev] from [ar] down to NULL. *)
Inductive arena_chain (h : Heap) : ptr -> list (ptr * Arena) -> Prop :=
| arena_chain_nil : arena_chain h NULL []
| arena_chain_cons (ar : ptr) (a : Arena) (l : list (ptr * Arena)) :
    ar <> NULL ->
    objs h !! ar = Some (OArena a) ->
    arena_chain h (arena_prev a) l ->
    arena_chain h ar ((ar, a) :: l).

(** The list of big allocations from [ba]: the addresses and headers met by
    following [next] from [ba] down to NULL. *)
Inductive big_chain (h : Heap) : ptr -> list (ptr * BigAllocation) -> Prop :=
| big_chain_nil : big_chain h NULL []
| big_chain_cons (ba : ptr) (b : BigAllocation) (l : list (ptr * BigAllocation)) :
    ba <> NULL ->
    objs h !! ba = Some (OBig b) ->
    big_chain h (ba_next b) l ->
    big_chain h ba ((ba, b) :: l).

(** The sum of the [used] counters of a chain of blocks, and of the sizes of
    a list of big allocations. *)
Definition chain_used (l : list (ptr * Arena)) : Z :=
  foldr (fun x acc => arena_used x.2 + acc) 0 l.

Definition chain_big_used (l : list (ptr * BigAllocation)) : Z :=
  foldr (fun x acc => ba_size x.2 + acc) 0 l.



(** ** Vocabulary of the ledger properties *)

(** [p] is held by a slot below [count]. *)
Definition tracked (r : RecordingAllocator) (p : ptr) : Prop :=
  exists j, (j < count r)%nat /\ allocations r !! j = Some p.

(** The ledger and heap after freeing 8192 from [example_ledger]. *)
Definition after_free_8192 : ptr * RecordingAllocator * Heap :=
  returned (NULL, example_ledger, example_ledger_heap)
    (recording_call example_ledger example_ledger_heap (OpFree 8192 16)).


(** ** Base64 ([base64.h]) *)

(** [enum Base64Error] *)
Inductive Base64Error : Type :=
| BASE64_NO_ERROR
| BASE64_DECODING_ERROR
| BASE64_WOULD_OVERFLOW.

(** [base64_encode_size]: [!!(size_needed % 3)] is 1 when the remainder is
    not zero. *)
Definition base64_encode_size (src_length : Z) : Z :=
  let size_needed := wrap (src_length * 4) in
  wrap (size_needed / 3 + (if size_needed mod 3 =? 0 then 0 else 1)).

(** [base64_decode_size] *)
Definition base64_decode_size (src_length : Z) : Z :=
  let size_needed := wrap (src_length * 3) in
  wrap (size_needed / 4 + (if size_needed mod 4 =? 0 then 0 else 1)).

Import String.StringSyntax.
Local Open Scope string_scope.

(** [base64_encode_table0[256]] *)
Definition base64_encode_table0 : String.string :=
    (String.append "AAAABBBBCCCCDDDDEEEEFFFFGGGGHHHHIIIIJJJJKKKKLLLLMMMMNNNNOOOOPPPP"
    (String.append "QQQQRRRRSSSSTTTTUUUUVVVVWWWWXXXXYYYYZZZZaaaabbbbccccddddeeeeffff"
    (String.append "gggghhhhiiiijjjjkkkkllllmmmmnnnnooooppppqqqqrrrrssssttttuuuuvvvv"
                   "wwwwxxxxyyyyzzzz0000111122223333444455556666777788889999++++////"))).

(** [base64_encode_table1[256]] *)
Definition base64_encode_table1 : String.string :=
    (String.append "ABCDEFGHIJKLMNOPQRSTUVWXYZabcdefghijklmnopqrstuvwxyz0123456789+/"
    (String.append "ABCDEFGHIJKLMNOPQRSTUVWXYZabcdefghijklmnopqrstuvwxyz0123456789+/"
    (String.append "ABCDEFGHIJKLMNOPQRSTUVWXYZabcdefghijklmnopqrstuvwxyz0123456789+/"
                   "ABCDEFGHIJKLMNOPQRSTUVWXYZabcdefghijklmnopqrstuvwxyz0123456789+/"))).

(** [base64_encode_table2[256]] *)
Definition base64_encode_table2 : String.string :=
    (String.append "ABCDEFGHIJKLMNOPQRSTUVWXYZabcdefghijklmnopqrstuvwxyz0123456789+/"
    (String.append "ABCDEFGHIJKLMNOPQRSTUVWXYZabcdefghijklmnopqrstuvwxyz0123456789+/"
    (String.append "ABCDEFGHIJKLMNOPQRSTUVWXYZabcdefghijklmnopqrstuvwxyz0123456789+/"
                   "ABCDEFGHIJKLMNOPQRSTUVWXYZabcdefghijklmnopqrstuvwxyz0123456789+/"))).

Local Close Scope string_scope.

(** [table[i]] for one of the 256-char tables: the code of the char. *)
Definition table_load (t : String.string) (i : Z) : outcome Z :=
  if (i <? 0) || (256 <=? i) then Undef
  else match String.get (Z.to_nat i) t with
       | Some c => Ret (Z.of_nat (Ascii.nat_of_ascii c))
       | None => Undef
       end.

(** [str[i]] for a buffer of bytes (each a [uint8_t], as a number below 256):
    reading outside the buffer is undefined. *)
Definition buf_load (str : list Z) (i : Z) : outcome Z :=
  if i <? 0 then Undef
  else match str !! Z.to_nat i with
       | Some b => Ret b
       | None => Undef
       end.

(** [*d++ = b] (and [*(out++) = b] in [base64_decode]) into the destination,
    a buffer of [dst_length] bytes: writing past its end is undefined.  [out]
    is what was written so far. *)
Definition store_out (dst_length : Z) (out : list Z) (b : Z) : outcome (list Z) :=
  if Z.of_nat (length out) <? dst_length then Ret (out ++ [b]) else Undef.

(** The four chars the source writes for three bytes (the text occurs three
    times in [base64_encode]), each by [*d++ = ...]. *)
Definition encode_group (dst_length : Z) (d : list Z) (t1 t2 t3 : Z) : outcome (list Z) :=
  c0 ← table_load base64_encode_table0 t1;
  d ← store_out dst_length d c0;
  let index1 := Z.lor (Z.shiftl (Z.land t1 3) 4) (Z.land (Z.shiftr t2 4) 15) in
  c1 ← table_load base64_encode_table1 index1;
  d ← store_out dst_length d c1;
  let index2 := Z.lor (Z.shiftl (Z.land t2 15) 2) (Z.land (Z.shiftr t3 6) 3) in
  c2 ← table_load base64_encode_table1 index2;
  d ← store_out dst_length d c2;
  c3 ← table_load base64_encode_table2 t3;
  store_out dst_length d c3.

(** [for(; i < len - 5; i += 6)]: six bytes a turn. *)
Fixpoint encode_loop (fuel : nat) (dst_length : Z) (str : list Z) (len i : Z) (d : list Z)
  : outcome (Z * list Z) :=
  if i <? wrap (len - 5) then
    match fuel with
    | O => Diverge
    | S fuel =>
        t1 ← buf_load str i;
        t2 ← buf_load str (wrap (i + 1));
        t3 ← buf_load str (wrap (i + 2));
        t4 ← buf_load str (wrap (i + 3));
        t5 ← buf_load str (wrap (i + 4));
        t6 ← buf_load str (wrap (i + 5));
        d ← encode_group dst_length d t1 t2 t3;
        d ← encode_group dst_length d t4 t5 t6;
        encode_loop fuel dst_length str len (wrap (i + 6)) d
    end
  else Ret (i, d).

(** The [switch(len - i)] that ends [base64_encode]. *)
Definition encode_switch (dst_length : Z) (str : list Z) (len i : Z) (d : list Z)
  : outcome (list Z) :=
  let n := wrap (len - i) in
  if n =? 0 then Ret d
  else if n =? 1 then
    t1 ← buf_load str i;
    c0 ← table_load base64_encode_table0 t1;
    d ← store_out dst_length d c0;
    c1 ← table_load base64_encode_table1 (Z.shiftl (Z.land t1 3) 4);
    store_out dst_length d c1
  else
    t1 ← buf_load str i;
    t2 ← buf_load str (wrap (i + 1));
    c0 ← table_load base64_encode_table0 t1;
    d ← store_out dst_length d c0;
    c1 ← table_load base64_encode_table1
           (Z.lor (Z.shiftl (Z.land t1 3) 4) (Z.land (Z.shiftr t2 4) 15));
    d ← store_out dst_length d c1;
    c2 ← table_load base64_encode_table2 (Z.shiftl (Z.land t2 15) 2);
    store_out dst_length d c2.

(** What follows the loop in [base64_encode]: one more group of three when
    [i < len - 2], then the switch. *)
Definition encode_tail (dst_length : Z) (str : list Z) (len i : Z) (d : list Z)
  : outcome (list Z) :=
  '(i, d) ← (if i <? wrap (len - 2) then
               t1 ← buf_load str i;
               t2 ← buf_load str (wrap (i + 1));
               t3 ← buf_load str (wrap (i + 2));
               d ← encode_group dst_length d t1 t2 t3;
               Ret (wrap (i + 3), d)
             else Ret (i, d));
  encode_switch dst_length str len i d.

(** [base64_encode]: the result is [used_length] and the chars written to
    [dst], in order.  The source does not test [dst_length]: [dst] is the
    caller's buffer of [dst_length] bytes, and every [*d++ = ...] writes into
    it, so a write past its end is undefined. *)
Definition base64_encode (dst_length : Z) (src : list Z) (src_length : Z)
  : outcome (Z * list Z) :=
  let str := src in
  let len := src_length in
  '(i, d) ← (if len >? 5 then encode_loop (Z.to_nat len) dst_length str len 0 []
             else Ret (0, []));
  d ← encode_tail dst_length str len i d;
  Ret (wrap (Z.of_nat (length d)), d).

(** [enum {BAD=0xff}] *)
Definition BAD : Z := 255.

(** [base64_decode_table[]] *)
Definition base64_decode_table : list Z :=
  [BAD; BAD; BAD; BAD; BAD; BAD; BAD; BAD;
   BAD; BAD; BAD; BAD; BAD; BAD; BAD; BAD;
   BAD; BAD; BAD; BAD; BAD; BAD; BAD; BAD;
   BAD; BAD; BAD; BAD; BAD; BAD; BAD; BAD;
   BAD; BAD; BAD; BAD; BAD; BAD; BAD; BAD;
   BAD; BAD; BAD; 62; BAD; BAD; BAD; 63;
   52; 53; 54; 55; 56; 57; 58; 59;
   60; 61; BAD; BAD; BAD; BAD; BAD; BAD;
   BAD; 0; 1; 2; 3; 4; 5; 6;
   7; 8; 9; 10; 11; 12; 13; 14;
   15; 16; 17; 18; 19; 20; 21; 22;
   23; 24; 25; BAD; BAD; BAD; BAD; BAD;
   BAD; 26; 27; 28; 29; 30; 31; 32;
   33; 34; 35; 36; 37; 38; 39; 40;
   41; 42; 43; 44; 45; 46; 47; 48;
   49; 50; 51; BAD; BAD; BAD; BAD; BAD;
   BAD; BAD; BAD; BAD; BAD; BAD; BAD; BAD;
   BAD; BAD; BAD; BAD; BAD; BAD; BAD; BAD;
   BAD; BAD; BAD; BAD; BAD; BAD; BAD; BAD;
   BAD; BAD; BAD; BAD; BAD; BAD; BAD; BAD;
   BAD; BAD; BAD; BAD; BAD; BAD; BAD; BAD;
   BAD; BAD; BAD; BAD; BAD; BAD; BAD; BAD;
   BAD; BAD; BAD; BAD; BAD; BAD; BAD; BAD;
   BAD; BAD; BAD; BAD; BAD; BAD; BAD; BAD;
   BAD; BAD; BAD; BAD; BAD; BAD; BAD; BAD;
   BAD; BAD; BAD; BAD; BAD; BAD; BAD; BAD;
   BAD; BAD; BAD; BAD; BAD; BAD; BAD; BAD;
   BAD; BAD; BAD; BAD; BAD; BAD; BAD; BAD;
   BAD; BAD; BAD; BAD; BAD; BAD; BAD; BAD;
   BAD; BAD; BAD; BAD; BAD; BAD; BAD; BAD;
   BAD; BAD; BAD; BAD; BAD; BAD; BAD; BAD;
   BAD; BAD; BAD; BAD; BAD; BAD; BAD; BAD].

(** [base64_decode_table[c]] *)
Definition decode_load (c : Z) : outcome Z :=
  if c <? 0 then Undef
  else match base64_decode_table !! Z.to_nat c with
       | Some v => Ret v
       | None => Undef
       end.

(** [(uint8_t)x] *)
Definition uint8 (x : Z) : Z := Z.land x 255.

(** [for(;length > 3;length-=4)]: four chars into three bytes; [pos] is how
    far [src] has advanced, [len] the source's local [length]. *)
Fixpoint decode_loop (fuel : nat) (dst_length : Z) (src : list Z) (pos len bad : Z)
    (out : list Z) : outcome (Z * Z * Z * list Z) :=
  if len >? 3 then
    match fuel with
    | O => Diverge
    | S fuel =>
        c1 ← buf_load src pos;
        v1 ← decode_load c1;
        c2 ← buf_load src (pos + 1);
        v2 ← decode_load c2;
        c3 ← buf_load src (pos + 2);
        v3 ← decode_load c3;
        c4 ← buf_load src (pos + 3);
        v4 ← decode_load c4;
        let bad := Z.lor (Z.lor (Z.lor (Z.lor bad v1) v2) v3) v4 in
        out ← store_out dst_length out (uint8 (Z.lor (Z.shiftl v1 2) (Z.shiftr v2 4)));
        out ← store_out dst_length out (uint8 (Z.lor (Z.shiftl v2 4) (Z.shiftr v3 2)));
        out ← store_out dst_length out (uint8 (Z.lor (Z.shiftl v3 6) v4));
        decode_loop fuel dst_length src (pos + 4) (wrap (len - 4)) bad out
    end
  else Ret (pos, len, bad, out).

(** The cleanup loop [for(;length;length--)] with its [switch]. *)
Fixpoint decode_cleanup (fuel : nat) (dst_length : Z) (src : list Z)
    (pos len bad bits_remaining remainder : Z) (out : list Z)
  : outcome (Z * Z * Z * list Z) :=
  if len =? 0 then Ret (bad, bits_remaining, remainder, out)
  else
    match fuel with
    | O => Diverge
    | S fuel =>
        c ← buf_load src pos;
        v ← decode_load c;
        let bad := Z.lor bad v in
        '(bits_remaining, remainder, out) ←
          (if bits_remaining =? 0 then Ret (6, v, out)
           else if bits_remaining =? 2 then
             out ← store_out dst_length out (uint8 (Z.lor (Z.shiftl remainder 6) v));
             Ret (0, 0, out)
           else if bits_remaining =? 4 then
             out ← store_out dst_length out
                     (uint8 (Z.lor (Z.shiftl remainder 4) (Z.shiftr v 2)));
             Ret (2, Z.land v 3, out)
           else if bits_remaining =? 6 then
             out ← store_out dst_length out
                     (uint8 (Z.lor (Z.shiftl remainder 2) (Z.shiftr v 4)));
             Ret (4, Z.land v 15, out)
           else Undef);
        decode_cleanup fuel dst_length src (pos + 1) (wrap (len - 1)) bad
          bits_remaining remainder out
    end.

(** [base64_decode]: the result is the error code and the bytes written to
    [dst], in order. *)
Definition base64_decode (dst_length : Z) (src : list Z) (src_length : Z)
  : outcome (Base64Error * list Z) :=
  let size_needed := base64_decode_size src_length in
  if size_needed =? 0 then Ret (BASE64_NO_ERROR, [])
  else if wrap (dst_length + 1) <? size_needed then Ret (BASE64_WOULD_OVERFLOW, [])
  else
    '(pos, len, bad, out) ←
      decode_loop (Z.to_nat src_length) dst_length src 0 src_length 0 [];
    '(bad, bits_remaining, remainder, out) ←
      decode_cleanup (Z.to_nat len) dst_length src pos len bad 0 0 out;
    '(stop, out) ←
      (if size_needed =? dst_length then
         if bits_remaining =? 0 then Ret (false, out)
         else if bits_remaining =? 2 then
           out ← store_out dst_length out (uint8 (Z.shiftl remainder 6)); Ret (false, out)
         else if bits_remaining =? 4 then
           out ← store_out dst_length out (uint8 (Z.shiftl remainder 4)); Ret (false, out)
         else if bits_remaining =? 6 then
           out ← store_out dst_length out (uint8 (Z.shiftl remainder 2)); Ret (false, out)
         else Undef
       else if negb (remainder =? 0) then Ret (true, out)
       else Ret (false, out));
    if (stop : bool) then Ret (BASE64_DECODING_ERROR, out)
    else if negb (Z.land bad 192 =? 0) then Ret (BASE64_DECODING_ERROR, out)
    else Ret (BASE64_NO_ERROR, out).

(** *** Vocabulary of the base64 properties *)

Local Open Scope string_scope.

(** The base64 alphabet (the [base64_table] of the slower version the source
    keeps under [#if 0]): the char of each six-bit value. *)
Definition base64_alphabet : String.string :=
  "ABCDEFGHIJKLMNOPQRSTUVWXYZabcdefghijklmnopqrstuvwxyz0123456789+/".

Local Close Scope string_scope.

Definition alphabet_char (v : Z) : Z :=
  match String.get (Z.to_nat v) base64_alphabet with
  | Some c => Z.of_nat (Ascii.nat_of_ascii c)
  | None => 0
  end.

(** A buffer of bytes. *)
Definition is_bytes (l : list Z) : Prop := Forall (fun b => 0 <= b < 256) l.

(** The unpadded base64 text of a byte sequence: each three bytes give four
    chars, a rest of two bytes gives three chars and a rest of one byte two,
    the missing low bits being zero. *)
Fixpoint base64_chars (l : list Z) : list Z :=
  match l with
  | t1 :: t2 :: t3 :: rest =>
      alphabet_char (t1 / 4) :: alphabet_char (t1 mod 4 * 16 + t2 / 16)
        :: alphabet_char (t2 mod 16 * 4 + t3 / 64) :: alphabet_char (t3 mod 64)
        :: base64_chars rest
  | [t1; t2] =>
      [alphabet_char (t1 / 4); alphabet_char (t1 mod 4 * 16 + t2 / 16);
       alphabet_char (t2 mod 16 * 4)]
  | [t1] => [alphabet_char (t1 / 4); alphabet_char (t1 mod 4 * 16)]
  | [] => []
  end.

(** A char of the alphabet: the decode table gives it a six-bit value. *)
Definition is_base64_char (c : Z) : Prop :=
  exists v, decode_load c = Ret v /\ 0 <= v < 64.



(** ** String views ([stringview.h]) *)

(** [struct StringView]; [text] is an offset into the buffer of chars the
    view looks at. *)
Record StringView : Type := mkSV {
  sv_length : Z;
  sv_text : Z
}.

(** The loop of [lstrip]: [while(sv->length)] with its [switch]. *)
Fixpoint lstrip_loop (fuel : nat) (buf : list Z) (sv : StringView) : outcome StringView :=
  if sv_length sv =? 0 then Ret sv
  else
    match fuel with
    | O => Diverge
    | S fuel =>
        c ← buf_load buf (sv_text sv);
        if c =? 32 (* ' ' *) then
          lstrip_loop fuel buf (mkSV (wrap (sv_length sv - 1)) (sv_text sv + 1))
        else Ret sv
    end.

(** [lstrip] *)
Definition lstrip (buf : list Z) (sv : StringView) : outcome StringView :=
  lstrip_loop (Z.to_nat (sv_length sv)) buf sv.

(** The loop of [rstrip]. *)
Fixpoint rstrip_loop (fuel : nat) (buf : list Z) (sv : StringView) : outcome StringView :=
  if sv_length sv =? 0 then Ret sv
  else
    match fuel with
    | O => Diverge
    | S fuel =>
        c ← buf_load buf (sv_text sv + wrap (sv_length sv - 1));
        if c =? 32 (* ' ' *) then
          rstrip_loop fuel buf (mkSV (wrap (sv_length sv - 1)) (sv_text sv))
        else Ret sv
    end.

(** [rstrip] *)
Definition rstrip (buf : list Z) (sv : StringView) : outcome StringView :=
  rstrip_loop (Z.to_nat (sv_length sv)) buf sv.

(** The loop of [lstripc]: spaces and commas. *)
Fixpoint lstripc_loop (fuel : nat) (buf : list Z) (sv : StringView) : outcome StringView :=
  if sv_length sv =? 0 then Ret sv
  else
    match fuel with
    | O => Diverge
    | S fuel =>
        c ← buf_load buf (sv_text sv);
        if (c =? 32 (* ' ' *)) || (c =? 44 (* ',' *)) then
          lstripc_loop fuel buf (mkSV (wrap (sv_length sv - 1)) (sv_text sv + 1))
        else Ret sv
    end.

(** [lstripc] *)
Definition lstripc (buf : list Z) (sv : StringView) : outcome StringView :=
  lstripc_loop (Z.to_nat (sv_length sv)) buf sv.

(** [stripped] *)
Definition stripped (buf : list Z) (sv : StringView) : outcome StringView :=
  sv ← lstrip buf sv;
  rstrip buf sv.

(** [stripped2] *)
Definition stripped2 (buf : list Z) (txt : Z) (len : Z) : outcome StringView :=
  let sv := mkSV len txt in
  sv ← lstrip buf sv;
  rstrip buf sv.

(** [memcmp(a, b, n) == 0]: the [n] chars at the two offsets are read and
    compared. *)
Fixpoint memcmp_eq (buf : list Z) (a b : Z) (n : nat) : outcome bool :=
  match n with
  | O => Ret true
  | S n =>
      x ← buf_load buf a;
      y ← buf_load buf b;
      r ← memcmp_eq buf (a + 1) (b + 1) n;
      Ret ((x =? y) && r)
  end.

(** [sv_equals] *)
Definition sv_equals (buf : list Z) (a b : StringView) : outcome bool :=
  if negb (sv_length a =? sv_length b) then Ret false
  else memcmp_eq buf (sv_text a) (sv_text b) (Z.to_nat (sv_length a)).

(** The loop of [sv_iequals]: [false] is [return 0].  The chars are read as
    [uint8_t]; the buffer holds bytes, so [l |= 0x20u] stays a byte. *)
Fixpoint sv_iequals_loop (fuel : nat) (buf : list Z) (ap bp length i : Z) : outcome bool :=
  if i <? length then
    match fuel with
    | O => Diverge
    | S fuel =>
        l ← buf_load buf (ap + i);
        let l := Z.lor l 32 in
        r ← buf_load buf (bp + i);
        let r := Z.lor r 32 in
        if negb (l =? r) then Ret false
        else sv_iequals_loop fuel buf ap bp length (wrap (i + 1))
    end
  else Ret true.

(** [sv_iequals] *)
Definition sv_iequals (buf : list Z) (a b : StringView) : outcome bool :=
  if negb (sv_length a =? sv_length b) then Ret false
  else
    let length := sv_length a in
    sv_iequals_loop (Z.to_nat length) buf (sv_text a) (sv_text b) length 0.

(** *** Vocabulary of the string-view properties *)

(** The chars a view looks at. *)
Definition sv_chars (buf : list Z) (sv : StringView) : list Z :=
  take (Z.to_nat (sv_length sv)) (drop (Z.to_nat (sv_text sv)) buf).

(** The view lies within the buffer. *)
Definition sv_valid (buf : list Z) (sv : StringView) : Prop :=
  0 <= sv_text sv /\ 0 <= sv_length sv /\
  sv_text sv + sv_length sv <= Z.of_nat (length buf) /\
  Z.of_nat (length buf) < SIZE_MOD.

(** A list of chars without its leading spaces, and without its trailing
    spaces. *)
Fixpoint skip_spaces (l : list Z) : list Z :=
  match l with
  | [] => []
  | c :: l' => if c =? 32 then skip_spaces l' else l
  end.

Definition trim_spaces (l : list Z) : list Z :=
  rev (skip_spaces (rev (skip_spaces l))).

(** A list of chars without its leading spaces and commas. *)
Fixpoint skip_seps (l : list Z) : list Z :=
  match l with
  | [] => []
  | c :: l' => if (c =? 32) || (c =? 44) then skip_seps l' else l
  end.

(** * Properties *)

(** ** Rounding *)

Lemma land7_mod8 (z : Z) : Z.land z 7 = z mod 8.
Proof. change 7 with (Z.ones 3). rewrite Z.land_ones by lia. reflexivity. Qed.

Lemma wrap_range (z : Z) : 0 <= wrap z < SIZE_MOD.
Proof. unfold wrap, SIZE_MOD. apply Z.mod_pos_bound. lia. Qed.

Lemma wrap_small (z : Z) : 0 <= z < SIZE_MOD -> wrap z = z.
Proof. intros H. unfold wrap. apply Z.mod_small. exact H. Qed.

Lemma wrap_mod8 (z : Z) : wrap z mod 8 = z mod 8.
Proof.
  unfold wrap, SIZE_MOD.
  replace (2 ^ 64) with (8 * 2 ^ 61) by reflexivity.
  rewrite Z.rem_mul_r by lia.
  rewrite Z.add_mod by lia. rewrite Z.mul_comm, Z.mod_mul by lia.
  rewrite Z.add_0_r. rewrite !Z.mod_mod by lia. reflexivity.
Qed.

Lemma round_size_up_aligned (z : Z) : ArenaAllocator_round_size_up z mod 8 = 0.
Proof.
  unfold ArenaAllocator_round_size_up. rewrite land7_mod8.
  destruct (Z.eqb_spec (z mod 8) 0) as [E | E]; [exact E |].
  rewrite wrap_mod8.
  replace (z + (8 - z mod 8)) with (z - z mod 8 + 1 * 8) by lia.
  rewrite Z.mod_add by lia.
  rewrite Zminus_mod_idemp_r. rewrite Z.sub_diag. reflexivity.
Qed.

Lemma round_size_up_fixed (z : Z) : z mod 8 = 0 -> ArenaAllocator_round_size_up z = z.
Proof.
  intros H. unfold ArenaAllocator_round_size_up. rewrite land7_mod8, H. reflexivity.
Qed.

Lemma round_size_up_idem (z : Z) :
  ArenaAllocator_round_size_up (ArenaAllocator_round_size_up z) = ArenaAllocator_round_size_up z.
Proof. apply round_size_up_fixed, round_size_up_aligned. Qed.

Lemma round_size_up_bounds (z : Z) :
  0 <= z <= SIZE_MOD - 8 ->
  z <= ArenaAllocator_round_size_up z < z + 8 /\ ArenaAllocator_round_size_up z <= SIZE_MOD - 8.
Proof.
  intros H. unfold ArenaAllocator_round_size_up. rewrite land7_mod8.
  pose proof (Z.mod_pos_bound z 8 ltac:(lia)) as Hm.
  destruct (Z.eqb_spec (z mod 8) 0) as [E | E]; [lia |].
  assert (Hlt : z + (8 - z mod 8) <= SIZE_MOD - 8).
  { pose proof (Z.div_mod z 8 ltac:(lia)) as Hd.
    assert (z / 8 < 2 ^ 61) by (apply Z.div_lt_upper_bound; unfold SIZE_MOD in *; lia).
    unfold SIZE_MOD in *. lia. }
  rewrite wrap_small by (unfold SIZE_MOD in *; lia). lia.
Qed.

Lemma round_size_up_range (z : Z) :
  0 <= z < SIZE_MOD -> 0 <= ArenaAllocator_round_size_up z < SIZE_MOD.
Proof.
  intros H. unfold ArenaAllocator_round_size_up.
  destruct (Z.land z 7 =? 0); [exact H | apply wrap_range].
Qed.

Lemma round_size_up_mono (x y : Z) :
  0 <= x <= y -> y <= SIZE_MOD - 8 ->
  ArenaAllocator_round_size_up x <= ArenaAllocator_round_size_up y.
Proof.
  intros Hxy Hy.
  pose proof (round_size_up_bounds x ltac:(lia)) as [Hx _].
  pose proof (round_size_up_bounds y ltac:(lia)) as [Hy' _].
  pose proof (round_size_up_aligned x) as Ax.
  pose proof (round_size_up_aligned y) as Ay.
  set (rx := ArenaAllocator_round_size_up x) in *.
  set (ry := ArenaAllocator_round_size_up y) in *.
  destruct (Z_le_gt_dec rx ry) as [L | G]; [exact L | exfalso].
  apply Z.mod_divide in Ax; [| lia]. apply Z.mod_divide in Ay; [| lia].
  destruct Ax as [kx Ex], Ay as [ky Ey]. lia.
Qed.

(** ** good_size *)

Lemma good_size_returns (pf : platform) (a : Allocator) (s : Z) :
  is_strategy (type a) ->
  exists g, Allocator_good_size pf a s = Ret g.
Proof.
  unfold is_strategy, Allocator_good_size. intros H.
  destruct (type a); try congruence; eexists; reflexivity.
Qed.

(** C5, the size that wraps: for the arena strategy the size [2^64 - 1]
    rounds up past [2^64] and the granted size is 0, below the request. *)
Lemma good_size_arena_wraps :
  is_size (2 ^ 64 - 1) /\
  Allocator_good_size Portable (mkAllocator ALLOCATOR_ARENA NULL) (2 ^ 64 - 1) = Ret 0 /\
  ~ (0 >= 2 ^ 64 - 1).
Proof.
  split; [unfold is_size, SIZE_MOD; lia |].
  split; [vm_compute; reflexivity | lia].
Qed.

(** C5 (amended): for every strategy and every size [s], [good_size] returns
    a size [g] that is granted as it is ([good_size g = g]); [g >= s] holds
    whenever [s <= 2^64 - 8], and for every [s] when the strategy is not the
    arena.  For the arena [g] is the 8-byte rounding of [s] modulo [2^64]. *)
Theorem good_size_ge_idempotent (pf : platform) (a : Allocator) (s : Z) :
  platform_ok pf ->
  is_strategy (type a) ->
  is_size s ->
  exists g,
    Allocator_good_size pf a s = Ret g /\
    Allocator_good_size pf a g = Ret g /\
    (s <= SIZE_MOD - 8 \/ type a <> ALLOCATOR_ARENA -> g >= s) /\
    (type a = ALLOCATOR_ARENA -> g = ArenaAllocator_round_size_up s /\ g mod 8 = 0).
Proof.
  intros Hpf Hstrat Hs. unfold is_strategy in Hstrat.
  assert (Hheap : forall t, t = heap_good_size pf s ->
            heap_good_size pf t = t /\ t >= s).
  { intros t ->. destruct pf as [f |]; simpl in *.
    - destruct (Hpf s Hs) as (_ & Hge & Hidem). split; [exact Hidem | lia].
    - split; [reflexivity | lia]. }
  unfold Allocator_good_size.
  destruct (type a) eqn:Ht; try congruence.
  - exists (heap_good_size pf s).
    destruct (Hheap _ eq_refl) as [Hi Hg]. rewrite Hi.
    repeat split; try done.
  - exists (ArenaAllocator_round_size_up s).
    rewrite round_size_up_idem. repeat split.
    + intros [Hle | Hne]; [| congruence].
      destruct Hs as [Hs0 _].
      pose proof (round_size_up_bounds s (conj Hs0 Hle)) as [[Hlo _] _]. lia.
    + apply round_size_up_aligned.
  - exists s. repeat split; try done. intros _. lia.
  - exists (heap_good_size pf s).
    destruct (Hheap _ eq_refl) as [Hi Hg]. rewrite Hi.
    repeat split; try done.
  - exists (heap_good_size pf s).
    destruct (Hheap _ eq_refl) as [Hi Hg]. rewrite Hi.
    repeat split; try done.
Qed.

Lemma good_size_ge_idempotent_witness :
  exists g,
    Allocator_good_size Portable (mkAllocator ALLOCATOR_ARENA NULL) 13 = Ret g /\
    Allocator_good_size Portable (mkAllocator ALLOCATOR_ARENA NULL) g = Ret g /\
    (13 <= SIZE_MOD - 8 \/ ALLOCATOR_ARENA <> ALLOCATOR_ARENA -> g >= 13) /\
    (ALLOCATOR_ARENA = ALLOCATOR_ARENA -> g = ArenaAllocator_round_size_up 13 /\ g mod 8 = 0).
Proof.
  apply (good_size_ge_idempotent Portable (mkAllocator ALLOCATOR_ARENA NULL) 13).
  - exact I.
  - unfold is_strategy. simpl. discriminate.
  - unfold is_size, SIZE_MOD. lia.
Defined.

(** ** Usage errors of the dispatch *)

(** C9: each of the seven dispatch operations aborts on an Unset handle,
    whatever its arguments; [free_all] aborts on the Heap ([ALLOCATOR_MALLOC])
    and Null strategies; [supports_free_all] returns 0 for Heap and Null and
    1 for Arena, Recording and Testing. *)
Theorem dispatch_usage_errors
    (pf : platform) (w : World) (d p m : ptr) (g : ptr * ptr) (size old_size : Z) :
  let unset := mkAllocator ALLOCATOR_UNSET d in
  (Allocator_alloc w unset size m g = Abort /\
   Allocator_zalloc w unset size m g = Abort /\
   Allocator_realloc w unset p old_size size m g = Abort /\
   Allocator_free w unset p size = Abort /\
   Allocator_free_all w unset = Abort /\
   Allocator_good_size pf unset size = Abort /\
   Allocator_supports_free_all unset = Abort) /\
  (Allocator_free_all w (mkAllocator ALLOCATOR_MALLOC d) = Abort /\
   Allocator_free_all w (mkAllocator ALLOCATOR_NULL d) = Abort) /\
  (Allocator_supports_free_all (mkAllocator ALLOCATOR_MALLOC d) = Ret 0 /\
   Allocator_supports_free_all (mkAllocator ALLOCATOR_NULL d) = Ret 0 /\
   Allocator_supports_free_all (mkAllocator ALLOCATOR_ARENA d) = Ret 1 /\
   Allocator_supports_free_all (mkAllocator ALLOCATOR_RECORDED d) = Ret 1 /\
   Allocator_supports_free_all (mkAllocator ALLOCATOR_TESTING d) = Ret 1).
Proof. repeat split; reflexivity. Qed.

(** ** Freeing NULL *)

Lemma world_insert_same (w : World) (d : ptr) (c : context) :
  w_ctx w !! d = Some c -> mkWorld (w_heap w) (<[d := c]> (w_ctx w)) = w.
Proof. intros H. destruct w as [h cx]; simpl in *. f_equal. by apply insert_id. Qed.

Lemma ArenaAllocator_free_null (asz : Z) (s : ArenaSt) (size : Z) :
  ArenaAllocator_free asz s NULL size = Ret s.
Proof. reflexivity. Qed.

Lemma ArenaAllocator_free_zero (asz : Z) (s : ArenaSt) (p : ptr) :
  ArenaAllocator_free asz s p 0 = Ret s.
Proof. unfold ArenaAllocator_free. destruct (p =? NULL); reflexivity. Qed.

Lemma recording_free_null (r : RecordingAllocator) (h : Heap) (size : Z) :
  recording_free r h NULL size = Ret (r, h).
Proof. reflexivity. Qed.

Lemma testing_free_null (t : TestingAllocator) (h : Heap) (size : Z) :
  testing_free t h NULL size = Ret (t, h).
Proof. destruct t. reflexivity. Qed.

(** C10: for every strategy and every size, [free(NULL, size)] through a
    configured handle returns and leaves the heap and every context as they
    were, also for Recording and Testing, where [NULL] is in no ledger; for
    the arena strategy [free(p, 0)] does the same for every [p]. *)
Theorem free_null_accepted (w : World) (a : Allocator) (size : Z) (p : ptr) :
  configured w a ->
  Allocator_free w a NULL size = Ret w /\
  (type a = ALLOCATOR_ARENA -> Allocator_free w a p 0 = Ret w).
Proof.
  unfold configured, Allocator_free. intros Hc.
  destruct (type a) eqn:Ht; try contradiction.
  - split; [destruct w; reflexivity | discriminate].
  - destruct Hc as [c Hc]. unfold load_arena_ctx. rewrite Hc. simpl.
    rewrite ArenaAllocator_free_zero. simpl.
    unfold store_arena_ctx; simpl.
    split; [| intros _]; f_equal; by apply world_insert_same.
  - split; [reflexivity | discriminate].
  - destruct Hc as [r Hc]. unfold load_recording_ctx. rewrite Hc. simpl.
    split; [f_equal; by apply world_insert_same | discriminate].
  - destruct Hc as [t Hc]. unfold load_testing_ctx. rewrite Hc. simpl.
    split; [| discriminate].
    destruct t; simpl. f_equal. by apply world_insert_same.
Qed.

Lemma free_null_accepted_witness :
  Allocator_free example_world (mkAllocator ALLOCATOR_ARENA 4096) NULL 24
    = Ret example_world /\
  (ALLOCATOR_ARENA = ALLOCATOR_ARENA ->
   Allocator_free example_world (mkAllocator ALLOCATOR_ARENA 4096) 12345 0
     = Ret example_world).
Proof.
  apply (free_null_accepted example_world (mkAllocator ALLOCATOR_ARENA 4096) 24 12345).
  exists (mkAA NULL (mkNode NULL NULL)). reflexivity.
Defined.

(** ** Misuse detection of the recording allocator *)

Lemma array_load_lt {A : Type} (a : list A) (i : nat) :
  (i < length a)%nat -> exists x, a !! i = Some x /\ array_load a i = Ret x.
Proof.
  intros H. destruct (lookup_lt_is_Some_2 a i H) as [x Hx].
  exists x. unfold array_load. by rewrite Hx.
Qed.

Lemma find_slot_spec (al : list ptr) (data : ptr) (c : nat) :
  (c <= length al)%nat ->
  (exists i, find_slot al data c = Ret (Some i) /\
             (i < c)%nat /\ al !! i = Some data /\
             forall j, (i < j < c)%nat -> al !! j <> Some data) \/
  (find_slot al data c = Ret None /\
   forall j, (j < c)%nat -> al !! j <> Some data).
Proof.
  induction c as [| c IH]; intros Hc.
  - right. split; [reflexivity | intros j Hj; lia].
  - destruct (array_load_lt al c ltac:(lia)) as (x & Hx & Hl).
    simpl. rewrite Hl. simpl.
    destruct (Z.eqb_spec data x) as [-> | Hne].
    + left. exists c. repeat split; [lia | exact Hx | intros j Hj; lia].
    + destruct (IH ltac:(lia)) as [(i & Hf & Hi & Hd & Hafter) | [Hf Hnone]].
      * left. exists i. repeat split; [exact Hf | lia | exact Hd |].
        intros j Hj. destruct (decide (j = c)) as [-> | Hjc].
        -- rewrite Hx. congruence.
        -- apply Hafter. lia.
      * right. split; [exact Hf |].
        intros j Hj. destruct (decide (j = c)) as [-> | Hjc].
        -- rewrite Hx. congruence.
        -- apply Hnone. lia.
Qed.

Lemma trim_count_spec (sz : list Z) (c : nat) :
  (c <= length sz)%nat ->
  exists c', trim_count sz c = Ret c' /\ trimmed sz c c'.
Proof.
  unfold trimmed. induction c as [| c IH]; intros Hc.
  - exists O. repeat split; [lia | intros j Hj; lia | by left].
  - destruct (array_load_lt sz c ltac:(lia)) as (x & Hx & Hl).
    simpl. rewrite Hl. simpl.
    destruct (Z.eqb_spec x 0) as [-> | Hne].
    + destruct (IH ltac:(lia)) as (c' & Ht & Hle & Hz & Hlast).
      exists c'. repeat split; [exact Ht | lia | | exact Hlast].
      intros j Hj. destruct (decide (j = c)) as [-> | Hjc]; [exact Hx |].
      apply Hz. lia.
    + exists (S c). repeat split; [lia | intros j Hj; lia |].
      right. exists x. simpl. by split.
Qed.

Lemma tracked_unique (r : RecordingAllocator) (data : ptr) (i j : nat) :
  tracked_at r data i -> tracked_at r data j -> i = j.
Proof.
  intros (Hi & Hdi & Hai) (Hj & Hdj & Haj).
  destruct (Nat.lt_trichotomy i j) as [L | [E | G]]; [| exact E |].
  - exfalso. apply (Hai j); [lia | exact Hdj].
  - exfalso. apply (Haj i); [lia | exact Hdi].
Qed.

Lemma find_slot_tracked (r : RecordingAllocator) (data : ptr) (i : nat) :
  ledger_wf r -> tracked_at r data i ->
  find_slot (allocations r) data (count r) = Ret (Some i).
Proof.
  intros (Hc & Hla & _ & _) Ht.
  destruct (find_slot_spec (allocations r) data (count r) ltac:(lia))
    as [(k & Hf & Hk) | [_ Hnone]].
  - rewrite Hf. do 2 f_equal. apply (tracked_unique r data); [exact Hk | exact Ht].
  - destruct Ht as (Hi & Hd & _). exfalso. by apply (Hnone i).
Qed.

Lemma find_slot_untracked (r : RecordingAllocator) (data : ptr) :
  ledger_wf r -> untracked r data ->
  find_slot (allocations r) data (count r) = Ret None.
Proof.
  intros (Hc & Hla & _ & _) Hu.
  destruct (find_slot_spec (allocations r) data (count r) ltac:(lia))
    as [(k & _ & Hk & Hd & _) | [Hf _]]; [| exact Hf].
  exfalso. by apply (Hu k).
Qed.

Lemma vacate_slot_spec (r : RecordingAllocator) (i : nat) :
  ledger_wf r -> (i < count r)%nat ->
  exists c',
    vacate_slot r i =
      Ret (mkRec (<[i := NULL]> (allocations r)) (<[i := 0]> (allocation_sizes r))
                 c' (capacity r) (allocations_at r) (allocation_sizes_at r)) /\
    trimmed (<[i := 0]> (allocation_sizes r)) (count r) c'.
Proof.
  intros (Hc & Hla & Hls & _) Hi. unfold vacate_slot, array_store.
  rewrite !decide_True by lia. simpl.
  destruct (trim_count_spec (<[i := 0]> (allocation_sizes r)) (count r)) as (c' & Ht & Htr).
  { rewrite length_insert. lia. }
  exists c'. rewrite Ht. simpl. by split.
Qed.

Lemma testing_free_lift (t : TestingAllocator) (h : Heap) (data : ptr) (size : Z) :
  testing_free t h data size = lift_free t (recording_free (recorder t) h data size).
Proof.
  unfold testing_free, LOCK_T_lock, LOCK_T_unlock, lift_free.
  destruct (recording_free (recorder t) h data size) as [[r' h'] | | |]; reflexivity.
Qed.

(** C8: [free] of a non-null pointer on a well-formed ledger.  If no slot
    holds the pointer the call aborts; if the slot found by the reverse scan
    records another size the call aborts; if the size matches (and the
    pointer is live in the heap) the call returns with the object released,
    the slot nulled (pointer NULL, size 0) and the count trimmed past the
    trailing slots of size 0; the two arrays stay where they are.
    [testing_free] is [recording_free] on the testing allocator's ledger, so
    it aborts in the same cases. *)
Theorem recording_free_misuse_detected
    (r : RecordingAllocator) (h : Heap) (data : ptr) (size : Z)
    (i : nat) (recorded : Z) :
  ledger_wf r ->
  data <> NULL ->
  (untracked r data -> recording_free r h data size = Abort) /\
  (tracked_at r data i -> allocation_sizes r !! i = Some recorded ->
     (recorded <> size -> recording_free r h data size = Abort) /\
     (recorded = size -> is_Some (objs h !! data) ->
        exists c',
          recording_free r h data size =
            Ret (mkRec (<[i := NULL]> (allocations r))
                       (<[i := 0]> (allocation_sizes r)) c' (capacity r)
                       (allocations_at r) (allocation_sizes_at r),
                 mkHeap (delete data (objs h)) (mem h)) /\
          trimmed (<[i := 0]> (allocation_sizes r)) (count r) c')) /\
  (forall t, recorder t = r ->
     testing_free t h data size = lift_free t (recording_free r h data size)).
Proof.
  intros Hwf Hnn.
  assert (Hd : (data =? NULL) = false) by (apply Z.eqb_neq; exact Hnn).
  split; [| split].
  - intros Hu. unfold recording_free. rewrite Hd.
    rewrite (find_slot_untracked r data Hwf Hu). reflexivity.
  - intros Ht Hsz. unfold recording_free. rewrite Hd.
    rewrite (find_slot_tracked r data i Hwf Ht). simpl.
    unfold array_load. rewrite Hsz. simpl.
    split.
    + intros Hne. destruct (Z.eqb_spec size recorded) as [E | _]; [congruence |].
      reflexivity.
    + intros <- [o Ho]. rewrite Z.eqb_refl. simpl.
      unfold heap_free. rewrite Hd, Ho. simpl.
      destruct Ht as (Hi & _).
      destruct (vacate_slot_spec r i Hwf Hi) as (c' & Hv & Htr).
      exists c'. rewrite Hv. simpl. by split.
  - intros t <-. apply testing_free_lift.
Qed.

Lemma recording_free_misuse_detected_witness :
  (untracked example_ledger 8192 ->
     recording_free example_ledger example_ledger_heap 8192 8 = Abort) /\
  (tracked_at example_ledger 8192 1 -> allocation_sizes example_ledger !! 1%nat = Some 16 ->
     (16 <> 8 -> recording_free example_ledger example_ledger_heap 8192 8 = Abort) /\
     (16 = 8 -> is_Some (objs example_ledger_heap !! 8192) ->
        exists c',
          recording_free example_ledger example_ledger_heap 8192 8 =
            Ret (mkRec (<[1%nat := NULL]> (allocations example_ledger))
                       (<[1%nat := 0]> (allocation_sizes example_ledger)) c'
                       (capacity example_ledger)
                       (allocations_at example_ledger) (allocation_sizes_at example_ledger),
                 mkHeap (delete 8192 (objs example_ledger_heap)) (mem example_ledger_heap)) /\
          trimmed (<[1%nat := 0]> (allocation_sizes example_ledger)) (count example_ledger) c')) /\
  (forall t, recorder t = example_ledger ->
     testing_free t example_ledger_heap 8192 8 =
       lift_free t (recording_free example_ledger example_ledger_heap 8192 8)).
Proof.
  apply (recording_free_misuse_detected example_ledger example_ledger_heap 8192 8 1 16).
  - unfold ledger_wf. simpl. repeat split; (lia || discriminate).
  - discriminate.
Defined.

(** The three cases of C8 on the example ledger: a wrong size and an
    untracked pointer abort; a matching free of the last entry releases it
    and trims the count to 1. *)
Example recording_free_examples :
  recording_free example_ledger example_ledger_heap 8192 8 = Abort /\
  recording_free example_ledger example_ledger_heap 12288 16 = Abort /\
  recording_free example_ledger example_ledger_heap 8192 16 =
    Ret (mkRec [4096; NULL] [8; 0] 1 2 256 512,
         mkHeap (<[256 := ORaw 16]> (<[512 := ORaw 16]> {[ 4096 := ORaw 8 ]})) ∅).
Proof. repeat split; vm_compute; reflexivity. Qed.

(** ** The ledger and its storage *)

(** *** Growth of the ledger *)

Lemma eqb_NULL_false (p : ptr) : p <> NULL -> (p =? NULL) = false.
Proof. intros H. by apply Z.eqb_neq. Qed.

Lemma slots_at_length {A : Type} (p : ptr) (l : list A) (n : nat) :
  (n < length (slots_at p l))%nat -> p <> NULL /\ slots_at p l = l.
Proof.
  unfold slots_at. destruct (Z.eqb_spec p NULL) as [-> | Hp]; [cbn; lia | done].
Qed.

Lemma slots_at_granted {A : Type} (p : ptr) (l : list A) :
  p <> NULL -> slots_at p l = l.
Proof. unfold slots_at. by destruct (Z.eqb_spec p NULL). Qed.

(** The realloc of a live array: the object moves from [p] to [m], and no
    payload byte is copied. *)
Lemma heap_realloc_array (h : Heap) (p : ptr) (n : Z) (m : ptr) (o : object) :
  p <> NULL -> m <> NULL -> objs h !! p = Some o ->
  heap_realloc h p 0 n m
    = Ret (mkHeap (<[m := match o with ORaw _ => ORaw n | _ => o end]> (delete p (objs h)))
                  (mem h)).
Proof.
  intros Hp Hm Ho. unfold heap_realloc.
  destruct (Z.eqb_spec m NULL) as [? | _]; [done |].
  destruct (Z.eqb_spec p NULL) as [? | _]; [done |].
  rewrite Ho. by destruct (m =? p).
Qed.

Lemma heap_realloc_array_inv (h h' : Heap) (p : ptr) (n : Z) (m : ptr) :
  p <> NULL -> m <> NULL ->
  heap_realloc h p 0 n m = Ret h' ->
  exists o o', objs h !! p = Some o /\
               h' = mkHeap (<[m := o']> (delete p (objs h))) (mem h).
Proof.
  intros Hp Hm E. destruct (objs h !! p) as [o |] eqn:Ho.
  - rewrite (heap_realloc_array h p n m o Hp Hm Ho) in E. injection E as <-. eauto.
  - unfold heap_realloc in E.
    destruct (Z.eqb_spec m NULL) as [? | _]; [done |].
    destruct (Z.eqb_spec p NULL) as [? | _]; [done |].
    by rewrite Ho in E.
Qed.

(** What a call of [recording_ensure_capacity] has done when it returned and
    the arrays it left have a slot at [count]: nothing, when the ledger had a
    free slot; else both arrays were granted, by [malloc] for a ledger
    without slots and by [realloc] of the two live arrays otherwise. *)
Lemma recording_ensure_capacity_inv
    (r rg : RecordingAllocator) (h hg : Heap) (g : ptr * ptr) :
  ledger_wf r ->
  recording_ensure_capacity r h g = Ret (rg, hg) ->
  (count rg < length (allocations rg))%nat ->
  (count rg < length (allocation_sizes rg))%nat ->
  (rg = r /\ hg = h /\ (count r < capacity r)%nat) \/
  (capacity r = 0%nat /\ g.1 <> NULL /\ g.2 <> NULL /\
   rg = mkRec (replicate INITIAL_CAPACITY 0) (replicate INITIAL_CAPACITY 0)
              (count r) INITIAL_CAPACITY g.1 g.2 /\
   hg = mkHeap (<[g.2 := ORaw (array_bytes INITIAL_CAPACITY)]>
                  (<[g.1 := ORaw (array_bytes INITIAL_CAPACITY)]> (objs h))) (mem h)) \/
  (capacity r <> 0%nat /\ count r = capacity r /\ g.1 <> NULL /\ g.2 <> NULL /\
   exists o1 o1' o2 o2',
     objs h !! allocations_at r = Some o1 /\
     <[g.1 := o1']> (delete (allocations_at r) (objs h)) !! allocation_sizes_at r = Some o2 /\
     rg = mkRec (allocations r ++ replicate (capacity r * 2 - capacity r) 0)
                (allocation_sizes r ++ replicate (capacity r * 2 - capacity r) 0)
                (count r) (capacity r * 2) g.1 g.2 /\
     hg = mkHeap (<[g.2 := o2']>
                    (delete (allocation_sizes_at r)
                       (<[g.1 := o1']> (delete (allocations_at r) (objs h))))) (mem h)).
Proof.
  intros (Hc & Hla & Hls & Hnn) E Hs1 Hs2. unfold recording_ensure_capacity in E.
  destruct (decide (count r < capacity r)%nat) as [Hlt | Hge].
  { left. by injection E as <- <-. }
  right. destruct (decide (capacity r = 0%nat)) as [Hz | Hnz].
  - left. injection E as <- <-. cbn [count allocations allocation_sizes] in Hs1, Hs2.
    destruct (slots_at_length _ _ _ Hs1) as [Hg1 E1].
    destruct (slots_at_length _ _ _ Hs2) as [Hg2 E2].
    rewrite E1, E2. unfold heap_malloc.
    rewrite (proj2 (Z.eqb_neq _ _) Hg1). cbn [objs mem].
    rewrite (proj2 (Z.eqb_neq _ _) Hg2). cbn [objs mem]. done.
  - right. destruct (Hnn Hnz) as [Ha1 Ha2].
    destruct (heap_realloc h (allocations_at r) 0 _ g.1) as [h1 | | |] eqn:R1;
      cbn [mbind outcome_bind] in E; try discriminate.
    destruct (heap_realloc h1 (allocation_sizes_at r) 0 _ g.2) as [h2 | | |] eqn:R2;
      cbn [mbind outcome_bind] in E; try discriminate.
    injection E as <- <-. cbn [count allocations allocation_sizes] in Hs1, Hs2.
    destruct (slots_at_length _ _ _ Hs1) as [Hg1 E1].
    destruct (slots_at_length _ _ _ Hs2) as [Hg2 E2].
    rewrite E1, E2.
    destruct (heap_realloc_array_inv _ _ _ _ _ Ha1 Hg1 R1) as (o1 & o1' & Ho1 & ->).
    destruct (heap_realloc_array_inv _ _ _ _ _ Ha2 Hg2 R2) as (o2 & o2' & Ho2 & ->).
    cbn [objs mem] in *.
    split; [done |]. split; [lia |]. split; [done |]. split; [done |].
    exists o1, o1', o2, o2'. done.
Qed.

(** The ledger that it leaves is well formed and has a free slot; the slots
    that the ledger had are as they were, and so is every payload byte. *)
Lemma recording_ensure_capacity_wf
    (r rg : RecordingAllocator) (h hg : Heap) (g : ptr * ptr) :
  ledger_wf r ->
  recording_ensure_capacity r h g = Ret (rg, hg) ->
  (count rg < length (allocations rg))%nat ->
  (count rg < length (allocation_sizes rg))%nat ->
  ledger_wf rg /\ count rg = count r /\ (count rg < capacity rg)%nat /\
  (forall j, (j < capacity r)%nat ->
     allocations rg !! j = allocations r !! j /\
     allocation_sizes rg !! j = allocation_sizes r !! j) /\
  mem hg = mem h.
Proof.
  intros Hwf E Hs1 Hs2. pose proof Hwf as (Hc & Hla & Hls & Hnn).
  destruct (recording_ensure_capacity_inv r rg h hg g Hwf E Hs1 Hs2)
    as [(-> & -> & Hlt) | [(Hz & Hg1 & Hg2 & -> & ->) |
        (Hnz & Hfull & Hg1 & Hg2 & o1 & o1' & o2 & o2' & _ & _ & -> & ->)]].
  - done.
  - unfold ledger_wf, INITIAL_CAPACITY. cbn [count capacity allocations allocation_sizes
      allocations_at allocation_sizes_at mem]. rewrite !length_replicate.
    repeat split; try done; try lia.
  - unfold ledger_wf. cbn [count capacity allocations allocation_sizes
      allocations_at allocation_sizes_at mem]. rewrite !length_app, !length_replicate.
    repeat split; try done; try lia; rewrite lookup_app_l; auto; lia.
Qed.

(** When the heap grants the ledger what it asks, and the arrays of a ledger
    that has slots are two live objects, the call returns and leaves a slot
    at [count] in both arrays. *)
Lemma recording_ensure_capacity_granted
    (r : RecordingAllocator) (h : Heap) (g : ptr * ptr) :
  ledger_wf r -> ledger_granted r g ->
  (capacity r <> 0%nat ->
   is_Some (objs h !! allocations_at r) /\ is_Some (objs h !! allocation_sizes_at r) /\
   allocations_at r <> allocation_sizes_at r) ->
  exists rg hg,
    recording_ensure_capacity r h g = Ret (rg, hg) /\
    (count rg < length (allocations rg))%nat /\
    (count rg < length (allocation_sizes rg))%nat.
Proof.
  intros (Hc & Hla & Hls & Hnn) Hg Hst. unfold recording_ensure_capacity.
  destruct (decide (count r < capacity r)%nat) as [Hlt | Hge].
  { exists r, h. split; [done | lia]. }
  destruct Hg as [? | [Hg1 Hg2]]; [lia |].
  destruct (decide (capacity r = 0%nat)) as [Hz | Hnz].
  - eexists _, _. split; [reflexivity |].
    cbn [count allocations allocation_sizes]. rewrite !slots_at_granted by done.
    rewrite !length_replicate. unfold INITIAL_CAPACITY. lia.
  - destruct (Hnn Hnz) as [Ha1 Ha2]. destruct (Hst Hnz) as ([o1 Ho1] & [o2 Ho2] & Hne).
    rewrite (heap_realloc_array h _ _ _ o1 Ha1 Hg1 Ho1). cbn [mbind outcome_bind].
    assert (Hl2 : is_Some (<[g.1 := match o1 with ORaw _ => ORaw (array_bytes (capacity r * 2))
                                         | _ => o1 end]>
                             (delete (allocations_at r) (objs h)) !! allocation_sizes_at r)).
    { destruct (decide (allocation_sizes_at r = g.1)) as [-> | Hd].
      - rewrite lookup_insert_eq. eauto.
      - rewrite lookup_insert_ne, lookup_delete_ne by done. eauto. }
    destruct Hl2 as [o2' Ho2'].
    rewrite (heap_realloc_array (mkHeap _ _) _ _ _ o2' Ha2 Hg2 Ho2'). cbn [mbind outcome_bind].
    eexists _, _. split; [reflexivity |].
    cbn [count allocations allocation_sizes]. rewrite !slots_at_granted by done.
    rewrite !length_app, !length_replicate. lia.
Qed.

Lemma record_entry_inv (r r' : RecordingAllocator) (p : ptr) (size : Z) :
  record_entry r p size = Ret r' ->
  (count r < length (allocations r))%nat /\
  (count r < length (allocation_sizes r))%nat /\
  r' = mkRec (<[count r := p]> (allocations r)) (<[count r := size]> (allocation_sizes r))
             (S (count r)) (capacity r) (allocations_at r) (allocation_sizes_at r).
Proof.
  unfold record_entry, array_store. intros H.
  destruct (decide (count r < length (allocations r))%nat);
    cbn [mbind outcome_bind] in H; [| discriminate].
  destruct (decide _); cbn [mbind outcome_bind] in H; [| discriminate].
  injection H as <-. auto.
Qed.

Lemma record_entry_spec (r : RecordingAllocator) (p : ptr) (z : Z) :
  ledger_wf r -> (count r < capacity r)%nat ->
  let r' := mkRec (<[count r := p]> (allocations r)) (<[count r := z]> (allocation_sizes r))
                  (S (count r)) (capacity r) (allocations_at r) (allocation_sizes_at r) in
  record_entry r p z = Ret r' /\ ledger_wf r' /\
  allocations r' !! count r = Some p /\ allocation_sizes r' !! count r = Some z.
Proof.
  intros (Hc & Hla & Hls & Hnn) Hlt. unfold record_entry, array_store.
  rewrite !decide_True by lia. simpl. unfold ledger_wf. simpl.
  rewrite !length_insert.
  repeat split; try lia; try (by apply Hnn); apply list_lookup_insert_eq; lia.
Qed.

(** A new entry, after the ledger made room for it. *)
Lemma record_entry_lookup
    (r rg r' : RecordingAllocator) (h hg : Heap) (g : ptr * ptr) (p : ptr) (z : Z) :
  ledger_wf r ->
  recording_ensure_capacity r h g = Ret (rg, hg) ->
  record_entry rg p z = Ret r' ->
  ledger_wf r' /\ count r' = S (count r) /\
  allocations r' !! count r = Some p /\ allocation_sizes r' !! count r = Some z /\
  (forall j, (j < count r)%nat ->
     allocations r' !! j = allocations r !! j /\
     allocation_sizes r' !! j = allocation_sizes r !! j) /\
  mem hg = mem h.
Proof.
  intros Hwf Eg E.
  destruct (record_entry_inv _ _ _ _ E) as (Hs1 & Hs2 & _).
  destruct (recording_ensure_capacity_wf r rg h hg g Hwf Eg Hs1 Hs2)
    as (Hwf' & Hcnt & Hlt & Hkeep & Hmem).
  destruct (record_entry_spec rg p z Hwf' Hlt) as (He & Hwf2 & Hal & Hsz).
  rewrite He in E. injection E as <-. rewrite Hcnt in *.
  split; [exact Hwf2 |]. split; [reflexivity |]. split; [exact Hal |]. split; [exact Hsz |].
  split; [| exact Hmem].
  intros j Hj. cbn [allocations allocation_sizes].
  rewrite !list_lookup_insert_ne by lia. apply Hkeep. destruct Hwf as (? & _). lia.
Qed.

(** The tail shared by the three calls that record an entry: the ledger makes
    room, then the entry is written at [count]. *)
Lemma grow_record_inv
    (r : RecordingAllocator) (h : Heap) (g : ptr * ptr) (m : ptr) (z : Z)
    (x : ptr * RecordingAllocator * Heap) :
  ('(r, h) ← recording_ensure_capacity r h g;
   r ← record_entry r m z;
   Ret (m, r, h)) = Ret x ->
  exists rg hg r',
    recording_ensure_capacity r h g = Ret (rg, hg) /\
    record_entry rg m z = Ret r' /\ x = (m, r', hg).
Proof.
  destruct (recording_ensure_capacity r h g) as [[rg hg] | | |];
    cbn [mbind outcome_bind]; try discriminate.
  destruct (record_entry rg m z) as [r' | | |] eqn:Er; cbn [mbind outcome_bind];
    try discriminate.
  intros [= <-]. by exists rg, hg, r'.
Qed.

Lemma grow_record_granted
    (r : RecordingAllocator) (h : Heap) (g : ptr * ptr) (m : ptr) (z : Z) :
  ledger_wf r -> ledger_granted r g -> ledger_stored r h ->
  exists rg hg r',
    recording_ensure_capacity r h g = Ret (rg, hg) /\
    record_entry rg m z = Ret r' /\
    ('(r, h) ← recording_ensure_capacity r h g;
     r ← record_entry r m z;
     Ret (m, r, h)) = Ret (m, r', hg) /\
    ledger_wf r' /\ count r' = S (count r) /\
    allocations r' !! count r = Some m /\ allocation_sizes r' !! count r = Some z /\
    (forall j, (j < count r)%nat ->
       allocations r' !! j = allocations r !! j /\
       allocation_sizes r' !! j = allocation_sizes r !! j) /\
    mem hg = mem h.
Proof.
  intros Hwf Hg Hst.
  destruct (recording_ensure_capacity_granted r h g Hwf Hg) as (rg & hg & Eg & Hs1 & Hs2).
  { intros Hnz. destruct (Hst Hnz) as (? & ? & ? & _). done. }
  destruct (recording_ensure_capacity_wf r rg h hg g Hwf Eg Hs1 Hs2)
    as (Hwf' & Hcnt & Hlt & _).
  destruct (record_entry_spec rg m z Hwf' Hlt) as (He & _).
  exists rg, hg. eexists. split; [exact Eg |]. split; [exact He |].
  split; [by rewrite Eg; cbn [mbind outcome_bind]; rewrite He |].
  exact (record_entry_lookup r rg _ h hg g m z Hwf Eg He).
Qed.

(** The ledger's storage stays in the heap as long as its two arrays stay
    live. *)
Lemma ledger_stored_mono (r : RecordingAllocator) (h h' : Heap) :
  ledger_stored r h ->
  (forall q, (q = allocations_at r \/ q = allocation_sizes_at r) ->
     is_Some (objs h !! q) -> is_Some (objs h' !! q)) ->
  ledger_stored r h'.
Proof.
  intros Hst Hmono Hnz. destruct (Hst Hnz) as (H1 & H2 & H3 & H4 & H5).
  repeat split; try done; apply Hmono; auto.
Qed.

Lemma heap_malloc_live (h : Heap) (n : Z) (m q : ptr) :
  is_Some (objs h !! q) -> is_Some (objs (heap_malloc h n m) !! q).
Proof.
  intros Hq. unfold heap_malloc. destruct (m =? NULL); [done |]. cbn [objs].
  destruct (decide (q = m)) as [-> | Hne]; [rewrite lookup_insert_eq; eauto |].
  by rewrite lookup_insert_ne.
Qed.

Lemma heap_calloc_live (h : Heap) (n : Z) (m q : ptr) :
  is_Some (objs h !! q) -> is_Some (objs (heap_calloc h n m) !! q).
Proof.
  intros Hq. unfold heap_calloc. destruct (m =? NULL); [done |]. cbn [objs].
  destruct (decide (q = m)) as [-> | Hne]; [rewrite lookup_insert_eq; eauto |].
  by rewrite lookup_insert_ne.
Qed.

(** What Recording does with a granted or refused alloc. *)
Lemma recording_alloc_spec
    (r : RecordingAllocator) (h : Heap) (size : Z) (m : ptr) (g : ptr * ptr) :
  ledger_wf r ->
  (m = NULL -> recording_alloc r h size m g = Ret (NULL, r, h)) /\
  (m <> NULL -> ledger_granted r g -> ledger_stored r h ->
     exists r' hg, recording_alloc r h size m g = Ret (m, r', hg) /\
       ledger_wf r' /\ count r' = S (count r) /\
       allocations r' !! count r = Some m /\
       allocation_sizes r' !! count r = Some size /\
       (forall j, (j < count r)%nat ->
          allocations r' !! j = allocations r !! j /\
          allocation_sizes r' !! j = allocation_sizes r !! j) /\
       mem hg = mem h /\ is_Some (objs (heap_malloc h size m) !! m)).
Proof.
  intros Hwf. unfold recording_alloc. split.
  - intros ->. reflexivity.
  - intros Hm Hg Hst. destruct (Z.eqb_spec m NULL) as [E | _]; [contradiction |].
    destruct (grow_record_granted r (heap_malloc h size m) g m size Hwf Hg)
      as (rg & hg & r' & _ & _ & -> & H1 & H2 & H3 & H4 & H5 & H6).
    { apply (ledger_stored_mono r h); [exact Hst |]. intros q _. apply heap_malloc_live. }
    exists r', hg. do 6 (split; [done |]). split.
    + rewrite H6. unfold heap_malloc. by destruct (m =? NULL).
    + unfold heap_malloc. rewrite (proj2 (Z.eqb_neq _ _) Hm). cbn [objs].
      rewrite lookup_insert_eq. eauto.
Qed.


(** *** The ledger stays well formed *)

Lemma vacate_slot_wf (r r' : RecordingAllocator) (i : nat) :
  ledger_wf r -> vacate_slot r i = Ret r' -> ledger_wf r'.
Proof.
  intros (Hc & Hla & Hls & Hnn). unfold vacate_slot, array_store.
  destruct (decide (i < length (allocations r))%nat); simpl; [| discriminate].
  destruct (decide (i < length (allocation_sizes r))%nat); simpl; [| discriminate].
  destruct (trim_count_spec (<[i := 0]> (allocation_sizes r)) (count r)) as (c' & Ht & Htr & _).
  { rewrite length_insert. lia. }
  rewrite Ht. simpl. intros [= <-]. unfold ledger_wf. simpl.
  rewrite !length_insert. repeat split; try done; lia.
Qed.

(** What precedes [Lrealloc:] in [recording_realloc]: the slot of the
    pointer, if it is not NULL, is vacated. *)
Lemma realloc_vacate_inv
    (r r1 : RecordingAllocator) (data : ptr) (orig_size : Z) :
  ledger_wf r ->
  (if data =? NULL then Ret r
   else
     o ← find_slot (allocations r) data (count r);
     match o with
     | Some i =>
         s ← array_load (allocation_sizes r) i;
         _ ← assert (orig_size =? s);
         vacate_slot r i
     | None => _ ← assert false; Ret r
     end) = Ret r1 ->
  (data = NULL /\ r1 = r) \/
  (data <> NULL /\ exists i,
     find_slot (allocations r) data (count r) = Ret (Some i) /\
     allocation_sizes r !! i = Some orig_size /\
     vacate_slot r i = Ret r1).
Proof.
  intros Hwf E. destruct (Z.eqb_spec data NULL) as [-> | Hd].
  { left. by injection E as <-. }
  right. split; [done |].
  destruct (find_slot (allocations r) data (count r)) as [[i |] | | |] eqn:Ef;
    cbn [mbind outcome_bind assert] in E; try discriminate.
  unfold array_load in E.
  destruct (allocation_sizes r !! i) as [s |] eqn:Es; cbn [mbind outcome_bind] in E;
    try discriminate.
  destruct (Z.eqb_spec orig_size s) as [-> | Hne]; cbn [assert mbind outcome_bind] in E;
    try discriminate.
  exists i. done.
Qed.

Lemma recording_call_wf (r r' : RecordingAllocator) (h h' : Heap) (op : test_op) (p : ptr) :
  ledger_wf r -> recording_call r h op = Ret (p, r', h') -> ledger_wf r'.
Proof.
  intros Hwf.
  destruct op as [size m g | size m g | data o n m g | data size |]; cbn [recording_call].
  - unfold recording_alloc. destruct (m =? NULL); [by intros [= _ <- _] |].
    intros E. apply grow_record_inv in E as (rg & hg & r1 & Eg & Er & [= _ -> _]).
    apply (record_entry_lookup r rg r1 _ hg g m size Hwf Eg Er).
  - unfold recording_zalloc. destruct (m =? NULL); [by intros [= _ <- _] |].
    intros E. apply grow_record_inv in E as (rg & hg & r1 & Eg & Er & [= _ -> _]).
    apply (record_entry_lookup r rg r1 _ hg g m size Hwf Eg Er).
  - unfold recording_realloc.
    set (pre := if data =? NULL then _ else _).
    destruct pre as [r1 | | |] eqn:Epre; cbn [mbind outcome_bind]; try discriminate.
    assert (Hwf1 : ledger_wf r1).
    { subst pre.
      destruct (realloc_vacate_inv r r1 data o Hwf Epre) as [[_ ->] | (_ & i & _ & _ & Ev)];
        [done | by apply (vacate_slot_wf r r1 i)]. }
    destruct (heap_realloc h data (Z.min o n) n m) as [h1 | | |];
      cbn [mbind outcome_bind]; try discriminate.
    intros E. apply grow_record_inv in E as (rg & hg & r2 & Eg & Er & [= _ -> _]).
    apply (record_entry_lookup r1 rg r2 _ hg g m n Hwf1 Eg Er).
  - unfold recording_free.
    destruct (data =? NULL); cbn [mbind outcome_bind]; [by intros [= _ <- _] |].
    destruct (find_slot (allocations r) data (count r)) as [[i |] | | |];
      cbn [mbind outcome_bind assert]; try discriminate.
    destruct (array_load (allocation_sizes r) i) as [s0 | | |];
      cbn [mbind outcome_bind]; try discriminate.
    destruct (negb (size =? s0)); cbn [assert mbind outcome_bind]; try discriminate.
    destruct (heap_free h data) as [h1 | | |]; cbn [mbind outcome_bind]; try discriminate.
    destruct (vacate_slot r i) as [r1 | | |] eqn:Ev; cbn [mbind outcome_bind];
      try discriminate.
    intros [= _ <- _]. by apply (vacate_slot_wf r r1 i).
  - unfold recording_free_all.
    destruct (free_slots (allocations r) h 0 (count r)) as [h1 | | |];
      cbn [mbind outcome_bind]; try discriminate.
    intros [= _ <- _]. destruct Hwf as (Hc & Hla & Hls & Hnn). unfold ledger_wf.
    cbn [count capacity allocations allocation_sizes allocations_at allocation_sizes_at].
    repeat split; try done; lia.
Qed.

Lemma should_fail_inv (ta ta' : TestingAllocator) (f : bool) :
  should_fail ta = Ret (f, ta') ->
  fail_at ta' = fail_at ta /\ nallocs ta' = nallocs ta + 1 /\ recorder ta' = recorder ta.
Proof.
  unfold should_fail, incr_nallocs. intros H.
  destruct (fail_at ta <? 0), (nallocs ta =? INT64_MAX);
    cbn [mbind outcome_bind] in H; try discriminate.
  - cbn [fail_at] in H. destruct (fail_at ta =? INT64_MIN); [discriminate |].
    by injection H as _ <-.
  - by injection H as _ <-.
Qed.

(** A call on the testing allocator that returns was failed by injection,
    with NULL and the ledger and the heap as they were, or is the recording
    allocator's call on the ledger. *)
Lemma testing_call_cases
    (ta ta' : TestingAllocator) (h h' : Heap) (op : test_op) (p : ptr) :
  testing_call ta h op = Ret (p, ta', h') ->
  (counting op = true /\ p = NULL /\ recorder ta' = recorder ta /\ h' = h) \/
  recording_call (recorder ta) h op = Ret (p, recorder ta', h').
Proof.
  assert (Hdel : forall t, recorder t = recorder ta ->
            ('(q, r, h2) ← recording_call (recorder t) h op;
             Ret (q, mkTest (fail_at t) (nallocs t) r, h2)) = Ret (p, ta', h') ->
            recording_call (recorder ta) h op = Ret (p, recorder ta', h')).
  { intros t Ht. rewrite Ht.
    destruct (recording_call (recorder ta) h op) as [[[q' r] h2] | | |];
      cbn [mbind outcome_bind]; try discriminate.
    by intros [= <- <- <-]. }
  destruct op as [size m g | size m g | data o n m g | data size |];
    cbn [testing_call recording_call counting] in *;
    unfold testing_alloc, testing_zalloc, testing_realloc, testing_free, testing_free_all,
           LOCK_T_lock, LOCK_T_unlock.
  - destruct (should_fail ta) as [[f t] | | |] eqn:E; cbn [mbind outcome_bind];
      try discriminate.
    destruct (should_fail_inv _ _ _ E) as (_ & _ & Hr). destruct f.
    + intros [= <- <- <-]. left. done.
    + intros H. right. by apply (Hdel t Hr).
  - destruct (should_fail ta) as [[f t] | | |] eqn:E; cbn [mbind outcome_bind];
      try discriminate.
    destruct (should_fail_inv _ _ _ E) as (_ & _ & Hr). destruct f.
    + intros [= <- <- <-]. left. done.
    + intros H. right. by apply (Hdel t Hr).
  - destruct (n >? o) eqn:Egt.
    + destruct (should_fail ta) as [[f t] | | |] eqn:E; cbn [mbind outcome_bind];
        try discriminate.
      destruct (should_fail_inv _ _ _ E) as (_ & _ & Hr). destruct f.
      * intros [= <- <- <-]. left. done.
      * intros H. right. by apply (Hdel t Hr).
    + cbn [mbind outcome_bind]. intros H. right. by apply (Hdel ta eq_refl).
  - intros H. right. apply (Hdel ta eq_refl). cbn [recording_call].
    destruct (recording_free (recorder ta) h data size) as [[r h2] | | |];
      cbn [mbind outcome_bind] in *; try discriminate. exact H.
  - intros H. right. apply (Hdel ta eq_refl). cbn [recording_call].
    destruct (recording_free_all (recorder ta) h) as [[r h2] | | |];
      cbn [mbind outcome_bind] in *; try discriminate. exact H.
Qed.

Lemma testing_call_wf (ta ta' : TestingAllocator) (h h' : Heap) (op : test_op) (p : ptr) :
  ledger_wf (recorder ta) -> testing_call ta h op = Ret (p, ta', h') ->
  ledger_wf (recorder ta').
Proof.
  intros Hwf E. destruct (testing_call_cases _ _ _ _ _ _ E) as [(_ & _ & -> & _) | Er];
    [done |]. by apply (recording_call_wf _ _ _ _ _ _ Hwf Er).
Qed.

Lemma testing_calls_wf (ops : list test_op) :
  forall (ta ta' : TestingAllocator) (h h' : Heap),
  ledger_wf (recorder ta) -> testing_calls ta h ops = Ret (ta', h') ->
  ledger_wf (recorder ta').
Proof.
  induction ops as [| op ops IH]; intros ta ta' h h' Hwf; simpl.
  - by intros [= <- _].
  - destruct (testing_call ta h op) as [[[p t1] h1] | | |] eqn:E; simpl; try discriminate.
    apply IH. by apply (testing_call_wf _ _ _ _ _ _ Hwf E).
Qed.

(** *** The ledger mirrors the heap *)

Lemma find_slot_inv (r : RecordingAllocator) (data : ptr) (o : option nat) :
  ledger_wf r ->
  find_slot (allocations r) data (count r) = Ret o ->
  match o with
  | Some i => tracked_at r data i
  | None => untracked r data
  end.
Proof.
  intros (Hc & Hla & _) E.
  destruct (find_slot_spec (allocations r) data (count r) ltac:(lia))
    as [(k & Hf & Hk) | [Hf Hnone]]; rewrite Hf in E; injection E as <-.
  - exact Hk.
  - exact Hnone.
Qed.

Lemma vacate_slot_inv (r r' : RecordingAllocator) (i : nat) :
  ledger_wf r -> (i < count r)%nat ->
  vacate_slot r i = Ret r' ->
  ledger_wf r' /\ (count r' <= count r)%nat /\
  allocations r' = <[i := NULL]> (allocations r) /\
  allocation_sizes r' = <[i := 0]> (allocation_sizes r) /\
  trimmed (allocation_sizes r') (count r) (count r') /\
  capacity r' = capacity r /\
  allocations_at r' = allocations_at r /\ allocation_sizes_at r' = allocation_sizes_at r.
Proof.
  intros Hwf Hi E. pose proof (vacate_slot_wf _ _ _ Hwf E) as Hwf'.
  destruct (vacate_slot_spec r i Hwf Hi) as (c' & E' & Htr).
  rewrite E' in E. injection E as <-.
  split; [exact Hwf' |].
  cbn [count capacity allocations allocation_sizes allocations_at allocation_sizes_at].
  split; [apply Htr |]. split; [reflexivity |]. split; [reflexivity |].
  split; [exact Htr | done].
Qed.

(** A ledger that mirrors a heap mirrors every heap where the pointers that
    it tracks and its two arrays are still live. *)
Lemma ledger_sound_mono (r : RecordingAllocator) (h h' : Heap) :
  ledger_sound r h ->
  (forall q, q <> NULL -> is_Some (objs h !! q) ->
     (exists j, (j < count r)%nat /\ allocations r !! j = Some q) \/
     (capacity r <> 0%nat /\ (q = allocations_at r \/ q = allocation_sizes_at r)) ->
     is_Some (objs h' !! q)) ->
  ledger_sound r h'.
Proof.
  intros (Hwf & Hlive & Hdist & Hst) Hmono.
  split; [exact Hwf |]. split; [| split; [exact Hdist |]].
  - intros j p Hj Hp Hnn. apply Hmono; [done | by apply (Hlive j) |].
    left. by exists j.
  - intros Hnz. destruct (Hst Hnz) as (H1 & H2 & H3 & H4 & H5).
    destruct Hwf as (_ & _ & _ & Hnn). destruct (Hnn Hnz) as [Ha1 Ha2].
    repeat split; try done; apply Hmono; auto.
Qed.

Lemma ledger_sound_vacate
    (r r' : RecordingAllocator) (h h' : Heap) (i : nat) (data : ptr) :
  ledger_sound r h ->
  tracked_at r data i -> data <> NULL ->
  vacate_slot r i = Ret r' ->
  (forall p, p <> data -> is_Some (objs h !! p) -> is_Some (objs h' !! p)) ->
  ledger_sound r' h' /\ untracked r' data /\
  (capacity r <> 0%nat -> data <> allocations_at r /\ data <> allocation_sizes_at r).
Proof.
  intros (Hwf & Hlive & Hdist & Hst) (Hi & Hdi & _) Hnn E Hmono.
  destruct (vacate_slot_inv r r' i Hwf Hi E)
    as (Hwf' & Hle & Hal & _ & _ & Hcap & Hat1 & Hat2).
  assert (Hold : forall j p, (j < count r')%nat -> allocations r' !! j = Some p -> p <> NULL ->
            j <> i /\ allocations r !! j = Some p /\ p <> data).
  { intros j p Hj Hp Hpn. rewrite Hal in Hp.
    destruct (decide (j = i)) as [-> | Hne].
    - rewrite list_lookup_insert_eq in Hp by (destruct Hwf as (? & ? & ?); lia).
      congruence.
    - rewrite list_lookup_insert_ne in Hp by done. repeat split; try done.
      intros ->. apply Hne. apply (Hdist j i data); try done; lia. }
  assert (Hapart : capacity r <> 0%nat ->
            data <> allocations_at r /\ data <> allocation_sizes_at r).
  { intros Hnz. destruct (Hst Hnz) as (_ & _ & _ & H4 & H5).
    split; intros ->; [apply (H4 i) | apply (H5 i)]; done. }
  split; [split; [exact Hwf' | split; [| split]] | split; [| exact Hapart]].
  - intros j p Hj Hp Hpn. destruct (Hold j p Hj Hp Hpn) as (_ & Hp' & Hpd).
    apply Hmono; [exact Hpd |]. apply (Hlive j p); [lia | done | done].
  - intros a b p Ha Hb Hpa Hpb Hpn.
    destruct (Hold a p Ha Hpa Hpn) as (_ & Hpa' & _).
    destruct (Hold b p Hb Hpb Hpn) as (_ & Hpb' & _).
    apply (Hdist a b p); try done; lia.
  - unfold ledger_stored. rewrite Hcap, Hat1, Hat2. intros Hnz.
    destruct (Hst Hnz) as (H1 & H2 & H3 & H4 & H5). destruct (Hapart Hnz) as [Hd1 Hd2].
    destruct Hwf as (_ & _ & _ & Hnull). destruct (Hnull Hnz) as [Ha1 Ha2].
    split; [apply Hmono; [congruence | done] |].
    split; [apply Hmono; [congruence | done] |].
    split; [done |].
    split; intros j Hj Hp.
    + destruct (Hold j _ Hj Hp Ha1) as (_ & Hp' & _). apply (H4 j); [lia | done].
    + destruct (Hold j _ Hj Hp Ha2) as (_ & Hp' & _). apply (H5 j); [lia | done].
  - intros j Hj Hp. destruct (Hold j data Hj Hp Hnn) as (_ & _ & Hne). by apply Hne.
Qed.

Lemma fresh_untracked (r : RecordingAllocator) (h : Heap) (m : ptr) :
  ledger_sound r h -> objs h !! m = None -> m <> NULL -> untracked r m.
Proof.
  intros (_ & Hlive & _) Hf Hm j Hj Hp.
  destruct (Hlive j m Hj Hp Hm) as [x Hx]. congruence.
Qed.

(** The ledger made room: it still mirrors the heap.  Every object that was
    live, the old arrays apart, is still live, and each array of the ledger
    is an array it had or an object that was not live. *)
Lemma ledger_sound_grow
    (r rg : RecordingAllocator) (h hg : Heap) (g : ptr * ptr) :
  ledger_sound r h -> growth_answer_ok r h g ->
  recording_ensure_capacity r h g = Ret (rg, hg) ->
  (count rg < length (allocations rg))%nat ->
  (count rg < length (allocation_sizes rg))%nat ->
  ledger_sound rg hg /\
  (forall q, is_Some (objs h !! q) ->
     (capacity r <> 0%nat -> q <> allocations_at r /\ q <> allocation_sizes_at r) ->
     is_Some (objs hg !! q)) /\
  (forall a, a = allocations_at rg \/ a = allocation_sizes_at rg ->
     (capacity r <> 0%nat /\ (a = allocations_at r \/ a = allocation_sizes_at r)) \/
     objs h !! a = None).
Proof.
  intros Hs (Hok1 & Hok2 & Hok3) E Hs1 Hs2.
  pose proof Hs as (Hwf & Hlive & Hdist & Hst).
  destruct (recording_ensure_capacity_wf r rg h hg g Hwf E Hs1 Hs2)
    as (Hwfg & Hcnt & Hlt & Hkeep & _).
  assert (Hslots : forall j p, (j < count rg)%nat -> allocations rg !! j = Some p ->
            allocations r !! j = Some p).
  { intros j p Hj Hp. destruct Hwf as (Hc & _).
    destruct (Hkeep j ltac:(lia)) as [Ek _]. by rewrite <- Ek. }
  destruct (recording_ensure_capacity_inv r rg h hg g Hwf E Hs1 Hs2)
    as [(-> & -> & Hroom) | [(Hz & Hg1 & Hg2 & Erg & Ehg) |
        (Hnz & Hfull & Hg1 & Hg2 & o1 & o1' & o2 & o2' & Ho1 & Ho2 & Erg & Ehg)]].
  - split; [exact Hs |]. split; [by intros q Hq _ |].
    intros a Ha. left. split; [lia | exact Ha].
  - (* the first two arrays *)
    assert (Hf1 : objs h !! g.1 = None) by (destruct Hok1 as [? | [[? _] | ?]]; done).
    assert (Hf2 : objs h !! g.2 = None) by (destruct Hok2 as [? | [[? _] | ?]]; done).
    assert (Hne : g.1 <> g.2) by (destruct Hok3; done).
    assert (Hframe : forall q, is_Some (objs h !! q) -> is_Some (objs hg !! q)).
    { intros q [x Hx]. rewrite Ehg. cbn [objs].
      rewrite !lookup_insert_ne by congruence. eauto. }
    split; [split; [exact Hwfg | split; [| split]] | split].
    + intros j p Hj Hp Hnn. apply Hframe. apply (Hlive j p); [lia | by apply Hslots | done].
    + intros a b p Ha Hb Hpa Hpb Hnn.
      apply (Hdist a b p); try lia; try done; by apply Hslots.
    + assert (Hat : allocations_at rg = g.1 /\ allocation_sizes_at rg = g.2)
        by (by rewrite Erg).
      destruct Hat as [Hat1 Hat2].
      intros _. rewrite Hat1, Hat2. rewrite Ehg. cbn [objs].
      split; [rewrite lookup_insert_ne by congruence; rewrite lookup_insert_eq; eauto |].
      split; [rewrite lookup_insert_eq; eauto |]. split; [exact Hne |].
      split; intros j Hj Hp; rewrite Hcnt in *; destruct Hwf as (Hc & _); lia.
    + intros q Hq _. by apply Hframe.
    + intros a Ha. right. rewrite Erg in Ha. cbn [allocations_at allocation_sizes_at] in Ha.
      by destruct Ha as [-> | ->].
  - (* the two arrays are reallocated *)
    destruct (Hst Hnz) as (Hl1 & Hl2 & Hapart & Hun1 & Hun2).
    destruct Hwf as (Hc & _ & _ & Hnull). destruct (Hnull Hnz) as [Ha1 Ha2].
    assert (Hne : g.1 <> g.2) by (destruct Hok3; done).
    assert (Hg1s : g.1 <> allocation_sizes_at r).
    { destruct Hok1 as [? | [[_ ->] | Hf]]; [done | done |].
      intros Heq. rewrite Heq in Hf. destruct Hl2 as [x Hx]. congruence. }
    assert (Hat : allocations_at rg = g.1 /\ allocation_sizes_at rg = g.2) by (by rewrite Erg).
    destruct Hat as [Hat1 Hat2].
    assert (Hframe : forall q, is_Some (objs h !! q) ->
              q <> allocations_at r -> q <> allocation_sizes_at r ->
              is_Some (objs hg !! q)).
    { intros q [x Hx] Hq1 Hq2. rewrite Ehg. cbn [objs].
      destruct (decide (q = g.2)) as [-> | Hq3]; [rewrite lookup_insert_eq; eauto |].
      rewrite lookup_insert_ne, lookup_delete_ne by done.
      destruct (decide (q = g.1)) as [-> | Hq4]; [rewrite lookup_insert_eq; eauto |].
      rewrite lookup_insert_ne, lookup_delete_ne by done. eauto. }
    assert (Hnew : forall a, a = g.1 \/ a = g.2 ->
              (capacity r <> 0%nat /\ (a = allocations_at r \/ a = allocation_sizes_at r)) \/
              objs h !! a = None).
    { intros a [-> | ->].
      - destruct Hok1 as [? | [[_ ->] | Hf]]; [done | left; auto | by right].
      - destruct Hok2 as [? | [[_ ->] | Hf]]; [done | left; auto | by right]. }
    split; [split; [exact Hwfg | split; [| split]] | split].
    + intros j p Hj Hp Hnn. pose proof (Hslots j p Hj Hp) as Hp'.
      apply Hframe; [apply (Hlive j p); [lia | done | done] | |].
      * intros ->. apply (Hun1 j); [lia | done].
      * intros ->. apply (Hun2 j); [lia | done].
    + intros a b p Ha Hb Hpa Hpb Hnn.
      apply (Hdist a b p); try lia; try done; by apply Hslots.
    + intros _. rewrite Hat1, Hat2. rewrite Ehg. cbn [objs].
      split; [rewrite lookup_insert_ne, lookup_delete_ne by done;
              rewrite lookup_insert_eq; eauto |].
      split; [rewrite lookup_insert_eq; eauto |]. split; [exact Hne |].
      assert (Hunew : forall a, a = g.1 \/ a = g.2 -> a <> NULL -> untracked rg a).
      { intros a Ha Hann j Hj Hp. pose proof (Hslots j a Hj Hp) as Hp'.
        destruct (Hnew a Ha) as [[_ [-> | ->]] | Hf].
        - apply (Hun1 j); [lia | done].
        - apply (Hun2 j); [lia | done].
        - destruct (Hlive j a ltac:(lia) Hp' Hann) as [x Hx]. congruence. }
      split; apply Hunew; auto.
    + intros q Hq Hne'. destruct (Hne' Hnz). by apply Hframe.
    + intros a Ha. apply Hnew. by rewrite <- Hat1, <- Hat2.
Qed.

(** A new entry in a ledger that mirrors the heap and has a free slot. *)
Lemma ledger_sound_record
    (r r' : RecordingAllocator) (h : Heap) (m : ptr) (z : Z) :
  ledger_sound r h ->
  record_entry r m z = Ret r' ->
  (m <> NULL -> is_Some (objs h !! m) /\ untracked r m /\
                m <> allocations_at r /\ m <> allocation_sizes_at r) ->
  ledger_sound r' h.
Proof.
  intros (Hwf & Hlive & Hdist & Hst) E Hm.
  destruct (record_entry_inv _ _ _ _ E) as (Hs1 & Hs2 & ->).
  pose proof Hwf as (Hc & Hla & Hls & Hnull).
  destruct (record_entry_spec r m z Hwf ltac:(lia)) as (_ & Hwf' & Hal & _).
  cbn [allocations] in Hal.
  assert (Hkeep : forall j, (j < count r)%nat ->
            <[count r := m]> (allocations r) !! j = allocations r !! j).
  { intros j Hj. apply list_lookup_insert_ne. lia. }
  split; [exact Hwf' |].
  cbn [count capacity allocations allocation_sizes allocations_at allocation_sizes_at].
  split; [| split].
  - intros j p Hj Hp Hnn. destruct (decide (j = count r)) as [-> | Hne].
    + rewrite Hal in Hp. injection Hp as <-. by apply Hm.
    + rewrite Hkeep in Hp by lia. apply (Hlive j p); [lia | done | done].
  - intros i j p Hi Hj Hpi Hpj Hnn.
    destruct (decide (i = count r)) as [-> | Hni], (decide (j = count r)) as [-> | Hnj];
      [reflexivity | | |].
    + rewrite Hal in Hpi. injection Hpi as <-. rewrite Hkeep in Hpj by lia.
      exfalso. destruct (Hm Hnn) as (_ & Hun & _). apply (Hun j); [lia | exact Hpj].
    + rewrite Hal in Hpj. injection Hpj as <-. rewrite Hkeep in Hpi by lia.
      exfalso. destruct (Hm Hnn) as (_ & Hun & _). apply (Hun i); [lia | exact Hpi].
    + rewrite Hkeep in Hpi, Hpj by lia. apply (Hdist i j p); try done; lia.
  - intros Hnz. destruct (Hst Hnz) as (H1 & H2 & H3 & H4 & H5).
    destruct (Hnull Hnz) as [Ha1 Ha2].
    unfold untracked.
    cbn [count capacity allocations allocation_sizes allocations_at allocation_sizes_at].
    do 3 (split; [done |]).
    split; intros j Hj Hp; (destruct (decide (j = count r)) as [-> | Hne];
      [ rewrite Hal in Hp; injection Hp as ->; destruct (Hm ltac:(done)) as (_ & _ & ? & ?);
        done
      | rewrite Hkeep in Hp by lia ]).
    + apply (H4 j); [lia | done].
    + apply (H5 j); [lia | done].
Qed.

(** The entry of a pointer that is live, not tracked yet and not one of the
    arrays, recorded after the ledger made room for it. *)
Lemma ledger_sound_entry
    (r rg r' : RecordingAllocator) (h hg : Heap) (m : ptr) (z : Z) (g : ptr * ptr) :
  ledger_sound r h -> growth_answer_ok r h g ->
  recording_ensure_capacity r h g = Ret (rg, hg) ->
  record_entry rg m z = Ret r' ->
  (m <> NULL ->
   is_Some (objs h !! m) /\ untracked r m /\
   (capacity r <> 0%nat -> m <> allocations_at r /\ m <> allocation_sizes_at r)) ->
  ledger_sound r' hg.
Proof.
  intros Hs Hok Eg Er Hm. pose proof Hs as (Hwf & _).
  destruct (record_entry_inv _ _ _ _ Er) as (Hs1 & Hs2 & _).
  destruct (recording_ensure_capacity_wf r rg h hg g Hwf Eg Hs1 Hs2)
    as (_ & Hcnt & _ & Hkeep & _).
  destruct (ledger_sound_grow r rg h hg g Hs Hok Eg Hs1 Hs2) as (Hsg & Hframe & Hnew).
  apply (ledger_sound_record rg r' hg m z Hsg Er).
  intros Hnn. destruct (Hm Hnn) as (Hlive & Hun & Hapart).
  split; [by apply Hframe |]. split.
  - intros j Hj Hp. rewrite Hcnt in Hj. destruct Hwf as (Hc & _).
    destruct (Hkeep j ltac:(lia)) as [Ek _]. rewrite Ek in Hp. by apply (Hun j).
  - assert (Hx : forall a, a = allocations_at rg \/ a = allocation_sizes_at rg -> m <> a).
    { intros a Ha ->. destruct (Hnew a Ha) as [[Hnz Hold] | Hf].
      - destruct (Hapart Hnz) as [H1 H2]. by destruct Hold.
      - destruct Hlive as [x Hx]. congruence. }
    split; apply Hx; auto.
Qed.

Lemma recording_alloc_sound
    (r r' : RecordingAllocator) (h h' : Heap) (size : Z) (m p : ptr) (g : ptr * ptr) :
  ledger_sound r h ->
  heap_answer_ok r h (OpAlloc size m g) ->
  recording_alloc r h size m g = Ret (p, r', h') ->
  ledger_sound r' h'.
Proof.
  intros Hs [Hm Hok] E. unfold recording_alloc in E.
  destruct (Z.eqb_spec m NULL) as [-> | Hnn]; [by injection E as _ <- <- |].
  destruct Hm as [? | Hf]; [done |].
  apply grow_record_inv in E as (rg & hg & r1 & Eg & Er & [= _ -> ->]).
  assert (Hh : forall q, is_Some (objs h !! q) -> is_Some (objs (heap_malloc h size m) !! q))
    by (intros q; apply heap_malloc_live).
  apply (ledger_sound_entry r rg r1 (heap_malloc h size m) hg m size g); try done.
  - apply (ledger_sound_mono r h); [done |]. intros q _ Hq _. by apply Hh.
  - intros _. split; [| split].
    + unfold heap_malloc. rewrite (proj2 (Z.eqb_neq _ _) Hnn). cbn [objs].
      rewrite lookup_insert_eq. eauto.
    + by apply (fresh_untracked r h).
    + intros Hnz. destruct Hs as (_ & _ & _ & Hst).
      destruct (Hst Hnz) as ([x1 H1] & [x2 H2] & _). split; congruence.
Qed.

Lemma recording_zalloc_sound
    (r r' : RecordingAllocator) (h h' : Heap) (size : Z) (m p : ptr) (g : ptr * ptr) :
  ledger_sound r h ->
  heap_answer_ok r h (OpZalloc size m g) ->
  recording_zalloc r h size m g = Ret (p, r', h') ->
  ledger_sound r' h'.
Proof.
  intros Hs [Hm Hok] E. unfold recording_zalloc in E.
  destruct (Z.eqb_spec m NULL) as [-> | Hnn]; [by injection E as _ <- <- |].
  destruct Hm as [? | Hf]; [done |].
  apply grow_record_inv in E as (rg & hg & r1 & Eg & Er & [= _ -> ->]).
  assert (Hh : forall q, is_Some (objs h !! q) -> is_Some (objs (heap_calloc h size m) !! q))
    by (intros q; apply heap_calloc_live).
  apply (ledger_sound_entry r rg r1 (heap_calloc h size m) hg m size g); try done.
  - apply (ledger_sound_mono r h); [done |]. intros q _ Hq _. by apply Hh.
  - intros _. split; [| split].
    + unfold heap_calloc. rewrite (proj2 (Z.eqb_neq _ _) Hnn). cbn [objs].
      rewrite lookup_insert_eq. eauto.
    + by apply (fresh_untracked r h).
    + intros Hnz. destruct Hs as (_ & _ & _ & Hst).
      destruct (Hst Hnz) as ([x1 H1] & [x2 H2] & _). split; congruence.
Qed.

Lemma growth_answer_ok_ext (r r1 : RecordingAllocator) (h : Heap) (g : ptr * ptr) :
  capacity r1 = capacity r -> allocations_at r1 = allocations_at r ->
  allocation_sizes_at r1 = allocation_sizes_at r ->
  growth_answer_ok r h g -> growth_answer_ok r1 h g.
Proof. unfold growth_answer_ok. by intros -> -> ->. Qed.

Lemma recording_realloc_sound
    (r r' : RecordingAllocator) (h h' : Heap) (data : ptr) (o n : Z) (m p : ptr)
    (g : ptr * ptr) :
  ledger_sound r h ->
  heap_answer_ok r h (OpRealloc data o n m g) ->
  recording_realloc r h data o n m g = Ret (p, r', h') ->
  ledger_sound r' h'.
Proof.
  intros Hs [Hm Hok] E. pose proof Hs as (Hwf & Hlive & Hdist & Hst).
  unfold recording_realloc in E.
  set (pre := if data =? NULL then _ else _) in E.
  destruct pre as [r1 | | |] eqn:Epre; cbn [mbind outcome_bind] in E; try discriminate.
  subst pre.
  destruct (heap_realloc h data (Z.min o n) n m) as [h1 | | |] eqn:Eh;
    cbn [mbind outcome_bind] in E; try discriminate.
  apply grow_record_inv in E as (rg & hg & r2 & Eg & Er & [= _ -> ->]).
  (* the ledger after the slot of [data] was vacated *)
  assert (H1 : ledger_sound r1 h /\ capacity r1 = capacity r /\
               allocations_at r1 = allocations_at r /\
               allocation_sizes_at r1 = allocation_sizes_at r /\
               (data <> NULL ->
                untracked r1 data /\ is_Some (objs h !! data) /\ capacity r <> 0%nat /\
                data <> allocations_at r /\ data <> allocation_sizes_at r)).
  { destruct (realloc_vacate_inv r r1 data o Hwf Epre)
      as [[-> ->] | (Hd & i & Ef & Hsz & Ev)]; [done |].
    pose proof (find_slot_inv r data _ Hwf Ef) as Ht. cbn in Ht.
    destruct (ledger_sound_vacate r r1 h h i data Hs Ht Hd Ev ltac:(auto))
      as (Hs1 & Hun & Hapart).
    destruct Ht as (Hi & Hdi & _).
    destruct (vacate_slot_inv r r1 i Hwf Hi Ev) as (_ & _ & _ & _ & _ & Hc & Ha1 & Ha2).
    do 4 (split; [done |]). intros _. split; [done |]. split; [by apply (Hlive i) |].
    assert (Hnz : capacity r <> 0%nat) by (destruct Hwf as (? & _); lia).
    split; [done | by apply Hapart]. }
  destruct H1 as (Hs1 & Hcap & Hat1 & Hat2 & Hdata).
  pose proof (growth_answer_ok_ext r r1 h1 g Hcap Hat1 Hat2 Hok) as Hok1.
  (* the heap after the realloc of the call *)
  unfold heap_realloc in Eh.
  destruct (Z.eqb_spec m NULL) as [-> | Hnn].
  { injection Eh as <-. by apply (ledger_sound_entry r1 rg r2 h hg NULL n g). }
  assert (Hh1 : is_Some (objs h1 !! m) /\
                forall q, q <> data -> is_Some (objs h !! q) -> is_Some (objs h1 !! q)).
  { destruct (Z.eqb_spec data NULL) as [-> | Hd].
    - injection Eh as <-. unfold heap_malloc. rewrite (proj2 (Z.eqb_neq _ _) Hnn).
      cbn [objs]. split; [rewrite lookup_insert_eq; eauto |].
      intros q _ [x Hx]. destruct (decide (q = m)) as [-> | Hq];
        [rewrite lookup_insert_eq | rewrite lookup_insert_ne by done]; eauto.
    - destruct (objs h !! data) as [ob |] eqn:El; [| discriminate].
      injection Eh as <-. cbn [objs]. split; [rewrite lookup_insert_eq; eauto |].
      intros q Hq [x Hx]. destruct (decide (q = m)) as [-> | Hqm];
        [rewrite lookup_insert_eq | rewrite lookup_insert_ne, lookup_delete_ne by done];
        eauto. }
  destruct Hh1 as [Hmlive Hframe].
  assert (Hd' : forall q, q <> NULL ->
            (exists j, (j < count r1)%nat /\ allocations r1 !! j = Some q) \/
            (capacity r1 <> 0%nat /\ (q = allocations_at r1 \/ q = allocation_sizes_at r1)) ->
            q <> data).
  { intros q Hq Hwho ->. destruct (Hdata Hq) as (Hun & _ & _ & Hd1 & Hd2).
    destruct Hwho as [(j & Hj & Hp) | [_ Harr]]; [by apply (Hun j) |].
    destruct Harr; congruence. }
  apply (ledger_sound_entry r1 rg r2 h1 hg m n g); try done.
  - apply (ledger_sound_mono r1 h); [done |].
    intros q Hq Hl Hwho. apply Hframe; [by apply Hd' | done].
  - intros _. split; [done |].
    assert (Hcase : m = data \/ objs h !! m = None) by (destruct Hm as [? | [? | ?]]; [done | auto | auto]).
    split.
    + destruct Hcase as [-> | Hf]; [by apply Hdata |].
      by apply (fresh_untracked r1 h).
    + rewrite Hcap, Hat1, Hat2. intros Hnz. destruct Hcase as [-> | Hf].
      * by apply Hdata.
      * destruct (Hst Hnz) as ([x1 Hx1] & [x2 Hx2] & _). split; congruence.
Qed.

Lemma free_slots_spec (al : list ptr) :
  forall (n i : nat) (h : Heap),
  (i + n <= length al)%nat ->
  (forall j p, (i <= j < i + n)%nat -> al !! j = Some p -> p <> NULL ->
     is_Some (objs h !! p)) ->
  (forall a b p, (i <= a < i + n)%nat -> (i <= b < i + n)%nat ->
     al !! a = Some p -> al !! b = Some p -> p <> NULL -> a = b) ->
  exists h',
    free_slots al h i n = Ret h' /\ mem h' = mem h /\
    (forall j p, (i <= j < i + n)%nat -> al !! j = Some p -> p <> NULL ->
       objs h' !! p = None) /\
    (forall q, (q = NULL \/ forall j, (i <= j < i + n)%nat -> al !! j <> Some q) ->
       objs h' !! q = objs h !! q).
Proof.
  induction n as [| n IH]; intros i h Hlen Hlive Hdist.
  - exists h. cbn. repeat split; try done. intros j p Hj. lia.
  - destruct (array_load_lt al i ltac:(lia)) as (x & Hx & Hl).
    cbn [free_slots]. rewrite Hl. cbn [mbind outcome_bind].
    destruct (Z.eqb_spec x NULL) as [-> | Hnn]; cbn [mbind outcome_bind].
    + destruct (IH (S i) h ltac:(lia)) as (h' & E & Hmem & Hin & Hout).
      { intros j p Hj. apply Hlive. lia. }
      { intros a b p Ha Hb. apply Hdist; lia. }
      exists h'. split; [exact E |]. split; [exact Hmem |]. split.
      * intros j p Hj Hp Hpn. destruct (decide (j = i)) as [-> | Hne]; [congruence |].
        apply (Hin j p); [lia | done | done].
      * intros q Hq. apply Hout. destruct Hq as [-> | Hq]; [by left | right].
        intros j Hj. apply Hq. lia.
    + unfold heap_free. rewrite (eqb_NULL_false _ Hnn).
      destruct (Hlive i x ltac:(lia) Hx Hnn) as [ob Hob]. rewrite Hob.
      cbn [mbind outcome_bind].
      assert (Hlater : forall j, (S i <= j < S i + n)%nat -> al !! j <> Some x).
      { intros j Hj Hp. assert (i = j) by (apply (Hdist i j x); try done; lia). lia. }
      destruct (IH (S i) (mkHeap (delete x (objs h)) (mem h)) ltac:(lia))
        as (h' & E & Hmem & Hin & Hout).
      { intros j p Hj Hp Hpn. cbn [objs].
        rewrite lookup_delete_ne; [apply (Hlive j p); [lia | done | done] |].
        intros ->. by apply (Hlater j). }
      { intros a b p Ha Hb. apply Hdist; lia. }
      exists h'. split; [exact E |]. split; [exact Hmem |]. split.
      * intros j p Hj Hp Hpn. destruct (decide (j = i)) as [-> | Hne].
        -- rewrite Hx in Hp. injection Hp as <-.
           rewrite Hout by (right; exact Hlater). cbn [objs]. apply lookup_delete_eq.
        -- apply (Hin j p); [lia | done | done].
      * intros q Hq.
        rewrite Hout by (destruct Hq as [-> | Hq]; [by left | right; intros j Hj; apply Hq; lia]).
        cbn [objs]. apply lookup_delete_ne.
        destruct Hq as [-> | Hq]; [done |]. intros ->. by apply (Hq i ltac:(lia)).
Qed.

Lemma recording_free_sound
    (r r' : RecordingAllocator) (h h' : Heap) (data : ptr) (size : Z) :
  ledger_sound r h ->
  recording_free r h data size = Ret (r', h') ->
  ledger_sound r' h'.
Proof.
  intros Hs E. pose proof Hs as (Hwf & _). unfold recording_free in E.
  destruct (Z.eqb_spec data NULL) as [-> | Hd]; cbn [mbind outcome_bind] in E;
    [by injection E as <- <- |].
  destruct (find_slot _ _ _) as [[i |] | | |] eqn:Ef; cbn [mbind outcome_bind assert] in E;
    try discriminate.
  pose proof (find_slot_inv r data _ Hwf Ef) as Ht. cbn in Ht.
  destruct (array_load _ _) as [sz | | |]; cbn [mbind outcome_bind] in E; try discriminate.
  destruct (negb (size =? sz)); cbn [assert mbind outcome_bind] in E; try discriminate.
  unfold heap_free in E. rewrite (eqb_NULL_false _ Hd) in E.
  destruct (objs h !! data) as [ob |] eqn:El; cbn [mbind outcome_bind] in E;
    try discriminate.
  destruct (vacate_slot r i) as [r1 | | |] eqn:Ev; cbn [mbind outcome_bind] in E;
    try discriminate.
  injection E as <- <-.
  apply (ledger_sound_vacate r r1 h _ i data Hs Ht Hd Ev).
  intros q Hq Hl. cbn [objs]. by rewrite lookup_delete_ne.
Qed.

Lemma recording_free_all_sound (r r' : RecordingAllocator) (h h' : Heap) :
  ledger_sound r h ->
  recording_free_all r h = Ret (r', h') ->
  ledger_sound r' h'.
Proof.
  intros ((Hc & Hla & Hls & Hnull) & Hlive & Hdist & Hst) E. unfold recording_free_all in E.
  destruct (free_slots_spec (allocations r) (count r) O h)
    as (h1 & E1 & _ & _ & Hout).
  { lia. }
  { intros j p Hj. apply Hlive. lia. }
  { intros a b p Ha Hb. apply Hdist; lia. }
  rewrite E1 in E. cbn [mbind outcome_bind] in E. injection E as <- <-.
  split; [unfold ledger_wf; cbn; repeat split; try done; try lia; by apply Hnull |].
  cbn [count]. split; [intros; lia |]. split; [intros; lia |].
  unfold ledger_stored, untracked.
  cbn [count capacity allocations allocations_at allocation_sizes_at].
  intros Hnz. destruct (Hst Hnz) as (H1 & H2 & H3 & H4 & H5).
  split; [rewrite Hout; [done | right; intros j Hj; apply H4; lia] |].
  split; [rewrite Hout; [done | right; intros j Hj; apply H5; lia] |].
  split; [done |]. split; intros; lia.
Qed.


(** ** Fault injection of the testing allocator *)






(** *** The calls that are not failed by injection *)






(** The scenario of C2 on five counting calls that the heap grants. *)
Example fault_injection_five_calls :
  testing_results (mkTest 3 0 empty_ledger) empty_heap five_calls
    = Ret [4096; 8192; NULL; 16384; 20480] /\
  testing_results (mkTest (-3) 0 empty_ledger) empty_heap five_calls
    = Ret [4096; 8192; NULL; NULL; NULL] /\
  testing_results (mkTest 0 0 empty_ledger) empty_heap five_calls
    = Ret [4096; 8192; 12288; 16384; 20480].
Proof. repeat split; vm_compute; reflexivity. Qed.

(** The ledger's own requests are not tested: when the heap refuses the
    arrays to the first call of a fresh allocator, the call writes through
    the NULL array. *)
Example ledger_arrays_refused :
  testing_alloc (mkTest 0 0 empty_ledger) empty_heap 8 4096 (NULL, NULL) = Undef /\
  testing_alloc (mkTest 0 0 empty_ledger) empty_heap 8 4096 (256, NULL) = Undef /\
  recording_realloc example_ledger example_ledger_heap NULL 0 8 12288 (768, NULL) = Undef.
Proof. repeat split; vm_compute; reflexivity. Qed.
(** ** The arena allocator *)

#[local] Arguments Z.eqb : simpl never.
#[local] Arguments Z.gtb : simpl never.
#[local] Arguments Z.ltb : simpl never.
#[local] Arguments Z.leb : simpl never.
#[local] Arguments wrap : simpl never.

Section ArenaFacts.

Variable arena_size : Z.

Local Abbreviation THRESH := (BIG_ALLOC_THRESH arena_size).
Local Abbreviation BUFSZ := (ARENA_BUFFER_SIZE arena_size).
Local Abbreviation round := ArenaAllocator_round_size_up.

Lemma insert3 (o1 o2 o3 : object) (m : ptr) (g : gmap Z object) :
  <[m := o3]> (<[m := o2]> (<[m := o1]> g)) = <[m := o3]> g.
Proof. by rewrite !insert_insert_eq. Qed.

(** A granted block becomes the current block, empty. *)
Lemma alloc_arena_granted (s : ArenaSt) (m : ptr) :
  m <> NULL ->
  ArenaAllocator_alloc_arena arena_size s m
    = Ret (0, with_block s m (mkArena (arena (aa s)) 0)).
Proof.
  intros Hm. unfold ArenaAllocator_alloc_arena, heap_malloc, store_obj.
  rewrite (eqb_NULL_false m Hm). simpl.
  rewrite lookup_insert_eq. simpl.
  unfold with_block, set_arena, set_heap. simpl.
  by rewrite insert_insert_eq.
Qed.

Lemma alloc_arena_refused (s : ArenaSt) :
  ArenaAllocator_alloc_arena arena_size s NULL = Ret (1, s).
Proof. unfold ArenaAllocator_alloc_arena, heap_malloc, set_heap. simpl. by destruct s. Qed.

(** The bump on a live current block. *)
Lemma bump_live (s : ArenaSt) (blk : Arena) (r : Z) :
  arena (aa s) <> NULL ->
  objs (heap s) !! arena (aa s) = Some (OArena blk) ->
  bump s r = Ret (wrap (buff (arena (aa s)) + arena_used blk),
                  with_block s (arena (aa s))
                    (mkArena (arena_prev blk) (wrap (arena_used blk + r)))).
Proof.
  intros Hnn Hl. unfold bump, load_arena, store_obj. rewrite Hl. simpl.
  rewrite (eqb_NULL_false _ Hnn). simpl.
  unfold with_block, set_heap. by destruct s as [ad [ar bl] hp].
Qed.

Lemma with_block_twice (s : ArenaSt) (ar : ptr) (b1 b2 : Arena) :
  with_block (with_block s ar b1) ar b2 = with_block s ar b2.
Proof. unfold with_block. simpl. by rewrite insert_insert_eq. Qed.

(** The bump on a block that was just granted. *)
Lemma bump_new_block (s : ArenaSt) (m : ptr) (r : Z) :
  m <> NULL ->
  bump (with_block s m (mkArena (arena (aa s)) 0)) r
    = Ret (wrap (buff m + 0), with_block s m (mkArena (arena (aa s)) (wrap (0 + r)))).
Proof.
  intros Hm.
  rewrite (bump_live _ (mkArena (arena (aa s)) 0)); simpl; try done.
  - by rewrite with_block_twice.
  - apply lookup_insert_eq.
Qed.

(** [ArenaAllocator_alloc] of a small request, case by case. *)
Lemma alloc_small_no_block (s : ArenaSt) (size : Z) (m : ptr) :
  round size <= THRESH ->
  arena (aa s) = NULL ->
  ArenaAllocator_alloc arena_size s size m =
    if m =? NULL then Ret (NULL, s)
    else Ret (wrap (buff m + 0),
              with_block s m (mkArena NULL (wrap (0 + round size)))).
Proof.
  intros Hr Ha. unfold ArenaAllocator_alloc, ensure_block.
  destruct (Z.gtb_spec (round size) THRESH) as [G | _]; [lia |].
  rewrite Ha. simpl.
  destruct (Z.eqb_spec m NULL) as [-> | Hm].
  - rewrite alloc_arena_refused. reflexivity.
  - rewrite (alloc_arena_granted s m Hm). simpl.
    rewrite (bump_new_block s m _ Hm). by rewrite Ha.
Qed.

Lemma alloc_small_room (s : ArenaSt) (size : Z) (m : ptr) (blk : Arena) :
  round size <= THRESH ->
  arena (aa s) <> NULL ->
  objs (heap s) !! arena (aa s) = Some (OArena blk) ->
  round size <= wrap (BUFSZ - arena_used blk) ->
  ArenaAllocator_alloc arena_size s size m =
    Ret (wrap (buff (arena (aa s)) + arena_used blk),
         with_block s (arena (aa s))
           (mkArena (arena_prev blk) (wrap (arena_used blk + round size)))).
Proof.
  intros Hr Hnn Hl Hroom. unfold ArenaAllocator_alloc, ensure_block.
  destruct (Z.gtb_spec (round size) THRESH) as [G | _]; [lia |].
  rewrite (eqb_NULL_false _ Hnn). unfold load_arena at 1. rewrite Hl. simpl.
  destruct (Z.gtb_spec (round size) (wrap (BUFSZ - arena_used blk))) as [G | _]; [lia |].
  simpl. by apply bump_live.
Qed.

Lemma alloc_small_full (s : ArenaSt) (size : Z) (m : ptr) (blk : Arena) :
  round size <= THRESH ->
  arena (aa s) <> NULL ->
  objs (heap s) !! arena (aa s) = Some (OArena blk) ->
  wrap (BUFSZ - arena_used blk) < round size ->
  ArenaAllocator_alloc arena_size s size m =
    if m =? NULL then Ret (NULL, s)
    else Ret (wrap (buff m + 0),
              with_block s m (mkArena (arena (aa s)) (wrap (0 + round size)))).
Proof.
  intros Hr Hnn Hl Hfull. unfold ArenaAllocator_alloc, ensure_block.
  destruct (Z.gtb_spec (round size) THRESH) as [G | _]; [lia |].
  rewrite (eqb_NULL_false _ Hnn). unfold load_arena at 1. rewrite Hl. simpl.
  destruct (Z.gtb_spec (round size) (wrap (BUFSZ - arena_used blk))) as [_ | L]; [| lia].
  destruct (Z.eqb_spec m NULL) as [-> | Hm].
  - rewrite alloc_arena_refused. reflexivity.
  - rewrite (alloc_arena_granted s m Hm). simpl.
    by rewrite (bump_new_block s m _ Hm).
Qed.

(** [Big_alloc] on a granted object. *)
Lemma Big_alloc_granted (s : ArenaSt) (r : Z) (m : ptr) :
  m <> NULL -> sentinel s <> NULL ->
  Big_alloc s (sentinel s) r m =
    Ret (wrap (m + sizeof_BigAllocation),
         mkArenaSt (aa_addr s)
           (mkAA (arena (aa s)) (mkNode m (node_prev (big_allocations (aa s)))))
           (mkHeap (<[m := OBig (mkBig NULL (sentinel s) r)]> (objs (heap s)))
                   (mem (heap s)))).
Proof.
  intros Hm Hs.
  unfold Big_alloc, Big_init, heap_malloc, store_obj, store_node_next.
  rewrite (eqb_NULL_false m Hm). simpl.
  rewrite lookup_insert_eq. simpl.
  rewrite (eqb_NULL_false _ Hs).
  replace (sentinel (set_heap _ _)) with (sentinel s) by reflexivity.
  rewrite Z.eqb_refl. simpl.
  unfold load_big. simpl. rewrite ?lookup_insert_eq. simpl.
  rewrite ?lookup_insert_eq. simpl.
  unfold set_heap. simpl. by rewrite insert3.
Qed.

(** The source does not test what the heap returned in [Big_alloc]: a
    refused big allocation dereferences NULL. *)
Lemma Big_alloc_refused (s : ArenaSt) (prev : ptr) (r : Z) :
  Big_alloc s prev r NULL = Undef.
Proof. reflexivity. Qed.

(** A small request returns, and either is served by bumping or, when a
    block was needed and the heap refused it, fails leaving the state as it
    was. *)
Lemma alloc_small_served (s : ArenaSt) (size : Z) (m : ptr) :
  round size <= THRESH ->
  current_ok s ->
  exists p s',
    ArenaAllocator_alloc arena_size s size m = Ret (p, s') /\
    (served_bump s (round size) m p s' \/ (m = NULL /\ p = NULL /\ s' = s)).
Proof.
  intros Hr Hok.
  assert (Hnew : forall prev, prev = arena (aa s) -> m <> NULL ->
            served_bump s (round size) m (wrap (buff m + 0))
              (with_block s m (mkArena prev (wrap (0 + round size))))).
  { intros prev -> Hm. unfold served_bump, with_block. simpl.
    repeat split. exists (arena (aa s)), 0. repeat split.
    - apply lookup_insert_eq.
    - intros q Hq. by apply lookup_insert_ne.
    - right. by repeat split. }
  destruct (Z.eq_dec (arena (aa s)) NULL) as [Ha | Ha].
  - rewrite (alloc_small_no_block s size m Hr Ha).
    destruct (Z.eqb_spec m NULL) as [-> | Hm].
    + exists NULL, s. split; [reflexivity | by right].
    + eexists _, _. split; [reflexivity | left]. apply Hnew; [by rewrite Ha | exact Hm].
  - destruct Hok as [Hnull | [blk Hl]]; [contradiction |].
    destruct (Z_le_gt_dec (round size) (wrap (BUFSZ - arena_used blk))) as [Hroom | Hfull].
    + rewrite (alloc_small_room s size m blk Hr Ha Hl Hroom).
      eexists _, _. split; [reflexivity | left].
      unfold served_bump, with_block. simpl. repeat split.
      exists (arena_prev blk), (arena_used blk). repeat split.
      * apply lookup_insert_eq.
      * intros q Hq. by apply lookup_insert_ne.
      * left. split; [reflexivity |]. by destruct blk.
    + rewrite (alloc_small_full s size m blk Hr Ha Hl ltac:(lia)).
      destruct (Z.eqb_spec m NULL) as [-> | Hm].
      * exists NULL, s. split; [reflexivity | by right].
      * eexists _, _. split; [reflexivity | left]. by apply Hnew.
Qed.



(** *** Two allocations on an empty arena *)

Lemma thresh_le_buffer : 32 <= arena_size -> THRESH <= BUFSZ.
Proof.
  intros H. unfold BIG_ALLOC_THRESH, ARENA_BUFFER_SIZE.
  pose proof (Z.div_mod arena_size 2 ltac:(lia)).
  pose proof (Z.mod_pos_bound arena_size 2 ltac:(lia)). lia.
Qed.

Lemma size_live_pos (g : gmap Z object) (k : Z) (o : object) :
  g !! k = Some o -> exists n, size g = S n.
Proof.
  intros H. destruct (size g) as [| n] eqn:E; [| by exists n].
  apply map_size_empty_inv in E. subst g. by rewrite lookup_empty in H.
Qed.

(** The statistics of a chain of one block and of two blocks, with an empty
    big-allocation list. *)
Lemma stats_one_block (s : ArenaSt) (blk : Arena) :
  arena (aa s) <> NULL ->
  objs (heap s) !! arena (aa s) = Some (OArena blk) ->
  arena_prev blk = NULL ->
  node_next (big_allocations (aa s)) = NULL ->
  exists st, ArenaAllocator_stats arena_size s = Ret st /\ st_arena_count st = 1.
Proof.
  intros Hnn Hl Hp Hb. unfold ArenaAllocator_stats.
  destruct (size_live_pos _ _ _ Hl) as [n ->]. rewrite Hb.
  cbn [stats_arenas]. rewrite (eqb_NULL_false _ Hnn).
  unfold load_arena. rewrite Hl. cbn [mbind outcome_bind]. rewrite Hp.
  destruct n; cbn [stats_arenas stats_bigs mbind outcome_bind];
    change (NULL =? NULL) with true; cbn iota; eexists; (split; [reflexivity |]);
    reflexivity.
Qed.

Lemma stats_two_blocks (s : ArenaSt) (blk blk1 : Arena) :
  arena (aa s) <> NULL ->
  objs (heap s) !! arena (aa s) = Some (OArena blk) ->
  arena_prev blk <> NULL ->
  objs (heap s) !! arena_prev blk = Some (OArena blk1) ->
  arena_prev blk1 = NULL ->
  node_next (big_allocations (aa s)) = NULL ->
  exists st, ArenaAllocator_stats arena_size s = Ret st /\ st_arena_count st = 2.
Proof.
  intros Hnn Hl Hpn Hl1 Hp Hb. unfold ArenaAllocator_stats.
  destruct (size_live_pos _ _ _ Hl) as [n ->]. rewrite Hb.
  cbn [stats_arenas]. rewrite (eqb_NULL_false _ Hnn).
  unfold load_arena. rewrite Hl. cbn [mbind outcome_bind].
  rewrite (eqb_NULL_false _ Hpn). rewrite Hl1. cbn [mbind outcome_bind]. rewrite Hp.
  destruct n; cbn [stats_arenas stats_bigs mbind outcome_bind];
    change (NULL =? NULL) with true; cbn iota; eexists; (split; [reflexivity |]);
    reflexivity.
Qed.

Lemma wrap_add_l (x y : Z) : wrap (wrap x + y) = wrap (x + y).
Proof. unfold wrap. apply Zplus_mod_idemp_l. Qed.

Lemma wrap_add_r (x y : Z) : wrap (x + wrap y) = wrap (x + y).
Proof. unfold wrap. apply Zplus_mod_idemp_r. Qed.

Lemma wrap_sub_l (x y : Z) : wrap (wrap x - y) = wrap (x - y).
Proof. unfold wrap. apply Zminus_mod_idemp_l. Qed.

Lemma wrap_wrap (x : Z) : wrap (wrap x) = wrap x.
Proof. unfold wrap. apply Z.mod_mod. unfold SIZE_MOD. lia. Qed.

(** Two addresses that differ by less than [2^64] are distinct modulo
    [2^64]. *)
Lemma wrap_inj_near (x y : Z) :
  wrap x = wrap y -> - SIZE_MOD < x - y < SIZE_MOD -> x = y.
Proof.
  unfold wrap. intros E H.
  assert (HM : 0 < SIZE_MOD) by (unfold SIZE_MOD; lia).
  pose proof (Z.div_mod x SIZE_MOD ltac:(lia)) as Hx.
  pose proof (Z.div_mod y SIZE_MOD ltac:(lia)) as Hy.
  rewrite E in Hx.
  assert (x - y = SIZE_MOD * (x / SIZE_MOD - y / SIZE_MOD)) by lia.
  assert (x / SIZE_MOD - y / SIZE_MOD = 0) by nia.
  lia.
Qed.


(** The shape of the state after a small allocation that returned an address:
    the current block [ar] held [u] bytes before and holds [u + r] now, all
    within the buffer, and the address is the old frontier.  The block is the
    one that was current, or a new one that the heap granted because there was
    no current block or it had no room. *)
Lemma alloc_small_shape (s s1 : ArenaSt) (size : Z) (m A : ptr) :
  32 <= arena_size < SIZE_MOD ->
  is_size size ->
  round size <= THRESH ->
  arena_inv arena_size s ->
  ArenaAllocator_alloc arena_size s size m = Ret (A, s1) ->
  A <> NULL ->
  exists ar prev u,
    ar <> NULL /\
    s1 = with_block s ar (mkArena prev (u + round size)) /\
    A = wrap (buff ar + u) /\
    0 <= u /\ u + round size <= BUFSZ /\
    ((ar = arena (aa s) /\ objs (heap s) !! ar = Some (OArena (mkArena prev u))) \/
     (ar = m /\ u = 0 /\ prev = arena (aa s) /\
      (arena (aa s) = NULL \/
       exists blk, objs (heap s) !! arena (aa s) = Some (OArena blk) /\
                   BUFSZ - arena_used blk < round size))).
Proof.
  intros Hsz Hs Hr Hinv E HA.
  pose proof (thresh_le_buffer ltac:(lia)) as Htb.
  pose proof (round_size_up_range size Hs) as Hr'. unfold is_size in *.
  assert (HB : BUFSZ < SIZE_MOD) by (unfold ARENA_BUFFER_SIZE; lia).
  assert (Hnew : forall why,
            m <> NULL ->
            Ret (wrap (buff m + 0),
                 with_block s m (mkArena (arena (aa s)) (wrap (0 + round size))))
              = Ret (A, s1) ->
            why ->
            exists ar prev u,
              ar <> NULL /\
              s1 = with_block s ar (mkArena prev (u + round size)) /\
              A = wrap (buff ar + u) /\
              0 <= u /\ u + round size <= BUFSZ /\
              ((ar = arena (aa s) /\
                objs (heap s) !! ar = Some (OArena (mkArena prev u))) \/
               (ar = m /\ u = 0 /\ prev = arena (aa s) /\ why))).
  { intros why Hm [= <- <-] Hwhy. exists m, (arena (aa s)), 0.
    rewrite (wrap_small (0 + round size)) by lia.
    repeat split; try done; try lia. right. by repeat split. }
  destruct (Z.eq_dec (arena (aa s)) NULL) as [Ha | Ha].
  - rewrite (alloc_small_no_block s size m Hr Ha) in E.
    destruct (Z.eqb_spec m NULL) as [-> | Hm]; [by injection E as <- _ |].
    rewrite <- Ha in E. refine (Hnew _ Hm E _). by left.
  - destruct Hinv as [Hnull | (blk & Hl & Hu)]; [contradiction |].
    assert (Hrem : wrap (BUFSZ - arena_used blk) = BUFSZ - arena_used blk).
    { apply wrap_small. lia. }
    destruct (Z_le_gt_dec (round size) (BUFSZ - arena_used blk)) as [Hroom | Hfull].
    + rewrite (alloc_small_room s size m blk Hr Ha Hl) in E by lia.
      injection E as <- <-.
      exists (arena (aa s)), (arena_prev blk), (arena_used blk).
      rewrite (wrap_small (arena_used blk + round size)) by lia.
      repeat split; try done; try lia. left. split; [done |]. by destruct blk.
    + rewrite (alloc_small_full s size m blk Hr Ha Hl) in E by lia.
      destruct (Z.eqb_spec m NULL) as [-> | Hm]; [by injection E as <- _ |].
      refine (Hnew _ Hm E _). right. exists blk. split; [done | lia].
Qed.

(** [free] of the frontier allocation of rounded size [r] gives its bytes
    back to the block. *)
Lemma free_frontier (s : ArenaSt) (ar prev : ptr) (u size : Z) :
  0 < size -> is_size size ->
  round size <= THRESH ->
  ar <> NULL ->
  wrap (buff ar + u) <> NULL ->
  0 <= u -> u + round size < SIZE_MOD ->
  ArenaAllocator_free arena_size
      (with_block s ar (mkArena prev (u + round size))) (wrap (buff ar + u)) size
    = Ret (with_block s ar (mkArena prev u)).
Proof.
  intros Hpos Hs Hr Har HB Hu Hur. unfold ArenaAllocator_free.
  pose proof (round_size_up_range size Hs) as Hr'.
  rewrite (eqb_NULL_false _ HB).
  destruct (Z.eqb_spec size 0) as [E | _]; [lia |].
  destruct (Z.gtb_spec (round size) THRESH) as [G | _]; [lia |].
  cbn [with_block aa arena heap objs].
  rewrite (eqb_NULL_false _ Har). cbn [negb assert mbind outcome_bind].
  unfold load_arena. cbn [objs]. rewrite lookup_insert_eq.
  cbn [mbind outcome_bind arena_used arena_prev].
  rewrite wrap_add_l.
  replace (buff ar + u + round size) with (buff ar + (u + round size)) by lia.
  rewrite Z.eqb_refl.
  unfold store_obj. cbn [objs]. rewrite (eqb_NULL_false _ Har), lookup_insert_eq.
  cbn [mbind outcome_bind]. unfold set_heap, with_block. cbn [aa_addr aa heap objs mem].
  rewrite insert_insert_eq.
  replace (u + round size - round size) with u by lia.
  by rewrite (wrap_small u) by lia.
Qed.

Lemma thresh_lt_size : 32 <= arena_size -> THRESH < arena_size.
Proof. intros H. unfold BIG_ALLOC_THRESH. apply Z.div_lt; lia. Qed.

Lemma round_size_up_zero : round 0 = 0.
Proof. reflexivity. Qed.

Lemma round_size_up_pos (z : Z) : 0 < z <= SIZE_MOD - 8 -> 0 < round z.
Proof. intros H. pose proof (round_size_up_bounds z ltac:(lia)). lia. Qed.

(** The first allocation on an empty arena. *)
Lemma first_alloc_shape (addr : ptr) (h0 : Heap) (a : Z) (m1 A : ptr) (s1 : ArenaSt) :
  32 <= arena_size < SIZE_MOD ->
  is_size a ->
  round a <= THRESH ->
  ArenaAllocator_alloc arena_size (empty_arena addr h0) a m1 = Ret (A, s1) ->
  A <> NULL ->
  m1 <> NULL /\
  s1 = with_block (empty_arena addr h0) m1 (mkArena NULL (round a)) /\
  A = wrap (buff m1 + 0) /\ round a <= BUFSZ.
Proof.
  intros Hsz Ha Hr E HA.
  assert (Hinv : arena_inv arena_size (empty_arena addr h0)) by (by left).
  destruct (alloc_small_shape _ _ _ _ _ Hsz Ha Hr Hinv E HA)
    as (ar & prev & u & Har & -> & -> & Hu & Hur & [[Hc _] | (-> & -> & -> & _)]).
  - simpl in Hc. contradiction.
  - simpl. rewrite Z.add_0_l in *. by repeat split.
Qed.

(** C6 (amended): from an empty arena, alloc A of size [a], then alloc B of
    size [b], both small (in range, rounded size at most [BIG_ALLOC_THRESH])
    and both granted.  After [free(B, b)] an alloc of any size [c <= b]
    returns B's address.  [free(A, a)] instead leaves the state, and so the
    block's [used], as it was when [b > 0] (given that a second block, if the
    heap was asked for one, does not overlap the first), and when [a = 0].
    When [b = 0] and [a > 0], A is still the frontier allocation: [free(A, a)]
    takes its bytes back and [used] goes from the rounded [a] to 0. *)
Theorem arena_lifo_reclaim
    (addr : ptr) (h0 : Heap) (a b : Z) (m1 m2 A B : ptr) (s1 s2 : ArenaSt) :
  32 <= arena_size < SIZE_MOD ->
  0 <= a <= SIZE_MOD - 8 -> 0 <= b <= SIZE_MOD - 8 ->
  ArenaAllocator_round_size_up a <= BIG_ALLOC_THRESH arena_size ->
  ArenaAllocator_round_size_up b <= BIG_ALLOC_THRESH arena_size ->
  ArenaAllocator_alloc arena_size (empty_arena addr h0) a m1 = Ret (A, s1) ->
  A <> NULL ->
  ArenaAllocator_alloc arena_size s1 b m2 = Ret (B, s2) ->
  B <> NULL ->
  (exists s3,
     ArenaAllocator_free arena_size s2 B b = Ret s3 /\
     forall c m3, 0 <= c <= b ->
       exists s4, ArenaAllocator_alloc arena_size s3 c m3 = Ret (B, s4)) /\
  ((0 < b /\ placed_apart arena_size m1 m2) \/ a = 0 ->
   ArenaAllocator_free arena_size s2 A a = Ret s2) /\
  (b = 0 -> 0 < a ->
   exists s3 blk2 blk3,
     ArenaAllocator_free arena_size s2 A a = Ret s3 /\
     objs (heap s2) !! arena (aa s2) = Some (OArena blk2) /\
     objs (heap s3) !! arena (aa s3) = Some (OArena blk3) /\
     arena_used blk2 = ArenaAllocator_round_size_up a /\
     0 < arena_used blk2 /\
     arena_used blk3 = 0).
Proof.
  intros Hsz Ha Hb Hra Hrb E1 HA E2 HB.
  assert (Hsa : is_size a) by (unfold is_size; lia).
  assert (Hsb : is_size b) by (unfold is_size; lia).
  pose proof (thresh_le_buffer ltac:(lia)) as Htb.
  pose proof (thresh_lt_size ltac:(lia)) as Hts.
  pose proof (round_size_up_range a Hsa) as Hra'.
  pose proof (round_size_up_range b Hsb) as Hrb'.
  assert (HBsz : 0 <= BUFSZ < SIZE_MOD) by (unfold ARENA_BUFFER_SIZE; lia).
  destruct (first_alloc_shape _ _ _ _ _ _ Hsz Hsa Hra E1 HA) as (Hm1 & Hs1 & HAeq & HraB).
  set (s0 := empty_arena addr h0) in *.
  assert (Hl1 : objs (heap s1) !! m1 = Some (OArena (mkArena NULL (round a)))).
  { rewrite Hs1. unfold with_block. cbn [heap objs]. apply lookup_insert_eq. }
  assert (Har1 : arena (aa s1) = m1) by (by rewrite Hs1).
  assert (Hinv1 : arena_inv arena_size s1).
  { right. exists (mkArena NULL (round a)). rewrite Har1. split; [exact Hl1 |].
    cbn [arena_used]. lia. }
  destruct (alloc_small_shape _ _ _ _ _ Hsz Hsb Hrb Hinv1 E2 HB)
    as (ar & prev & u & Har & Hs2 & HBeq & Hu & Hur & Hcase).
  assert (Hl2 : objs (heap s2) !! ar = Some (OArena (mkArena prev (u + round b)))).
  { rewrite Hs2. unfold with_block. cbn [heap objs]. apply lookup_insert_eq. }
  assert (Har2 : arena (aa s2) = ar) by (by rewrite Hs2).
  split; [| split].
  - (* free B, then alloc c *)
    assert (Hre : forall c m3 used, 0 <= c <= b -> (used = u \/ (used = u + round b /\ b = 0)) ->
              ArenaAllocator_alloc arena_size (with_block s1 ar (mkArena prev used)) c m3
                = Ret (B, with_block (with_block s1 ar (mkArena prev used)) ar
                            (mkArena prev (wrap (used + round c))))).
    { intros c m3 used Hc Hused.
      assert (Hrc : round c <= round b) by (apply round_size_up_mono; lia).
      assert (Hrc0 : 0 <= round c).
      { pose proof (round_size_up_range c ltac:(unfold is_size; lia)). lia. }
      assert (Hused' : used <= BUFSZ - round c /\ wrap (buff ar + used) = B).
      { destruct Hused as [-> | [-> ->]]; [split; [lia | by rewrite HBeq] |].
        rewrite round_size_up_zero in *. rewrite Z.add_0_r. split; [lia | by rewrite HBeq]. }
      destruct Hused' as [Hle HBu].
      assert (H0u : 0 <= used) by (destruct Hused as [-> | [-> _]]; lia).
      rewrite (alloc_small_room _ c m3 (mkArena prev used)); cbn [with_block aa arena heap objs];
        try done; try lia.
      - cbn [arena_used arena_prev]. by rewrite HBu.
      - apply lookup_insert_eq.
      - cbn [arena_used]. rewrite wrap_small by lia. lia. }
    destruct (Z.eq_dec b 0) as [Hb0 | Hb0].
    + exists s2. split.
      * unfold ArenaAllocator_free. rewrite (eqb_NULL_false _ HB). subst b. reflexivity.
      * intros c m3 Hc. rewrite Hs2. eexists. apply Hre; [exact Hc | right; by split].
    + exists (with_block s1 ar (mkArena prev u)). split.
      * rewrite Hs2, HBeq. apply free_frontier; try done; try lia.
      * intros c m3 Hc. eexists. apply Hre; [exact Hc | by left].
  - (* free A instead, B not empty *)
    intros [[Hbpos Hapart] | Ha0].
    2: { unfold ArenaAllocator_free. rewrite (eqb_NULL_false _ HA). subst a. reflexivity. }
    assert (Hnf : wrap (A + round a) <> wrap (buff ar + (u + round b))).
    { intros Heq.
      pose proof (round_size_up_pos b ltac:(lia)) as Hrbpos.
      rewrite HAeq in Heq. unfold buff in Heq. rewrite !wrap_add_l in Heq.
      rewrite Z.add_0_r, wrap_add_l in Heq.
      destruct Hcase as [[Hsame Hl] | (Hnew & Hu0 & Hprev & _)].
      - rewrite Har1 in Hsame. subst ar. rewrite Hl1 in Hl. injection Hl as <- <-.
        apply wrap_inj_near in Heq; lia.
      - subst ar u prev.
        destruct Hapart as [Hm2 | ((H1a & H1b) & (H2a & H2b) & Hdis)]; [contradiction |].
        apply wrap_inj_near in Heq; [| lia]. lia. }
    unfold ArenaAllocator_free. rewrite (eqb_NULL_false _ HA).
    destruct (Z.eqb_spec a 0) as [_ | Ha0]; [reflexivity |].
    destruct (Z.gtb_spec (round a) THRESH) as [G | _]; [lia |].
    rewrite Har2, (eqb_NULL_false _ Har). cbn [negb assert mbind outcome_bind].
    unfold load_arena. rewrite Hl2. cbn [mbind outcome_bind arena_used].
    destruct (Z.eqb_spec (wrap (A + round a)) (wrap (buff ar + (u + round b))))
      as [Eq | _]; [contradiction | reflexivity].
  - (* free A instead, B empty: A is the frontier allocation *)
    intros Hb0 Hapos. subst b. rewrite round_size_up_zero in *.
    pose proof (round_size_up_pos a ltac:(lia)) as Hrapos.
    assert (Hsame : ar = m1 /\ prev = NULL /\ u = round a).
    { destruct Hcase as [[Hsame Hl] | (_ & _ & _ & [Hnull | (blk & Hblk & Hfull)])].
      - rewrite Har1 in Hsame. subst ar. rewrite Hl1 in Hl. by injection Hl as <- <-.
      - rewrite Har1 in Hnull. contradiction.
      - rewrite Har1, Hl1 in Hblk. injection Hblk as <-. cbn [arena_used] in Hfull. lia. }
    destruct Hsame as (-> & -> & ->).
    assert (Es2 : s2 = with_block s0 m1 (mkArena NULL (0 + round a))).
    { rewrite Hs2, Hs1, with_block_twice. do 2 f_equal. lia. }
    exists (with_block s0 m1 (mkArena NULL 0)), (mkArena NULL (round a)), (mkArena NULL 0).
    split; [| split; [| split; [| split; [reflexivity | split; [exact Hrapos | reflexivity]]]]].
    + rewrite Es2, HAeq.
      apply free_frontier; try done; try lia; try (unfold is_size; lia);
        by rewrite <- HAeq.
    + rewrite Har2, Hl2. do 3 f_equal. lia.
    + unfold with_block. cbn [aa arena heap objs]. apply lookup_insert_eq.
Qed.

Lemma with_block_same (s : ArenaSt) (blk : Arena) :
  objs (heap s) !! arena (aa s) = Some (OArena blk) ->
  with_block s (arena (aa s)) blk = s.
Proof.
  intros H. destruct s as [ad [ar bl] [ob me]]. unfold with_block. cbn in *.
  by rewrite insert_id.
Qed.

Lemma round_add_aligned (a k : Z) :
  a mod 8 = 0 -> 0 <= a -> 0 <= k -> a + k <= SIZE_MOD - 8 ->
  round (a + k) = a + round k.
Proof.
  intros Ha H0 Hk Hle.
  pose proof (round_size_up_bounds (a + k) ltac:(lia)) as [Hn _].
  pose proof (round_size_up_bounds k ltac:(lia)) as [Hrk _].
  pose proof (round_size_up_aligned (a + k)) as An.
  pose proof (round_size_up_aligned k) as Ak.
  apply Z.mod_divide in An; [| lia]. apply Z.mod_divide in Ak; [| lia].
  apply Z.mod_divide in Ha; [| lia].
  destruct An as [x Ex], Ak as [y Ey], Ha as [z Ez]. lia.
Qed.

(** C3 (amended): A is the most recent allocation, of size [a > 0], small and
    granted; the caller may have written any bytes since.  Then
    [realloc(A, a, a + k)] with [a + k] small, whose result still fits the
    current block, returns A, leaves every payload byte as the caller left it
    (no copy), and changes only the [used] counter of the current block, by
    exactly [round (a + k) - round a].  That increase is [round k] when [a] is
    a multiple of 8. *)
Theorem arena_realloc_in_place
    (s s1 : ArenaSt) (a k : Z) (m0 m A : ptr) (bytes : gmap Z Byte.byte) :
  32 <= arena_size < SIZE_MOD ->
  0 < a -> 0 <= k -> a + k <= SIZE_MOD - 8 ->
  ArenaAllocator_round_size_up a <= BIG_ALLOC_THRESH arena_size ->
  ArenaAllocator_round_size_up (a + k) <= BIG_ALLOC_THRESH arena_size ->
  arena_inv arena_size s ->
  ArenaAllocator_alloc arena_size s a m0 = Ret (A, s1) ->
  A <> NULL ->
  exists blk1,
    objs (heap s1) !! arena (aa s1) = Some (OArena blk1) /\
    ArenaAllocator_round_size_up a <= ArenaAllocator_round_size_up (a + k) /\
    (arena_used blk1 - ArenaAllocator_round_size_up a + ArenaAllocator_round_size_up (a + k)
       <= ARENA_BUFFER_SIZE arena_size ->
     ArenaAllocator_realloc arena_size (user_write s1 bytes) A a (a + k) m =
       Ret (A, with_block (user_write s1 bytes) (arena (aa s1))
                 (mkArena (arena_prev blk1)
                    (arena_used blk1
                     + (ArenaAllocator_round_size_up (a + k)
                        - ArenaAllocator_round_size_up a))))) /\
    (a mod 8 = 0 ->
     ArenaAllocator_round_size_up (a + k) - ArenaAllocator_round_size_up a
       = ArenaAllocator_round_size_up k).
Proof.
  intros Hsz Ha Hk Hak Hra Hrn Hinv E HA.
  assert (Hsa : is_size a) by (unfold is_size; lia).
  assert (Hsn : is_size (a + k)) by (unfold is_size; lia).
  pose proof (round_size_up_range a Hsa) as Hra'.
  pose proof (round_size_up_range (a + k) Hsn) as Hrn'.
  assert (HBsz : 0 <= BUFSZ < SIZE_MOD) by (unfold ARENA_BUFFER_SIZE; lia).
  assert (Hmono : round a <= round (a + k)) by (apply round_size_up_mono; lia).
  destruct (alloc_small_shape _ _ _ _ _ Hsz Hsa Hra Hinv E HA)
    as (ar & prev & u & Har & Hs1 & HAeq & Hu & Hur & _).
  assert (Har1 : arena (aa s1) = ar) by (by rewrite Hs1).
  assert (Hl1 : objs (heap s1) !! ar = Some (OArena (mkArena prev (u + round a)))).
  { rewrite Hs1. unfold with_block. cbn [heap objs]. apply lookup_insert_eq. }
  exists (mkArena prev (u + round a)). rewrite Har1. cbn [arena_used arena_prev].
  split; [exact Hl1 |]. split; [exact Hmono |]. split.
  - intros Hfit. unfold ArenaAllocator_realloc.
    destruct (Z.eqb_spec a 0) as [? | _]; [lia |].
    destruct (Z.eqb_spec (a + k) 0) as [? | _]; [lia |].
    cbn [andb].
    destruct (Z.eqb_spec (round a) (round (a + k))) as [Eq | Hne].
    + rewrite <- Eq, Z.sub_diag, Z.add_0_r.
      rewrite <- Har1. symmetry. do 2 f_equal.
      apply (with_block_same (user_write s1 bytes)).
      cbn [user_write set_heap aa arena heap objs]. rewrite Har1. exact Hl1.
    + destruct (Z.gtb_spec (round a) THRESH) as [G | _]; [lia |].
      destruct (Z.gtb_spec (round (a + k)) THRESH) as [G | _]; [lia |].
      cbn [user_write set_heap aa arena heap objs].
      rewrite Har1, (eqb_NULL_false _ Har). cbn [negb assert mbind outcome_bind].
      unfold load_arena. cbn [objs]. rewrite Hl1. cbn [mbind outcome_bind arena_used arena_prev].
      rewrite HAeq, wrap_add_l.
      replace (buff ar + u + round a) with (buff ar + (u + round a)) by lia.
      rewrite Z.eqb_refl.
      rewrite wrap_add_l.
      replace (u + round a - round a + round (a + k)) with (u + round (a + k)) by lia.
      rewrite (wrap_small (u + round (a + k))) by lia.
      destruct (Z.leb_spec (u + round (a + k)) BUFSZ) as [_ | G]; [| lia].
      cbn [andb]. unfold store_obj. cbn [objs].
      rewrite (eqb_NULL_false _ Har), Hl1. cbn [mbind outcome_bind].
      unfold with_block, set_heap. cbn [aa_addr aa arena big_allocations heap objs mem].
      replace (u + round a + (round (a + k) - round a)) with (u + round (a + k)) by lia.
      rewrite Hs1. reflexivity.
  - intros Hmod. rewrite (round_add_aligned a k Hmod) by lia.
    rewrite (round_size_up_fixed a Hmod). lia.
Qed.

(** C1 (amended): on an empty arena, alloc of [a] bytes (A) then alloc of
    [b] bytes (B), both small (rounded size at most [BIG_ALLOC_THRESH], half
    the block size); the heap returns [m1] for the first block and, if asked
    for a second one, [m2] (another address, or NULL).  A is the start of the
    first block's buffer.  If the rounded size of B exceeds what is left of
    the buffer ([ARENA_BUFFER_SIZE - round a]) and the heap grants the second
    block, B starts the buffer of that new block, the block count is exactly
    2, the first block is still live behind it with its header as A left it,
    and no payload byte changed.  If B fits what is left, B follows A in the
    first block and the block count stays 1. *)
Theorem arena_block_overflow
    (addr : ptr) (h0 : Heap) (a b : Z) (m1 m2 : ptr) :
  32 <= arena_size < SIZE_MOD ->
  is_size a -> is_size b ->
  ArenaAllocator_round_size_up a <= BIG_ALLOC_THRESH arena_size ->
  ArenaAllocator_round_size_up b <= BIG_ALLOC_THRESH arena_size ->
  m1 <> NULL -> m2 <> m1 ->
  exists B s1 s2 st,
    two_allocs arena_size addr h0 a b m1 m2 = Ret (buff m1, B, s1, s2, st) /\
    mem (heap s1) = mem h0 /\ mem (heap s2) = mem h0 /\
    objs (heap s1) !! m1 = Some (OArena (mkArena NULL (ArenaAllocator_round_size_up a))) /\
    (ARENA_BUFFER_SIZE arena_size - ArenaAllocator_round_size_up a
       < ArenaAllocator_round_size_up b ->
     m2 <> NULL ->
       B = buff m2 /\ arena (aa s2) = m2 /\
       objs (heap s2) !! m2 = Some (OArena (mkArena m1 (ArenaAllocator_round_size_up b))) /\
       objs (heap s2) !! m1 = objs (heap s1) !! m1 /\
       st_arena_count st = 2) /\
    (ArenaAllocator_round_size_up b
       <= ARENA_BUFFER_SIZE arena_size - ArenaAllocator_round_size_up a ->
       B = wrap (buff m1 + ArenaAllocator_round_size_up a) /\ arena (aa s2) = m1 /\
       st_arena_count st = 1).
Proof.
  intros Hsz Ha Hb Hra Hrb Hm1 Hne.
  pose proof (thresh_le_buffer ltac:(lia)) as Htb.
  pose proof (round_size_up_range a Ha) as Hra'.
  pose proof (round_size_up_range b Hb) as Hrb'.
  assert (HB : BUFSZ < SIZE_MOD) by (unfold ARENA_BUFFER_SIZE; lia).
  set (s0 := empty_arena addr h0).
  set (s1 := with_block s0 m1 (mkArena NULL (round a))).
  assert (E1 : ArenaAllocator_alloc arena_size s0 a m1 = Ret (buff m1, s1)).
  { rewrite (alloc_small_no_block s0 a m1 Hra eq_refl).
    rewrite (eqb_NULL_false m1 Hm1). unfold s1.
    rewrite Z.add_0_l, (wrap_small (round a)) by exact Hra'.
    rewrite Z.add_0_r. unfold buff. rewrite (wrap_small (wrap _)) by apply wrap_range.
    reflexivity. }
  assert (Hl1 : objs (heap s1) !! m1 = Some (OArena (mkArena NULL (round a)))).
  { unfold s1, with_block. simpl. apply lookup_insert_eq. }
  assert (Hrem : wrap (BUFSZ - round a) = BUFSZ - round a).
  { apply wrap_small. lia. }
  unfold two_allocs. fold s0. rewrite E1. cbn [mbind outcome_bind].
  destruct (Z_lt_le_dec (BUFSZ - round a) (round b)) as [Hfull | Hroom].
  - (* the buffer cannot hold B *)
    rewrite (alloc_small_full s1 b m2 (mkArena NULL (round a)) Hrb Hm1 Hl1)
      by (simpl; lia).
    destruct (Z.eqb_spec m2 NULL) as [-> | Hm2].
    + (* refused: only the first block exists *)
      cbn [mbind outcome_bind].
      destruct (stats_one_block s1 (mkArena NULL (round a)) Hm1 Hl1 eq_refl eq_refl)
        as (st & -> & Hst).
      cbn [mbind outcome_bind].
      exists NULL, s1, s1, st. repeat split; try done. intros. lia.
    + cbn [mbind outcome_bind].
      set (s2 := with_block s1 m2 _).
      assert (Hl2 : objs (heap s2) !! m2 = Some (OArena (mkArena m1 (round b)))).
      { unfold s2, with_block. simpl. rewrite lookup_insert_eq.
        by rewrite Z.add_0_l, (wrap_small (round b)). }
      assert (Hl21 : objs (heap s2) !! m1 = objs (heap s1) !! m1).
      { unfold s2, with_block. simpl. by rewrite lookup_insert_ne. }
      destruct (stats_two_blocks s2 (mkArena m1 (round b)) (mkArena NULL (round a)))
        as (st & -> & Hst); try done.
      { cbn [arena_prev]. rewrite Hl21. exact Hl1. }
      cbn [mbind outcome_bind].
      exists (wrap (buff m2 + 0)), s1, s2, st. repeat split; try done; try lia.
      rewrite Z.add_0_r. unfold buff. by rewrite (wrap_small (wrap _)) by apply wrap_range.
  - (* B fits behind A *)
    rewrite (alloc_small_room s1 b m2 (mkArena NULL (round a)) Hrb Hm1 Hl1)
      by (simpl; lia).
    cbn [mbind outcome_bind arena_used arena_prev].
    set (s2 := with_block s1 _ _).
    destruct (stats_one_block s2 (mkArena NULL (wrap (round a + round b))))
      as (st & -> & Hst); try done.
    { unfold s2, with_block. simpl. apply lookup_insert_eq. }
    cbn [mbind outcome_bind].
    exists (wrap (buff m1 + round a)), s1, s2, st. repeat split; try done; lia.
Qed.

End ArenaFacts.

(** C1, as the specification has it, fails.  With a block of 4096 bytes the
    threshold is 2048, so the 4000 bytes of A are a big allocation and the
    200 bytes of B open the first and only block.  With the block size of
    the source (524288 bytes) both fit the first block. *)
Lemma overflow_4000_200_fails :
  ~ overflow_4000_200 4096 4096 empty_heap 1048576 4194304 /\
  ~ overflow_4000_200 ARENA_SIZE 4096 empty_heap 1048576 4194304.
Proof.
  split; intros (A & B & s1 & s2 & st & E & _ & Hc & _);
    vm_compute in E; injection E as <- <- <- <- <-; vm_compute in Hc; discriminate.
Qed.

(** What the two scenarios give instead. *)
Example two_allocs_4000_200 :
  (exists s1 s2 st,
     two_allocs 4096 4096 empty_heap 4000 200 1048576 4194304
       = Ret (1048576 + 64, 4194304 + 16, s1, s2, st) /\
     st_arena_count st = 1 /\ st_big_count st = 1) /\
  (exists s1 s2 st,
     two_allocs ARENA_SIZE 4096 empty_heap 4000 200 1048576 4194304
       = Ret (1048576 + 16, 1048576 + 16 + 4000, s1, s2, st) /\
     st_arena_count st = 1 /\ st_big_count st = 0 /\ st_used st = 4200).
Proof.
  split; vm_compute; eexists _, _, _; repeat split; reflexivity.
Qed.

Lemma arena_block_overflow_witness :
  (exists B s1 s2 st,
     two_allocs 4096 4096 empty_heap 2048 2040 1048576 4194304
       = Ret (buff 1048576, B, s1, s2, st) /\
     B = buff 4194304 /\ st_arena_count st = 2 /\ mem (heap s2) = mem (heap s1)) /\
  (exists B s1 s2 st,
     two_allocs ARENA_SIZE 4096 empty_heap 262144 262136 1048576 4194304
       = Ret (buff 1048576, B, s1, s2, st) /\
     B = buff 4194304 /\ st_arena_count st = 2 /\ mem (heap s2) = mem (heap s1)).
Proof.
  split.
  - destruct (arena_block_overflow 4096 4096 empty_heap 2048 2040 1048576 4194304)
      as (B & s1 & s2 & st & E & M1 & M2 & _ & Hover & _);
      [ unfold SIZE_MOD; lia
      | unfold is_size, SIZE_MOD; lia
      | unfold is_size, SIZE_MOD; lia
      | vm_compute; discriminate
      | vm_compute; discriminate
      | discriminate
      | discriminate
      | ].
    destruct Hover as (HB & _ & _ & _ & Hc); [vm_compute; reflexivity | discriminate |].
    exists B, s1, s2, st. repeat split; try assumption. congruence.
  - destruct (arena_block_overflow ARENA_SIZE 4096 empty_heap 262144 262136 1048576 4194304)
      as (B & s1 & s2 & st & E & M1 & M2 & _ & Hover & _);
      [ unfold SIZE_MOD, ARENA_SIZE, ARENA_PAGE_SIZE; lia
      | unfold is_size, SIZE_MOD; lia
      | unfold is_size, SIZE_MOD; lia
      | vm_compute; discriminate
      | vm_compute; discriminate
      | discriminate
      | discriminate
      | ].
    destruct Hover as (HB & _ & _ & _ & Hc); [vm_compute; reflexivity | discriminate |].
    exists B, s1, s2, st. repeat split; try assumption. congruence.
Defined.



(** C3, as the specification has it, fails: A of 1 byte takes 8 bytes, and
    growing it to 2 bytes in place leaves [used] at 8, not at [8 + round 1]. *)
Lemma grows_by_round_k_fails :
  ~ grows_by_round_k ARENA_SIZE arena0 1 1 1048576 NULL.
Proof.
  intros (A & s1 & s2 & blk1 & blk2 & E1 & E2 & L1 & L2 & Hu & _).
  vm_compute in E1. injection E1 as <- <-.
  vm_compute in E2. injection E2 as <-.
  vm_compute in L1. injection L1 as <-.
  vm_compute in L2. injection L2 as <-.
  vm_compute in Hu. discriminate.
Qed.

Lemma arena_realloc_in_place_witness :
  ArenaAllocator_realloc ARENA_SIZE (user_write after_A.2 {[ 1048576 + 16 + 104 := Byte.xff ]})
      after_A.1 100 (100 + 28) NULL
    = Ret (after_A.1,
           with_block (user_write after_A.2 {[ 1048576 + 16 + 104 := Byte.xff ]})
             1048576 (mkArena NULL (104 + (128 - 104)))).
Proof.
  destruct (arena_realloc_in_place ARENA_SIZE arena0 after_A.2 100 28 1048576 NULL
              after_A.1 {[ 1048576 + 16 + 104 := Byte.xff ]})
    as (blk1 & L1 & _ & Hfit & _);
    [ unfold SIZE_MOD, ARENA_SIZE, ARENA_PAGE_SIZE; lia
    | lia
    | lia
    | unfold SIZE_MOD; lia
    | vm_compute; discriminate
    | vm_compute; discriminate
    | left; reflexivity
    | vm_compute; reflexivity
    | vm_compute; discriminate
    | ].
  vm_compute in L1. injection L1 as <-.
  apply Hfit. vm_compute. discriminate.
Defined.

(** C6, as the specification has it, fails when B is empty: after alloc A
    of 8 bytes and alloc B of 0 bytes, A's end is still the frontier, and
    [free(A, 8)] takes [used] from 8 back to 0. *)
Lemma free_A_keeps_used_fails :
  ~ free_A_keeps_used ARENA_SIZE arena0 8 0 1048576 NULL.
Proof.
  intros (A & B & s1 & s2 & s3 & blk2 & blk3 & E1 & E2 & E3 & L2 & L3 & Hu).
  vm_compute in E1. injection E1 as <- <-.
  vm_compute in E2. injection E2 as <- <-.
  vm_compute in E3. injection E3 as <-.
  vm_compute in L2. injection L2 as <-.
  vm_compute in L3. injection L3 as <-.
  vm_compute in Hu. discriminate.
Qed.

Lemma arena_lifo_reclaim_witness :
  (exists s3,
     ArenaAllocator_free ARENA_SIZE after_B.2 after_B.1 50 = Ret s3 /\
     exists s4, ArenaAllocator_alloc ARENA_SIZE s3 33 NULL = Ret (after_B.1, s4)) /\
  ArenaAllocator_free ARENA_SIZE after_B.2 after_A.1 100 = Ret after_B.2.
Proof.
  destruct (arena_lifo_reclaim ARENA_SIZE 4096 empty_heap 100 50 1048576 NULL
              after_A.1 after_B.1 after_A.2 after_B.2)
    as [(s3 & Hfree & Hre) [HfreeA _]];
    [ unfold SIZE_MOD, ARENA_SIZE, ARENA_PAGE_SIZE; lia
    | unfold SIZE_MOD; lia
    | unfold SIZE_MOD; lia
    | vm_compute; discriminate
    | vm_compute; discriminate
    | vm_compute; reflexivity
    | vm_compute; discriminate
    | vm_compute; reflexivity
    | vm_compute; discriminate
    | ].
  split.
  - exists s3. split; [exact Hfree |]. apply (Hre 33 NULL). lia.
  - apply HfreeA. left. split; [lia | left; reflexivity].
Defined.

(** The edge of C6 that its parenthesis excludes: when B has size 0, A is
    still the frontier allocation and [free(A)] takes its bytes back. *)
Example free_A_when_B_is_empty :
  ('(A, s1) ← ArenaAllocator_alloc ARENA_SIZE arena0 8 1048576;
   '(B, s2) ← ArenaAllocator_alloc ARENA_SIZE s1 0 NULL;
   s3 ← ArenaAllocator_free ARENA_SIZE s2 A 8;
   st2 ← ArenaAllocator_stats ARENA_SIZE s2;
   st3 ← ArenaAllocator_stats ARENA_SIZE s3;
   Ret (A, B, st_used st2, st_used st3))
  = Ret (1048576 + 16, 1048576 + 16 + 8, 8, 0).
Proof. vm_compute. reflexivity. Qed.

(** The boundary of the routing: a request of exactly half the block size
    (262144 bytes, more than half of the 524272-byte buffer) is still served
    by bumping; one byte more rounds to 262152 and is a big allocation.  A
    request of [2^64 - 1] bytes rounds to 0 and is served as an empty bump. *)
Example routing_boundary :
  BIG_ALLOC_THRESH ARENA_SIZE = 262144 /\
  ARENA_BUFFER_SIZE ARENA_SIZE = 524272 /\
  ('(p, s) ← ArenaAllocator_alloc ARENA_SIZE arena0 262144 1048576;
   st ← ArenaAllocator_stats ARENA_SIZE s;
   Ret (p, st_arena_count st, st_used st, st_big_count st))
    = Ret (1048576 + 16, 1, 262144, 0) /\
  ('(p, s) ← ArenaAllocator_alloc ARENA_SIZE arena0 262145 1048576;
   st ← ArenaAllocator_stats ARENA_SIZE s;
   Ret (p, st_arena_count st, st_big_count st, st_big_used st))
    = Ret (1048576 + 64, 0, 1, 262152) /\
  ('(p, s) ← ArenaAllocator_alloc ARENA_SIZE arena0 (2 ^ 64 - 1) 1048576;
   st ← ArenaAllocator_stats ARENA_SIZE s;
   Ret (p, st_arena_count st, st_used st, st_big_count st))
    = Ret (1048576 + 16, 1, 0, 0).
Proof. repeat split; vm_compute; reflexivity. Qed.

(** ** Failure of the heap *)

(** Where the source tests what the heap returned, a refusal leaves the
    state as it was: a small arena request that needs a block. *)
Lemma arena_alloc_refused_atomic (asz : Z) (s : ArenaSt) (size : Z) :
  ArenaAllocator_round_size_up size <= BIG_ALLOC_THRESH asz ->
  arena (aa s) = NULL ->
  ArenaAllocator_alloc asz s size NULL = Ret (NULL, s).
Proof. intros Hr Ha. by rewrite (alloc_small_no_block asz s size NULL Hr Ha). Qed.

(** Where it does not: for every ledger that mirrors the heap, every tracked
    pointer and every nonzero new size, a refused [recording_realloc] returns
    NULL (the ledger finding or being granted a slot for the new entry), the
    slot that held the pointer now holds NULL, and the object is still live;
    the heap is as it was when the ledger had a free slot.  (For a new size
    of 0 a C library may release the object when it returns NULL.) *)
Lemma recording_realloc_refused
    (r : RecordingAllocator) (h : Heap) (data : Z) (orig_size new_size : Z) (i : nat)
    (g : ptr * ptr) :
  ledger_sound r h -> data <> NULL -> new_size <> 0 ->
  tracked_at r data i -> allocation_sizes r !! i = Some orig_size ->
  ledger_granted r g ->
  exists r' h',
    recording_realloc r h data orig_size new_size NULL g = Ret (NULL, r', h') /\
    allocations r !! i = Some data /\
    allocations r' !! i = Some NULL /\
    is_Some (objs h' !! data) /\
    ((count r < capacity r)%nat -> h' = h).
Proof.
  intros Hs Hnn _ Ht Hsz Hg. pose proof Hs as (Hwf & Hlive & _). unfold recording_realloc.
  rewrite (eqb_NULL_false data Hnn).
  rewrite (find_slot_tracked r data i Hwf Ht). cbn [mbind outcome_bind].
  unfold array_load. rewrite Hsz. cbn [mbind outcome_bind].
  rewrite Z.eqb_refl. cbn [assert mbind outcome_bind].
  pose proof Ht as (Hi & Hd & _).
  destruct (vacate_slot_spec r i Hwf Hi) as (c' & Hv & Hc' & _).
  rewrite Hv. cbn [mbind outcome_bind].
  set (r1 := mkRec _ _ c' _ _ _) in *.
  destruct (ledger_sound_vacate r r1 h h i data Hs Ht Hnn Hv ltac:(auto))
    as ((Hwf1 & _ & _ & Hst1) & _ & Hapart).
  assert (Hcap : (i < capacity r1)%nat).
  { destruct Hwf as (Hc & _). unfold r1. cbn. lia. }
  assert (Hi1 : allocations r1 !! i = Some NULL).
  { unfold r1. cbn [allocations]. apply list_lookup_insert_eq.
    destruct Hwf as (Hc & Hla & _). lia. }
  unfold heap_realloc. rewrite Z.eqb_refl. cbn [mbind outcome_bind].
  destruct (recording_ensure_capacity_granted r1 h g Hwf1) as (rg & hg & Eg & Hs1 & Hs2).
  { destruct Hg as [Hlt | Hgr]; [left; unfold r1; cbn; lia | by right]. }
  { intros Hnz. destruct (Hst1 Hnz) as (? & ? & ? & _). done. }
  destruct (recording_ensure_capacity_wf r1 rg h hg g Hwf1 Eg Hs1 Hs2)
    as (Hwfg & Hcnt & Hlt & Hkeep & _).
  destruct (record_entry_spec rg NULL new_size Hwfg Hlt) as (He & _ & Hnew & _).
  rewrite Eg. cbn [mbind outcome_bind]. rewrite He. cbn [mbind outcome_bind].
  eexists _, _. split; [reflexivity |]. split; [exact Hd |].
  cbn [allocations] in *. split; [| split].
  - destruct (decide (i = count rg)) as [Heq | Hne]; [rewrite Heq; exact Hnew |].
    rewrite list_lookup_insert_ne by congruence.
    destruct (Hkeep i Hcap) as [-> _]. exact Hi1.
  - pose proof (Hlive i data Hi Hd Hnn) as [x Hx].
    destruct (recording_ensure_capacity_inv r1 rg h hg g Hwf1 Eg Hs1 Hs2)
      as [(_ & -> & _) | [(_ & _ & _ & _ & ->) |
          (Hnz & _ & _ & _ & o1 & o1' & o2 & o2' & _ & _ & _ & ->)]]; cbn [objs].
    + eauto.
    + destruct (decide (data = g.2)) as [-> | H2]; [rewrite lookup_insert_eq; eauto |].
      rewrite lookup_insert_ne by done.
      destruct (decide (data = g.1)) as [-> | H1]; [rewrite lookup_insert_eq; eauto |].
      rewrite lookup_insert_ne by done. eauto.
    + destruct (Hapart Hnz) as [Hd1 Hd2]. unfold r1. cbn [allocations_at allocation_sizes_at].
      destruct (decide (data = g.2)) as [-> | H2]; [rewrite lookup_insert_eq; eauto |].
      rewrite lookup_insert_ne, lookup_delete_ne by done.
      destruct (decide (data = g.1)) as [-> | H1]; [rewrite lookup_insert_eq; eauto |].
      rewrite lookup_insert_ne, lookup_delete_ne by done. eauto.
  - intros Hroom.
    destruct (recording_ensure_capacity_inv r1 rg h hg g Hwf1 Eg Hs1 Hs2)
      as [(_ & -> & _) | [(Hz & _) | (_ & Hfull & _)]]; [done | |].
    + unfold r1 in Hz. cbn in Hz. lia.
    + unfold r1 in Hfull. cbn in Hfull. lia.
Qed.

(** C4 at the failing inputs.  [recording_realloc] does not test what the
    heap's realloc returned: when it is refused the call returns NULL, but
    the slot of the old pointer has been vacated and a new entry (NULL, 32)
    recorded, although the old object is still live in the heap; a later
    [free] of it aborts as untracked.  [testing_realloc] inherits this.
    [Big_alloc] does not test what the heap returned either: a refused big
    request dereferences NULL instead of returning NULL. *)
Theorem realloc_refused_not_atomic :
  (forall g, recording_realloc example_ledger example_ledger_heap 8192 16 32 NULL g
     = Ret (NULL, mkRec [4096; NULL] [8; 32] 2 2 256 512, example_ledger_heap)) /\
  mkRec [4096; NULL] [8; 32] 2 2 256 512 <> example_ledger /\
  objs example_ledger_heap !! 8192 = Some (ORaw 16) /\
  recording_free (mkRec [4096; NULL] [8; 32] 2 2 256 512) example_ledger_heap 8192 16
    = Abort /\
  (forall g, testing_realloc (mkTest 0 0 example_ledger) example_ledger_heap 8192 16 32 NULL g
     = Ret (NULL, mkTest 0 1 (mkRec [4096; NULL] [8; 32] 2 2 256 512),
            example_ledger_heap)) /\
  ArenaAllocator_alloc ARENA_SIZE arena0 300000 NULL = Undef /\
  ArenaAllocator_realloc ARENA_SIZE after_A.2 after_A.1 100 300000 NULL = Undef.
Proof.
  repeat split; try (intros g); try (vm_compute; reflexivity). discriminate.
Qed.

(** ** The loops of free_all terminate *)

Lemma free_arenas_total (fuel : nat) :
  forall (h : Heap) (ar : ptr),
  (size (objs h) < fuel)%nat -> free_arenas fuel h ar <> Diverge.
Proof.
  induction fuel as [| fuel IH]; intros h ar Hlt; [lia |].
  cbn [free_arenas]. destruct (ar =? NULL) eqn:En; [discriminate |].
  unfold load_arena, heap_free.
  destruct (objs h !! ar) as [[n | a | b] |] eqn:El; cbn [mbind outcome_bind]; try discriminate.
  rewrite En. cbn [mbind outcome_bind]. apply IH. cbn [objs].
  rewrite (map_size_delete_Some ar (objs h)) by (rewrite El; eauto).
  destruct (size_live_pos _ _ _ El) as [n Hn]. rewrite Hn in *. simpl. lia.
Qed.

Lemma free_bigs_total (fuel : nat) :
  forall (h : Heap) (ba : ptr),
  (size (objs h) < fuel)%nat -> free_bigs fuel h ba <> Diverge.
Proof.
  induction fuel as [| fuel IH]; intros h ba Hlt; [lia |].
  cbn [free_bigs]. destruct (ba =? NULL) eqn:En; [discriminate |].
  unfold load_big, heap_free.
  destruct (objs h !! ba) as [[n | a | b] |] eqn:El; cbn [mbind outcome_bind]; try discriminate.
  rewrite En. cbn [mbind outcome_bind]. apply IH. cbn [objs].
  rewrite (map_size_delete_Some ba (objs h)) by (rewrite El; eauto).
  destruct (size_live_pos _ _ _ El) as [n Hn]. rewrite Hn in *. simpl. lia.
Qed.

(** The bound given to the loops of [ArenaAllocator_free_all] is never
    exhausted. *)
Lemma ArenaAllocator_free_all_total (s : ArenaSt) :
  ArenaAllocator_free_all s <> Diverge.
Proof.
  unfold ArenaAllocator_free_all.
  pose proof (free_arenas_total (S (size (objs (heap s)))) (heap s) (arena (aa s))
                ltac:(lia)) as H1.
  destruct (free_arenas _ (heap s) (arena (aa s))) as [h | | |];
    cbn [mbind outcome_bind]; try discriminate; [| contradiction].
  destruct (node_prev (big_allocations (aa s)) =? NULL);
    cbn [assert mbind outcome_bind]; [| discriminate].
  pose proof (free_bigs_total (S (size (objs h))) h
                (node_next (big_allocations (aa s))) ltac:(lia)) as H2.
  destruct (free_bigs _ h _) as [h' | | |]; cbn [mbind outcome_bind];
    try discriminate. contradiction.
Qed.

(** [free_all] after two small allocations and a big one releases both kinds
    and leaves the arena empty. *)
Example free_all_resets :
  ('(_, s) ← ArenaAllocator_alloc ARENA_SIZE arena0 100 1048576;
   '(_, s) ← ArenaAllocator_alloc ARENA_SIZE s 300000 4194304;
   '(_, s) ← ArenaAllocator_alloc ARENA_SIZE s 50 NULL;
   ArenaAllocator_free_all s) = Ret arena0.
Proof. vm_compute. reflexivity. Qed.

(** The count is trimmed by recorded size: a live entry of size 0 below the
    freed one is trimmed with it. *)
Example trim_by_recorded_size :
  recording_free (mkRec [4096; 8192] [0; 16] 2 2 256 512) example_ledger_heap 8192 16
    = Ret (mkRec [4096; NULL] [0; 0] 0 2 256 512,
           mkHeap (<[256 := ORaw 16]> (<[512 := ORaw 16]> {[ 4096 := ORaw 8 ]})) ∅).
Proof. vm_compute. reflexivity. Qed.

(** * Further properties of the allocators *)

#[local] Arguments Z.eqb : simpl never.
#[local] Arguments Z.gtb : simpl never.
#[local] Arguments Z.ltb : simpl never.
#[local] Arguments Z.leb : simpl never.
#[local] Arguments wrap : simpl never.

(** ** Payload bytes: memset and memcpy *)

Lemma memset0_lookup_in (bytes : gmap Z Byte.byte) (p n i : Z) :
  0 <= i < n -> memset0 bytes p n !! (p + i) = Some Byte.x00.
Proof.
  intros Hi. unfold memset0.
  assert (Hin : i ∈ seqZ 0 n) by (apply elem_of_seqZ; lia).
  induction (seqZ 0 n) as [| j l IH]; [by apply elem_of_nil in Hin |].
  cbn [foldr]. destruct (decide (j = i)) as [-> | Hne].
  - apply lookup_insert_eq.
  - rewrite lookup_insert_ne by lia. apply IH.
    apply elem_of_cons in Hin as [E | Hin]; [congruence | exact Hin].
Qed.

Lemma memset0_lookup_out (bytes : gmap Z Byte.byte) (p n q : Z) :
  q < p \/ p + n <= q -> memset0 bytes p n !! q = bytes !! q.
Proof.
  intros Hq. unfold memset0.
  assert (Hall : forall j, j ∈ seqZ 0 n -> p + j <> q).
  { intros j Hj. apply elem_of_seqZ in Hj. lia. }
  induction (seqZ 0 n) as [| j l IH]; [reflexivity |].
  cbn [foldr]. rewrite lookup_insert_ne.
  - apply IH. intros k Hk. apply Hall. by apply elem_of_cons; right.
  - apply Hall. by apply elem_of_cons; left.
Qed.

Lemma memcpy_lookup_in (bytes : gmap Z Byte.byte) (dst src n i : Z) :
  0 <= i < n -> memcpy bytes dst src n !! (dst + i) = bytes !! (src + i).
Proof.
  intros Hi. unfold memcpy.
  assert (Hin : i ∈ seqZ 0 n) by (apply elem_of_seqZ; lia).
  induction (seqZ 0 n) as [| j l IH]; [by apply elem_of_nil in Hin |].
  cbn [foldr]. destruct (decide (j = i)) as [-> | Hne].
  - apply lookup_partial_alter_eq.
  - rewrite lookup_partial_alter_ne by lia. apply IH.
    apply elem_of_cons in Hin as [E | Hin]; [congruence | exact Hin].
Qed.

Lemma memcpy_lookup_out (bytes : gmap Z Byte.byte) (dst src n q : Z) :
  q < dst \/ dst + n <= q -> memcpy bytes dst src n !! q = bytes !! q.
Proof.
  intros Hq. unfold memcpy.
  assert (Hall : forall j, j ∈ seqZ 0 n -> dst + j <> q).
  { intros j Hj. apply elem_of_seqZ in Hj. lia. }
  induction (seqZ 0 n) as [| j l IH]; [reflexivity |].
  cbn [foldr]. rewrite lookup_partial_alter_ne.
  - apply IH. intros k Hk. apply Hall. by apply elem_of_cons; right.
  - apply Hall. by apply elem_of_cons; left.
Qed.

(** ** Allocation leaves the payload bytes alone *)

Lemma store_obj_inv (h h' : Heap) (p : ptr) (o : object) :
  store_obj h p o = Ret h' ->
  p <> NULL /\ is_Some (objs h !! p) /\ h' = mkHeap (<[p := o]> (objs h)) (mem h).
Proof.
  unfold store_obj. intros H.
  destruct (Z.eqb_spec p NULL); [discriminate |].
  destruct (objs h !! p) eqn:E; [| discriminate].
  injection H as <-. eauto.
Qed.

Lemma heap_malloc_mem (h : Heap) (n : Z) (m : ptr) : mem (heap_malloc h n m) = mem h.
Proof. unfold heap_malloc. by destruct (m =? NULL). Qed.

Lemma store_node_next_mem (s s' : ArenaSt) (n v : ptr) :
  store_node_next s n v = Ret s' -> mem (heap s') = mem (heap s).
Proof.
  unfold store_node_next. intros H.
  destruct (n =? NULL); [discriminate |].
  destruct (n =? sentinel s); [by injection H as <- |].
  destruct (load_big (heap s) n); cbn [mbind outcome_bind] in H; try discriminate.
  destruct (store_obj _ _ _) eqn:E; cbn [mbind outcome_bind] in H; try discriminate.
  injection H as <-. apply store_obj_inv in E as (_ & _ & ->). reflexivity.
Qed.

Lemma Big_alloc_mem (s s' : ArenaSt) (prev p : ptr) (size : Z) (m : ptr) :
  Big_alloc s prev size m = Ret (p, s') -> mem (heap s') = mem (heap s).
Proof.
  unfold Big_alloc, Big_init. intros H.
  destruct (store_obj _ _ _) eqn:E1; cbn [mbind outcome_bind] in H; try discriminate.
  destruct (store_node_next _ _ _) eqn:E2; cbn [mbind outcome_bind] in H; try discriminate.
  destruct (load_big _ _); cbn [mbind outcome_bind] in H; try discriminate.
  destruct (store_obj (heap a0) _ _) eqn:E3; cbn [mbind outcome_bind] in H; try discriminate.
  injection H as _ <-. cbn [set_heap heap].
  apply store_obj_inv in E3 as (_ & _ & ->). cbn [mem].
  apply store_node_next_mem in E2. rewrite E2. cbn [set_heap heap].
  apply store_obj_inv in E1 as (_ & _ & ->). cbn [mem set_heap heap].
  apply heap_malloc_mem.
Qed.

Lemma alloc_arena_mem (asz : Z) (s s' : ArenaSt) (m : ptr) (r : Z) :
  ArenaAllocator_alloc_arena asz s m = Ret (r, s') -> mem (heap s') = mem (heap s).
Proof.
  unfold ArenaAllocator_alloc_arena. intros H.
  destruct (m =? NULL).
  - injection H as _ <-. cbn [set_heap heap]. apply heap_malloc_mem.
  - destruct (store_obj _ _ _) eqn:E; cbn [mbind outcome_bind] in H; try discriminate.
    injection H as _ <-. apply store_obj_inv in E as (_ & _ & ->).
    cbn [set_arena set_heap heap mem]. apply heap_malloc_mem.
Qed.

Lemma bump_mem (s s' : ArenaSt) (size : Z) (p : ptr) :
  bump s size = Ret (p, s') -> mem (heap s') = mem (heap s).
Proof.
  unfold bump. intros H.
  destruct (load_arena _ _); cbn [mbind outcome_bind] in H; try discriminate.
  destruct (store_obj _ _ _) eqn:E; cbn [mbind outcome_bind] in H; try discriminate.
  injection H as _ <-. apply store_obj_inv in E as (_ & _ & ->). reflexivity.
Qed.

Lemma ensure_block_mem (asz : Z) (s s' : ArenaSt) (size : Z) (m : ptr) :
  ensure_block asz s size m = Ret (Some s') -> mem (heap s') = mem (heap s).
Proof.
  unfold ensure_block. intros H.
  destruct (arena (aa s) =? NULL).
  - destruct (ArenaAllocator_alloc_arena asz s m) as [[r s1] | | |] eqn:E;
      cbn [mbind outcome_bind] in H; try discriminate.
    destruct (negb (r =? 0)); [discriminate |]. injection H as <-.
    by apply alloc_arena_mem in E.
  - destruct (load_arena _ _); cbn [mbind outcome_bind] in H; try discriminate.
    destruct (size >? _).
    + destruct (ArenaAllocator_alloc_arena asz s m) as [[r s1] | | |] eqn:E;
        cbn [mbind outcome_bind] in H; try discriminate.
      destruct (negb (r =? 0)); [discriminate |]. injection H as <-.
      by apply alloc_arena_mem in E.
    + by injection H as <-.
Qed.

Lemma arena_alloc_mem (asz : Z) (s s' : ArenaSt) (size : Z) (m p : ptr) :
  ArenaAllocator_alloc asz s size m = Ret (p, s') -> mem (heap s') = mem (heap s).
Proof.
  unfold ArenaAllocator_alloc. intros H.
  destruct (_ >? _); [by apply Big_alloc_mem in H |].
  destruct (ensure_block _ _ _ _) as [[s1 |] | | |] eqn:E;
    cbn [mbind outcome_bind] in H; try discriminate.
  - apply bump_mem in H. apply ensure_block_mem in E. congruence.
  - by injection H as _ <-.
Qed.

Lemma heap_realloc_array_mem (h h' : Heap) (p : ptr) (n : Z) (m : ptr) :
  heap_realloc h p 0 n m = Ret h' -> mem h' = mem h.
Proof.
  unfold heap_realloc. intros H.
  destruct (m =? NULL); [by injection H as <- |].
  destruct (p =? NULL); [injection H as <-; apply heap_malloc_mem |].
  destruct (objs h !! p); [| discriminate].
  injection H as <-. cbn [mem]. by destruct (m =? p).
Qed.

Lemma recording_ensure_capacity_mem
    (r rg : RecordingAllocator) (h hg : Heap) (g : ptr * ptr) :
  recording_ensure_capacity r h g = Ret (rg, hg) -> mem hg = mem h.
Proof.
  unfold recording_ensure_capacity. intros H.
  destruct (decide _); [by injection H as _ <- |].
  destruct (decide _); [injection H as _ <-; by rewrite !heap_malloc_mem |].
  destruct (heap_realloc h _ _ _ _) as [h1 | | |] eqn:E1; cbn [mbind outcome_bind] in H;
    try discriminate.
  destruct (heap_realloc h1 _ _ _ _) as [h2 | | |] eqn:E2; cbn [mbind outcome_bind] in H;
    try discriminate.
  injection H as _ <-.
  by rewrite (heap_realloc_array_mem _ _ _ _ _ E2), (heap_realloc_array_mem _ _ _ _ _ E1).
Qed.

Lemma recording_alloc_heap
    (r r' : RecordingAllocator) (h h' : Heap) (size : Z) (m p : ptr) (g : ptr * ptr) :
  recording_alloc r h size m g = Ret (p, r', h') -> p = m /\ mem h' = mem h.
Proof.
  unfold recording_alloc. intros H.
  destruct (m =? NULL);
    [injection H as <- <- <-; split; [reflexivity | apply heap_malloc_mem] |].
  apply grow_record_inv in H as (rg & hg & r1 & Eg & _ & [= -> _ ->]).
  split; [reflexivity |].
  rewrite (recording_ensure_capacity_mem _ _ _ _ _ Eg). apply heap_malloc_mem.
Qed.

Lemma testing_alloc_heap
    (ta ta' : TestingAllocator) (h h' : Heap) (size : Z) (m p : ptr) (g : ptr * ptr) :
  testing_alloc ta h size m g = Ret (p, ta', h') -> mem h' = mem h.
Proof.
  unfold testing_alloc, LOCK_T_lock, LOCK_T_unlock. intros H.
  destruct (should_fail ta) as [[f t1] | | |]; cbn [mbind outcome_bind] in H; try discriminate.
  destruct f; [by injection H as _ _ <- |].
  destruct (recording_alloc _ _ _ _ _) as [[[p1 r1] h1] | | |] eqn:E;
    cbn [mbind outcome_bind] in H; try discriminate.
  injection H as _ _ <-. by apply recording_alloc_heap in E as [_ E].
Qed.

Lemma Allocator_alloc_mem
    (w w' : World) (a : Allocator) (size : Z) (m p : ptr) (g : ptr * ptr) :
  Allocator_alloc w a size m g = Ret (p, w') -> mem (w_heap w') = mem (w_heap w).
Proof.
  unfold Allocator_alloc, ALLOC_BAD. intros H.
  destruct (type a); try discriminate.
  - injection H as _ <-. apply heap_malloc_mem.
  - unfold load_arena_ctx in H.
    destruct (w_ctx w !! _data a) as [[c | |] |]; cbn [mbind outcome_bind] in H; try discriminate.
    destruct (ArenaAllocator_alloc _ _ _ _) as [[p1 s1] | | |] eqn:E;
      cbn [mbind outcome_bind] in H; try discriminate.
    injection H as _ <-. by apply arena_alloc_mem in E.
  - by injection H as _ <-.
  - unfold load_recording_ctx in H.
    destruct (w_ctx w !! _data a) as [[| r |] |]; cbn [mbind outcome_bind] in H; try discriminate.
    destruct (recording_alloc _ _ _ _ _) as [[[p1 r1] h1] | | |] eqn:E;
      cbn [mbind outcome_bind] in H; try discriminate.
    injection H as _ <-. by apply recording_alloc_heap in E as [_ E].
  - unfold load_testing_ctx in H.
    destruct (w_ctx w !! _data a) as [[| | t] |]; cbn [mbind outcome_bind] in H; try discriminate.
    destruct (testing_alloc _ _ _ _ _) as [[[p1 r1] h1] | | |] eqn:E;
      cbn [mbind outcome_bind] in H; try discriminate.
    injection H as _ <-. by apply testing_alloc_heap in E.
Qed.

(** ** [Allocator_dupe] and [Allocator_strndup] *)

(** X1: [Allocator_dupe], with any strategy and whatever the heap answers
    ([m] to the request of the call, [g] to the ledger of a recording or
    testing allocator): when it returns a non-NULL
    pointer [p], the [size] bytes at [p] are the [size] bytes at [data] as
    they were before the call, no other payload byte changed, and the objects
    and contexts are as the strategy's [Allocator_alloc] of [size] bytes left
    them; when the allocation fails it returns NULL and the world is as the
    failed allocation left it. *)
Theorem Allocator_dupe_copies
    (w w' : World) (a : Allocator) (data : ptr) (size : Z) (m p : ptr) (g : ptr * ptr) :
  Allocator_dupe w a data size m g = Ret (p, w') ->
  exists w1,
    Allocator_alloc w a size m g = Ret (p, w1) /\
    objs (w_heap w') = objs (w_heap w1) /\ w_ctx w' = w_ctx w1 /\
    (p = NULL -> w' = w1) /\
    (p <> NULL ->
       (forall i, 0 <= i < size ->
          mem (w_heap w') !! (p + i) = mem (w_heap w) !! (data + i)) /\
       (forall q, q < p \/ p + size <= q ->
          mem (w_heap w') !! q = mem (w_heap w) !! q)).
Proof.
  unfold Allocator_dupe. intros H.
  destruct (Allocator_alloc w a size m g) as [[p1 w1] | | |] eqn:E;
    cbn [mbind outcome_bind] in H; try discriminate.
  pose proof (Allocator_alloc_mem _ _ _ _ _ _ _ E) as Hmem.
  destruct (Z.eqb_spec p1 NULL) as [-> | Hp].
  - injection H as <- <-. exists w1. repeat split; try done.
  - destruct (Z.eqb_spec size 0) as [-> | Hs]; cbn [negb] in H; injection H as <- <-;
      exists w1; repeat split; try done.
    + intros i Hi. lia.
    + intros q _. by rewrite Hmem.
    + intros i Hi. cbn [w_heap mem]. rewrite Hmem. by apply memcpy_lookup_in.
    + intros q Hq. cbn [w_heap mem]. rewrite Hmem. by apply memcpy_lookup_out.
Qed.

Lemma Allocator_dupe_copies_witness :
  exists w1,
    Allocator_alloc bytes_world MALLOCATOR 3 4096 (NULL, NULL) = Ret (after_dupe.1, w1) /\
    mem (w_heap after_dupe.2) !! (after_dupe.1 + 2) = mem (w_heap bytes_world) !! (100 + 2).
Proof.
  destruct (Allocator_dupe_copies bytes_world after_dupe.2 MALLOCATOR 100 3 4096
              after_dupe.1 (NULL, NULL))
    as (w1 & E & _ & _ & _ & Hc); [vm_compute; reflexivity |].
  exists w1. split; [exact E |].
  apply Hc; [vm_compute; discriminate | lia].
Defined.

(** X2: [Allocator_strndup], with any strategy and whatever the heap
    answers ([m] and [g] as for [Allocator_dupe]): it asks the strategy for
    [length + 1] bytes; when that is granted at [p] (and the copy does not
    run past the end of the address space), the [length] bytes at [p] are the
    bytes at [str] as they were, the byte after them is NUL, and every
    payload byte outside [p, p + length] is unchanged; when the allocation
    fails it returns NULL. *)
Theorem Allocator_strndup_terminated
    (w w' : World) (a : Allocator) (str : ptr) (length : Z) (m p : ptr) (g : ptr * ptr) :
  0 <= length -> 0 <= p -> p + length < SIZE_MOD ->
  Allocator_strndup w a str length m g = Ret (p, w') ->
  exists w1,
    Allocator_alloc w a (wrap (length + 1)) m g = Ret (p, w1) /\
    (p = NULL -> w' = w1) /\
    (p <> NULL ->
       (forall i, 0 <= i < length ->
          mem (w_heap w') !! (p + i) = mem (w_heap w) !! (str + i)) /\
       mem (w_heap w') !! (p + length) = Some Byte.x00 /\
       (forall q, q < p \/ p + length < q ->
          mem (w_heap w') !! q = mem (w_heap w) !! q)).
Proof.
  unfold Allocator_strndup. intros Hl Hp0 Hrange H.
  destruct (Allocator_alloc w a (wrap (length + 1)) m g) as [[p1 w1] | | |] eqn:E;
    cbn [mbind outcome_bind] in H; try discriminate.
  pose proof (Allocator_alloc_mem _ _ _ _ _ _ _ E) as Hmem.
  destruct (Z.eqb_spec p1 NULL) as [-> | Hp].
  - injection H as <- <-. exists w1. repeat split; try done.
  - injection H as <- <-. exists w1. split; [reflexivity |]. split; [done |].
    intros _. cbn [w_heap mem]. rewrite (wrap_small (p1 + length)) by lia.
    repeat split.
    + intros i Hi. rewrite lookup_insert_ne by lia.
      destruct (Z.eqb_spec length 0) as [? | _]; [lia |]. cbn [negb].
      rewrite Hmem. by apply memcpy_lookup_in.
    + apply lookup_insert_eq.
    + intros q Hq. rewrite lookup_insert_ne by lia.
      destruct (length =? 0); cbn [negb]; rewrite Hmem; [done |].
      apply memcpy_lookup_out. lia.
Qed.

Lemma Allocator_strndup_terminated_witness :
  mem (w_heap after_strndup.2) !! (after_strndup.1 + 3) = Some Byte.x00.
Proof.
  destruct (Allocator_strndup_terminated bytes_world after_strndup.2 MALLOCATOR 100 3 4096
              after_strndup.1 (NULL, NULL))
    as (w1 & _ & _ & Hc);
    [ lia | vm_compute; discriminate | vm_compute; reflexivity | vm_compute; reflexivity |].
  apply Hc. vm_compute; discriminate.
Defined.

(** ** [ArenaAllocator_zalloc] *)

Lemma Big_zalloc_inv (s s' : ArenaSt) (r : Z) (m p : ptr) :
  Big_zalloc s (sentinel s) r m = Ret (p, s') ->
  m <> NULL /\ sentinel s <> NULL /\
  p = wrap (m + sizeof_BigAllocation) /\
  s' = mkArenaSt (aa_addr s)
         (mkAA (arena (aa s)) (mkNode m (node_prev (big_allocations (aa s)))))
         (mkHeap (<[m := OBig (mkBig NULL (sentinel s) r)]> (objs (heap s)))
                 (memset0 (mem (heap s)) m (wrap (r + sizeof_BigAllocation)))).
Proof.
  intros H.
  destruct (Z.eq_dec m NULL) as [-> | Hm]; [discriminate H |].
  destruct (Z.eq_dec (sentinel s) NULL) as [Hs | Hs].
  { exfalso. revert H. unfold Big_zalloc, Big_init, heap_calloc, store_obj, store_node_next.
    rewrite (eqb_NULL_false m Hm). simpl. rewrite lookup_insert_eq. simpl.
    rewrite Hs. discriminate. }
  split; [exact Hm |]. split; [exact Hs |].
  revert H. unfold Big_zalloc, Big_init, heap_calloc, store_obj, store_node_next.
  rewrite (eqb_NULL_false m Hm). simpl.
  rewrite lookup_insert_eq. simpl.
  rewrite (eqb_NULL_false _ Hs).
  replace (sentinel (set_heap _ _)) with (sentinel s) by reflexivity.
  rewrite Z.eqb_refl. simpl.
  unfold load_big. simpl. rewrite ?lookup_insert_eq. simpl.
  rewrite ?lookup_insert_eq. simpl.
  unfold set_heap. simpl. rewrite insert3. intros H. by injection H as <- <-.
Qed.

Lemma ensure_block_refused (asz : Z) (s : ArenaSt) (r : Z) (m : ptr) :
  ensure_block asz s r m = Ret None -> m = NULL.
Proof.
  unfold ensure_block, ArenaAllocator_alloc_arena. intros H.
  destruct (Z.eq_dec m NULL) as [-> | Hm]; [reflexivity | exfalso].
  rewrite (eqb_NULL_false m Hm) in H.
  destruct (arena (aa s) =? NULL).
  - destruct (store_obj _ _ _); cbn [mbind outcome_bind] in H; discriminate.
  - destruct (load_arena _ _); cbn [mbind outcome_bind] in H; try discriminate.
    destruct (r >? _); [| discriminate].
    destruct (store_obj _ _ _); cbn [mbind outcome_bind] in H; discriminate.
Qed.

(** X3: [ArenaAllocator_zalloc] is [ArenaAllocator_alloc] plus zeroing: when
    it returns [(p, s')], [ArenaAllocator_alloc] on the same state returns
    the same pointer and a state with the same allocator fields and the same
    heap objects.  A small request either fails (a block was needed and the
    heap refused it: NULL, nothing changed), or the [round size] bytes at [p]
    read zero afterwards and every other payload byte is unchanged.  For a
    big request whose object lies within the address space the [round size]
    bytes at [p], right after the header, read zero. *)
Theorem arena_zalloc_zeroed
    (asz : Z) (s s' : ArenaSt) (size : Z) (m p : ptr) :
  ArenaAllocator_zalloc asz s size m = Ret (p, s') ->
  let r := ArenaAllocator_round_size_up size in
  (exists s1, ArenaAllocator_alloc asz s size m = Ret (p, s1) /\
              aa_addr s' = aa_addr s1 /\ aa s' = aa s1 /\
              objs (heap s') = objs (heap s1)) /\
  (r <= BIG_ALLOC_THRESH asz ->
     (m = NULL /\ p = NULL /\ s' = s) \/
     ((forall i, 0 <= i < r -> mem (heap s') !! (p + i) = Some Byte.x00) /\
      (forall q, q < p \/ p + r <= q -> mem (heap s') !! q = mem (heap s) !! q))) /\
  (BIG_ALLOC_THRESH asz < r -> 0 <= m -> 0 <= r -> m + sizeof_BigAllocation + r < SIZE_MOD ->
     p = m + sizeof_BigAllocation /\
     forall i, 0 <= i < r -> mem (heap s') !! (p + i) = Some Byte.x00).
Proof.
  intros H r. unfold ArenaAllocator_zalloc in H. fold r in H.
  unfold ArenaAllocator_alloc. fold r.
  destruct (Z.gtb_spec r (BIG_ALLOC_THRESH asz)) as [G | L].
  - apply Big_zalloc_inv in H as (Hm & Hs & -> & ->).
    rewrite (Big_alloc_granted s r m Hm Hs).
    split; [eexists; split; [reflexivity | by cbn] |].
    split; [lia |]. intros _ Hm0 Hr0 Hrange.
    unfold sizeof_BigAllocation in *.
    rewrite (wrap_small (m + 64)) by (unfold SIZE_MOD in *; lia).
    split; [reflexivity |]. intros i Hi. cbn [heap mem].
    rewrite (wrap_small (r + 64)) by (unfold SIZE_MOD in *; lia).
    replace (m + 64 + i) with (m + (64 + i)) by lia.
    apply memset0_lookup_in. lia.
  - destruct (ensure_block asz s r m) as [[s0 |] | | |] eqn:E;
      cbn [mbind outcome_bind] in H |- *; try discriminate.
    + destruct (bump s0 r) as [[p1 s1] | | |] eqn:Eb;
        cbn [mbind outcome_bind] in H; try discriminate.
      injection H as <- <-.
      split; [exists s1; by cbn |]. split; [| lia]. intros _. right.
      pose proof (bump_mem _ _ _ _ Eb) as Hm1.
      pose proof (ensure_block_mem _ _ _ _ _ E) as Hm0.
      cbn [set_heap heap mem]. split.
      * intros i Hi. by apply memset0_lookup_in.
      * intros q Hq. rewrite memset0_lookup_out by exact Hq. congruence.
    + injection H as <- <-. split; [exists s; by cbn |]. split; [| lia]. intros _.
      left. apply ensure_block_refused in E. done.
Qed.

Lemma arena_zalloc_zeroed_witness :
  (forall i, 0 <= i < 104 -> mem (heap after_Z.2) !! (after_Z.1 + i) = Some Byte.x00) /\
  (forall i, 0 <= i < 40 ->
     mem (heap after_big_Z.2) !! (after_big_Z.1 + i) = Some Byte.x00).
Proof.
  split.
  - destruct (arena_zalloc_zeroed ARENA_SIZE arena0 after_Z.2 100 1048576 after_Z.1)
      as (_ & Hsmall & _); [vm_compute; reflexivity |].
    destruct Hsmall as [(Hm & _) | [Hz _]];
      [vm_compute; discriminate | discriminate Hm | exact Hz].
  - destruct (arena_zalloc_zeroed 64 arena0 after_big_Z.2 40 2097152 after_big_Z.1)
      as (_ & _ & Hbig); [vm_compute; reflexivity |].
    destruct Hbig as [_ Hz];
      [ vm_compute; reflexivity | vm_compute; discriminate | vm_compute; discriminate
      | vm_compute; reflexivity | exact Hz ].
Defined.

(** ** [ArenaAllocator_realloc]: shrinking in place, and moving *)

Section ReallocFacts.

Variable arena_size : Z.

Local Abbreviation THRESH := (BIG_ALLOC_THRESH arena_size).
Local Abbreviation BUFSZ := (ARENA_BUFFER_SIZE arena_size).
Local Abbreviation round := ArenaAllocator_round_size_up.

(** X4: shrinking the most recent allocation.  A is the most recent
    allocation, of size [a], small and granted; the caller may have written
    any bytes since.  Then [realloc(A, a, a')] with [0 < a' <= a] returns A
    whatever the heap would answer (it is not asked), leaves every payload
    byte as the caller left it, and lowers the [used] counter of the current
    block by [round a - round a']; a following small allocation that fits
    the bytes given back starts right after the shrunk A. *)
Theorem arena_realloc_shrink_in_place
    (s s1 : ArenaSt) (a a' : Z) (m0 m A : ptr) (bytes : gmap Z Byte.byte) :
  32 <= arena_size < SIZE_MOD ->
  0 < a' <= a -> a <= SIZE_MOD - 8 ->
  ArenaAllocator_round_size_up a <= BIG_ALLOC_THRESH arena_size ->
  arena_inv arena_size s ->
  ArenaAllocator_alloc arena_size s a m0 = Ret (A, s1) ->
  A <> NULL ->
  exists blk1 s2,
    objs (heap s1) !! arena (aa s1) = Some (OArena blk1) /\
    ArenaAllocator_round_size_up a' <= ArenaAllocator_round_size_up a /\
    s2 = with_block (user_write s1 bytes) (arena (aa s1))
           (mkArena (arena_prev blk1)
              (arena_used blk1
               - (ArenaAllocator_round_size_up a - ArenaAllocator_round_size_up a'))) /\
    ArenaAllocator_realloc arena_size (user_write s1 bytes) A a a' m = Ret (A, s2) /\
    forall c m3, is_size c ->
      ArenaAllocator_round_size_up c
        <= ArenaAllocator_round_size_up a - ArenaAllocator_round_size_up a' ->
      exists s3,
        ArenaAllocator_alloc arena_size s2 c m3
          = Ret (wrap (A + ArenaAllocator_round_size_up a'), s3).
Proof.
  intros Hsz Ha' Ha Hra Hinv E HA.
  assert (Hsa : is_size a) by (unfold is_size; lia).
  assert (Hsn : is_size a') by (unfold is_size; lia).
  pose proof (round_size_up_range a Hsa) as Hra'.
  pose proof (round_size_up_range a' Hsn) as Hrn'.
  assert (HBsz : 0 <= BUFSZ < SIZE_MOD) by (unfold ARENA_BUFFER_SIZE; lia).
  assert (Hmono : round a' <= round a) by (apply round_size_up_mono; lia).
  destruct (alloc_small_shape _ _ _ _ _ _ Hsz Hsa Hra Hinv E HA)
    as (ar & prev & u & Har & Hs1 & HAeq & Hu & Hur & _).
  assert (Har1 : arena (aa s1) = ar) by (by rewrite Hs1).
  assert (Hl1 : objs (heap s1) !! ar = Some (OArena (mkArena prev (u + round a)))).
  { rewrite Hs1. unfold with_block. cbn [heap objs]. apply lookup_insert_eq. }
  exists (mkArena prev (u + round a)). eexists. rewrite Har1. cbn [arena_used arena_prev].
  split; [exact Hl1 |]. split; [exact Hmono |]. split; [reflexivity |].
  replace (u + round a - (round a - round a')) with (u + round a') by lia.
  split.
  - unfold ArenaAllocator_realloc.
    destruct (Z.eqb_spec a 0) as [? | _]; [lia |].
    destruct (Z.eqb_spec a' 0) as [? | _]; [lia |].
    cbn [andb].
    destruct (Z.eqb_spec (round a) (round a')) as [Eq | Hne].
    + rewrite <- Eq.
      rewrite <- Har1. symmetry. do 2 f_equal.
      apply (with_block_same (user_write s1 bytes)).
      cbn [user_write set_heap aa arena heap objs]. rewrite Har1. exact Hl1.
    + destruct (Z.gtb_spec (round a) THRESH) as [G | _]; [lia |].
      destruct (Z.gtb_spec (round a') THRESH) as [G | _]; [lia |].
      cbn [user_write set_heap aa arena heap objs].
      rewrite Har1, (eqb_NULL_false _ Har). cbn [negb assert mbind outcome_bind].
      unfold load_arena. cbn [objs]. rewrite Hl1. cbn [mbind outcome_bind arena_used arena_prev].
      rewrite HAeq, wrap_add_l.
      replace (buff ar + u + round a) with (buff ar + (u + round a)) by lia.
      rewrite Z.eqb_refl.
      rewrite wrap_add_l.
      replace (u + round a - round a + round a') with (u + round a') by lia.
      rewrite (wrap_small (u + round a')) by lia.
      destruct (Z.leb_spec (u + round a') BUFSZ) as [_ | G]; [| lia].
      cbn [andb]. unfold store_obj. cbn [objs].
      rewrite (eqb_NULL_false _ Har), Hl1. cbn [mbind outcome_bind].
      unfold with_block, set_heap. cbn [aa_addr aa arena big_allocations heap objs mem].
      rewrite Hs1. reflexivity.
  - intros c m3 Hc Hrc.
    assert (Hrc0 : 0 <= round c).
    { pose proof (round_size_up_range c Hc). lia. }
    eexists.
    rewrite (alloc_small_room _ _ c m3 (mkArena prev (u + round a')));
      cbn [with_block aa arena heap objs arena_used arena_prev]; try done; try lia.
    + rewrite HAeq, wrap_add_l. do 3 f_equal. lia.
    + apply lookup_insert_eq.
    + rewrite wrap_small by lia. lia.
Qed.

Lemma store_node_prev_mem (s s' : ArenaSt) (n v : ptr) :
  store_node_prev s n v = Ret s' -> mem (heap s') = mem (heap s).
Proof.
  unfold store_node_prev. intros H.
  destruct (n =? NULL); [discriminate |].
  destruct (n =? sentinel s); [by injection H as <- |].
  destruct (load_big (heap s) n); cbn [mbind outcome_bind] in H; try discriminate.
  destruct (store_obj _ _ _) eqn:E; cbn [mbind outcome_bind] in H; try discriminate.
  injection H as <-. apply store_obj_inv in E as (_ & _ & ->). reflexivity.
Qed.

Lemma heap_free_mem (h h' : Heap) (p : ptr) : heap_free h p = Ret h' -> mem h' = mem h.
Proof.
  unfold heap_free. intros H. destruct (p =? NULL); [by injection H as <- |].
  destruct (objs h !! p); [| discriminate]. by injection H as <-.
Qed.

Lemma Big_free_mem (s s' : ArenaSt) (p : ptr) (size : Z) :
  Big_free s p size = Ret s' -> mem (heap s') = mem (heap s).
Proof.
  unfold Big_free. intros H.
  destruct (p =? NULL); [by injection H as <- |].
  destruct (load_big _ _) as [b | | |]; cbn [mbind outcome_bind] in H; try discriminate.
  destruct (heap_free _ _) as [h1 | | |] eqn:E1; cbn [mbind outcome_bind] in H; try discriminate.
  apply heap_free_mem in E1.
  assert (E2 : forall s2, (if ba_prev b =? NULL then Ret (set_heap s h1)
                           else store_node_next (set_heap s h1) (ba_prev b) (ba_next b)) = Ret s2 ->
               mem (heap s2) = mem (heap s)).
  { intros s2 H2. destruct (ba_prev b =? NULL).
    - injection H2 as <-. exact E1.
    - apply store_node_next_mem in H2. rewrite H2. exact E1. }
  destruct (if ba_prev b =? NULL then _ else _) as [s2 | | |];
    cbn [mbind outcome_bind] in H; try discriminate.
  specialize (E2 s2 eq_refl).
  destruct (ba_next b =? NULL); cbn [mbind outcome_bind] in H.
  - injection H as <-. exact E2.
  - destruct (store_node_prev _ _ _) as [s3 | | |] eqn:E3;
      cbn [mbind outcome_bind] in H; try discriminate.
    injection H as <-. apply store_node_prev_mem in E3. congruence.
Qed.

Lemma arena_free_mem (s s' : ArenaSt) (p : ptr) (size : Z) :
  ArenaAllocator_free arena_size s p size = Ret s' -> mem (heap s') = mem (heap s).
Proof.
  unfold ArenaAllocator_free. intros H.
  destruct (p =? NULL); [by injection H as <- |].
  destruct (size =? 0); [by injection H as <- |].
  destruct (_ >? _); [by apply Big_free_mem in H |].
  destruct (negb _); cbn [assert mbind outcome_bind] in H; try discriminate.
  destruct (load_arena _ _); cbn [mbind outcome_bind] in H; try discriminate.
  destruct (_ =? _); [| by injection H as <-].
  destruct (store_obj _ _ _) eqn:E; cbn [mbind outcome_bind] in H; try discriminate.
  injection H as <-. apply store_obj_inv in E as (_ & _ & ->). reflexivity.
Qed.

(** X5: [ArenaAllocator_realloc] keeps the contents.  For nonzero sizes of
    which at least one is small, a realloc that returns [(q, s')] either
    changed no payload byte and returned the old pointer or NULL, or it moved
    the allocation: the first [min (round old) (round new)] bytes at [q] are
    the bytes that were at [p], and every other payload byte is unchanged. *)
Theorem arena_realloc_keeps_contents
    (s s' : ArenaSt) (p : ptr) (old_size new_size : Z) (m q : ptr) :
  old_size <> 0 -> new_size <> 0 ->
  ArenaAllocator_round_size_up old_size <= BIG_ALLOC_THRESH arena_size \/
  ArenaAllocator_round_size_up new_size <= BIG_ALLOC_THRESH arena_size ->
  ArenaAllocator_realloc arena_size s p old_size new_size m = Ret (q, s') ->
  let n := Z.min (ArenaAllocator_round_size_up old_size)
                 (ArenaAllocator_round_size_up new_size) in
  ((q = p \/ q = NULL) /\ mem (heap s') = mem (heap s)) \/
  ((forall i, 0 <= i < n -> mem (heap s') !! (q + i) = mem (heap s) !! (p + i)) /\
   (forall x, x < q \/ q + n <= x -> mem (heap s') !! x = mem (heap s) !! x)).
Proof.
  intros Ho Hn Hsmall H n. unfold ArenaAllocator_realloc in H.
  destruct (Z.eqb_spec old_size 0) as [? | _]; [done |].
  destruct (Z.eqb_spec new_size 0) as [? | _]; [done |].
  cbn [andb] in H.
  set (ro := round old_size) in *. set (rn := round new_size) in *.
  destruct (Z.eqb_spec ro rn) as [Eq | Hne].
  { injection H as <- <-. left. auto. }
  destruct (Z.gtb_spec ro THRESH) as [Go | Lo].
  - (* from a big allocation to the arena *)
    destruct (Z.gtb_spec rn THRESH) as [Gn | Ln]; [lia |].
    destruct (ArenaAllocator_alloc arena_size s rn m) as [[r1 s1] | | |] eqn:E;
      cbn [mbind outcome_bind] in H; try discriminate.
    apply arena_alloc_mem in E.
    destruct (Z.eqb_spec r1 NULL) as [-> | Hr].
    { injection H as <- <-. left. auto. }
    destruct (ro >? rn); cbn [assert mbind outcome_bind] in H; try discriminate.
    destruct (Big_free _ _ _) as [s2 | | |] eqn:Ef; cbn [mbind outcome_bind] in H;
      try discriminate.
    injection H as <- <-. apply Big_free_mem in Ef. cbn [set_heap heap mem] in Ef.
    right. rewrite Ef, E. replace n with rn by lia.
    split; intros; [by apply memcpy_lookup_in | by apply memcpy_lookup_out].
  - destruct (Z.gtb_spec rn THRESH) as [Gn | Ln].
    + (* from the arena to a big allocation *)
      destruct (ro <=? THRESH); cbn [assert mbind outcome_bind] in H; try discriminate.
      destruct (Big_alloc _ _ _ _) as [[r1 s1] | | |] eqn:E;
        cbn [mbind outcome_bind] in H; try discriminate.
      apply Big_alloc_mem in E.
      destruct (Z.eqb_spec r1 NULL) as [-> | Hr].
      { injection H as <- <-. left. auto. }
      destruct (Z.eqb_spec ro 0) as [Z0 | NZ]; cbn [negb] in H.
      { injection H as <- <-. right. rewrite E. replace n with 0 by lia.
        split; [intros; lia | done]. }
      destruct (ArenaAllocator_free _ _ _ _) as [s2 | | |] eqn:Ef;
        cbn [mbind outcome_bind] in H; try discriminate.
      injection H as <- <-. apply arena_free_mem in Ef. cbn [set_heap heap mem] in Ef.
      right. rewrite Ef, E. replace n with ro by lia.
      split; intros; [by apply memcpy_lookup_in | by apply memcpy_lookup_out].
    + (* within the arena *)
      destruct (negb _); cbn [assert mbind outcome_bind] in H; try discriminate.
      destruct (load_arena _ _) as [a | | |]; cbn [mbind outcome_bind] in H; try discriminate.
      destruct (_ && _).
      { destruct (store_obj _ _ _) eqn:E; cbn [mbind outcome_bind] in H; try discriminate.
        injection H as <- <-. apply store_obj_inv in E as (_ & _ & ->). left. auto. }
      assert (E0 : forall o,
                (if wrap (BUFSZ - arena_used a) <? rn
                 then '(r, s1) ← ArenaAllocator_alloc_arena arena_size s m;
                      if negb (r =? 0) then Ret None else Ret (Some s1)
                 else Ret (Some s)) = Ret (Some o) -> mem (heap o) = mem (heap s)).
      { intros o Ho'. destruct (wrap (BUFSZ - arena_used a) <? rn).
        - destruct (ArenaAllocator_alloc_arena _ _ _) as [[r1 s1] | | |] eqn:E;
            cbn [mbind outcome_bind] in Ho'; try discriminate.
          destruct (negb (r1 =? 0)); [discriminate Ho' |].
          injection Ho' as <-.
          by apply alloc_arena_mem in E.
        - by injection Ho' as <-. }
      destruct (if wrap (BUFSZ - arena_used a) <? rn then _ else _) as [[s0 |] | | |];
        cbn [mbind outcome_bind] in H; try discriminate.
      * specialize (E0 s0 eq_refl).
        destruct (bump s0 rn) as [[r1 s1] | | |] eqn:Eb;
          cbn [mbind outcome_bind] in H; try discriminate.
        injection H as <- <-. apply bump_mem in Eb. cbn [set_heap heap mem].
        right. rewrite Eb, E0.
        replace (if ro <? rn then ro else rn) with n
          by (destruct (Z.ltb_spec ro rn); lia).
        split; intros; [by apply memcpy_lookup_in | by apply memcpy_lookup_out].
      * injection H as <- <-. left. auto.
Qed.

End ReallocFacts.

Lemma arena_realloc_shrink_in_place_witness :
  exists s2,
    ArenaAllocator_realloc ARENA_SIZE (user_write after_A.2 ∅) after_A.1 100 50 NULL
      = Ret (after_A.1, s2) /\
    exists s3,
      ArenaAllocator_alloc ARENA_SIZE s2 40 NULL = Ret (wrap (after_A.1 + 56), s3).
Proof.
  destruct (arena_realloc_shrink_in_place ARENA_SIZE arena0 after_A.2 100 50 1048576 NULL
              after_A.1 ∅)
    as (blk1 & s2 & _ & _ & _ & Hre & Hnext);
    [ unfold SIZE_MOD, ARENA_SIZE, ARENA_PAGE_SIZE; lia
    | lia
    | unfold SIZE_MOD; lia
    | vm_compute; discriminate
    | left; reflexivity
    | vm_compute; reflexivity
    | vm_compute; discriminate
    | ].
  exists s2. split; [exact Hre |].
  apply (Hnext 40 NULL); [unfold is_size, SIZE_MOD; lia | vm_compute; discriminate].
Defined.

Lemma arena_realloc_keeps_contents_witness :
  mem (heap after_move.2) !! (after_move.1 + 0) = mem (heap before_move) !! (after_A.1 + 0).
Proof.
  destruct (arena_realloc_keeps_contents ARENA_SIZE before_move after_move.2 after_A.1
              100 200 NULL after_move.1) as [[[Hq | Hq] _] | [Hcopy _]];
    [ discriminate | discriminate | left; vm_compute; discriminate | vm_compute; reflexivity
    | vm_compute in Hq; discriminate Hq | vm_compute in Hq; discriminate Hq | ].
  apply Hcopy. vm_compute. split; [discriminate | reflexivity].
Defined.

(** ** Chains of blocks and lists of big allocations *)

Lemma arena_chain_functional (h : Heap) (ar : ptr) (l1 l2 : list (ptr * Arena)) :
  arena_chain h ar l1 -> arena_chain h ar l2 -> l1 = l2.
Proof.
  intros H1. revert l2. induction H1 as [| ar a l Hn Hl _ IH]; intros l2 H2.
  - inversion H2; [reflexivity | congruence].
  - inversion H2 as [| ar' a' l' _ Hl' Hc']; [congruence |]. subst.
    rewrite Hl in Hl'. injection Hl' as <-. f_equal. by apply IH.
Qed.

Lemma arena_chain_suffix (h : Heap) (ar : ptr) (l : list (ptr * Arena)) :
  arena_chain h ar l ->
  forall p, p ∈ l.*1 -> exists l', arena_chain h p l' /\ (length l' <= length l)%nat.
Proof.
  induction 1 as [| ar a l Hn Hl Hc IH]; intros p Hp.
  - by apply elem_of_nil in Hp.
  - cbn in Hp. apply elem_of_cons in Hp as [-> | Hp].
    + exists ((ar, a) :: l). split; [by constructor | done].
    + destruct (IH p Hp) as (l' & Hc' & Hlen). exists l'. split; [done | cbn; lia].
Qed.

Lemma arena_chain_NoDup (h : Heap) (ar : ptr) (l : list (ptr * Arena)) :
  arena_chain h ar l -> NoDup l.*1.
Proof.
  induction 1 as [| ar a l Hn Hl Hc IH]; [constructor |].
  cbn. constructor; [| exact IH]. intros Hin.
  destruct (arena_chain_suffix _ _ _ Hc ar Hin) as (l' & Hc' & Hlen).
  assert (Heq : l' = (ar, a) :: l).
  { apply (arena_chain_functional h ar); [exact Hc' | by constructor]. }
  subst l'. cbn in Hlen. lia.
Qed.

Lemma arena_chain_live (h : Heap) (ar : ptr) (l : list (ptr * Arena)) :
  arena_chain h ar l -> forall p, p ∈ l.*1 -> exists a, objs h !! p = Some (OArena a).
Proof.
  induction 1 as [| ar a l Hn Hl Hc IH]; intros p Hp.
  - by apply elem_of_nil in Hp.
  - cbn in Hp. apply elem_of_cons in Hp as [-> | Hp]; eauto.
Qed.

Lemma NoDup_live_length {A : Type} (g : gmap Z A) (l : list Z) :
  NoDup l -> (forall p, p ∈ l -> is_Some (g !! p)) -> (length l <= size g)%nat.
Proof.
  intros Hnd Hlive.
  rewrite <- (size_dom (D := gset Z)).
  rewrite <- (size_list_to_set (C := gset Z) l Hnd).
  apply subseteq_size. intros p Hp. apply elem_of_list_to_set in Hp.
  apply elem_of_dom. by apply Hlive.
Qed.

Lemma arena_chain_length (h : Heap) (ar : ptr) (l : list (ptr * Arena)) :
  arena_chain h ar l -> (length l <= size (objs h))%nat.
Proof.
  intros Hc. rewrite <- (length_fmap fst l).
  apply NoDup_live_length; [by eapply arena_chain_NoDup |].
  intros p Hp. destruct (arena_chain_live _ _ _ Hc p Hp) as [a ->]. eauto.
Qed.

Lemma big_chain_functional (h : Heap) (ba : ptr) (l1 l2 : list (ptr * BigAllocation)) :
  big_chain h ba l1 -> big_chain h ba l2 -> l1 = l2.
Proof.
  intros H1. revert l2. induction H1 as [| ba b l Hn Hl _ IH]; intros l2 H2.
  - inversion H2; [reflexivity | congruence].
  - inversion H2 as [| ba' b' l' _ Hl' Hc']; [congruence |]. subst.
    rewrite Hl in Hl'. injection Hl' as <-. f_equal. by apply IH.
Qed.

Lemma big_chain_suffix (h : Heap) (ba : ptr) (l : list (ptr * BigAllocation)) :
  big_chain h ba l ->
  forall p, p ∈ l.*1 -> exists l', big_chain h p l' /\ (length l' <= length l)%nat.
Proof.
  induction 1 as [| ba b l Hn Hl Hc IH]; intros p Hp.
  - by apply elem_of_nil in Hp.
  - cbn in Hp. apply elem_of_cons in Hp as [-> | Hp].
    + exists ((ba, b) :: l). split; [by constructor | done].
    + destruct (IH p Hp) as (l' & Hc' & Hlen). exists l'. split; [done | cbn; lia].
Qed.

Lemma big_chain_NoDup (h : Heap) (ba : ptr) (l : list (ptr * BigAllocation)) :
  big_chain h ba l -> NoDup l.*1.
Proof.
  induction 1 as [| ba b l Hn Hl Hc IH]; [constructor |].
  cbn. constructor; [| exact IH]. intros Hin.
  destruct (big_chain_suffix _ _ _ Hc ba Hin) as (l' & Hc' & Hlen).
  assert (Heq : l' = (ba, b) :: l).
  { apply (big_chain_functional h ba); [exact Hc' | by constructor]. }
  subst l'. cbn in Hlen. lia.
Qed.

Lemma big_chain_live (h : Heap) (ba : ptr) (l : list (ptr * BigAllocation)) :
  big_chain h ba l -> forall p, p ∈ l.*1 -> exists b, objs h !! p = Some (OBig b).
Proof.
  induction 1 as [| ba b l Hn Hl Hc IH]; intros p Hp.
  - by apply elem_of_nil in Hp.
  - cbn in Hp. apply elem_of_cons in Hp as [-> | Hp]; eauto.
Qed.

Lemma big_chain_length (h : Heap) (ba : ptr) (l : list (ptr * BigAllocation)) :
  big_chain h ba l -> (length l <= size (objs h))%nat.
Proof.
  intros Hc. rewrite <- (length_fmap fst l).
  apply NoDup_live_length; [by eapply big_chain_NoDup |].
  intros p Hp. destruct (big_chain_live _ _ _ Hc p Hp) as [b ->]. eauto.
Qed.

(** The chains only depend on the objects they visit. *)
Lemma arena_chain_agree (h h' : Heap) (ar : ptr) (l : list (ptr * Arena)) :
  arena_chain h ar l ->
  (forall p, p ∈ l.*1 -> objs h' !! p = objs h !! p) ->
  arena_chain h' ar l.
Proof.
  induction 1 as [| ar a l Hn Hl Hc IH]; intros Hag; [constructor |].
  constructor; [exact Hn | |].
  - rewrite Hag; [exact Hl | cbn; apply elem_of_cons; by left].
  - apply IH. intros p Hp. apply Hag. cbn. apply elem_of_cons. by right.
Qed.

Lemma big_chain_agree (h h' : Heap) (ba : ptr) (l : list (ptr * BigAllocation)) :
  big_chain h ba l ->
  (forall p, p ∈ l.*1 -> objs h' !! p = objs h !! p) ->
  big_chain h' ba l.
Proof.
  induction 1 as [| ba b l Hn Hl Hc IH]; intros Hag; [constructor |].
  constructor; [exact Hn | |].
  - rewrite Hag; [exact Hl | cbn; apply elem_of_cons; by left].
  - apply IH. intros p Hp. apply Hag. cbn. apply elem_of_cons. by right.
Qed.

(** *** The statistics of a well-formed arena *)

Lemma stats_arenas_chain (asz : Z) (h : Heap) (ar : ptr) (l : list (ptr * Arena)) :
  arena_chain h ar l ->
  forall (fuel : nat) (u c bu bc n : Z),
  (length l <= fuel)%nat ->
  stats_arenas asz fuel h ar (mkStats (wrap u) (wrap c) bu bc (wrap n))
    = Ret (mkStats (wrap (u + chain_used l))
                   (wrap (c + Z.of_nat (length l) * ARENA_BUFFER_SIZE asz))
                   bu bc
                   (wrap (n + Z.of_nat (length l)))).
Proof.
  induction 1 as [| ar a l Hn Hl Hc IH]; intros fuel u c bu bc n Hfuel.
  - destruct fuel; cbn; rewrite ?Z.add_0_r; reflexivity.
  - destruct fuel as [| fuel]; [cbn in Hfuel; lia |].
    cbn [stats_arenas]. rewrite (eqb_NULL_false _ Hn).
    unfold load_arena. rewrite Hl. cbn [mbind outcome_bind st_used st_capacity
      st_big_used st_big_count st_arena_count].
    rewrite !wrap_add_l. rewrite IH by (cbn in Hfuel; lia).
    cbn [chain_used foldr length snd]. fold (chain_used l).
    do 2 f_equal; f_equal; lia.
Qed.

Lemma stats_bigs_chain (h : Heap) (ba : ptr) (l : list (ptr * BigAllocation)) :
  big_chain h ba l ->
  forall (fuel : nat) (u c bu bc n : Z),
  (length l <= fuel)%nat ->
  stats_bigs fuel h ba (mkStats u c (wrap bu) (wrap bc) n)
    = Ret (mkStats u c (wrap (bu + chain_big_used l))
                   (wrap (bc + Z.of_nat (length l))) n).
Proof.
  induction 1 as [| ba b l Hn Hl Hc IH]; intros fuel u c bu bc n Hfuel.
  - destruct fuel; cbn; rewrite ?Z.add_0_r; reflexivity.
  - destruct fuel as [| fuel]; [cbn in Hfuel; lia |].
    cbn [stats_bigs]. rewrite (eqb_NULL_false _ Hn).
    unfold load_big. rewrite Hl. cbn [mbind outcome_bind st_used st_capacity
      st_big_used st_big_count st_arena_count].
    rewrite !wrap_add_l. rewrite IH by (cbn in Hfuel; lia).
    cbn [chain_big_used foldr length snd]. fold (chain_big_used l).
    do 2 f_equal; f_equal; lia.
Qed.

(** X6: the statistics of an arena whose chain of blocks and list of big
    allocations both end in NULL: the call returns; [arena_count] is the
    number of blocks of the chain, [capacity] that number times
    [ARENA_BUFFER_SIZE], [used] the sum of the blocks' [used] counters,
    [big_count] the number of big allocations on the list and [big_used] the
    sum of their recorded sizes (all reduced modulo [2^64]). *)
Theorem arena_stats_chain
    (asz : Z) (s : ArenaSt) (la : list (ptr * Arena)) (lb : list (ptr * BigAllocation)) :
  arena_chain (heap s) (arena (aa s)) la ->
  big_chain (heap s) (node_next (big_allocations (aa s))) lb ->
  ArenaAllocator_stats asz s
    = Ret (mkStats (wrap (chain_used la))
                   (wrap (Z.of_nat (length la) * ARENA_BUFFER_SIZE asz))
                   (wrap (chain_big_used lb))
                   (wrap (Z.of_nat (length lb)))
                   (wrap (Z.of_nat (length la)))).
Proof.
  intros Ha Hb. unfold ArenaAllocator_stats.
  pose proof (arena_chain_length _ _ _ Ha) as Hla.
  pose proof (big_chain_length _ _ _ Hb) as Hlb.
  change (mkStats 0 0 0 0 0) with (mkStats (wrap 0) (wrap 0) (wrap 0) (wrap 0) (wrap 0)).
  rewrite (stats_arenas_chain asz _ _ _ Ha) by lia.
  cbn [mbind outcome_bind].
  rewrite (stats_bigs_chain _ _ _ Hb) by lia.
  reflexivity.
Qed.

Lemma arena_stats_chain_witness :
  ArenaAllocator_stats ARENA_SIZE after_B.2
    = Ret (mkStats 160 (ARENA_SIZE - 16) 0 0 1).
Proof.
  rewrite (arena_stats_chain ARENA_SIZE after_B.2 [(1048576, mkArena NULL 160)] []).
  - vm_compute. reflexivity.
  - vm_compute. apply arena_chain_cons; [discriminate | vm_compute; reflexivity |].
    apply arena_chain_nil.
  - vm_compute. apply big_chain_nil.
Defined.

(** *** Releasing a well-formed arena *)

Lemma free_arenas_chain (l : list (ptr * Arena)) :
  forall (h : Heap) (ar : ptr) (fuel : nat),
  arena_chain h ar l -> (length l <= fuel)%nat ->
  exists h',
    free_arenas fuel h ar = Ret h' /\ mem h' = mem h /\
    (forall q, q ∈ l.*1 -> objs h' !! q = None) /\
    (forall q, q ∉ l.*1 -> objs h' !! q = objs h !! q).
Proof.
  induction l as [| [ar0 a0] l IH]; intros h ar fuel Hc Hfuel.
  - inversion Hc; subst. exists h. destruct fuel; cbn; repeat split; try done.
    all: intros q Hq; by apply elem_of_nil in Hq.
  - pose proof (arena_chain_NoDup _ _ _ Hc) as Hnd.
    inversion Hc as [| ar' a' l' Hn Hl Hc']; subst.
    destruct fuel as [| fuel]; [cbn in Hfuel; lia |].
    cbn [free_arenas]. rewrite (eqb_NULL_false _ Hn).
    unfold load_arena, heap_free. rewrite Hl. cbn [mbind outcome_bind].
    rewrite ?(eqb_NULL_false _ Hn), ?Hl. cbn [mbind outcome_bind].
    cbn in Hnd. apply NoDup_cons in Hnd as [Hnotin Hnd].
    destruct (IH (mkHeap (delete ar0 (objs h)) (mem h)) (arena_prev a0) fuel)
      as (h' & E & Hmem & Hin & Hout).
    { apply (arena_chain_agree h); [exact Hc' |].
      intros p Hp. cbn [objs]. apply lookup_delete_ne. intros ->. contradiction. }
    { cbn in Hfuel. lia. }
    exists h'. split; [exact E |]. split; [exact Hmem |]. split.
    + intros q Hq. cbn in Hq. apply elem_of_cons in Hq as [-> | Hq]; [| by apply Hin].
      rewrite Hout by exact Hnotin. cbn [objs]. apply lookup_delete_eq.
    + intros q Hq. cbn in Hq. apply not_elem_of_cons in Hq as [Hne Hq].
      rewrite Hout by exact Hq. cbn [objs]. by apply lookup_delete_ne.
Qed.

Lemma free_bigs_chain (l : list (ptr * BigAllocation)) :
  forall (h : Heap) (ba : ptr) (fuel : nat),
  big_chain h ba l -> (length l <= fuel)%nat ->
  exists h',
    free_bigs fuel h ba = Ret h' /\ mem h' = mem h /\
    (forall q, q ∈ l.*1 -> objs h' !! q = None) /\
    (forall q, q ∉ l.*1 -> objs h' !! q = objs h !! q).
Proof.
  induction l as [| [ba0 b0] l IH]; intros h ba fuel Hc Hfuel.
  - inversion Hc; subst. exists h. destruct fuel; cbn; repeat split; try done.
    all: intros q Hq; by apply elem_of_nil in Hq.
  - pose proof (big_chain_NoDup _ _ _ Hc) as Hnd.
    inversion Hc as [| ba' b' l' Hn Hl Hc']; subst.
    destruct fuel as [| fuel]; [cbn in Hfuel; lia |].
    cbn [free_bigs]. rewrite (eqb_NULL_false _ Hn).
    unfold load_big, heap_free. rewrite Hl. cbn [mbind outcome_bind].
    rewrite ?(eqb_NULL_false _ Hn), ?Hl. cbn [mbind outcome_bind].
    cbn in Hnd. apply NoDup_cons in Hnd as [Hnotin Hnd].
    destruct (IH (mkHeap (delete ba0 (objs h)) (mem h)) (ba_next b0) fuel)
      as (h' & E & Hmem & Hin & Hout).
    { apply (big_chain_agree h); [exact Hc' |].
      intros p Hp. cbn [objs]. apply lookup_delete_ne. intros ->. contradiction. }
    { cbn in Hfuel. lia. }
    exists h'. split; [exact E |]. split; [exact Hmem |]. split.
    + intros q Hq. cbn in Hq. apply elem_of_cons in Hq as [-> | Hq]; [| by apply Hin].
      rewrite Hout by exact Hnotin. cbn [objs]. apply lookup_delete_eq.
    + intros q Hq. cbn in Hq. apply not_elem_of_cons in Hq as [Hne Hq].
      rewrite Hout by exact Hq. cbn [objs]. by apply lookup_delete_ne.
Qed.

(** X7: [ArenaAllocator_free_all] on an arena whose chain of blocks and list
    of big allocations both end in NULL (and whose sentinel has no [prev]):
    the call returns, the allocator is as a zero-initialised one, exactly the
    blocks of the chain and the big allocations of the list are released
    (each once), every other heap object is as it was, and no payload byte
    changes. *)
Theorem arena_free_all_chain
    (s : ArenaSt) (la : list (ptr * Arena)) (lb : list (ptr * BigAllocation)) :
  arena_chain (heap s) (arena (aa s)) la ->
  big_chain (heap s) (node_next (big_allocations (aa s))) lb ->
  node_prev (big_allocations (aa s)) = NULL ->
  exists h',
    ArenaAllocator_free_all s = Ret (empty_arena (aa_addr s) h') /\
    mem h' = mem (heap s) /\
    (forall q, q ∈ la.*1 \/ q ∈ lb.*1 -> objs h' !! q = None) /\
    (forall q, q ∉ la.*1 -> q ∉ lb.*1 -> objs h' !! q = objs (heap s) !! q).
Proof.
  intros Ha Hb Hprev. unfold ArenaAllocator_free_all.
  destruct (free_arenas_chain la (heap s) _ (S (size (objs (heap s)))) Ha)
    as (h1 & E1 & Hm1 & Hin1 & Hout1).
  { pose proof (arena_chain_length _ _ _ Ha). lia. }
  rewrite E1. cbn [mbind outcome_bind]. rewrite Hprev. cbn [assert mbind outcome_bind].
  assert (Hdisj : forall p, p ∈ lb.*1 -> p ∉ la.*1).
  { intros p Hp Hp'. destruct (big_chain_live _ _ _ Hb p Hp) as [b Eb].
    destruct (arena_chain_live _ _ _ Ha p Hp') as [a Ea]. congruence. }
  assert (Hb1 : big_chain h1 (node_next (big_allocations (aa s))) lb).
  { apply (big_chain_agree (heap s)); [exact Hb |].
    intros p Hp. apply Hout1. by apply Hdisj. }
  destruct (free_bigs_chain lb h1 _ (S (size (objs h1))) Hb1)
    as (h2 & E2 & Hm2 & Hin2 & Hout2).
  { pose proof (big_chain_length _ _ _ Hb1). lia. }
  rewrite E2. cbn [mbind outcome_bind].
  exists h2. split; [reflexivity |]. split; [congruence |]. split.
  - intros q [Hq | Hq].
    + destruct (decide (q ∈ lb.*1)) as [Hq' | Hq']; [by apply Hin2 |].
      rewrite Hout2 by exact Hq'. by apply Hin1.
    + by apply Hin2.
  - intros q Hqa Hqb. rewrite Hout2 by exact Hqb. by apply Hout1.
Qed.

Lemma arena_free_all_chain_witness :
  exists h',
    ArenaAllocator_free_all after_B.2 = Ret (empty_arena (aa_addr after_B.2) h') /\
    objs h' !! 1048576 = None.
Proof.
  destruct (arena_free_all_chain after_B.2 [(1048576, mkArena NULL 160)] [])
    as (h' & E & _ & Hin & _).
  - vm_compute. apply arena_chain_cons; [discriminate | vm_compute; reflexivity |].
    apply arena_chain_nil.
  - vm_compute. apply big_chain_nil.
  - vm_compute. reflexivity.
  - exists h'. split; [exact E |]. apply Hin. left. cbn. apply elem_of_cons. by left.
Defined.

(** *** Allocation keeps the arena well formed *)

(** X8: [ArenaAllocator_alloc] keeps the arena well formed.  On an arena
    whose chain of blocks and list of big allocations end in NULL, with the
    heap returning an address [m] that is not live, an allocation that
    returns leaves a chain of blocks that is the old one (the current block's
    [used] apart) or the old one behind one new block at [m], so the block
    count grows by at most one.  After a big allocation the list of big
    allocations consists of the new allocation alone, whatever was on it
    before: [Big_init] sets the new header's [next] to NULL and makes the
    sentinel point to it. *)
Theorem arena_alloc_keeps_chains
    (asz : Z) (s s' : ArenaSt) (size : Z) (m p : ptr)
    (la : list (ptr * Arena)) (lb : list (ptr * BigAllocation)) :
  arena_chain (heap s) (arena (aa s)) la ->
  big_chain (heap s) (node_next (big_allocations (aa s))) lb ->
  objs (heap s) !! m = None ->
  ArenaAllocator_alloc asz s size m = Ret (p, s') ->
  let r := ArenaAllocator_round_size_up size in
  (r <= BIG_ALLOC_THRESH asz ->
     big_chain (heap s') (node_next (big_allocations (aa s'))) lb /\
     exists la',
       arena_chain (heap s') (arena (aa s')) la' /\
       (la'.*1 = la.*1 \/ (m <> NULL /\ la'.*1 = m :: la.*1))) /\
  (BIG_ALLOC_THRESH asz < r ->
     arena_chain (heap s') (arena (aa s')) la /\
     big_chain (heap s') (node_next (big_allocations (aa s')))
       [(m, mkBig NULL (sentinel s) r)]).
Proof.
  intros Ha Hb Hfresh E r. split.
  - intros Hr.
    assert (Hok : current_ok s).
    { inversion Ha; subst; [by left | right; eauto]. }
    destruct (alloc_small_served asz s size m Hr Hok) as (p1 & s1 & E1 & Hserved).
    rewrite E in E1. injection E1 as <- <-.
    destruct Hserved as [Hbump | (_ & _ & ->)];
      [| split; [exact Hb | exists la; split; [exact Ha | by left]]].
    destruct Hbump as (Hbig & _ & prev & used0 & Hl' & _ & Hother & Hcase).
    assert (Hfm : forall q, q ∈ la.*1 -> q <> m).
    { intros q Hq ->. destruct (arena_chain_live _ _ _ Ha m Hq) as [a Ea]. congruence. }
    assert (Hbm : forall q, q ∈ lb.*1 -> q <> arena (aa s')).
    { intros q Hq Heq. destruct (big_chain_live _ _ _ Hb q Hq) as [b Eb].
      destruct Hcase as [[Hsame Hl] | (Hnew & _)].
      - rewrite Heq, Hsame in Eb. congruence.
      - rewrite Heq, Hnew in Eb. congruence. }
    split.
    { rewrite Hbig. apply (big_chain_agree (heap s)); [exact Hb |].
      intros q Hq. apply Hother. by apply Hbm. }
    destruct Hcase as [[Hsame Hl] | (Hnew & Hm & _ & Hprev)].
    + inversion Ha as [Hnull Hnil | ar a l Hn Hla Hc Har]; subst.
      * exists []. split; [| by left]. rewrite Hsame, <- Hnull. constructor.
      * rewrite Hl in Hla. injection Hla as <-.
        pose proof (arena_chain_NoDup _ _ _ Ha) as Hnd. cbn in Hnd.
        apply NoDup_cons in Hnd as [Hnotin _].
        exists ((arena (aa s), mkArena prev (wrap (used0 + r))) :: l). split; [| by left].
        rewrite Hsame in *. constructor; [exact Hn | exact Hl' |].
        cbn [arena_prev] in *. apply (arena_chain_agree (heap s)); [exact Hc |].
        intros q Hq. apply Hother. intros ->. contradiction.
    + exists ((m, mkArena prev (wrap (used0 + r))) :: la). split; [| right; by split].
      rewrite Hnew in *. constructor; [exact Hm | exact Hl' |].
      cbn [arena_prev]. rewrite Hprev. apply (arena_chain_agree (heap s)); [exact Ha |].
      intros q Hq. apply Hother. by apply Hfm.
  - intros Hr. unfold ArenaAllocator_alloc in E. fold r in E.
    destruct (Z.gtb_spec r (BIG_ALLOC_THRESH asz)) as [_ | L]; [| lia].
    destruct (Z.eq_dec m NULL) as [-> | Hm]; [discriminate E |].
    destruct (Z.eq_dec (sentinel s) NULL) as [Hs | Hs].
    { exfalso. revert E. unfold Big_alloc, Big_init, heap_malloc, store_obj, store_node_next.
      rewrite (eqb_NULL_false m Hm). simpl. rewrite lookup_insert_eq. simpl.
      rewrite Hs. discriminate. }
    rewrite (Big_alloc_granted s r m Hm Hs) in E. injection E as <- <-.
    cbn [heap aa arena big_allocations node_next]. split.
    + apply (arena_chain_agree (heap s)); [exact Ha |].
      intros q Hq. cbn [objs]. apply lookup_insert_ne. intros ->.
      destruct (arena_chain_live _ _ _ Ha _ Hq) as [a Ea]. congruence.
    + constructor; [exact Hm | cbn [objs]; apply lookup_insert_eq | constructor].
Qed.

Lemma arena_alloc_keeps_chains_witness :
  big_chain (heap after_B.2) (node_next (big_allocations (aa after_B.2))) [] /\
  exists la',
    arena_chain (heap after_B.2) (arena (aa after_B.2)) la' /\
    (la'.*1 = [1048576] \/ (NULL <> NULL /\ la'.*1 = [NULL; 1048576])).
Proof.
  refine (proj1 (arena_alloc_keeps_chains ARENA_SIZE after_A.2 after_B.2 50 NULL after_B.1
                   [(1048576, mkArena NULL 104)] [] _ _ _ _) _).
  - vm_compute. apply arena_chain_cons; [discriminate | vm_compute; reflexivity |].
    apply arena_chain_nil.
  - vm_compute. apply big_chain_nil.
  - vm_compute. reflexivity.
  - vm_compute. reflexivity.
  - vm_compute. discriminate.
Defined.

(** ** The list of big allocations *)

Lemma sentinel_Big_alloc (s : ArenaSt) (n : BigListNode) (h : Heap) :
  sentinel (mkArenaSt (aa_addr s) (mkAA (arena (aa s)) n) h) = sentinel s.
Proof. reflexivity. Qed.





(** ** The ledger of the recording allocator *)

Lemma heap_malloc_lookup_ne (h : Heap) (n : Z) (m q : ptr) :
  q <> m -> objs (heap_malloc h n m) !! q = objs h !! q.
Proof.
  intros Hq. unfold heap_malloc. destruct (m =? NULL); [reflexivity |].
  cbn [objs]. by rewrite lookup_insert_ne.
Qed.

Lemma heap_realloc_array_frame (h h' : Heap) (p : ptr) (n : Z) (m q : ptr) :
  heap_realloc h p 0 n m = Ret h' -> q <> p -> q <> m ->
  objs h' !! q = objs h !! q.
Proof.
  unfold heap_realloc. intros H Hp Hm.
  destruct (m =? NULL); [by injection H as <- |].
  destruct (p =? NULL); [injection H as <-; by apply heap_malloc_lookup_ne |].
  destruct (objs h !! p); [| discriminate].
  injection H as <-. cbn [objs].
  destruct (m =? p); cbn [objs];
    rewrite ?lookup_insert_ne, ?lookup_delete_ne by done; reflexivity.
Qed.

Lemma recording_ensure_capacity_frame
    (r rg : RecordingAllocator) (h hg : Heap) (g : ptr * ptr) (q : ptr) :
  recording_ensure_capacity r h g = Ret (rg, hg) ->
  q <> allocations_at r -> q <> allocation_sizes_at r -> q <> g.1 -> q <> g.2 ->
  objs hg !! q = objs h !! q.
Proof.
  unfold recording_ensure_capacity. intros H Ha Hs H1 H2.
  destruct (decide _); [by injection H as _ <- |].
  destruct (decide _); [injection H as _ <-; by rewrite !heap_malloc_lookup_ne |].
  destruct (heap_realloc h _ _ _ _) as [h1 | | |] eqn:E1; cbn [mbind outcome_bind] in H;
    try discriminate.
  destruct (heap_realloc h1 _ _ _ _) as [h2 | | |] eqn:E2; cbn [mbind outcome_bind] in H;
    try discriminate.
  injection H as _ <-.
  by rewrite (heap_realloc_array_frame _ _ _ _ _ _ E2), (heap_realloc_array_frame _ _ _ _ _ _ E1).
Qed.

(** X11: every call on the recording allocator keeps the ledger a mirror of
    the heap.  If the ledger is well formed, every non-NULL pointer it tracks
    is live and tracked once, its two arrays are heap objects of their own,
    and the heap answers the call and the ledger's requests as a heap does
    (NULL, a fresh address or, for a realloc, the same address), then a call
    that returns leaves a ledger with the same properties over the new heap:
    alloc, zalloc, realloc, free and free_all never leave a dangling or
    doubled entry behind. *)
Theorem recording_call_sound
    (r r' : RecordingAllocator) (h h' : Heap) (op : test_op) (p : ptr) :
  ledger_sound r h ->
  heap_answer_ok r h op ->
  recording_call r h op = Ret (p, r', h') ->
  ledger_sound r' h'.
Proof.
  intros Hs Hans E.
  destruct op as [size m g | size m g | data o n m g | data size |]; cbn [recording_call] in E.
  - by apply (recording_alloc_sound r r' h h' size m p g).
  - by apply (recording_zalloc_sound r r' h h' size m p g).
  - by apply (recording_realloc_sound r r' h h' data o n m p g).
  - destruct (recording_free r h data size) as [[r1 h1] | | |] eqn:Ef;
      cbn [mbind outcome_bind] in E; try discriminate.
    injection E as _ <- <-. by apply (recording_free_sound r r1 h h1 data size).
  - destruct (recording_free_all r h) as [[r1 h1] | | |] eqn:Ef;
      cbn [mbind outcome_bind] in E; try discriminate.
    injection E as _ <- <-. by apply (recording_free_all_sound r r1 h h1).
Qed.

Lemma example_ledger_sound : ledger_sound example_ledger example_ledger_heap.
Proof.
  split; [unfold ledger_wf; cbn; repeat split; (lia || discriminate) |]. split; [| split].
  - intros j p Hj Hp _. cbn in Hj.
    destruct j as [| [| j]]; [| | lia]; cbn in Hp; injection Hp as <-; vm_compute; eauto.
  - intros i j p Hi Hj Hpi Hpj _. cbn in Hi, Hj.
    destruct i as [| [| i]], j as [| [| j]]; try lia; cbn in Hpi, Hpj; congruence.
  - intros _. split; [vm_compute; eauto |]. split; [vm_compute; eauto |].
    split; [discriminate |].
    split; intros j Hj; cbn in Hj; destruct j as [| [| j]]; try lia; cbn; discriminate.
Defined.

Lemma recording_call_sound_witness :
  ledger_sound after_free_8192.1.2 after_free_8192.2.
Proof.
  apply (recording_call_sound example_ledger after_free_8192.1.2 example_ledger_heap
           after_free_8192.2 (OpFree 8192 16) NULL).
  - exact example_ledger_sound.
  - exact I.
  - vm_compute. reflexivity.
Defined.

(** X12: [recording_free_all] on a ledger that mirrors the heap returns,
    releases every non-NULL pointer the ledger tracks (each once), leaves
    every untracked heap object (the ledger's two arrays among them) and
    every payload byte as they were, and resets [count] to 0 while keeping
    the arrays and their capacity; a following [recording_assert_all_freed]
    passes. *)
Theorem recording_free_all_releases (r : RecordingAllocator) (h : Heap) :
  ledger_sound r h ->
  exists h',
    recording_free_all r h
      = Ret (mkRec (allocations r) (allocation_sizes r) O (capacity r)
                   (allocations_at r) (allocation_sizes_at r), h') /\
    mem h' = mem h /\
    (forall p, tracked r p -> p <> NULL -> objs h' !! p = None) /\
    (forall q, ~ tracked r q -> objs h' !! q = objs h !! q) /\
    recording_assert_all_freed
      (mkRec (allocations r) (allocation_sizes r) O (capacity r)
             (allocations_at r) (allocation_sizes_at r)) = Ret tt.
Proof.
  intros ((Hc & Hla & Hls & _) & Hlive & Hdist & _).
  destruct (free_slots_spec (allocations r) (count r) O h)
    as (h' & E & Hmem & Hin & Hout).
  { lia. }
  { intros j p Hj. apply Hlive. lia. }
  { intros a b p Ha Hb. apply Hdist; lia. }
  exists h'. unfold recording_free_all. rewrite E. cbn [mbind outcome_bind].
  split; [reflexivity |]. split; [exact Hmem |]. split; [| split; [| reflexivity]].
  - intros p (j & Hj & Hp) Hnn. apply (Hin j p); [lia | done | done].
  - intros q Hq. apply Hout. right. intros j Hj Hp. apply Hq. exists j. split; [lia | done].
Qed.

Lemma recording_free_all_releases_witness :
  exists h',
    recording_free_all example_ledger example_ledger_heap
      = Ret (mkRec [4096; 8192] [8; 16] O 2 256 512, h') /\
    objs h' !! 8192 = None /\ objs h' !! 256 = Some (ORaw 16).
Proof.
  destruct (recording_free_all_releases example_ledger example_ledger_heap
              example_ledger_sound) as (h' & E & _ & Hin & Hout & _).
  exists h'. split; [exact E |]. split.
  - apply Hin; [| discriminate]. exists 1%nat. split; [cbn; lia | reflexivity].
  - rewrite Hout; [reflexivity |].
    intros (j & Hj & Hp). cbn in Hj. destruct j as [| [| j]]; try lia; discriminate.
Defined.

(** X13: an allocation followed by its release.  On a ledger that mirrors
    the heap, with the heap granting a fresh address [m] and granting the
    ledger its arrays where it has to grow ([g], answered as a heap does),
    [recording_alloc] returns [m] and [recording_free] of [m] with the same
    size returns.  Where the ledger had a free slot, the heap is then exactly
    as before the allocation.  Where it had to grow (its two unchecked
    requests to the heap), the heap differs from the one before the
    allocation at most at the old and the new addresses of the two arrays;
    [m] is released and no payload byte has changed.  The ledger mirrors the
    heap again; the count is not above what it was, the slots below it are as
    they were, and when the last slot of the old ledger had a nonzero size
    (or the ledger was empty) the count is exactly what it was. *)
Theorem recording_alloc_free_roundtrip
    (r : RecordingAllocator) (h : Heap) (size : Z) (m : ptr) (g : ptr * ptr) :
  ledger_sound r h -> m <> NULL -> objs h !! m = None ->
  ledger_granted r g -> growth_answer_ok r (heap_malloc h size m) g ->
  exists r1 h1 r2 h2,
    recording_alloc r h size m g = Ret (m, r1, h1) /\
    recording_free r1 h1 m size = Ret (r2, h2) /\
    ((count r < capacity r)%nat -> h1 = heap_malloc h size m /\ h2 = h) /\
    objs h2 !! m = None /\ mem h2 = mem h /\
    (forall q, q <> allocations_at r -> q <> allocation_sizes_at r ->
               q <> g.1 -> q <> g.2 -> objs h2 !! q = objs h !! q) /\
    ledger_sound r2 h2 /\
    (count r2 <= count r)%nat /\
    (forall j, (j < count r2)%nat ->
       allocations r2 !! j = allocations r !! j /\
       allocation_sizes r2 !! j = allocation_sizes r !! j) /\
    (trimmed (allocation_sizes r) (count r) (count r) -> count r2 = count r).
Proof.
  intros Hs Hm Hf Hg Hans. pose proof Hs as (Hwf & Hlive & Hdist & Hst).
  destruct (recording_alloc_spec r h size m g Hwf) as [_ Hok].
  destruct (Hok Hm Hg Hst) as (r1 & h1 & E1 & Hwf1 & Hcnt1 & Hal1 & Hsz1 & Hkeep & Hmem1 & _).
  assert (Hs1 : ledger_sound r1 h1).
  { apply (recording_alloc_sound r r1 h h1 size m m g Hs); [| exact E1].
    split; [by right | exact Hans]. }
  pose proof E1 as E1'. unfold recording_alloc in E1'. rewrite (eqb_NULL_false _ Hm) in E1'.
  apply grow_record_inv in E1' as (rg & hg & r1' & Eg & Er & [= <- <-]).
  assert (Ht : tracked_at r1 m (count r)).
  { split; [lia |]. split; [exact Hal1 |]. intros j Hj. lia. }
  assert (Hlive1 : is_Some (objs h1 !! m)).
  { destruct Hs1 as (_ & Hl1 & _). apply (Hl1 (count r)); [lia | exact Hal1 | exact Hm]. }
  destruct Hlive1 as [o Ho].
  destruct (vacate_slot_spec r1 (count r) Hwf1 ltac:(lia)) as (c2 & Ev & Htr).
  set (r2 := mkRec (<[count r := NULL]> (allocations r1))
                   (<[count r := 0]> (allocation_sizes r1)) c2 (capacity r1)
                   (allocations_at r1) (allocation_sizes_at r1)) in *.
  set (h2 := mkHeap (delete m (objs h1)) (mem h1)).
  assert (E2 : recording_free r1 h1 m size = Ret (r2, h2)).
  { unfold recording_free. rewrite (eqb_NULL_false _ Hm).
    rewrite (find_slot_tracked r1 m (count r) Hwf1 Ht). cbn [mbind outcome_bind].
    unfold array_load. rewrite Hsz1. cbn [mbind outcome_bind].
    rewrite Z.eqb_refl. cbn [negb mbind outcome_bind].
    unfold heap_free. rewrite (eqb_NULL_false _ Hm), Ho. cbn [mbind outcome_bind].
    rewrite Ev. reflexivity. }
  assert (Hc2 : (c2 <= count r)%nat).
  { destruct Htr as (Hle & _ & [-> | (x & Hx & Hnz)]); [lia |].
    destruct (decide (c2 = S (count r))) as [-> | Hne]; [| lia].
    cbn in Hx. rewrite list_lookup_insert_eq in Hx
      by (destruct Hwf1 as (? & ? & ? & ?); lia). congruence. }
  exists r1, h1, r2, h2.
  split; [exact E1 |]. split; [exact E2 |]. split; [| split; [| split; [| split]]].
  - intros Hlt. revert Eg. unfold recording_ensure_capacity.
    rewrite decide_True by exact Hlt. intros [= <- <-]. split; [reflexivity |].
    unfold h2, heap_malloc. rewrite (eqb_NULL_false _ Hm). cbn [objs mem].
    rewrite (delete_insert_id _ _ _ Hf). by destruct h.
  - apply lookup_delete_eq.
  - cbn [h2 mem]. exact Hmem1.
  - intros q Ha Hsz H1 H2. cbn [h2 objs].
    destruct (decide (q = m)) as [-> | Hne]; [by rewrite lookup_delete_eq, Hf |].
    rewrite lookup_delete_ne by done.
    rewrite (recording_ensure_capacity_frame _ _ _ _ _ q Eg) by done.
    by apply heap_malloc_lookup_ne.
  - split; [by apply (recording_free_sound r1 r2 h1 h2 m size) |].
    split; [exact Hc2 |]. split.
    + intros j Hj. cbn [r2 count allocations allocation_sizes] in *.
      rewrite !list_lookup_insert_ne by lia. apply Hkeep. lia.
    + intros (_ & _ & Hlast). cbn [r2 count].
      destruct (decide (c2 = count r)) as [-> | Hne]; [reflexivity | exfalso].
      destruct Hlast as [Hz | (x & Hx & Hnz)]; [lia |].
      destruct Htr as (_ & Hzero & _).
      specialize (Hzero (Nat.pred (count r)) ltac:(lia)).
      rewrite list_lookup_insert_ne in Hzero by lia.
      destruct (Hkeep (Nat.pred (count r)) ltac:(lia)) as [_ Hk].
      rewrite Hk in Hzero. congruence.
Qed.

Lemma recording_alloc_free_roundtrip_witness :
  exists r1 h1 r2 h2,
    recording_alloc example_ledger example_ledger_heap 24 12288 (768, 1024)
      = Ret (12288, r1, h1) /\
    recording_free r1 h1 12288 24 = Ret (r2, h2) /\
    objs h2 !! 12288 = None /\ objs h2 !! 4096 = Some (ORaw 8) /\
    count r2 = count example_ledger.
Proof.
  destruct (recording_alloc_free_roundtrip example_ledger example_ledger_heap 24 12288
              (768, 1024) example_ledger_sound)
    as (r1 & h1 & r2 & h2 & E1 & E2 & _ & Hm & _ & Hq & _ & _ & _ & Hcnt).
  - discriminate.
  - vm_compute. reflexivity.
  - right. split; discriminate.
  - unfold growth_answer_ok. cbn [fst snd].
    split; [right; right; vm_compute; reflexivity |].
    split; [right; right; vm_compute; reflexivity | right; discriminate].
  - exists r1, h1, r2, h2. split; [exact E1 |]. split; [exact E2 |].
    split; [exact Hm |]. split.
    + rewrite Hq by discriminate. reflexivity.
    + apply Hcnt. split; [lia |]. split; [intros j Hj; lia |].
      right. exists 16. split; [reflexivity | discriminate].
Defined.

Lemma assert_slots_free_spec (sz : list Z) :
  forall (n i : nat),
  (i + n <= length sz)%nat ->
  (assert_slots_free sz i n = Ret tt /\
   forall j, (i <= j < i + n)%nat -> sz !! j = Some 0) \/
  (assert_slots_free sz i n = Abort /\
   exists j x, (i <= j < i + n)%nat /\ sz !! j = Some x /\ x <> 0).
Proof.
  induction n as [| n IH]; intros i Hlen.
  - left. split; [reflexivity | intros j Hj; lia].
  - destruct (array_load_lt sz i ltac:(lia)) as (x & Hx & Hl).
    cbn [assert_slots_free]. rewrite Hl. cbn [mbind outcome_bind].
    destruct (Z.eqb_spec x 0) as [-> | Hnz]; cbn [assert mbind outcome_bind].
    + destruct (IH (S i) ltac:(lia)) as [[E Hall] | [E (j & y & Hj & Hy & Hnz)]].
      * left. split; [exact E |]. intros j Hj.
        destruct (decide (j = i)) as [-> | Hne]; [exact Hx | apply Hall; lia].
      * right. split; [exact E |]. exists j, y. split; [lia | done].
    + right. split; [reflexivity |]. exists i, x. split; [lia | done].
Qed.

(** X14: [recording_assert_all_freed] on a well-formed ledger returns when
    every slot below [count] has recorded size 0 and aborts otherwise; it
    never reads outside the arrays.  It judges by the recorded sizes, not by
    the pointers. *)
Theorem recording_assert_all_freed_spec (r : RecordingAllocator) :
  ledger_wf r ->
  (recording_assert_all_freed r = Ret tt <->
     forall j, (j < count r)%nat -> allocation_sizes r !! j = Some 0) /\
  (recording_assert_all_freed r = Abort <->
     exists j x, (j < count r)%nat /\ allocation_sizes r !! j = Some x /\ x <> 0).
Proof.
  intros (Hc & _ & Hls & _). unfold recording_assert_all_freed.
  destruct (assert_slots_free_spec (allocation_sizes r) (count r) O ltac:(lia))
    as [[E Hall] | [E (j & x & Hj & Hx & Hnz)]]; rewrite E.
  - split; split; try done.
    + intros _ j Hj. apply Hall. lia.
    + intros (j & x & Hj & Hx & Hnz). rewrite Hall in Hx by lia. congruence.
  - split; split; try done.
    + intros Hall. rewrite Hall in Hx by lia. congruence.
    + intros _. exists j, x. split; [lia | done].
Qed.

Lemma recording_assert_all_freed_spec_witness :
  recording_assert_all_freed example_ledger = Abort.
Proof.
  apply (recording_assert_all_freed_spec example_ledger).
  - unfold ledger_wf. cbn. repeat split; (lia || discriminate).
  - exists 0%nat, 8. split; [cbn; lia |]. split; [reflexivity | discriminate].
Defined.

(** X15: leaks are detected by their size.  After a granted
    [recording_alloc] of a nonzero size on a well-formed ledger (the call
    returns: the heap has also granted the ledger its arrays where it had to
    grow), [recording_assert_all_freed] aborts; after a granted allocation of
    size 0 on a ledger whose entries all have size 0, it returns: a live
    allocation of size 0 is not reported. *)
Theorem recording_leak_detected
    (r r1 : RecordingAllocator) (h h1 : Heap) (size : Z) (m p : ptr) (g : ptr * ptr) :
  ledger_wf r -> m <> NULL ->
  recording_alloc r h size m g = Ret (p, r1, h1) ->
  p = m /\ tracked r1 m /\
  (size <> 0 -> recording_assert_all_freed r1 = Abort) /\
  (size = 0 ->
   (forall j, (j < count r)%nat -> allocation_sizes r !! j = Some 0) ->
   recording_assert_all_freed r1 = Ret tt).
Proof.
  intros Hwf Hm E.
  unfold recording_alloc in E. rewrite (eqb_NULL_false _ Hm) in E.
  apply grow_record_inv in E as (rg & hg & r1' & Eg & Er & [= -> -> _]).
  destruct (record_entry_lookup r rg r1' _ hg g m size Hwf Eg Er)
    as (Hwf1 & Hcnt1 & Hal1 & Hsz1 & Hkeep & _).
  split; [reflexivity |].
  split; [exists (count r); split; [lia | exact Hal1] |].
  pose proof Hwf1 as (Hc1 & _ & Hls1 & _).
  unfold recording_assert_all_freed.
  destruct (assert_slots_free_spec (allocation_sizes r1') (count r1') O ltac:(lia))
    as [[Ea Hall] | [Ea (j & x & Hj & Hx & Hnz)]]; rewrite Ea.
  - split; [| done]. intros Hsize. rewrite Hall in Hsz1 by lia. congruence.
  - split; [done |]. intros -> Hzero. exfalso.
    destruct (decide (j = count r)) as [-> | Hne]; [congruence |].
    destruct (Hkeep j ltac:(lia)) as [_ Hk]. rewrite Hk, Hzero in Hx by lia. congruence.
Qed.

Lemma recording_leak_detected_witness :
  recording_assert_all_freed
    (returned (NULL, empty_ledger, empty_heap)
       (recording_alloc empty_ledger empty_heap 0 4096 (256, 512))).1.2 = Ret tt.
Proof.
  destruct (recording_leak_detected empty_ledger
              (returned (NULL, empty_ledger, empty_heap)
                 (recording_alloc empty_ledger empty_heap 0 4096 (256, 512))).1.2
              empty_heap
              (returned (NULL, empty_ledger, empty_heap)
                 (recording_alloc empty_ledger empty_heap 0 4096 (256, 512))).2
              0 4096 4096 (256, 512))
    as (_ & _ & _ & Hzero);
    [ unfold ledger_wf; cbn; repeat split; (lia || discriminate) | discriminate
    | vm_compute; reflexivity | ].
  apply Hzero; [reflexivity |]. intros j Hj. cbn in Hj. lia.
Defined.
(** * Base64 *)

Lemma forallb_seqZ (f : Z -> bool) (n : Z) :
  forallb f (seqZ 0 n) = true -> forall z, 0 <= z < n -> f z = true.
Proof.
  intros H z Hz. rewrite forallb_forall in H. apply H.
  apply list_elem_of_In. apply elem_of_seqZ. lia.
Qed.

Lemma forallb_table (f : Z -> outcome Z) (g : Z -> Z) (n : Z) :
  forallb (fun t => match f t with Ret c => c =? g t | _ => false end) (seqZ 0 n) = true ->
  forall t, 0 <= t < n -> f t = Ret (g t).
Proof.
  intros H t Ht. pose proof (forallb_seqZ _ _ H t Ht) as Hc. cbv beta in Hc.
  destruct (f t); try discriminate. apply Z.eqb_eq in Hc. by subst.
Qed.

(** The three tables of the encoder are the alphabet, indexed by the high
    six bits of the byte (table 0) and by the low six bits of the index
    (tables 1 and 2). *)
Lemma table0_alphabet (t : Z) :
  0 <= t < 256 -> table_load base64_encode_table0 t = Ret (alphabet_char (t / 4)).
Proof.
  apply (forallb_table (table_load base64_encode_table0) (fun t => alphabet_char (t / 4)) 256).
  vm_compute. reflexivity.
Qed.

Lemma table1_alphabet (i : Z) :
  0 <= i < 256 -> table_load base64_encode_table1 i = Ret (alphabet_char (i mod 64)).
Proof.
  apply (forallb_table (table_load base64_encode_table1) (fun t => alphabet_char (t mod 64)) 256).
  vm_compute. reflexivity.
Qed.

Lemma table2_alphabet (i : Z) :
  0 <= i < 256 -> table_load base64_encode_table2 i = Ret (alphabet_char (i mod 64)).
Proof.
  apply (forallb_table (table_load base64_encode_table2) (fun t => alphabet_char (t mod 64)) 256).
  vm_compute. reflexivity.
Qed.

Lemma decode_alphabet (v : Z) :
  0 <= v < 64 -> decode_load (alphabet_char v) = Ret v.
Proof.
  apply (forallb_table (fun v => decode_load (alphabet_char v)) (fun v => v) 64).
  vm_compute. reflexivity.
Qed.

Lemma forallb2_seqZ (f : Z -> Z -> bool) (n m : Z) :
  forallb (fun a => forallb (f a) (seqZ 0 m)) (seqZ 0 n) = true ->
  forall a b, 0 <= a < n -> 0 <= b < m -> f a b = true.
Proof.
  intros H a b Ha Hb.
  pose proof (forallb_seqZ _ _ H a Ha) as H1. cbv beta in H1.
  exact (forallb_seqZ _ _ H1 b Hb).
Qed.

Lemma forallb3_seqZ (f : Z -> Z -> Z -> bool) (n m k : Z) :
  forallb (fun a => forallb (fun b => forallb (f a b) (seqZ 0 k)) (seqZ 0 m)) (seqZ 0 n) = true ->
  forall a b c, 0 <= a < n -> 0 <= b < m -> 0 <= c < k -> f a b c = true.
Proof.
  intros H a b c Ha Hb Hc.
  pose proof (forallb2_seqZ _ _ _ H a b Ha Hb) as H1. cbv beta in H1.
  exact (forallb_seqZ _ _ H1 c Hc).
Qed.

(** The indices the encoder computes with masks and shifts, arithmetically
    (checked over all the values of the bytes involved). *)
Lemma index1_arith (t1 t2 : Z) :
  0 <= t1 < 256 -> 0 <= t2 < 256 ->
  Z.lor (Z.shiftl (Z.land t1 3) 4) (Z.land (Z.shiftr t2 4) 15) = t1 mod 4 * 16 + t2 / 16.
Proof.
  intros H1 H2. rewrite (Z.shiftr_div_pow2 t2 4) by lia. change (2 ^ 4) with 16.
  assert (Hh : 0 <= t2 / 16 < 16).
  { split; [apply Z.div_pos; lia | apply Z.div_lt_upper_bound; lia]. }
  generalize dependent (t2 / 16). intros h Hh.
  apply Z.eqb_eq.
  apply (forallb2_seqZ
           (fun t1 h => Z.lor (Z.shiftl (Z.land t1 3) 4) (Z.land h 15) =? t1 mod 4 * 16 + h)
           256 16); [vm_compute; reflexivity | lia | lia].
Qed.

Lemma index2_arith (t2 t3 : Z) :
  0 <= t2 < 256 -> 0 <= t3 < 256 ->
  Z.lor (Z.shiftl (Z.land t2 15) 2) (Z.land (Z.shiftr t3 6) 3) = t2 mod 16 * 4 + t3 / 64.
Proof.
  intros H2 H3. rewrite (Z.shiftr_div_pow2 t3 6) by lia. change (2 ^ 6) with 64.
  assert (Hh : 0 <= t3 / 64 < 4).
  { split; [apply Z.div_pos; lia | apply Z.div_lt_upper_bound; lia]. }
  generalize dependent (t3 / 64). intros h Hh.
  apply Z.eqb_eq.
  apply (forallb2_seqZ
           (fun t2 h => Z.lor (Z.shiftl (Z.land t2 15) 2) (Z.land h 3) =? t2 mod 16 * 4 + h)
           256 4); [vm_compute; reflexivity | lia | lia].
Qed.

Lemma tail1_arith (t1 : Z) :
  0 <= t1 < 256 -> Z.shiftl (Z.land t1 3) 4 = t1 mod 4 * 16.
Proof.
  intros H1. apply Z.eqb_eq.
  apply (forallb_seqZ (fun t1 => Z.shiftl (Z.land t1 3) 4 =? t1 mod 4 * 16) 256);
    [vm_compute; reflexivity | lia].
Qed.

Lemma tail2_arith (t2 : Z) :
  0 <= t2 < 256 -> Z.shiftl (Z.land t2 15) 2 = t2 mod 16 * 4.
Proof.
  intros H2. apply Z.eqb_eq.
  apply (forallb_seqZ (fun t2 => Z.shiftl (Z.land t2 15) 2 =? t2 mod 16 * 4) 256);
    [vm_compute; reflexivity | lia].
Qed.

Lemma sextet_ranges (t1 t2 t3 : Z) :
  0 <= t1 < 256 -> 0 <= t2 < 256 -> 0 <= t3 < 256 ->
  0 <= t1 / 4 < 64 /\ 0 <= t1 mod 4 * 16 + t2 / 16 < 64 /\
  0 <= t2 mod 16 * 4 + t3 / 64 < 64 /\ 0 <= t3 mod 64 < 64 /\
  0 <= t1 mod 4 * 16 < 64 /\ 0 <= t2 mod 16 * 4 < 64.
Proof.
  intros H1 H2 H3.
  pose proof (Z.mod_pos_bound t1 4 ltac:(lia)).
  pose proof (Z.mod_pos_bound t2 16 ltac:(lia)).
  pose proof (Z.mod_pos_bound t3 64 ltac:(lia)).
  assert (0 <= t1 / 4 < 64) by (split; [apply Z.div_pos | apply Z.div_lt_upper_bound]; lia).
  assert (0 <= t2 / 16 < 16) by (split; [apply Z.div_pos | apply Z.div_lt_upper_bound]; lia).
  assert (0 <= t3 / 64 < 4) by (split; [apply Z.div_pos | apply Z.div_lt_upper_bound]; lia).
  lia.
Qed.

Lemma store_out_ok (dst_length : Z) (out : list Z) (b : Z) :
  Z.of_nat (length out) < dst_length -> store_out dst_length out b = Ret (out ++ [b]).
Proof.
  intros H. unfold store_out.
  destruct (Z.ltb_spec (Z.of_nat (length out)) dst_length); [reflexivity | lia].
Qed.

Lemma store_out_full (dst_length : Z) (out : list Z) (b : Z) :
  dst_length <= Z.of_nat (length out) -> store_out dst_length out b = Undef.
Proof.
  intros H. unfold store_out.
  destruct (Z.ltb_spec (Z.of_nat (length out)) dst_length); [lia | reflexivity].
Qed.

(** One [*d++ = b]: either it fits, or the run is undefined from here. *)
Ltac store_step :=
  match goal with
  | |- context [store_out ?D ?o ?b] =>
      destruct (Z.ltb_spec (Z.of_nat (length o)) D);
      [rewrite (store_out_ok D o b) by assumption
      |rewrite (store_out_full D o b) by assumption];
      cbn [mbind outcome_bind]
  end.

Ltac fits :=
  rewrite ?length_app in *; cbn [length base64_chars] in *;
  match goal with
  | |- _ = (if ?a <=? ?b then _ else _) =>
      destruct (Z.leb_spec a b); first [reflexivity | lia | idtac]
  end.

Ltac fit_cases :=
  repeat match goal with
         | |- context [?a <=? ?b] => destruct (Z.leb_spec a b)
         end;
  cbn [mbind outcome_bind]; try reflexivity; try lia.

Lemma encode_group_chars (dst_length : Z) (d : list Z) (t1 t2 t3 : Z) :
  0 <= t1 < 256 -> 0 <= t2 < 256 -> 0 <= t3 < 256 ->
  encode_group dst_length d t1 t2 t3 =
    if Z.of_nat (length d) + 4 <=? dst_length
    then Ret (d ++ [alphabet_char (t1 / 4); alphabet_char (t1 mod 4 * 16 + t2 / 16);
                    alphabet_char (t2 mod 16 * 4 + t3 / 64); alphabet_char (t3 mod 64)])
    else Undef.
Proof.
  intros H1 H2 H3. unfold encode_group.
  destruct (sextet_ranges t1 t2 t3 H1 H2 H3) as (R1 & R2 & R3 & R4 & _).
  rewrite (table0_alphabet t1 H1). cbn [mbind outcome_bind].
  store_step; [| fits].
  rewrite (index1_arith t1 t2 H1 H2).
  rewrite (table1_alphabet (t1 mod 4 * 16 + t2 / 16)) by lia. cbn [mbind outcome_bind].
  store_step; [| fits].
  rewrite (index2_arith t2 t3 H2 H3).
  rewrite (table1_alphabet (t2 mod 16 * 4 + t3 / 64)) by lia. cbn [mbind outcome_bind].
  store_step; [| fits].
  rewrite (table2_alphabet t3 H3). cbn [mbind outcome_bind].
  store_step; [| fits].
  rewrite (Z.mod_small (t1 mod 4 * 16 + t2 / 16) 64) by lia.
  rewrite (Z.mod_small (t2 mod 16 * 4 + t3 / 64) 64) by lia.
  fits. by rewrite <- !app_assoc.
Qed.

(** Reading the source buffer at an offset from a known prefix. *)
Lemma buf_load_app (pre l : list Z) (z b : Z) :
  0 <= z -> l !! Z.to_nat z = Some b ->
  buf_load (pre ++ l) (Z.of_nat (length pre) + z) = Ret b.
Proof.
  intros Hz Hl. unfold buf_load.
  destruct (Z.ltb_spec (Z.of_nat (length pre) + z) 0) as [? | _]; [lia |].
  replace (Z.to_nat (Z.of_nat (length pre) + z)) with (length pre + Z.to_nat z)%nat by lia.
  rewrite lookup_app_r by lia.
  replace (length pre + Z.to_nat z - length pre)%nat with (Z.to_nat z) by lia.
  by rewrite Hl.
Qed.

Lemma buf_load_app0 (pre l : list Z) (b : Z) :
  l !! 0%nat = Some b -> buf_load (pre ++ l) (Z.of_nat (length pre)) = Ret b.
Proof.
  intros Hl. rewrite <- (Z.add_0_r (Z.of_nat (length pre))). by apply buf_load_app.
Qed.

Lemma buf_load_past (l : list Z) (i : Z) :
  Z.of_nat (length l) <= i -> buf_load l i = Undef.
Proof.
  intros Hi. unfold buf_load. destruct (i <? 0); [reflexivity |].
  rewrite lookup_ge_None_2 by lia. reflexivity.
Qed.

Lemma tail_chars1 (dst_length : Z) (d : list Z) (t1 : Z) :
  0 <= t1 < 256 ->
  (c0 ← table_load base64_encode_table0 t1;
   d ← store_out dst_length d c0;
   c1 ← table_load base64_encode_table1 (Z.shiftl (Z.land t1 3) 4);
   store_out dst_length d c1)
  = if Z.of_nat (length d) + 2 <=? dst_length then Ret (d ++ base64_chars [t1]) else Undef.
Proof.
  intros H1. destruct (sextet_ranges t1 0 0 H1 ltac:(lia) ltac:(lia)) as (_ & _ & _ & _ & R & _).
  rewrite (table0_alphabet t1 H1). cbn [mbind outcome_bind].
  store_step; [| fits].
  rewrite (tail1_arith t1 H1), (table1_alphabet (t1 mod 4 * 16)) by lia.
  cbn [mbind outcome_bind].
  store_step; [| fits].
  rewrite (Z.mod_small (t1 mod 4 * 16) 64) by lia.
  fits. by rewrite <- !app_assoc.
Qed.

Lemma tail_chars2 (dst_length : Z) (d : list Z) (t1 t2 : Z) :
  0 <= t1 < 256 -> 0 <= t2 < 256 ->
  (c0 ← table_load base64_encode_table0 t1;
   d ← store_out dst_length d c0;
   c1 ← table_load base64_encode_table1
          (Z.lor (Z.shiftl (Z.land t1 3) 4) (Z.land (Z.shiftr t2 4) 15));
   d ← store_out dst_length d c1;
   c2 ← table_load base64_encode_table2 (Z.shiftl (Z.land t2 15) 2);
   store_out dst_length d c2)
  = if Z.of_nat (length d) + 3 <=? dst_length
    then Ret (d ++ base64_chars [t1; t2]) else Undef.
Proof.
  intros H1 H2.
  destruct (sextet_ranges t1 t2 0 H1 H2 ltac:(lia)) as (_ & R2 & _ & _ & _ & R).
  rewrite (table0_alphabet t1 H1). cbn [mbind outcome_bind].
  store_step; [| fits].
  rewrite (index1_arith t1 t2 H1 H2), (table1_alphabet (t1 mod 4 * 16 + t2 / 16)) by lia.
  cbn [mbind outcome_bind].
  store_step; [| fits].
  rewrite (tail2_arith t2 H2), (table2_alphabet (t2 mod 16 * 4)) by lia.
  cbn [mbind outcome_bind].
  store_step; [| fits].
  rewrite (Z.mod_small (t1 mod 4 * 16 + t2 / 16) 64) by lia.
  rewrite (Z.mod_small (t2 mod 16 * 4) 64) by lia.
  fits. by rewrite <- !app_assoc.
Qed.

Lemma buf_load_wrap (pre l : list Z) (z b : Z) :
  0 <= z -> Z.of_nat (length pre) + z < SIZE_MOD -> l !! Z.to_nat z = Some b ->
  buf_load (pre ++ l) (wrap (Z.of_nat (length pre) + z)) = Ret b.
Proof.
  intros Hz Hr Hl. rewrite wrap_small by lia. by apply buf_load_app.
Qed.

Lemma is_bytes_cons (b : Z) (l : list Z) :
  is_bytes (b :: l) <-> 0 <= b < 256 /\ is_bytes l.
Proof. exact (Forall_cons (fun b => 0 <= b < 256) b l). Qed.

(** The switch on the last zero, one or two bytes. *)
Lemma encode_switch_chars (dst_length : Z) (pre l d : list Z) (len : Z) :
  is_bytes l -> (length l <= 2)%nat ->
  len = Z.of_nat (length pre) + Z.of_nat (length l) -> len < SIZE_MOD ->
  Z.of_nat (length d) <= dst_length \/ l <> [] ->
  encode_switch dst_length (pre ++ l) len (Z.of_nat (length pre)) d
    = if Z.of_nat (length d) + Z.of_nat (length (base64_chars l)) <=? dst_length
      then Ret (d ++ base64_chars l) else Undef.
Proof.
  intros Hb Hl -> Hlen Hd. unfold encode_switch.
  replace (Z.of_nat (length pre) + Z.of_nat (length l) - Z.of_nat (length pre))
    with (Z.of_nat (length l)) by lia.
  destruct l as [| t1 [| t2 [| t3 l]]]; cbn [length] in *; [| | | lia].
  - rewrite wrap_small by (unfold SIZE_MOD; lia). change (Z.of_nat 0 =? 0) with true.
    cbv iota. destruct Hd as [Hd | Hd]; [| done]. fits. by rewrite app_nil_r.
  - apply is_bytes_cons in Hb as [H1 _].
    rewrite wrap_small by lia. change (Z.of_nat 1 =? 0) with false.
    change (Z.of_nat 1 =? 1) with true. cbv iota.
    rewrite (buf_load_app0 pre [t1] t1 eq_refl). cbn [mbind outcome_bind].
    rewrite (tail_chars1 dst_length d t1 H1). reflexivity.
  - apply is_bytes_cons in Hb as [H1 Hb]. apply is_bytes_cons in Hb as [H2 _].
    rewrite wrap_small by lia. change (Z.of_nat 2 =? 0) with false.
    change (Z.of_nat 2 =? 1) with false. cbv iota.
    rewrite (buf_load_app0 pre [t1; t2] t1 eq_refl). cbn [mbind outcome_bind].
    rewrite (buf_load_wrap pre [t1; t2] 1 t2) by (try reflexivity; lia).
    cbn [mbind outcome_bind]. rewrite (tail_chars2 dst_length d t1 t2 H1 H2). reflexivity.
Qed.

(** What follows the loop, on the last five bytes or fewer (of at least two
    in all). *)
Lemma encode_tail_chars (dst_length : Z) (pre l d : list Z) (len : Z) :
  is_bytes l -> (length l <= 5)%nat ->
  len = Z.of_nat (length pre) + Z.of_nat (length l) -> 2 <= len < SIZE_MOD - 8 ->
  Z.of_nat (length d) <= dst_length \/ l <> [] ->
  encode_tail dst_length (pre ++ l) len (Z.of_nat (length pre)) d
    = if Z.of_nat (length d) + Z.of_nat (length (base64_chars l)) <=? dst_length
      then Ret (d ++ base64_chars l) else Undef.
Proof.
  intros Hb Hl Hlen Hrange Hd. unfold encode_tail.
  rewrite (wrap_small (len - 2)) by lia.
  destruct (le_lt_dec (length l) 2) as [Hshort | Hlong].
  - destruct (Z.ltb_spec (Z.of_nat (length pre)) (len - 2)) as [? | _]; [lia |].
    cbn [mbind outcome_bind]. apply encode_switch_chars; try done. lia.
  - destruct (Z.ltb_spec (Z.of_nat (length pre)) (len - 2)) as [_ | ?]; [| lia].
    destruct l as [| t1 [| t2 [| t3 l]]]; cbn [length] in *; try lia.
    apply is_bytes_cons in Hb as [H1 Hb]. apply is_bytes_cons in Hb as [H2 Hb].
    apply is_bytes_cons in Hb as [H3 Hb].
    rewrite (buf_load_app0 pre (t1 :: t2 :: t3 :: l) t1 eq_refl). cbn [mbind outcome_bind].
    rewrite (buf_load_wrap pre (t1 :: t2 :: t3 :: l) 1 t2) by (try reflexivity; lia).
    cbn [mbind outcome_bind].
    rewrite (buf_load_wrap pre (t1 :: t2 :: t3 :: l) 2 t3) by (try reflexivity; lia).
    cbn [mbind outcome_bind].
    rewrite (encode_group_chars dst_length d t1 t2 t3 H1 H2 H3).
    destruct (Z.leb_spec (Z.of_nat (length d) + 4) dst_length) as [Hfit | Hno];
      cbn [mbind outcome_bind]; [| fits].
    rewrite (wrap_small (Z.of_nat (length pre) + 3)) by lia.
    replace (pre ++ t1 :: t2 :: t3 :: l) with ((pre ++ [t1; t2; t3]) ++ l)
      by (by rewrite <- app_assoc).
    replace (Z.of_nat (length pre) + 3) with (Z.of_nat (length (pre ++ [t1; t2; t3])))
      by (rewrite length_app; cbn; lia).
    rewrite encode_switch_chars; try done.
    + cbn [base64_chars]. rewrite <- (app_assoc d). cbn [app].
      rewrite !length_app. cbn [length].
      fit_cases.
    + lia.
    + rewrite length_app. cbn [length]. lia.
    + lia.
    + left. rewrite length_app. cbn [length]. lia.
Qed.

Lemma base64_chars_app (n : nat) :
  forall l1 l2, length l1 = (3 * n)%nat ->
  base64_chars (l1 ++ l2) = base64_chars l1 ++ base64_chars l2.
Proof.
  induction n as [| n IH]; intros l1 l2 Hlen.
  - destruct l1; [reflexivity | cbn in Hlen; lia].
  - destruct l1 as [| t1 [| t2 [| t3 l1]]]; cbn [length] in Hlen; try lia.
    cbn [app base64_chars]. rewrite IH by lia. reflexivity.
Qed.

(** The loop takes the six-byte groups of the source in order, and leaves
    fewer than six bytes; it is undefined when their chars do not fit. *)
Lemma encode_loop_chars (dst_length len : Z) (fuel : nat) :
  forall (l pre : list Z),
  is_bytes l ->
  len = Z.of_nat (length pre) + Z.of_nat (length l) -> 5 < len < SIZE_MOD - 8 ->
  (length l <= 6 * fuel + 5)%nat ->
  exists l1 l2 k,
    l = l1 ++ l2 /\ (length l2 <= 5)%nat /\ length l1 = (3 * k)%nat /\
    forall d, Z.of_nat (length d) <= dst_length \/ (6 <= length l)%nat ->
    encode_loop fuel dst_length (pre ++ l) len (Z.of_nat (length pre)) d
      = if Z.of_nat (length d) + Z.of_nat (length (base64_chars l1)) <=? dst_length
        then Ret (Z.of_nat (length pre) + Z.of_nat (length l1), d ++ base64_chars l1)
        else Undef.
Proof.
  induction fuel as [| fuel IH]; intros l pre Hb Hlen Hrange Hfuel.
  - exists [], l, O. split; [reflexivity |]. split; [lia |]. split; [reflexivity |].
    intros d [Hd | Hd]; [| lia].
    cbn [encode_loop]. rewrite (wrap_small (len - 5)) by lia.
    destruct (Z.ltb_spec (Z.of_nat (length pre)) (len - 5)) as [? | _]; [lia |].
    fits. by rewrite Z.add_0_r, app_nil_r.
  - destruct (le_lt_dec (length l) 5) as [Hshort | Hlong].
    + exists [], l, O. split; [reflexivity |]. split; [lia |]. split; [reflexivity |].
      intros d [Hd | Hd]; [| lia].
      cbn [encode_loop]. rewrite (wrap_small (len - 5)) by lia.
      destruct (Z.ltb_spec (Z.of_nat (length pre)) (len - 5)) as [? | _]; [lia |].
      fits. by rewrite Z.add_0_r, app_nil_r.
    + destruct l as [| t1 [| t2 [| t3 [| t4 [| t5 [| t6 l]]]]]]; cbn [length] in *; try lia.
      apply is_bytes_cons in Hb as [H1 Hb]. apply is_bytes_cons in Hb as [H2 Hb].
      apply is_bytes_cons in Hb as [H3 Hb]. apply is_bytes_cons in Hb as [H4 Hb].
      apply is_bytes_cons in Hb as [H5 Hb]. apply is_bytes_cons in Hb as [H6 Hb].
      set (g := [t1; t2; t3; t4; t5; t6]).
      destruct (IH l (pre ++ g) Hb) as (l1 & l2 & k & El & Hl2 & Hl1 & E).
      { rewrite length_app. cbn [g length]. lia. }
      { exact Hrange. }
      { lia. }
      exists (g ++ l1), l2, (2 + k)%nat.
      split; [subst l; reflexivity |]. split; [exact Hl2 |].
      split; [rewrite length_app; cbn [g length]; lia |].
      intros d Hd.
      rewrite (base64_chars_app 2 g l1 eq_refl).
      cbn [encode_loop]. rewrite (wrap_small (len - 5)) by lia.
      destruct (Z.ltb_spec (Z.of_nat (length pre)) (len - 5)) as [_ | ?]; [| lia].
      set (str := t1 :: t2 :: t3 :: t4 :: t5 :: t6 :: l).
      rewrite (buf_load_app0 pre str t1 eq_refl). cbn [mbind outcome_bind].
      rewrite (buf_load_wrap pre str 1 t2) by (try reflexivity; lia). cbn [mbind outcome_bind].
      rewrite (buf_load_wrap pre str 2 t3) by (try reflexivity; lia). cbn [mbind outcome_bind].
      rewrite (buf_load_wrap pre str 3 t4) by (try reflexivity; lia). cbn [mbind outcome_bind].
      rewrite (buf_load_wrap pre str 4 t5) by (try reflexivity; lia). cbn [mbind outcome_bind].
      rewrite (buf_load_wrap pre str 5 t6) by (try reflexivity; lia). cbn [mbind outcome_bind].
      rewrite (encode_group_chars dst_length d t1 t2 t3 H1 H2 H3).
      destruct (Z.leb_spec (Z.of_nat (length d) + 4) dst_length) as [Hfit1 | Hno];
        cbn [mbind outcome_bind]; [| subst g; fits].
      rewrite (encode_group_chars dst_length _ t4 t5 t6 H4 H5 H6).
      rewrite length_app. cbn [length].
      destruct (Z.leb_spec (Z.of_nat (length d + 4) + 4) dst_length) as [Hfit2 | Hno];
        cbn [mbind outcome_bind]; [| subst g; fits].
      rewrite (wrap_small (Z.of_nat (length pre) + 6)) by lia.
      replace (pre ++ str) with ((pre ++ g) ++ l) by (by rewrite <- app_assoc).
      replace (Z.of_nat (length pre) + 6) with (Z.of_nat (length (pre ++ g)))
        by (rewrite length_app; cbn [g length]; lia).
      rewrite <- (app_assoc d). cbn [app].
      subst g. cbn [base64_chars app] in E |- *. rewrite E.
      * rewrite !length_app. cbn [length]. rewrite <- (app_assoc d). cbn [app].
        fit_cases. do 2 f_equal. lia.
      * left. rewrite length_app. cbn [length]. lia.
Qed.

Lemma encode_size_arith (n : Z) :
  0 <= n < 2 ^ 62 -> base64_encode_size n = (4 * n + 2) / 3.
Proof.
  intros Hn. unfold base64_encode_size.
  rewrite (wrap_small (n * 4)) by (unfold SIZE_MOD; lia).
  assert (E : n * 4 / 3 + (if n * 4 mod 3 =? 0 then 0 else 1) = (4 * n + 2) / 3).
  { destruct (Z.eqb_spec (n * 4 mod 3) 0); Z.div_mod_to_equations; lia. }
  rewrite E. apply wrap_small. unfold SIZE_MOD. Z.div_mod_to_equations. lia.
Qed.

Lemma decode_size_arith (n : Z) :
  0 <= n < 2 ^ 62 -> base64_decode_size n = (3 * n + 3) / 4.
Proof.
  intros Hn. unfold base64_decode_size.
  rewrite (wrap_small (n * 3)) by (unfold SIZE_MOD; lia).
  assert (E : n * 3 / 4 + (if n * 3 mod 4 =? 0 then 0 else 1) = (3 * n + 3) / 4).
  { destruct (Z.eqb_spec (n * 3 mod 4) 0); Z.div_mod_to_equations; lia. }
  rewrite E. apply wrap_small. unfold SIZE_MOD. Z.div_mod_to_equations. lia.
Qed.

Lemma base64_chars_length (k : nat) :
  forall l, (length l <= 3 * k)%nat ->
  Z.of_nat (length (base64_chars l)) = (4 * Z.of_nat (length l) + 2) / 3.
Proof.
  induction k as [| k IH]; intros l Hl.
  - destruct l; [reflexivity | cbn in Hl; lia].
  - destruct l as [| t1 [| t2 [| t3 l]]]; try reflexivity.
    cbn [base64_chars length] in *. specialize (IH l ltac:(lia)).
    Z.div_mod_to_equations. lia.
Qed.

Lemma alphabet_char_valid (v : Z) : 0 <= v < 64 -> is_base64_char (alphabet_char v).
Proof. intros Hv. exists v. split; [by apply decode_alphabet | exact Hv]. Qed.

Lemma base64_chars_valid (k : nat) :
  forall l, (length l <= 3 * k)%nat -> is_bytes l -> Forall is_base64_char (base64_chars l).
Proof.
  induction k as [| k IH]; intros l Hl Hb.
  - destruct l; [constructor | cbn in Hl; lia].
  - destruct l as [| t1 [| t2 [| t3 l]]]; cbn [base64_chars length] in *.
    + constructor.
    + apply is_bytes_cons in Hb as [H1 _].
      destruct (sextet_ranges t1 0 0 H1 ltac:(lia) ltac:(lia)) as (R1 & _ & _ & _ & R5 & _).
      repeat constructor; by apply alphabet_char_valid.
    + apply is_bytes_cons in Hb as [H1 Hb]. apply is_bytes_cons in Hb as [H2 _].
      destruct (sextet_ranges t1 t2 0 H1 H2 ltac:(lia)) as (R1 & R2 & _ & _ & _ & R6).
      repeat constructor; by apply alphabet_char_valid.
    + apply is_bytes_cons in Hb as [H1 Hb]. apply is_bytes_cons in Hb as [H2 Hb].
      apply is_bytes_cons in Hb as [H3 Hb].
      destruct (sextet_ranges t1 t2 t3 H1 H2 H3) as (R1 & R2 & R3 & R4 & _).
      repeat (constructor; [by apply alphabet_char_valid |]).
      apply IH; [lia | exact Hb].
Qed.

Lemma base64_encode_run (dst_length : Z) (src : list Z) :
  is_bytes src ->
  2 <= Z.of_nat (length src) < 2 ^ 62 ->
  base64_encode dst_length src (Z.of_nat (length src))
    = if base64_encode_size (Z.of_nat (length src)) <=? dst_length
      then Ret (base64_encode_size (Z.of_nat (length src)), base64_chars src)
      else Undef.
Proof.
  intros Hb Hlen. unfold base64_encode.
  set (len := Z.of_nat (length src)) in *.
  assert (Hr : len < SIZE_MOD - 8) by (unfold SIZE_MOD; lia).
  assert (Hsize : base64_encode_size len = Z.of_nat (length (base64_chars src))).
  { rewrite (base64_chars_length (length src) src) by lia. fold len.
    by rewrite encode_size_arith by lia. }
  assert (Hw : wrap (Z.of_nat (length (base64_chars src))) = base64_encode_size len).
  { rewrite <- Hsize, encode_size_arith by lia. apply wrap_small.
    unfold SIZE_MOD. Z.div_mod_to_equations. lia. }
  destruct (Z.gtb_spec len 5) as [G | L].
  - destruct (encode_loop_chars dst_length len (Z.to_nat len) src [] Hb)
      as (l1 & l2 & k & El & Hl2 & Hl1 & E); [cbn; lia | lia | lia |].
    specialize (E [] ltac:(right; lia)).
    cbn [app length] in E. change (Z.of_nat 0) with 0 in E. rewrite !Z.add_0_l in E.
    rewrite E.
    assert (Hch : base64_chars src = base64_chars l1 ++ base64_chars l2)
      by (rewrite El; apply (base64_chars_app k l1 l2 Hl1)).
    assert (Hll : Z.of_nat (length (base64_chars src))
                  = Z.of_nat (length (base64_chars l1))
                    + Z.of_nat (length (base64_chars l2)))
      by (rewrite Hch, length_app; lia).
    destruct (Z.leb_spec (Z.of_nat (length (base64_chars l1))) dst_length) as [Hfit | Hno];
      cbn [mbind outcome_bind]; [| fit_cases].
    assert (Et := encode_tail_chars dst_length l1 l2 (base64_chars l1) len).
    rewrite <- El in Et. rewrite Et.
    + fit_cases. by rewrite <- Hch, Hw.
    + subst src. unfold is_bytes in *. by apply Forall_app in Hb as [_ ?].
    + exact Hl2.
    + subst len. rewrite El, length_app. lia.
    + lia.
    + left. exact Hfit.
  - cbn [mbind outcome_bind].
    assert (Hne : src <> []) by (intros Hs; unfold len in Hlen; rewrite Hs in Hlen; cbn in Hlen; lia).
    pose proof (encode_tail_chars dst_length [] src [] len Hb ltac:(lia) ltac:(cbn; lia)
                  ltac:(lia) (or_intror Hne)) as E.
    cbn [app length] in E. change (Z.of_nat 0) with 0 in E. rewrite Z.add_0_l in E.
    rewrite E. fit_cases. by rewrite Hw.
Qed.

(** X16: [base64_encode] on a buffer of at least two bytes (below [2^62]),
    into a destination of [dst_length] chars.  When the destination holds
    [base64_encode_size(src_length)] chars, the function returns that number,
    which is the number of chars it wrote, and what it wrote is the unpadded
    base64 text of the bytes: four chars of the alphabet for each three
    bytes, three for a rest of two and two for a rest of one; a destination
    of exactly [base64_encode_size(src_length)] chars is filled exactly.
    When the destination is shorter, the function, which never looks at
    [dst_length], writes past its end: the call is undefined. *)
Theorem base64_encode_chars (dst_length : Z) (src : list Z) :
  is_bytes src ->
  2 <= Z.of_nat (length src) < 2 ^ 62 ->
  (base64_encode_size (Z.of_nat (length src)) <= dst_length ->
   base64_encode dst_length src (Z.of_nat (length src))
     = Ret (base64_encode_size (Z.of_nat (length src)), base64_chars src)) /\
  (dst_length < base64_encode_size (Z.of_nat (length src)) ->
   base64_encode dst_length src (Z.of_nat (length src)) = Undef) /\
  Z.of_nat (length (base64_chars src)) = base64_encode_size (Z.of_nat (length src)) /\
  base64_encode_size (Z.of_nat (length src)) = (4 * Z.of_nat (length src) + 2) / 3 /\
  Forall is_base64_char (base64_chars src).
Proof.
  intros Hb Hlen. rewrite (base64_encode_run dst_length src Hb Hlen).
  split; [| split].
  - intros Hfit. by destruct (Z.leb_spec (base64_encode_size (Z.of_nat (length src)))
                                dst_length); [| lia].
  - intros Hno. by destruct (Z.leb_spec (base64_encode_size (Z.of_nat (length src)))
                               dst_length); [lia |].
  - rewrite encode_size_arith by lia. split; [| split; [reflexivity |]].
    + apply (base64_chars_length (length src)). lia.
    + apply (base64_chars_valid (length src)); [lia | exact Hb].
Qed.

Lemma base64_encode_chars_witness :
  base64_encode 4 [77; 97; 110] 3 = Ret (4, [84; 87; 70; 117]) /\
  base64_encode 3 [77; 97; 110] 3 = Undef.
Proof.
  split.
  - refine (proj1 (base64_encode_chars 4 [77; 97; 110] _ _) _).
    + repeat constructor; lia.
    + cbn. lia.
    + vm_compute. discriminate.
  - refine (proj1 (proj2 (base64_encode_chars 3 [77; 97; 110] _ _)) _).
    + repeat constructor; lia.
    + cbn. lia.
    + vm_compute. reflexivity.
Defined.

(** X17: [base64_encode] on fewer than two bytes.  [len - 2] is computed in
    [size_t] and wraps, so the test [i < len - 2] succeeds and the group of
    three is read: for an empty buffer [str[0]], for a buffer of one byte
    [str[1]], both outside the [src_length] bytes of the source. *)
Theorem base64_encode_short_reads_past (dst_length : Z) (src : list Z) :
  (length src <= 1)%nat ->
  base64_encode dst_length src (Z.of_nat (length src)) = Undef.
Proof.
  intros Hlen. unfold base64_encode, encode_tail.
  destruct src as [| t1 [| t2 src]]; cbn [length] in *; [| | lia].
  - change (Z.of_nat 0 >? 5) with false. cbv iota. cbn [mbind outcome_bind].
    change (0 <? wrap (Z.of_nat 0 - 2)) with true. cbv iota. reflexivity.
  - change (Z.of_nat 1 >? 5) with false. cbv iota. cbn [mbind outcome_bind].
    change (0 <? wrap (Z.of_nat 1 - 2)) with true. cbv iota.
    change (buf_load [t1] 0) with (Ret (A := Z) t1). cbn [mbind outcome_bind].
    rewrite (buf_load_past [t1] (wrap (0 + 1))) by (vm_compute; discriminate).
    reflexivity.
Qed.

Lemma base64_encode_short_reads_past_witness :
  base64_encode 2 [77] 1 = Undef.
Proof. apply (base64_encode_short_reads_past 2 [77]). cbn. lia. Defined.

(** ** Decoding *)

(** The bytes the decoder assembles from the six-bit values of a group
    (checked over all the values involved). *)
Lemma decode_byte1 (t1 h : Z) :
  0 <= t1 < 256 -> 0 <= h < 16 ->
  uint8 (Z.lor (Z.shiftl (t1 / 4) 2) (Z.shiftr (t1 mod 4 * 16 + h) 4)) = t1.
Proof.
  intros H1 Hh. apply Z.eqb_eq.
  apply (forallb2_seqZ
           (fun t1 h => uint8 (Z.lor (Z.shiftl (t1 / 4) 2) (Z.shiftr (t1 mod 4 * 16 + h) 4)) =? t1)
           256 16); [vm_compute; reflexivity | lia | lia].
Qed.

Lemma decode_byte2 (a t2 c : Z) :
  0 <= a < 4 -> 0 <= t2 < 256 -> 0 <= c < 4 ->
  uint8 (Z.lor (Z.shiftl (a * 16 + t2 / 16) 4) (Z.shiftr (t2 mod 16 * 4 + c) 2)) = t2.
Proof.
  intros Ha H2 Hc. apply Z.eqb_eq.
  apply (forallb3_seqZ
           (fun a t2 c =>
              uint8 (Z.lor (Z.shiftl (a * 16 + t2 / 16) 4) (Z.shiftr (t2 mod 16 * 4 + c) 2)) =? t2)
           4 256 4); [vm_compute; reflexivity | lia | lia | lia].
Qed.

Lemma decode_byte3 (b t3 : Z) :
  0 <= b < 16 -> 0 <= t3 < 256 ->
  uint8 (Z.lor (Z.shiftl (b * 4 + t3 / 64) 6) (t3 mod 64)) = t3.
Proof.
  intros Hb H3. apply Z.eqb_eq.
  apply (forallb2_seqZ
           (fun b t3 => uint8 (Z.lor (Z.shiftl (b * 4 + t3 / 64) 6) (t3 mod 64)) =? t3)
           16 256); [vm_compute; reflexivity | lia | lia].
Qed.

Lemma remainder_low4 (a h : Z) :
  0 <= a < 4 -> 0 <= h < 16 -> Z.land (a * 16 + h) 15 = h.
Proof.
  intros Ha Hh. apply Z.eqb_eq.
  apply (forallb2_seqZ (fun a h => Z.land (a * 16 + h) 15 =? h) 4 16);
    [vm_compute; reflexivity | lia | lia].
Qed.

Lemma remainder_low2 (b c : Z) :
  0 <= b < 16 -> 0 <= c < 4 -> Z.land (b * 4 + c) 3 = c.
Proof.
  intros Hb Hc. apply Z.eqb_eq.
  apply (forallb2_seqZ (fun b c => Z.land (b * 4 + c) 3 =? c) 16 4);
    [vm_compute; reflexivity | lia | lia].
Qed.

Lemma decode_byte2_tail (h t2 : Z) :
  0 <= t2 < 256 -> h = t2 / 16 ->
  uint8 (Z.lor (Z.shiftl h 4) (Z.shiftr (t2 mod 16 * 4) 2)) = t2.
Proof.
  intros H2 ->. apply Z.eqb_eq.
  apply (forallb_seqZ
           (fun t2 => uint8 (Z.lor (Z.shiftl (t2 / 16) 4) (Z.shiftr (t2 mod 16 * 4) 2)) =? t2)
           256); [vm_compute; reflexivity | lia].
Qed.

Lemma decode_byte1_tail (t1 : Z) :
  0 <= t1 < 256 ->
  uint8 (Z.lor (Z.shiftl (t1 / 4) 2) (Z.shiftr (t1 mod 4 * 16) 4)) = t1.
Proof.
  intros H1. pose proof (decode_byte1 t1 0 H1 ltac:(lia)) as E.
  by rewrite Z.add_0_r in E.
Qed.

Lemma remainder_low4_tail (a : Z) : 0 <= a < 4 -> Z.land (a * 16) 15 = 0.
Proof.
  intros Ha. pose proof (remainder_low4 a 0 Ha ltac:(lia)) as E.
  by rewrite Z.add_0_r in E.
Qed.

Lemma remainder_low2_tail (b : Z) : 0 <= b < 16 -> Z.land (b * 4) 3 = 0.
Proof.
  intros Hb. pose proof (remainder_low2 b 0 Hb ltac:(lia)) as E.
  by rewrite Z.add_0_r in E.
Qed.

(** The accumulated [bad] stays a six-bit value while the values are. *)
Lemma lor_sextet (x y : Z) : 0 <= x < 64 -> 0 <= y < 64 -> 0 <= Z.lor x y < 64.
Proof.
  intros Hx Hy.
  assert (H : (0 <=? Z.lor x y) && (Z.lor x y <? 64) = true).
  { apply (forallb2_seqZ (fun x y => (0 <=? Z.lor x y) && (Z.lor x y <? 64)) 64 64);
      [vm_compute; reflexivity | lia | lia]. }
  apply andb_true_iff in H as [A B]. apply Z.leb_le in A. apply Z.ltb_lt in B. lia.
Qed.

Lemma sextet_not_bad (x : Z) : 0 <= x < 64 -> Z.land x 192 = 0.
Proof.
  intros Hx. apply Z.eqb_eq.
  apply (forallb_seqZ (fun x => Z.land x 192 =? 0) 64); [vm_compute; reflexivity | lia].
Qed.

(** The main loop of the decoder on the text of whole groups of three
    bytes. *)
Lemma decode_loop_chars (dst_length : Z) (k : nat) :
  forall (fuel : nat) (l pre post out : list Z) (bad : Z),
  is_bytes l -> length l = (3 * k)%nat -> (length post <= 3)%nat ->
  0 <= bad < 64 ->
  Z.of_nat (length out) + Z.of_nat (length l) <= dst_length ->
  Z.of_nat (length (base64_chars l)) + Z.of_nat (length post) < SIZE_MOD ->
  (k <= fuel)%nat ->
  exists bad',
    0 <= bad' < 64 /\
    decode_loop fuel dst_length (pre ++ base64_chars l ++ post) (Z.of_nat (length pre))
        (Z.of_nat (length (base64_chars l)) + Z.of_nat (length post)) bad out
      = Ret (Z.of_nat (length pre) + Z.of_nat (length (base64_chars l)),
             Z.of_nat (length post), bad', out ++ l).
Proof.
  induction k as [| k IH]; intros fuel l pre post out bad Hb Hl Hpost Hbad Hdst Hsz Hfuel.
  - destruct l; [| cbn in Hl; lia]. exists bad. split; [exact Hbad |].
    cbn [base64_chars length app]. rewrite Z.add_0_l, Z.add_0_r, app_nil_r.
    destruct fuel; cbn [decode_loop];
      (destruct (Z.gtb_spec (Z.of_nat (length post)) 3) as [? | _]; [lia | reflexivity]).
  - destruct l as [| t1 [| t2 [| t3 l]]]; cbn [length] in Hl; try lia.
    destruct fuel as [| fuel]; [lia |].
    apply is_bytes_cons in Hb as [H1 Hb]. apply is_bytes_cons in Hb as [H2 Hb].
    apply is_bytes_cons in Hb as [H3 Hb].
    destruct (sextet_ranges t1 t2 t3 H1 H2 H3) as (R1 & R2 & R3 & R4 & _).
    cbn [base64_chars] in *. cbn [length] in Hsz, Hdst.
    set (c1 := alphabet_char (t1 / 4)) in *.
    set (c2 := alphabet_char (t1 mod 4 * 16 + t2 / 16)) in *.
    set (c3 := alphabet_char (t2 mod 16 * 4 + t3 / 64)) in *.
    set (c4 := alphabet_char (t3 mod 64)) in *.
    set (bad1 := Z.lor (Z.lor (Z.lor (Z.lor bad (t1 / 4)) (t1 mod 4 * 16 + t2 / 16))
                         (t2 mod 16 * 4 + t3 / 64)) (t3 mod 64)).
    assert (Hbad1 : 0 <= bad1 < 64) by (subst bad1; repeat apply lor_sextet; assumption).
    destruct (IH fuel l (pre ++ [c1; c2; c3; c4]) post (out ++ [t1; t2; t3]) bad1 Hb)
      as (bad' & Hbad' & E); try lia.
    { rewrite length_app. cbn [length]. lia. }
    exists bad'. split; [exact Hbad' |].
    cbn [decode_loop length].
    destruct (Z.gtb_spec (Z.of_nat (S (S (S (S (length (base64_chars l))))))
                          + Z.of_nat (length post)) 3) as [_ | ?]; [| lia].
    set (str := (c1 :: c2 :: c3 :: c4 :: base64_chars l) ++ post).
    rewrite (buf_load_app0 pre str c1 eq_refl). cbn [mbind outcome_bind].
    unfold c1 at 1. rewrite (decode_alphabet _ R1). cbn [mbind outcome_bind].
    rewrite (buf_load_app pre str 1 c2) by (try reflexivity; lia). cbn [mbind outcome_bind].
    unfold c2 at 1. rewrite (decode_alphabet _ R2). cbn [mbind outcome_bind].
    rewrite (buf_load_app pre str 2 c3) by (try reflexivity; lia). cbn [mbind outcome_bind].
    unfold c3 at 1. rewrite (decode_alphabet _ R3). cbn [mbind outcome_bind].
    rewrite (buf_load_app pre str 3 c4) by (try reflexivity; lia). cbn [mbind outcome_bind].
    unfold c4 at 1. rewrite (decode_alphabet _ R4). cbn [mbind outcome_bind].
    fold bad1.
    assert (D1 : 0 <= t2 / 16 < 16)
      by (split; [apply Z.div_pos | apply Z.div_lt_upper_bound]; lia).
    assert (D2 : 0 <= t3 / 64 < 4)
      by (split; [apply Z.div_pos | apply Z.div_lt_upper_bound]; lia).
    pose proof (Z.mod_pos_bound t1 4 ltac:(lia)) as M1.
    pose proof (Z.mod_pos_bound t2 16 ltac:(lia)) as M2.
    rewrite (decode_byte1 t1 (t2 / 16) H1 D1).
    rewrite (decode_byte2 (t1 mod 4) t2 (t3 / 64) M1 H2 D2).
    rewrite (decode_byte3 (t2 mod 16) t3 M2 H3).
    rewrite store_out_ok by lia. cbn [mbind outcome_bind].
    rewrite store_out_ok by (rewrite length_app; cbn [length]; lia). cbn [mbind outcome_bind].
    rewrite store_out_ok by (rewrite !length_app; cbn [length]; lia). cbn [mbind outcome_bind].
    rewrite <- !(app_assoc out). cbn [app].
    rewrite wrap_small by lia.
    replace (pre ++ str) with ((pre ++ [c1; c2; c3; c4]) ++ base64_chars l ++ post)
      by (subst str; rewrite <- app_assoc; reflexivity).
    replace (Z.of_nat (length pre) + 4) with (Z.of_nat (length (pre ++ [c1; c2; c3; c4])))
      by (rewrite length_app; cbn [length]; lia).
    replace (Z.of_nat (S (S (S (S (length (base64_chars l)))))) + Z.of_nat (length post) - 4)
      with (Z.of_nat (length (base64_chars l)) + Z.of_nat (length post)) by lia.
    rewrite E. rewrite length_app. cbn [length]. rewrite <- (app_assoc out). cbn [app].
    do 4 f_equal. lia.
Qed.

(** The cleanup loop of the decoder on the text of a rest of zero, one or
    two bytes: the bytes are written and no bits remain. *)
Lemma decode_cleanup_chars (dst_length : Z) (l pre out : list Z) (bad : Z) :
  is_bytes l -> (length l <= 2)%nat -> 0 <= bad < 64 ->
  Z.of_nat (length out) + Z.of_nat (length l) <= dst_length ->
  exists bad' bits,
    0 <= bad' < 64 /\
    (bits = 0 <-> l = []) /\
    decode_cleanup (length (base64_chars l)) dst_length (pre ++ base64_chars l)
        (Z.of_nat (length pre)) (Z.of_nat (length (base64_chars l))) bad 0 0 out
      = Ret (bad', bits, 0, out ++ l).
Proof.
  intros Hb Hl Hbad Hdst.
  destruct l as [| t1 [| t2 [| t3 l]]]; cbn [length] in *; [| | | lia].
  - exists bad, 0. split; [exact Hbad |]. split; [done |].
    cbn. by rewrite app_nil_r.
  - apply is_bytes_cons in Hb as [H1 _].
    destruct (sextet_ranges t1 0 0 H1 ltac:(lia) ltac:(lia)) as (R1 & _ & _ & _ & R5 & _).
    pose proof (Z.mod_pos_bound t1 4 ltac:(lia)) as M1.
    cbn [base64_chars length].
    set (c1 := alphabet_char (t1 / 4)). set (c2 := alphabet_char (t1 mod 4 * 16)).
    exists (Z.lor (Z.lor bad (t1 / 4)) (t1 mod 4 * 16)), 4.
    split; [by repeat apply lor_sextet |]. split; [split; [lia | discriminate] |].
    cbn [decode_cleanup]. change (Z.of_nat 2 =? 0) with false. cbv iota.
    rewrite (buf_load_app0 pre [c1; c2] c1 eq_refl). cbn [mbind outcome_bind].
    rewrite (decode_alphabet _ R1 : decode_load c1 = Ret _). cbn [mbind outcome_bind].
    change (0 =? 0) with true. cbv iota. cbn [mbind outcome_bind].
    change (wrap (Z.of_nat 2 - 1) =? 0) with false. cbv iota.
    rewrite (buf_load_app pre [c1; c2] 1 c2) by (try reflexivity; lia).
    cbn [mbind outcome_bind].
    rewrite (decode_alphabet _ R5 : decode_load c2 = Ret _). cbn [mbind outcome_bind].
    change (6 =? 0) with false. change (6 =? 2) with false. change (6 =? 4) with false.
    change (6 =? 6) with true. cbv iota.
    rewrite (decode_byte1_tail t1 H1), (remainder_low4_tail (t1 mod 4) M1).
    rewrite store_out_ok by lia. cbn [mbind outcome_bind].
    change (wrap (wrap (Z.of_nat 2 - 1) - 1) =? 0) with true. cbv iota.
    reflexivity.
  - apply is_bytes_cons in Hb as [H1 Hb]. apply is_bytes_cons in Hb as [H2 _].
    destruct (sextet_ranges t1 t2 0 H1 H2 ltac:(lia)) as (R1 & R2 & _ & _ & _ & R6).
    pose proof (Z.mod_pos_bound t1 4 ltac:(lia)) as M1.
    pose proof (Z.mod_pos_bound t2 16 ltac:(lia)) as M2.
    assert (D1 : 0 <= t2 / 16 < 16)
      by (split; [apply Z.div_pos | apply Z.div_lt_upper_bound]; lia).
    cbn [base64_chars length].
    set (c1 := alphabet_char (t1 / 4)).
    set (c2 := alphabet_char (t1 mod 4 * 16 + t2 / 16)).
    set (c3 := alphabet_char (t2 mod 16 * 4)).
    exists (Z.lor (Z.lor (Z.lor bad (t1 / 4)) (t1 mod 4 * 16 + t2 / 16)) (t2 mod 16 * 4)), 2.
    split; [by repeat apply lor_sextet |]. split; [split; [lia | discriminate] |].
    cbn [decode_cleanup]. change (Z.of_nat 3 =? 0) with false. cbv iota.
    rewrite (buf_load_app0 pre [c1; c2; c3] c1 eq_refl). cbn [mbind outcome_bind].
    rewrite (decode_alphabet _ R1 : decode_load c1 = Ret _). cbn [mbind outcome_bind].
    change (0 =? 0) with true. cbv iota. cbn [mbind outcome_bind].
    change (wrap (Z.of_nat 3 - 1) =? 0) with false. cbv iota.
    rewrite (buf_load_app pre [c1; c2; c3] 1 c2) by (try reflexivity; lia).
    cbn [mbind outcome_bind].
    rewrite (decode_alphabet _ R2 : decode_load c2 = Ret _). cbn [mbind outcome_bind].
    change (6 =? 0) with false. change (6 =? 2) with false. change (6 =? 4) with false.
    change (6 =? 6) with true. cbv iota.
    rewrite (decode_byte1 t1 (t2 / 16) H1 D1), (remainder_low4 (t1 mod 4) (t2 / 16) M1 D1).
    rewrite store_out_ok by lia. cbn [mbind outcome_bind].
    change (wrap (wrap (Z.of_nat 3 - 1) - 1) =? 0) with false. cbv iota.
    replace (Z.of_nat (length pre) + 1 + 1) with (Z.of_nat (length pre) + 2) by lia.
    rewrite (buf_load_app pre [c1; c2; c3] 2 c3) by (try reflexivity; lia).
    cbn [mbind outcome_bind].
    rewrite (decode_alphabet _ R6 : decode_load c3 = Ret _). cbn [mbind outcome_bind].
    change (4 =? 0) with false. change (4 =? 2) with false. change (4 =? 4) with true.
    cbv iota.
    rewrite (decode_byte2_tail (t2 / 16) t2 H2 eq_refl).
    rewrite (remainder_low2_tail (t2 mod 16) M2).
    rewrite store_out_ok by (rewrite length_app; cbn [length]; lia).
    cbn [mbind outcome_bind].
    change (wrap (wrap (wrap (Z.of_nat 3 - 1) - 1) - 1) =? 0) with true. cbv iota.
    rewrite <- (app_assoc out). reflexivity.
Qed.

Lemma split_by_three (l : list Z) :
  exists (k : nat) (l1 l2 : list Z),
    l = l1 ++ l2 /\ length l1 = (3 * k)%nat /\ (length l2 <= 2)%nat.
Proof.
  exists (length l / 3)%nat, (take (3 * (length l / 3)) l), (drop (3 * (length l / 3)) l).
  pose proof (Nat.div_mod_eq (length l) 3) as E.
  pose proof (Nat.mod_upper_bound (length l) 3 ltac:(lia)) as B.
  split; [by rewrite take_drop |]. split.
  - rewrite length_take. lia.
  - rewrite length_drop. lia.
Qed.

Lemma base64_decode_run (src : list Z) :
  is_bytes src ->
  Z.of_nat (length src) < 2 ^ 60 ->
  base64_decode (Z.of_nat (length src)) (base64_chars src)
      (Z.of_nat (length (base64_chars src)))
    = Ret (BASE64_NO_ERROR, src).
Proof.
  intros Hb Hlen.
  destruct (split_by_three src) as (k & l1 & l2 & El & Hl1 & Hl2).
  assert (Hb1 : is_bytes l1) by (subst src; unfold is_bytes in *; by apply Forall_app in Hb as [? _]).
  assert (Hb2 : is_bytes l2) by (subst src; unfold is_bytes in *; by apply Forall_app in Hb as [_ ?]).
  pose proof (base64_chars_length (length src) src ltac:(lia)) as Hn.
  pose proof (base64_chars_length (length l1) l1 ltac:(lia)) as Hn1.
  pose proof (base64_chars_length (length l2) l2 ltac:(lia)) as Hn2.
  assert (Ech : base64_chars src = base64_chars l1 ++ base64_chars l2).
  { rewrite El. by apply (base64_chars_app k). }
  assert (Hsrc : Z.of_nat (length src) = Z.of_nat (length l1) + Z.of_nat (length l2)).
  { rewrite El, length_app. lia. }
  set (n := Z.of_nat (length (base64_chars src))) in *.
  assert (Hn' : n = Z.of_nat (length (base64_chars l1)) + Z.of_nat (length (base64_chars l2))).
  { subst n. rewrite Ech, length_app. lia. }
  assert (Hnr : 0 <= n < 2 ^ 62) by (rewrite Hn; Z.div_mod_to_equations; lia).
  unfold base64_decode. rewrite decode_size_arith by exact Hnr.
  destruct (Z.eqb_spec ((3 * n + 3) / 4) 0) as [Z0 | NZ].
  { assert (n = 0) by (Z.div_mod_to_equations; lia).
    assert (length src = 0%nat) by (Z.div_mod_to_equations; lia).
    destruct src; [reflexivity | discriminate]. }
  rewrite (wrap_small (Z.of_nat (length src) + 1)) by (unfold SIZE_MOD; lia).
  destruct (Z.ltb_spec (Z.of_nat (length src) + 1) ((3 * n + 3) / 4)) as [L | _].
  { exfalso. rewrite Hn in L. Z.div_mod_to_equations. lia. }
  destruct (decode_loop_chars (Z.of_nat (length src)) k (Z.to_nat n) l1 []
              (base64_chars l2) [] 0 Hb1 Hl1) as (bad1 & Hbad1 & E1).
  { apply Nat2Z.inj_le. rewrite Hn2. Z.div_mod_to_equations. lia. }
  { lia. }
  { cbn [length]. lia. }
  { unfold SIZE_MOD. lia. }
  { rewrite Hn', Hn1. Z.div_mod_to_equations. lia. }
  cbn [app length] in E1. change (Z.of_nat 0) with 0 in E1. rewrite Z.add_0_l in E1.
  rewrite Ech. rewrite Hn' in E1 |- *. rewrite E1. cbn [mbind outcome_bind].
  destruct (decode_cleanup_chars (Z.of_nat (length src)) l2 (base64_chars l1) l1 bad1
              Hb2 Hl2 Hbad1 ltac:(lia)) as (bad2 & bits & Hbad2 & Hbits & E2).
  rewrite Nat2Z.id, E2. cbn [mbind outcome_bind].
  rewrite <- El, <- Hn'.
  destruct (Z.eqb_spec ((3 * n + 3) / 4) (Z.of_nat (length src))) as [Eq | Ne].
  - assert (Hl20 : l2 = []).
    { destruct l2 as [| ? [| ? [| ? ?]]]; cbn [length base64_chars] in *; [done | | | lia];
        exfalso; rewrite Hn in Eq; Z.div_mod_to_equations; lia. }
    apply Hbits in Hl20. subst bits. change (0 =? 0) with true. cbv iota.
    cbn [mbind outcome_bind]. rewrite (sextet_not_bad bad2 Hbad2). reflexivity.
  - change (0 =? 0) with true. cbn [negb]. cbv iota. cbn [mbind outcome_bind].
    rewrite (sextet_not_bad bad2 Hbad2). reflexivity.
Qed.

(** X18: the round trip.  For a buffer of at least two bytes (below
    [2^60]), what [base64_encode] writes is decoded by [base64_decode], into
    a destination of the original length, to the original bytes with
    [BASE64_NO_ERROR]: every write stays inside the destination, although the
    destination is one byte shorter than [base64_decode_size] when the
    length is not a multiple of three. *)
Theorem base64_roundtrip (dst_length : Z) (src chars : list Z) (n : Z) :
  is_bytes src ->
  2 <= Z.of_nat (length src) < 2 ^ 60 ->
  base64_encode dst_length src (Z.of_nat (length src)) = Ret (n, chars) ->
  base64_decode (Z.of_nat (length src)) chars n = Ret (BASE64_NO_ERROR, src) /\
  Z.of_nat (length src) <= base64_decode_size n <= Z.of_nat (length src) + 1.
Proof.
  intros Hb Hlen E.
  rewrite (base64_encode_run dst_length src Hb ltac:(lia)) in E.
  destruct (Z.leb_spec (base64_encode_size (Z.of_nat (length src))) dst_length);
    [| discriminate].
  injection E as <- <-.
  pose proof (base64_chars_length (length src) src ltac:(lia)) as Hn.
  rewrite encode_size_arith by lia. split.
  - rewrite <- Hn. apply base64_decode_run; [exact Hb | lia].
  - rewrite decode_size_arith by (Z.div_mod_to_equations; lia).
    Z.div_mod_to_equations. lia.
Qed.

Lemma base64_roundtrip_witness :
  base64_decode 3 [84; 87; 70; 117] 4 = Ret (BASE64_NO_ERROR, [77; 97; 110]).
Proof.
  refine (proj1 (base64_roundtrip 4 [77; 97; 110] [84; 87; 70; 117] 4 _ _ _)).
  - repeat constructor; lia.
  - cbn. lia.
  - vm_compute. reflexivity.
Defined.

Lemma decode_load_byte (c : Z) :
  0 <= c < 256 ->
  exists v, decode_load c = Ret v /\ 0 <= v < 256 /\ (Z.land v 192 = 0 -> v < 64).
Proof.
  intros Hc.
  assert (H : forallb (fun c => match decode_load c with
                                | Ret v => (0 <=? v) && (v <? 256)
                                           && (negb (Z.land v 192 =? 0) || (v <? 64))
                                | _ => false
                                end) (seqZ 0 256) = true) by (vm_compute; reflexivity).
  pose proof (forallb_seqZ _ _ H c Hc) as Hv. cbv beta in Hv.
  destruct (decode_load c) as [v | | |]; try discriminate.
  exists v. split; [reflexivity |].
  apply andb_true_iff in Hv as [Hv1 Hv2]. apply andb_true_iff in Hv1 as [A B].
  apply Z.leb_le in A. apply Z.ltb_lt in B. split; [lia |].
  intros Hz. rewrite Hz in Hv2. cbn in Hv2. by apply Z.ltb_lt in Hv2.
Qed.

(** The main loop of the decoder writes three bytes for each four chars:
    with room for one byte less, the last write is past the end. *)
Lemma decode_loop_overflow (dst_length : Z) (j : nat) :
  forall (fuel : nat) (l pre out : list Z) (bad : Z),
  is_bytes l -> length l = (4 * S j)%nat ->
  Z.of_nat (length out) + 3 * Z.of_nat (S j) = dst_length + 1 ->
  Z.of_nat (length l) < SIZE_MOD ->
  (S j <= fuel)%nat ->
  decode_loop fuel dst_length (pre ++ l) (Z.of_nat (length pre)) (Z.of_nat (length l)) bad out
    = Undef.
Proof.
  induction j as [| j IH]; intros fuel l pre out bad Hb Hl Hout Hsz Hfuel.
  all: destruct fuel as [| fuel]; [lia |].
  all: destruct l as [| c1 [| c2 [| c3 [| c4 l]]]]; cbn [length] in Hl; try lia.
  all: apply is_bytes_cons in Hb as [H1 Hb]; apply is_bytes_cons in Hb as [H2 Hb].
  all: apply is_bytes_cons in Hb as [H3 Hb]; apply is_bytes_cons in Hb as [H4 Hb].
  all: destruct (decode_load_byte c1 H1) as (v1 & E1 & _).
  all: destruct (decode_load_byte c2 H2) as (v2 & E2 & _).
  all: destruct (decode_load_byte c3 H3) as (v3 & E3 & _).
  all: destruct (decode_load_byte c4 H4) as (v4 & E4 & _).
  all: cbn [decode_loop].
  all: destruct (Z.gtb_spec (Z.of_nat (length (c1 :: c2 :: c3 :: c4 :: l))) 3) as [_ | G];
         [| cbn [length] in G; lia].
  all: set (str := c1 :: c2 :: c3 :: c4 :: l).
  all: rewrite (buf_load_app0 pre str c1 eq_refl); cbn [mbind outcome_bind].
  all: rewrite E1; cbn [mbind outcome_bind].
  all: rewrite (buf_load_app pre str 1 c2) by (try reflexivity; lia); cbn [mbind outcome_bind].
  all: rewrite E2; cbn [mbind outcome_bind].
  all: rewrite (buf_load_app pre str 2 c3) by (try reflexivity; lia); cbn [mbind outcome_bind].
  all: rewrite E3; cbn [mbind outcome_bind].
  all: rewrite (buf_load_app pre str 3 c4) by (try reflexivity; lia); cbn [mbind outcome_bind].
  all: rewrite E4; cbn [mbind outcome_bind].
  all: rewrite store_out_ok by lia; cbn [mbind outcome_bind].
  all: rewrite store_out_ok by (rewrite length_app; cbn [length]; lia); cbn [mbind outcome_bind].
  - rewrite store_out_full by (rewrite !length_app; cbn [length]; lia). reflexivity.
  - rewrite store_out_ok by (rewrite !length_app; cbn [length]; lia). cbn [mbind outcome_bind].
    subst str. cbn [length] in Hsz |- *. rewrite wrap_small by lia.
    replace (pre ++ c1 :: c2 :: c3 :: c4 :: l) with ((pre ++ [c1; c2; c3; c4]) ++ l)
      by (by rewrite <- app_assoc).
    replace (Z.of_nat (length pre) + 4) with (Z.of_nat (length (pre ++ [c1; c2; c3; c4])))
      by (rewrite length_app; cbn [length]; lia).
    replace (Z.of_nat (S (S (S (S (length l))))) - 4) with (Z.of_nat (length l)) by lia.
    apply IH; try done; try lia.
    rewrite !length_app. cbn [length]. lia.
Qed.

(** X19: the one byte the decoder allows the destination to be short.  For a
    text whose length is a nonzero multiple of four (below [2^60]) and a
    destination of [base64_decode_size(src_length) - 1] bytes, the size test
    passes and the main loop, which writes three bytes for each four chars,
    writes one byte past the end of the destination, whatever the chars
    are. *)
Theorem base64_decode_writes_past (src : list Z) (k : nat) :
  is_bytes src ->
  length src = (4 * S k)%nat -> Z.of_nat (length src) < 2 ^ 60 ->
  base64_decode_size (Z.of_nat (length src)) = 3 * Z.of_nat (S k) /\
  base64_decode (base64_decode_size (Z.of_nat (length src)) - 1) src (Z.of_nat (length src))
    = Undef.
Proof.
  intros Hb Hl Hlen.
  assert (Hsize : base64_decode_size (Z.of_nat (length src)) = 3 * Z.of_nat (S k)).
  { rewrite decode_size_arith by lia. rewrite Hl. Z.div_mod_to_equations. lia. }
  split; [exact Hsize |].
  unfold base64_decode. rewrite Hsize.
  destruct (Z.eqb_spec (3 * Z.of_nat (S k)) 0) as [? | _]; [lia |].
  replace (3 * Z.of_nat (S k) - 1 + 1) with (3 * Z.of_nat (S k)) by lia.
  rewrite wrap_small by (unfold SIZE_MOD; lia).
  rewrite Z.ltb_irrefl.
  pose proof (decode_loop_overflow (3 * Z.of_nat (S k) - 1) k
                (Z.to_nat (Z.of_nat (length src))) src [] [] 0 Hb Hl
                ltac:(cbn [length]; lia) ltac:(unfold SIZE_MOD; lia) ltac:(lia)) as E.
  cbn [app length] in E. change (Z.of_nat 0) with 0 in E. rewrite E. reflexivity.
Qed.

Lemma base64_decode_writes_past_witness :
  base64_decode 2 [84; 87; 70; 117] 4 = Undef.
Proof.
  refine (proj2 (base64_decode_writes_past [84; 87; 70; 117] 0 _ _ _)).
  - repeat constructor; lia.
  - reflexivity.
  - cbn. lia.
Defined.

(** *** Invalid chars are reported *)

Lemma decode_load_valid (c v : Z) :
  decode_load c = Ret v -> Z.land v 192 = 0 -> is_base64_char c.
Proof.
  intros E Hz.
  assert (Hc : 0 <= c < 256).
  { revert E. unfold decode_load. destruct (Z.ltb_spec c 0); [discriminate |].
    destruct (base64_decode_table !! Z.to_nat c) eqn:El; [| discriminate].
    intros _. apply lookup_lt_Some in El. change (length base64_decode_table) with 256%nat in El.
    lia. }
  destruct (decode_load_byte c Hc) as (v' & E' & Hr & Hv).
  rewrite E in E'. injection E' as <-. exists v. split; [exact E |]. split; [lia | auto].
Qed.

Lemma lor_not_bad (a b : Z) :
  Z.land (Z.lor a b) 192 = 0 -> Z.land a 192 = 0 /\ Z.land b 192 = 0.
Proof. rewrite Z.land_lor_distr_l. apply Z.lor_eq_0_iff. Qed.

Lemma decode_loop_sound (dst_length : Z) (src : list Z) (fuel : nat) :
  forall (pos len bad : Z) (out : list Z) (pos' len' bad' : Z) (out' : list Z),
  decode_loop fuel dst_length src pos len bad out = Ret (pos', len', bad', out') ->
  0 <= len < SIZE_MOD ->
  pos' + len' = pos + len /\ 0 <= len' < SIZE_MOD /\ pos <= pos' /\
  (Z.land bad' 192 = 0 ->
   Z.land bad 192 = 0 /\
   forall i, pos <= i < pos' -> exists c, buf_load src i = Ret c /\ is_base64_char c).
Proof.
  induction fuel as [| fuel IH]; intros pos len bad out pos' len' bad' out' E Hlen;
    cbn [decode_loop] in E.
  - destruct (Z.gtb_spec len 3); [discriminate |]. injection E as <- <- <- <-.
    split; [lia |]. split; [lia |]. split; [lia |]. intros Hz.
    split; [exact Hz | intros i Hi; lia].
  - destruct (Z.gtb_spec len 3) as [G | L].
    2:{ injection E as <- <- <- <-.
        split; [lia |]. split; [lia |]. split; [lia |]. intros Hz.
        split; [exact Hz | intros i Hi; lia]. }
    destruct (buf_load src pos) as [c1 | | |] eqn:B1; cbn [mbind outcome_bind] in E;
      try discriminate.
    destruct (decode_load c1) as [v1 | | |] eqn:D1; cbn [mbind outcome_bind] in E;
      try discriminate.
    destruct (buf_load src (pos + 1)) as [c2 | | |] eqn:B2; cbn [mbind outcome_bind] in E;
      try discriminate.
    destruct (decode_load c2) as [v2 | | |] eqn:D2; cbn [mbind outcome_bind] in E;
      try discriminate.
    destruct (buf_load src (pos + 2)) as [c3 | | |] eqn:B3; cbn [mbind outcome_bind] in E;
      try discriminate.
    destruct (decode_load c3) as [v3 | | |] eqn:D3; cbn [mbind outcome_bind] in E;
      try discriminate.
    destruct (buf_load src (pos + 3)) as [c4 | | |] eqn:B4; cbn [mbind outcome_bind] in E;
      try discriminate.
    destruct (decode_load c4) as [v4 | | |] eqn:D4; cbn [mbind outcome_bind] in E;
      try discriminate.
    destruct (store_out _ _ _) as [o1 | | |]; cbn [mbind outcome_bind] in E; try discriminate.
    destruct (store_out _ _ _) as [o2 | | |]; cbn [mbind outcome_bind] in E; try discriminate.
    destruct (store_out _ _ _) as [o3 | | |]; cbn [mbind outcome_bind] in E; try discriminate.
    rewrite (wrap_small (len - 4)) in E by lia.
    destruct (IH _ _ _ _ _ _ _ _ E ltac:(lia)) as (Hsum & Hl' & Hpos & Hbad).
    split; [lia |]. split; [lia |]. split; [lia |]. intros Hz.
    destruct (Hbad Hz) as [Hb Hrest].
    apply lor_not_bad in Hb as [Hb V4]. apply lor_not_bad in Hb as [Hb V3].
    apply lor_not_bad in Hb as [Hb V2]. apply lor_not_bad in Hb as [Hb V1].
    split; [exact Hb |].
    intros i Hi.
    { destruct (Z_lt_le_dec i (pos + 4)) as [Hlt | Hge]; [| apply Hrest; lia].
      assert (Hcase : i = pos \/ i = pos + 1 \/ i = pos + 2 \/ i = pos + 3) by lia.
      destruct Hcase as [-> | [-> | [-> | ->]]].
      * exists c1. split; [exact B1 | by apply (decode_load_valid c1 v1)].
      * exists c2. split; [exact B2 | by apply (decode_load_valid c2 v2)].
      * exists c3. split; [exact B3 | by apply (decode_load_valid c3 v3)].
      * exists c4. split; [exact B4 | by apply (decode_load_valid c4 v4)]. }
Qed.

Lemma decode_cleanup_sound (dst_length : Z) (src : list Z) (fuel : nat) :
  forall (pos len bad bits rem : Z) (out : list Z) (bad' bits' rem' : Z) (out' : list Z),
  decode_cleanup fuel dst_length src pos len bad bits rem out = Ret (bad', bits', rem', out') ->
  0 <= len < SIZE_MOD ->
  Z.land bad' 192 = 0 ->
  Z.land bad 192 = 0 /\
  forall i, pos <= i < pos + len -> exists c, buf_load src i = Ret c /\ is_base64_char c.
Proof.
  induction fuel as [| fuel IH]; intros pos len bad bits rem out bad' bits' rem' out' E Hlen Hz;
    cbn [decode_cleanup] in E.
  - destruct (Z.eqb_spec len 0) as [-> | ?]; [| discriminate]. injection E as <- <- <- <-.
    split; [exact Hz | intros i Hi; lia].
  - destruct (Z.eqb_spec len 0) as [-> | Hnz].
    { injection E as <- <- <- <-. split; [exact Hz | intros i Hi; lia]. }
    destruct (buf_load src pos) as [c | | |] eqn:B; cbn [mbind outcome_bind] in E;
      try discriminate.
    destruct (decode_load c) as [v | | |] eqn:D; cbn [mbind outcome_bind] in E;
      try discriminate.
    match type of E with
    | (mbind _ ?x) = _ => destruct x as [[[b1 r1] o1] | | |]
    end; cbn [mbind outcome_bind] in E; try discriminate.
    rewrite (wrap_small (len - 1)) in E by lia.
    destruct (IH _ _ _ _ _ _ _ _ _ _ E ltac:(lia) Hz) as (Hb & Hrest).
    apply lor_not_bad in Hb as [Hb V]. split; [exact Hb |].
    intros i Hi. destruct (Z.eq_dec i pos) as [-> | Hne]; [| apply Hrest; lia].
    exists c. split; [exact B | by apply (decode_load_valid c v)].
Qed.

(** X20: [base64_decode] reports invalid chars.  Whatever the destination
    size, when the call returns [BASE64_NO_ERROR] on a text (below [2^60]
    chars), every char of the text is a char of the base64 alphabet:
    with a char outside the alphabet (a pad char, for one) the result is
    never [BASE64_NO_ERROR]. *)
Theorem base64_decode_no_error_valid (dst_length : Z) (src out : list Z) :
  Z.of_nat (length src) < 2 ^ 60 ->
  base64_decode dst_length src (Z.of_nat (length src)) = Ret (BASE64_NO_ERROR, out) ->
  Forall is_base64_char src.
Proof.
  intros Hlen E. apply Forall_lookup_2. intros i x Hx.
  assert (Hi : (i < length src)%nat) by (by apply lookup_lt_Some in Hx).
  revert E. unfold base64_decode.
  set (n := Z.of_nat (length src)) in *.
  rewrite decode_size_arith by lia.
  destruct (Z.eqb_spec ((3 * n + 3) / 4) 0) as [Z0 | _].
  { exfalso. Z.div_mod_to_equations. lia. }
  destruct (_ <? _); [discriminate |].
  destruct (decode_loop _ _ _ _ _ _ _) as [[[[pos1 len1] bad1] out1] | | |] eqn:E1;
    cbn [mbind outcome_bind]; try discriminate.
  destruct (decode_loop_sound _ _ _ _ _ _ _ _ _ _ _ E1 ltac:(unfold SIZE_MOD; lia))
    as (Hsum & Hl1 & Hpos & Hbad).
  destruct (decode_cleanup _ _ _ _ _ _ _ _ _) as [[[[bad2 bits2] rem2] out2] | | |] eqn:E2;
    cbn [mbind outcome_bind]; try discriminate.
  match goal with
  | |- (mbind _ ?x) = _ -> _ => destruct x as [[stop o3] | | |]
  end; cbn [mbind outcome_bind]; try discriminate.
  destruct stop; [discriminate |].
  destruct (Z.eqb_spec (Z.land bad2 192) 0) as [Hz | _]; cbn [negb]; [| discriminate].
  intros _.
  destruct (decode_cleanup_sound _ _ _ _ _ _ _ _ _ _ _ _ _ E2 Hl1 Hz) as (Hz1 & Hrest).
  destruct (Hbad Hz1) as (_ & Hfirst).
  assert (Hv : exists c, buf_load src (Z.of_nat i) = Ret c /\ is_base64_char c).
  { destruct (Z_lt_le_dec (Z.of_nat i) pos1); [apply Hfirst | apply Hrest]; lia. }
  destruct Hv as (c & Hc & Hvalid).
  revert Hc. unfold buf_load. destruct (Z.ltb_spec (Z.of_nat i) 0); [lia |].
  rewrite Nat2Z.id, Hx. by intros [= ->].
Qed.

Lemma base64_decode_no_error_valid_witness :
  Forall is_base64_char [84; 87; 70; 117].
Proof.
  apply (base64_decode_no_error_valid 3 [84; 87; 70; 117] [77; 97; 110]).
  - cbn. lia.
  - vm_compute. reflexivity.
Defined.


(** * Placement of the allocations *)

Lemma wrap_nonzero_small (x : Z) :
  0 <= x <= SIZE_MOD -> wrap x <> NULL -> wrap x = x.
Proof.
  intros Hx Hnz. destruct (Z.eq_dec x SIZE_MOD) as [-> | Hne].
  - exfalso. apply Hnz. unfold wrap. apply Z.mod_same. unfold SIZE_MOD. lia.
  - apply wrap_small. lia.
Qed.

(** X21: consecutive small allocations do not overlap.  From an arena whose
    current block (if any) lies within the address space with its [used]
    within the buffer, two granted small allocations A then B (the heap
    returning, when asked, blocks within the address space that do not
    overlap the block current at that time) occupy disjoint address ranges,
    each inside the buffer of the block that is current after it. *)
Theorem arena_allocs_disjoint
    (asz : Z) (s s1 s2 : ArenaSt) (a b : Z) (m1 m2 A B : ptr) :
  32 <= asz < SIZE_MOD ->
  is_size a -> is_size b ->
  ArenaAllocator_round_size_up a <= BIG_ALLOC_THRESH asz ->
  ArenaAllocator_round_size_up b <= BIG_ALLOC_THRESH asz ->
  arena_inv asz s ->
  (arena (aa s) = NULL \/ block_range asz (arena (aa s))) ->
  (m1 = NULL \/ block_range asz m1) ->
  ArenaAllocator_alloc asz s a m1 = Ret (A, s1) -> A <> NULL ->
  placed_apart asz (arena (aa s1)) m2 ->
  ArenaAllocator_alloc asz s1 b m2 = Ret (B, s2) -> B <> NULL ->
  (A + ArenaAllocator_round_size_up a <= B \/ B + ArenaAllocator_round_size_up b <= A) /\
  (arena (aa s1) + offsetof_buff <= A /\
   A + ArenaAllocator_round_size_up a <= arena (aa s1) + asz) /\
  (arena (aa s2) + offsetof_buff <= B /\
   B + ArenaAllocator_round_size_up b <= arena (aa s2) + asz).
Proof.
  intros Hsz Ha Hb Hra Hrb Hinv Hcur Hm1 E1 HA Hapart E2 HB.
  pose proof (round_size_up_range a Ha) as Hra'.
  pose proof (round_size_up_range b Hb) as Hrb'.
  set (ra := ArenaAllocator_round_size_up a) in *.
  set (rb := ArenaAllocator_round_size_up b) in *.
  destruct (alloc_small_shape asz _ _ _ _ _ Hsz Ha Hra Hinv E1 HA)
    as (ar1 & prev1 & u1 & Har1 & Hs1 & HAeq & Hu1 & Hur1 & Hcase1).
  assert (Hl1 : objs (heap s1) !! ar1 = Some (OArena (mkArena prev1 (u1 + ra)))).
  { rewrite Hs1. unfold with_block. cbn [heap objs]. apply lookup_insert_eq. }
  assert (Hcur1 : arena (aa s1) = ar1) by (by rewrite Hs1).
  assert (Hr1 : block_range asz ar1).
  { destruct Hcase1 as [[-> _] | (-> & _)].
    - destruct Hcur as [? | ?]; [contradiction | done].
    - destruct Hm1 as [? | ?]; [contradiction | done]. }
  assert (Hinv1 : arena_inv asz s1).
  { right. exists (mkArena prev1 (u1 + ra)). rewrite Hcur1. split; [exact Hl1 |].
    cbn [arena_used]. lia. }
  destruct (alloc_small_shape asz _ _ _ _ _ Hsz Hb Hrb Hinv1 E2 HB)
    as (ar2 & prev2 & u2 & Har2 & Hs2 & HBeq & Hu2 & Hur2 & Hcase2).
  assert (Hcur2 : arena (aa s2) = ar2) by (by rewrite Hs2).
  rewrite Hcur1, Hcur2. rewrite Hcur1 in Hcase2, Hapart.
  unfold block_range, ARENA_BUFFER_SIZE, offsetof_buff in *.
  destruct Hr1 as [Hr1a Hr1b].
  assert (EA : A = ar1 + 16 + u1).
  { rewrite HAeq in HA |- *. unfold buff, offsetof_buff in *. rewrite wrap_add_l in HA |- *.
    apply wrap_nonzero_small; [lia | exact HA]. }
  destruct Hcase2 as [[-> Hl] | (-> & -> & _)].
  - rewrite Hl1 in Hl. injection Hl as _ <-.
    assert (EB : B = ar1 + 16 + (u1 + ra)).
    { rewrite HBeq in HB |- *. unfold buff, offsetof_buff in *. rewrite wrap_add_l in HB |- *.
      apply wrap_nonzero_small; [lia | exact HB]. }
    lia.
  - destruct Hapart as [-> | (_ & [Hr2a Hr2b] & Hdis)]; [contradiction |].
    assert (EB : B = m2 + 16 + 0).
    { rewrite HBeq in HB |- *. unfold buff, offsetof_buff in *. rewrite wrap_add_l in HB |- *.
      apply wrap_nonzero_small; [lia | exact HB]. }
    lia.
Qed.

Lemma arena_allocs_disjoint_witness :
  after_A.1 + ArenaAllocator_round_size_up 100 <= after_B.1 \/
  after_B.1 + ArenaAllocator_round_size_up 50 <= after_A.1.
Proof.
  refine (proj1 (arena_allocs_disjoint ARENA_SIZE arena0 after_A.2 after_B.2 100 50
                   1048576 NULL after_A.1 after_B.1 _ _ _ _ _ _ _ _ _ _ _ _ _)).
  - unfold SIZE_MOD, ARENA_SIZE, ARENA_PAGE_SIZE. lia.
  - unfold is_size, SIZE_MOD. lia.
  - unfold is_size, SIZE_MOD. lia.
  - vm_compute. discriminate.
  - vm_compute. discriminate.
  - left. reflexivity.
  - left. reflexivity.
  - right. unfold block_range, SIZE_MOD, ARENA_SIZE, ARENA_PAGE_SIZE. lia.
  - vm_compute. reflexivity.
  - vm_compute. discriminate.
  - left. reflexivity.
  - vm_compute. reflexivity.
  - vm_compute. discriminate.
Defined.



(** * String views *)

Lemma last_rev_head (l : list Z) : last (rev l) = head l.
Proof. destruct l as [| c l]; [reflexivity |]. cbn [rev head]. apply last_snoc. Qed.

Lemma head_rev_last (l : list Z) : head (rev l) = last l.
Proof. rewrite <- (rev_involutive l) at 2. symmetry. apply last_rev_head. Qed.

Lemma skip_spaces_head (l : list Z) : head (skip_spaces l) <> Some 32.
Proof.
  induction l as [| c l IH]; [discriminate |].
  cbn [skip_spaces]. destruct (Z.eqb_spec c 32) as [-> | Hne]; [exact IH |].
  cbn. congruence.
Qed.

Lemma skip_spaces_id (l : list Z) : head l <> Some 32 -> skip_spaces l = l.
Proof.
  destruct l as [| c l]; [reflexivity |]. cbn. intros H.
  destruct (Z.eqb_spec c 32) as [-> | _]; [congruence | reflexivity].
Qed.

Lemma skip_spaces_split (l : list Z) :
  exists k, l = replicate k 32 ++ skip_spaces l.
Proof.
  induction l as [| c l [k IH]]; [by exists O |].
  cbn [skip_spaces]. destruct (Z.eqb_spec c 32) as [-> | _].
  - exists (S k). cbn. by rewrite <- IH.
  - by exists O.
Qed.

Lemma trim_spaces_split (l : list Z) :
  exists a b, l = replicate a 32 ++ trim_spaces l ++ replicate b 32.
Proof.
  destruct (skip_spaces_split l) as [a Ea].
  destruct (skip_spaces_split (rev (skip_spaces l))) as [b Eb].
  exists a, b. rewrite Ea at 1. f_equal. unfold trim_spaces.
  rewrite <- (rev_involutive (skip_spaces l)) at 1. rewrite Eb at 1.
  rewrite rev_app_distr. f_equal. clear. induction b as [| b IH]; [reflexivity |].
  cbn [replicate rev]. rewrite IH. clear.
  induction b as [| b IH]; [reflexivity |]. cbn. by rewrite IH.
Qed.

Lemma trim_spaces_ends (l : list Z) :
  head (trim_spaces l) <> Some 32 /\ last (trim_spaces l) <> Some 32.
Proof.
  split.
  - destruct (skip_spaces_split (rev (skip_spaces l))) as [b Eb].
    pose proof (skip_spaces_head l) as Hh. unfold trim_spaces.
    assert (E : skip_spaces l = rev (skip_spaces (rev (skip_spaces l))) ++ rev (replicate b 32)).
    { rewrite <- rev_app_distr, <- Eb. by rewrite rev_involutive. }
    destruct (rev (skip_spaces (rev (skip_spaces l)))) as [| c t]; [discriminate |].
    rewrite E in Hh. exact Hh.
  - unfold trim_spaces. rewrite last_rev_head. apply skip_spaces_head.
Qed.

Lemma trim_spaces_idem (l : list Z) : trim_spaces (trim_spaces l) = trim_spaces l.
Proof.
  destruct (trim_spaces_ends l) as [Hh Hl].
  unfold trim_spaces at 1. rewrite (skip_spaces_id _ Hh).
  rewrite skip_spaces_id; [apply rev_involutive |].
  rewrite head_rev_last. exact Hl.
Qed.

Lemma sv_chars_length (buf : list Z) (sv : StringView) :
  sv_valid buf sv -> Z.of_nat (length (sv_chars buf sv)) = sv_length sv.
Proof.
  intros (Ht & Hl & Hin & _). unfold sv_chars.
  rewrite length_take, length_drop. lia.
Qed.

Lemma sv_chars_cons (buf : list Z) (sv : StringView) :
  sv_valid buf sv -> 0 < sv_length sv ->
  exists c, buf_load buf (sv_text sv) = Ret c /\
            sv_chars buf sv = c :: sv_chars buf (mkSV (sv_length sv - 1) (sv_text sv + 1)).
Proof.
  intros (Ht & Hl & Hin & _) Hpos.
  destruct (lookup_lt_is_Some_2 buf (Z.to_nat (sv_text sv)) ltac:(lia)) as [c Hc].
  exists c. split.
  - unfold buf_load. destruct (Z.ltb_spec (sv_text sv) 0); [lia |]. by rewrite Hc.
  - unfold sv_chars. cbn [sv_length sv_text].
    rewrite (drop_S buf c _ Hc).
    replace (Z.to_nat (sv_length sv)) with (S (Z.to_nat (sv_length sv - 1))) by lia.
    cbn [take]. do 2 f_equal. f_equal. lia.
Qed.

Lemma sv_chars_snoc (buf : list Z) (sv : StringView) :
  sv_valid buf sv -> 0 < sv_length sv ->
  exists c, buf_load buf (sv_text sv + (sv_length sv - 1)) = Ret c /\
            sv_chars buf sv = sv_chars buf (mkSV (sv_length sv - 1) (sv_text sv)) ++ [c].
Proof.
  intros (Ht & Hl & Hin & _) Hpos.
  destruct (lookup_lt_is_Some_2 buf (Z.to_nat (sv_text sv + (sv_length sv - 1))) ltac:(lia))
    as [c Hc].
  exists c. split.
  - unfold buf_load. destruct (Z.ltb_spec (sv_text sv + (sv_length sv - 1)) 0); [lia |].
    by rewrite Hc.
  - unfold sv_chars. cbn [sv_length sv_text].
    replace (Z.to_nat (sv_length sv)) with (S (Z.to_nat (sv_length sv - 1))) by lia.
    apply take_S_r. rewrite lookup_drop. rewrite <- Hc. f_equal. lia.
Qed.

Lemma lstrip_loop_spec (buf : list Z) (fuel : nat) :
  forall sv, sv_valid buf sv -> sv_length sv <= Z.of_nat fuel ->
  exists sv',
    lstrip_loop fuel buf sv = Ret sv' /\ sv_valid buf sv' /\
    sv_chars buf sv' = skip_spaces (sv_chars buf sv) /\
    sv_text sv' + sv_length sv' = sv_text sv + sv_length sv /\
    sv_text sv <= sv_text sv'.
Proof.
  induction fuel as [| fuel IH]; intros sv Hv Hfuel; pose proof Hv as (Ht & Hl & Hin & Hsz).
  - assert (E0 : sv_length sv = 0) by lia. exists sv. cbn [lstrip_loop]. rewrite E0.
    change (0 =? 0) with true. cbv iota. repeat split; try done; try lia.
    unfold sv_chars. rewrite E0. reflexivity.
  - cbn [lstrip_loop]. destruct (Z.eqb_spec (sv_length sv) 0) as [E0 | Hnz].
    + exists sv. repeat split; try done; try lia. unfold sv_chars. rewrite E0. reflexivity.
    + destruct (sv_chars_cons buf sv Hv ltac:(lia)) as (c & Hc & Ecs).
      rewrite Hc. cbn [mbind outcome_bind]. rewrite Ecs. cbn [skip_spaces].
      rewrite (wrap_small (sv_length sv - 1)) by lia.
      destruct (Z.eqb_spec c 32) as [-> | Hne].
      * destruct (IH (mkSV (sv_length sv - 1) (sv_text sv + 1))) as (sv' & E & Hv' & Hch & Hend & Hle).
        { unfold sv_valid. cbn [sv_length sv_text]. lia. }
        { cbn [sv_length]. lia. }
        exists sv'. cbn [sv_length sv_text] in *. repeat split; try done; try lia; apply Hv'.
      * exists sv. rewrite <- Ecs. repeat split; try done; lia.
Qed.

Lemma rstrip_loop_spec (buf : list Z) (fuel : nat) :
  forall sv, sv_valid buf sv -> sv_length sv <= Z.of_nat fuel ->
  exists sv',
    rstrip_loop fuel buf sv = Ret sv' /\ sv_valid buf sv' /\
    sv_chars buf sv' = rev (skip_spaces (rev (sv_chars buf sv))) /\
    sv_text sv' = sv_text sv /\ sv_length sv' <= sv_length sv.
Proof.
  induction fuel as [| fuel IH]; intros sv Hv Hfuel; pose proof Hv as (Ht & Hl & Hin & Hsz).
  - assert (E0 : sv_length sv = 0) by lia. exists sv. cbn [rstrip_loop]. rewrite E0.
    change (0 =? 0) with true. cbv iota. repeat split; try done; try lia.
    unfold sv_chars. rewrite E0. reflexivity.
  - cbn [rstrip_loop]. destruct (Z.eqb_spec (sv_length sv) 0) as [E0 | Hnz].
    + exists sv. repeat split; try done; try lia. unfold sv_chars. rewrite E0. reflexivity.
    + destruct (sv_chars_snoc buf sv Hv ltac:(lia)) as (c & Hc & Ecs).
      rewrite (wrap_small (sv_length sv - 1)) by lia.
      rewrite Hc. cbn [mbind outcome_bind]. rewrite Ecs.
      rewrite rev_app_distr. cbn [rev app skip_spaces].
      destruct (Z.eqb_spec c 32) as [-> | Hne].
      * destruct (IH (mkSV (sv_length sv - 1) (sv_text sv))) as (sv' & E & Hv' & Hch & Htx & Hle).
        { unfold sv_valid. cbn [sv_length sv_text]. lia. }
        { cbn [sv_length]. lia. }
        exists sv'. cbn [sv_length sv_text] in *. repeat split; try done; try lia; apply Hv'.
      * exists sv. cbn [rev]. rewrite rev_involutive, <- Ecs. repeat split; try done; lia.
Qed.

(** X23: [stripped] (and [stripped2], the same on [{len, txt}]) of a view
    that lies within its buffer returns a view inside the given one that
    looks at the given chars without their leading and trailing spaces (only
    chars [' '] are dropped); what it returns has no space at either end,
    and stripping it again returns it unchanged.  No char outside the view is
    read. *)
Theorem stripped_spec (buf : list Z) (sv : StringView) :
  sv_valid buf sv ->
  exists sv',
    stripped buf sv = Ret sv' /\
    stripped2 buf (sv_text sv) (sv_length sv) = Ret sv' /\
    sv_valid buf sv' /\
    sv_text sv <= sv_text sv' /\
    sv_text sv' + sv_length sv' <= sv_text sv + sv_length sv /\
    sv_chars buf sv' = trim_spaces (sv_chars buf sv) /\
    (exists a b, sv_chars buf sv = replicate a 32 ++ sv_chars buf sv' ++ replicate b 32) /\
    head (sv_chars buf sv') <> Some 32 /\ last (sv_chars buf sv') <> Some 32 /\
    stripped buf sv' = Ret sv'.
Proof.
  intros Hv.
  assert (Hrun : forall v, sv_valid buf v ->
            exists v', stripped buf v = Ret v' /\ sv_valid buf v' /\
                       sv_text v <= sv_text v' /\
                       sv_text v' + sv_length v' <= sv_text v + sv_length v /\
                       sv_chars buf v' = trim_spaces (sv_chars buf v)).
  { intros v Hvv. pose proof Hvv as (Ht & Hl & Hin & Hsz).
    destruct (lstrip_loop_spec buf (Z.to_nat (sv_length v)) v Hvv ltac:(lia))
      as (v1 & E1 & Hv1 & Hc1 & Hend1 & Hle1).
    pose proof Hv1 as (Ht1 & Hl1 & Hin1 & _).
    destruct (rstrip_loop_spec buf (Z.to_nat (sv_length v1)) v1 Hv1 ltac:(lia))
      as (v2 & E2 & Hv2 & Hc2 & Htx2 & Hle2).
    exists v2. unfold stripped, lstrip. rewrite E1. cbn [mbind outcome_bind].
    unfold rstrip. rewrite E2. repeat split; try apply Hv2; try lia.
    unfold trim_spaces. by rewrite Hc2, Hc1. }
  destruct (Hrun sv Hv) as (sv' & E & Hv' & Hle & Hend & Hch).
  destruct (trim_spaces_ends (sv_chars buf sv)) as [Hh Hl].
  exists sv'. split; [exact E |]. split; [destruct sv; exact E |].
  split; [exact Hv' |]. split; [exact Hle |]. split; [exact Hend |]. split; [exact Hch |].
  rewrite Hch. split; [apply trim_spaces_split |]. split; [exact Hh |]. split; [exact Hl |].
  destruct (Hrun sv' Hv') as (sv'' & E' & Hv'' & Hle' & Hend' & Hch').
  rewrite E'. f_equal.
  rewrite Hch, trim_spaces_idem, <- Hch in Hch'.
  pose proof (sv_chars_length buf sv' Hv') as L. pose proof (sv_chars_length buf sv'' Hv'') as L'.
  rewrite Hch' in L'. destruct sv' as [n t], sv'' as [n' t']. cbn [sv_length sv_text] in *.
  f_equal; lia.
Qed.

Lemma stripped_spec_witness :
  exists sv',
    stripped [32; 32; 97; 32; 98; 32] (mkSV 6 0) = Ret sv' /\
    sv_chars [32; 32; 97; 32; 98; 32] sv' = [97; 32; 98].
Proof.
  destruct (stripped_spec [32; 32; 97; 32; 98; 32] (mkSV 6 0))
    as (sv' & E & _ & _ & _ & _ & Hch & _).
  - unfold sv_valid, SIZE_MOD. cbn. lia.
  - exists sv'. split; [exact E |]. rewrite Hch. reflexivity.
Defined.

Lemma memcmp_eq_spec (buf : list Z) (n : nat) :
  forall ta tb,
  sv_valid buf (mkSV (Z.of_nat n) ta) -> sv_valid buf (mkSV (Z.of_nat n) tb) ->
  memcmp_eq buf ta tb n
    = Ret (bool_decide (sv_chars buf (mkSV (Z.of_nat n) ta)
                        = sv_chars buf (mkSV (Z.of_nat n) tb))).
Proof.
  induction n as [| n IH]; intros ta tb Ha Hb.
  - cbn [memcmp_eq]. unfold sv_chars. cbn. reflexivity.
  - destruct (sv_chars_cons buf _ Ha ltac:(cbn [sv_length]; lia)) as (x & Hx & Ex).
    destruct (sv_chars_cons buf _ Hb ltac:(cbn [sv_length]; lia)) as (y & Hy & Ey).
    cbn [sv_length sv_text] in *.
    replace (Z.of_nat (S n) - 1) with (Z.of_nat n) in * by lia.
    cbn [memcmp_eq]. rewrite Hx, Hy. cbn [mbind outcome_bind].
    rewrite IH.
    + cbn [mbind outcome_bind]. rewrite Ex, Ey. f_equal.
      destruct (Z.eqb_spec x y) as [-> | Hne]; cbn [andb].
      * apply bool_decide_ext. split; [by intros -> | by intros [= ->]].
      * symmetry. apply bool_decide_eq_false. by intros [= ? _].
    + destruct Ha as (? & ? & ? & ?). unfold sv_valid. cbn [sv_length sv_text] in *. lia.
    + destruct Hb as (? & ? & ? & ?). unfold sv_valid. cbn [sv_length sv_text] in *. lia.
Qed.

Lemma sv_iequals_loop_spec (buf : list Z) (ap bp len : Z) (fuel : nat) :
  forall i,
  0 <= i <= len -> len - i <= Z.of_nat fuel ->
  sv_valid buf (mkSV len ap) -> sv_valid buf (mkSV len bp) ->
  sv_iequals_loop fuel buf ap bp len i
    = Ret (bool_decide ((fun c => Z.lor c 32) <$> sv_chars buf (mkSV (len - i) (ap + i))
                        = (fun c => Z.lor c 32) <$> sv_chars buf (mkSV (len - i) (bp + i)))).
Proof.
  induction fuel as [| fuel IH]; intros i Hi Hfuel Ha Hb;
    pose proof Ha as (Ha1 & Ha2 & Ha3 & Ha4); pose proof Hb as (Hb1 & Hb2 & Hb3 & _);
    cbn [sv_length sv_text] in *; cbn [sv_iequals_loop].
  - destruct (Z.ltb_spec i len) as [? | _]; [lia |].
    replace (len - i) with 0 by lia. unfold sv_chars. cbn. reflexivity.
  - destruct (Z.ltb_spec i len) as [L | G].
    2:{ replace (len - i) with 0 by lia. unfold sv_chars. cbn. reflexivity. }
    assert (Va : sv_valid buf (mkSV (len - i) (ap + i)))
      by (unfold sv_valid; cbn [sv_length sv_text]; lia).
    assert (Vb : sv_valid buf (mkSV (len - i) (bp + i)))
      by (unfold sv_valid; cbn [sv_length sv_text]; lia).
    destruct (sv_chars_cons buf _ Va ltac:(cbn [sv_length]; lia)) as (x & Hx & Ex).
    destruct (sv_chars_cons buf _ Vb ltac:(cbn [sv_length]; lia)) as (y & Hy & Ey).
    cbn [sv_length sv_text] in *. rewrite Hx, Hy. cbn [mbind outcome_bind].
    rewrite Ex, Ey. cbn [fmap list_fmap].
    destruct (Z.eqb_spec (Z.lor x 32) (Z.lor y 32)) as [Eq | Hne]; cbn [negb].
    + rewrite (wrap_small (i + 1)) by lia. rewrite IH by (try done; lia).
      replace (len - (i + 1)) with (len - i - 1) by lia.
      replace (ap + (i + 1)) with (ap + i + 1) by lia.
      replace (bp + (i + 1)) with (bp + i + 1) by lia.
      f_equal. apply bool_decide_ext. rewrite Eq.
      split; [by intros -> | by intros [= ->]].
    + f_equal. symmetry. apply bool_decide_eq_false. by intros [= ? _].
Qed.

(** X24: [sv_equals] and [sv_iequals] on two views that lie within a
    buffer of bytes both return; [sv_equals] returns 1 exactly when the two views look
    at the same chars, [sv_iequals] exactly when they look at the same chars
    once bit [0x20] is set in each (so for every char, letter or not, the
    bit is ignored); chars that are [sv_equals] are [sv_iequals]. *)
Theorem sv_equals_iequals (buf : list Z) (a b : StringView) :
  is_bytes buf -> sv_valid buf a -> sv_valid buf b ->
  exists e ie : bool,
    sv_equals buf a b = Ret e /\ sv_iequals buf a b = Ret ie /\
    (e = true <-> sv_chars buf a = sv_chars buf b) /\
    (ie = true <->
       (fun c => Z.lor c 32) <$> sv_chars buf a = (fun c => Z.lor c 32) <$> sv_chars buf b) /\
    (e = true -> ie = true).
Proof.
  intros _ Ha Hb. pose proof (sv_chars_length buf a Ha) as La.
  pose proof (sv_chars_length buf b Hb) as Lb.
  pose proof Ha as (Ha1 & Ha2 & Ha3 & Ha4). pose proof Hb as (Hb1 & Hb2 & Hb3 & _).
  unfold sv_equals, sv_iequals.
  destruct (Z.eqb_spec (sv_length a) (sv_length b)) as [El | Hne]; cbn [negb].
  - assert (Hb' : sv_valid buf (mkSV (sv_length a) (sv_text b))) by (rewrite El; by destruct b).
    assert (Ha' : sv_valid buf (mkSV (sv_length a) (sv_text a))) by (by destruct a).
    pose proof (memcmp_eq_spec buf (Z.to_nat (sv_length a)) (sv_text a) (sv_text b)) as E1.
    rewrite Z2Nat.id in E1 by lia. rewrite (E1 Ha' Hb').
    rewrite (sv_iequals_loop_spec buf (sv_text a) (sv_text b) (sv_length a)
               (Z.to_nat (sv_length a)) 0 ltac:(lia) ltac:(lia) Ha' Hb').
    rewrite Z.sub_0_r, !Z.add_0_r.
    replace (mkSV (sv_length a) (sv_text a)) with a by (by destruct a).
    replace (mkSV (sv_length a) (sv_text b)) with b by (rewrite El; by destruct b).
    eexists _, _. split; [reflexivity |]. split; [reflexivity |].
    split; [apply bool_decide_eq_true |]. split; [apply bool_decide_eq_true |].
    intros He. apply bool_decide_eq_true in He. apply bool_decide_eq_true. by rewrite He.
  - exists false, false. split; [reflexivity |]. split; [reflexivity |].
    split; [| split; [| discriminate]].
    + split; [discriminate |]. intros E. rewrite E in La. lia.
    + split; [discriminate |]. intros E. apply (f_equal length) in E.
      rewrite !length_fmap in E. lia.
Qed.

Lemma sv_equals_iequals_witness :
  exists e ie : bool,
    sv_equals [72; 105; 104; 73] (mkSV 2 0) (mkSV 2 2) = Ret e /\
    sv_iequals [72; 105; 104; 73] (mkSV 2 0) (mkSV 2 2) = Ret ie /\
    (ie = true <->
       (fun c => Z.lor c 32) <$> sv_chars [72; 105; 104; 73] (mkSV 2 0)
       = (fun c => Z.lor c 32) <$> sv_chars [72; 105; 104; 73] (mkSV 2 2)).
Proof.
  destruct (sv_equals_iequals [72; 105; 104; 73] (mkSV 2 0) (mkSV 2 2))
    as (e & ie & E1 & E2 & _ & Hie & _).
  - unfold is_bytes. repeat (apply List.Forall_cons; [lia |]). apply List.Forall_nil.
  - unfold sv_valid, SIZE_MOD. cbn. lia.
  - unfold sv_valid, SIZE_MOD. cbn. lia.
  - exists e, ie. split; [exact E1 |]. split; [exact E2 | exact Hie].
Defined.

Lemma skip_seps_spaces (l : list Z) : skip_seps (skip_spaces l) = skip_seps l.
Proof.
  induction l as [| c l IH]; [reflexivity |].
  cbn [skip_spaces skip_seps]. destruct (Z.eqb_spec c 32) as [-> | Hne].
  - cbn [orb]. exact IH.
  - cbn [skip_seps orb]. destruct (Z.eqb_spec c 32); [done | reflexivity].
Qed.

Lemma skip_seps_split (l : list Z) :
  exists pre, l = pre ++ skip_seps l /\ Forall (fun c => c = 32 \/ c = 44) pre.
Proof.
  induction l as [| c l (pre & E & Hp)]; [by exists [] |].
  cbn [skip_seps].
  destruct (Z.eqb_spec c 32) as [-> | H1]; [| destruct (Z.eqb_spec c 44) as [-> | H2]]; cbn [orb].
  - exists (32 :: pre). split; [cbn [app]; by rewrite <- E | apply List.Forall_cons; [by left | exact Hp]].
  - exists (44 :: pre). split; [cbn [app]; by rewrite <- E | apply List.Forall_cons; [by right | exact Hp]].
  - by exists [].
Qed.

Lemma skip_seps_head (l : list Z) :
  head (skip_seps l) <> Some 32 /\ head (skip_seps l) <> Some 44.
Proof.
  induction l as [| c l IH]; [by split |].
  cbn [skip_seps].
  destruct (Z.eqb_spec c 32) as [-> | H1]; [| destruct (Z.eqb_spec c 44) as [-> | H2]]; cbn [orb];
    try exact IH.
  cbn [head]. split; intros [= ->]; done.
Qed.

Lemma lstripc_loop_spec (buf : list Z) (fuel : nat) :
  forall sv, sv_valid buf sv -> sv_length sv <= Z.of_nat fuel ->
  exists sv',
    lstripc_loop fuel buf sv = Ret sv' /\ sv_valid buf sv' /\
    sv_chars buf sv' = skip_seps (sv_chars buf sv) /\
    sv_text sv' + sv_length sv' = sv_text sv + sv_length sv /\
    sv_text sv <= sv_text sv'.
Proof.
  induction fuel as [| fuel IH]; intros sv Hv Hfuel; pose proof Hv as (Ht & Hl & Hin & Hsz).
  - assert (E0 : sv_length sv = 0) by lia. exists sv. cbn [lstripc_loop]. rewrite E0.
    change (0 =? 0) with true. cbv iota. repeat split; try done; try lia.
    unfold sv_chars. rewrite E0. reflexivity.
  - cbn [lstripc_loop]. destruct (Z.eqb_spec (sv_length sv) 0) as [E0 | Hnz].
    + exists sv. repeat split; try done; try lia. unfold sv_chars. rewrite E0. reflexivity.
    + destruct (sv_chars_cons buf sv Hv ltac:(lia)) as (c & Hc & Ecs).
      rewrite Hc. cbn [mbind outcome_bind]. rewrite Ecs. cbn [skip_seps].
      rewrite (wrap_small (sv_length sv - 1)) by lia.
      destruct ((c =? 32) || (c =? 44)).
      * destruct (IH (mkSV (sv_length sv - 1) (sv_text sv + 1))) as (sv' & E & Hv' & Hch & Hend & Hle).
        { unfold sv_valid. cbn [sv_length sv_text]. lia. }
        { cbn [sv_length]. lia. }
        exists sv'. cbn [sv_length sv_text] in *. repeat split; try done; try lia; apply Hv'.
      * exists sv. rewrite <- Ecs. repeat split; try done; lia.
Qed.

(** X25: [lstripc] of a view that lies within its buffer returns the view
    without its leading spaces and commas: the end of the view stays, only
    chars [' '] and [','] are dropped, the result starts with neither, and
    it is what [lstripc] makes of the result of [lstrip] (so it starts at or
    after the view [lstrip] returns) and of its own result. *)
Theorem lstripc_spec (buf : list Z) (sv : StringView) :
  sv_valid buf sv ->
  exists sv',
    lstripc buf sv = Ret sv' /\
    sv_valid buf sv' /\
    sv_text sv <= sv_text sv' /\
    sv_text sv' + sv_length sv' = sv_text sv + sv_length sv /\
    sv_chars buf sv' = skip_seps (sv_chars buf sv) /\
    (exists pre, sv_chars buf sv = pre ++ sv_chars buf sv' /\
                 Forall (fun c => c = 32 \/ c = 44) pre) /\
    head (sv_chars buf sv') <> Some 32 /\ head (sv_chars buf sv') <> Some 44 /\
    lstripc buf sv' = Ret sv' /\
    (exists sv1, lstrip buf sv = Ret sv1 /\ sv_text sv1 <= sv_text sv' /\
                 lstripc buf sv1 = Ret sv').
Proof.
  intros Hv.
  assert (Hrun : forall v, sv_valid buf v ->
            exists v', lstripc buf v = Ret v' /\ sv_valid buf v' /\
                       sv_chars buf v' = skip_seps (sv_chars buf v) /\
                       sv_text v' + sv_length v' = sv_text v + sv_length v /\
                       sv_text v <= sv_text v').
  { intros v Hvv. pose proof Hvv as (Ht & Hl & Hin & Hsz).
    exact (lstripc_loop_spec buf (Z.to_nat (sv_length v)) v Hvv ltac:(lia)). }
  assert (Hsame : forall u v, sv_valid buf u -> sv_valid buf v ->
            sv_chars buf u = sv_chars buf v ->
            sv_text u + sv_length u = sv_text v + sv_length v -> u = v).
  { intros u v Hu Hvv Hch Hend.
    pose proof (sv_chars_length buf u Hu) as Lu. pose proof (sv_chars_length buf v Hvv) as Lv.
    rewrite Hch in Lu. destruct u as [n t], v as [n' t']. cbn [sv_length sv_text] in *.
    f_equal; lia. }
  destruct (Hrun sv Hv) as (sv' & E & Hv' & Hch & Hend & Hle).
  destruct (skip_seps_head (sv_chars buf sv)) as [Hh1 Hh2].
  exists sv'. split; [exact E |]. split; [exact Hv' |]. split; [exact Hle |].
  split; [exact Hend |]. split; [exact Hch |].
  rewrite Hch. split; [apply skip_seps_split |]. split; [exact Hh1 |]. split; [exact Hh2 |].
  split.
  - destruct (Hrun sv' Hv') as (sv'' & E' & Hv'' & Hch' & Hend' & Hle').
    rewrite E'. f_equal. apply Hsame; [exact Hv'' | exact Hv' | | exact Hend'].
    rewrite Hch', Hch. clear. induction (sv_chars buf sv) as [| c l IH]; [reflexivity |].
    cbn [skip_seps]. destruct ((c =? 32) || (c =? 44)) eqn:Ec; [exact IH |].
    cbn [skip_seps]. by rewrite Ec.
  - pose proof Hv as (Ht & Hl & Hin & Hsz).
    destruct (lstrip_loop_spec buf (Z.to_nat (sv_length sv)) sv Hv ltac:(lia))
      as (sv1 & E1 & Hv1 & Hc1 & Hend1 & Hle1).
    destruct (Hrun sv1 Hv1) as (sv2 & E2 & Hv2 & Hch2 & Hend2 & Hle2).
    assert (sv2 = sv') as ->.
    { apply Hsame; [exact Hv2 | exact Hv' | | lia].
      by rewrite Hch2, Hc1, skip_seps_spaces, Hch. }
    exists sv1. split; [exact E1 |]. split; [| exact E2].
    pose proof (sv_chars_length buf sv1 Hv1) as L1.
    pose proof (sv_chars_length buf sv' Hv') as L'.
    lia.
Qed.

Lemma lstripc_spec_witness :
  exists sv',
    lstripc [32; 44; 32; 97; 44; 98] (mkSV 6 0) = Ret sv' /\
    sv_chars [32; 44; 32; 97; 44; 98] sv' = [97; 44; 98].
Proof.
  destruct (lstripc_spec [32; 44; 32; 97; 44; 98] (mkSV 6 0))
    as (sv' & E & _ & _ & _ & Hch & _).
  - unfold sv_valid, SIZE_MOD. cbn. lia.
  - exists sv'. split; [exact E |]. rewrite Hch. reflexivity.
Defined.
